(** * pep: a shallow embedding of pep.h and the properties of its codec

    The development follows the layout of the header: constants and
    structures, the arithmetic coder, the frequency model (PEP_UPDATE), the
    pixel transforms, [pep_compress], [pep_decompress], [pep_serialize] and
    [pep_deserialize].

    Conventions.
    - Every C unsigned integer is a [Z] kept in range by an explicit wrap
      ([u8], [u16], [u32], [u64]).
    - Fixed-size C arrays are lists read with [get] and written with [set]
      (stdpp's list lookup and insert underneath).
    - A pointer that may be NULL is an [option].
    - A 32-bit colour is viewed through [uint8_t*] on a little-endian
      machine: byte [i] of colour [c] is [(c >> 8i) & 0xff]. *)

From Stdlib Require Import ZArith List Lia Bool.
From stdpp Require Import base option list strings gmap.
From coqutil Require Import Z.bitblast.
Import ListNotations.
Local Open Scope Z_scope.

(** ** Machine integers *)

(** Conversion to [uint8_t], [uint16_t], [uint32_t] and [uint64_t]: the
    low bits of the mathematical value ([u32_mod] and its siblings give
    the same thing as a remainder). *)
Definition u8 (x : Z) : Z := Z.land x 0xff.
Definition u16 (x : Z) : Z := Z.land x 0xffff.
Definition u32 (x : Z) : Z := Z.land x 0xffffffff.
Definition u64 (x : Z) : Z := Z.land x 0xffffffffffffffff.

(** Array read [a[i]] and array write [a[i] = v] for an unsigned index.
    An index past the end is undefined behaviour in the source; here the
    read gives 0 and the write changes nothing. *)
Definition get (a : list Z) (i : Z) : Z := default 0 (a !! Z.to_nat i).
Definition set (a : list Z) (i : Z) (v : Z) : list Z := <[Z.to_nat i := v]> a.

(** ** Enumerations and structures *)

Inductive pep_format := pep_rgba | pep_bgra | pep_abgr | pep_argb.

Definition format_val (f : pep_format) : Z :=
  match f with pep_rgba => 0 | pep_bgra => 1 | pep_abgr => 2 | pep_argb => 3 end.

Inductive pep_channel_bits := pep_1bit | pep_2bit | pep_4bit | pep_8bit.

Definition channel_bits_val (c : pep_channel_bits) : Z :=
  match c with pep_1bit => 0 | pep_2bit => 1 | pep_4bit => 2 | pep_8bit => 3 end.

Record pep := mk_pep {
  bytes : option (list Z);      (* uint8_t*, NULL is None *)
  bytes_size : Z;               (* uint64_t *)
  width : Z;                    (* uint16_t *)
  height : Z;                   (* uint16_t *)
  format : pep_format;
  palette : list Z;             (* uint32_t[256] *)
  palette_size : Z;             (* uint8_t *)
  channel_bits : pep_channel_bits
}.

(** [pep out_pep = { 0 }] *)
Definition pep_zero : pep :=
  mk_pep None 0 0 0 pep_rgba (replicate 256 0) 0 pep_1bit.

Definition PEP_FREQ_N : Z := 257.
Definition PEP_FREQ_END : Z := PEP_FREQ_N - 1.
Definition PEP_CONTEXTS_MAX : Z := PEP_FREQ_END.

Definition PEP_CODE_BITS : Z := 24.
Definition PEP_CODE_BITS_INV : Z := 32 - PEP_CODE_BITS.
Definition PEP_FREQ_MAX_BITS : Z := 14.
Definition PEP_PROB_MAX_VALUE : Z := Z.shiftl 1 PEP_FREQ_MAX_BITS.
Definition PEP_CODE_MAX_VALUE : Z := Z.shiftl 1 PEP_CODE_BITS - 1.

Record _pep_context := mk_context {
  freq : list Z;                (* uint16_t[PEP_FREQ_N] *)
  sum : Z                       (* uint32_t *)
}.

Definition PEP_FREQ_MAX : Z := Z.shiftr PEP_FREQ_END 1.

(** The encoder's cursor [data_ref] only ever appends: [enc_out] holds the
    bytes written so far, most recent first.  [enc_scales] is a ghost field:
    it logs the [scale] of every probability handed to [_pep_arith_encode],
    most recent first, and no operation reads it. *)
Record _pep_ac_encode := mk_enc {
  enc_out : list Z;
  enc_low : Z;                  (* uint32_t *)
  enc_range : Z;                (* uint32_t *)
  enc_scales : list Z
}.

(** The decoder's [data_ref .. end_of_data] window is the list of bytes not
    read yet. *)
Record _pep_ac_decode := mk_dec {
  dec_in : list Z;
  dec_low : Z;                  (* uint32_t *)
  dec_range : Z;                (* uint32_t *)
  dec_code : Z                  (* uint32_t *)
}.

Record _pep_prob := mk_prob {
  prob_high : Z;
  prob_low : Z;
  prob_scale : Z
}.

Record _pep_sym_decode := mk_sym {
  sym_prob : _pep_prob;
  sym_symbol : Z
}.

(** ** The frequency model *)

(** The rescale loop of PEP_UPDATE: walks the slots in order, skips the
    zero ones, halves the others rounding up and adds them to the sum. *)
Fixpoint rescale_loop (fs : list Z) (acc : Z) : list Z * Z :=
  match fs with
  | [] => ([], acc)
  | _f :: rest =>
      if _f =? 0 then
        let '(rest', acc') := rescale_loop rest acc in (_f :: rest', acc')
      else
        let scaled := u16 (Z.shiftr (_f + 1) 1) in
        let '(rest', acc') := rescale_loop rest (u32 (acc + scaled)) in
        (scaled :: rest', acc')
  end.

(** PEP_UPDATE( CONTEXT, SYMBOL, FREQ_MAX, PALETTE_SIZE ): the macro
    assigns to the context and to FREQ_MAX, so both are returned. *)
Definition PEP_UPDATE (CONTEXT : _pep_context) (SYMBOL FREQ_MAX PALETTE_SIZE : Z)
  : _pep_context * Z :=
  let freq1 := set (freq CONTEXT) SYMBOL (u16 (get (freq CONTEXT) SYMBOL + 2)) in
  let sum1 := u32 (sum CONTEXT + 2) in
  if (get freq1 SYMBOL >=? FREQ_MAX) || (sum1 >=? PEP_PROB_MAX_VALUE) then
    let FREQ_MAX' := u16 (FREQ_MAX + Z.shiftr (PEP_FREQ_END - PALETTE_SIZE) 1) in
    let '(freq2, sum2) := rescale_loop freq1 0 in
    (mk_context freq2 sum2, FREQ_MAX')
  else (mk_context freq1 sum1, FREQ_MAX).

(** [for( i = 0; i < symbol; ++i ) prob.low += ctx->freq[ i ]] *)
Fixpoint cum_freq (fs : list Z) (n : nat) (acc : Z) : Z :=
  match n, fs with
  | S n', f :: rest => cum_freq rest n' (u32 (acc + f))
  | _, _ => acc
  end.

Definition _pep_get_prob_from_ctx (ctx : _pep_context) (symbol : Z) : _pep_prob :=
  let lo := cum_freq (freq ctx) (Z.to_nat symbol) 0 in
  mk_prob (u32 (lo + get (freq ctx) symbol)) lo (sum ctx).

(** The search loop of [_pep_get_sym_from_freq]: returns the stopped slot
    [s] and the running total.  When no slot exceeds the target the loop
    leaves [s = PEP_FREQ_END + 1]. *)
Fixpoint sym_search (fs : list Z) (s : Z) (acc target : Z) : Z * Z :=
  match fs with
  | [] => (s, acc)
  | f :: rest =>
      let acc' := u32 (acc + f) in
      if acc' >? target then (s, acc') else sym_search rest (s + 1) acc' target
  end.

Definition _pep_get_sym_from_freq (ctx : _pep_context) (target_freq : Z)
  : _pep_sym_decode :=
  let '(s, f) := sym_search (freq ctx) 0 0 target_freq in
  mk_sym (mk_prob f (u32 (f - get (freq ctx) s)) (sum ctx)) s.

(** ** The arithmetic coder *)

Definition _pep_arith_encode (ac : _pep_ac_encode) (prob : _pep_prob) : _pep_ac_encode :=
  let range1 := enc_range ac / prob_scale prob in
  let low1 := u32 (enc_low ac + u32 (prob_low prob * range1)) in
  let range2 := u32 (range1 * u32 (prob_high prob - prob_low prob)) in
  mk_enc (enc_out ac) low1 range2 (prob_scale prob :: enc_scales ac).

(** [while( 1 )] of [_pep_arith_encode_normalize].  The loop has no bound
    in the source; [fuel] counts the iterations still allowed and [None]
    means they ran out. *)
Fixpoint _pep_arith_encode_normalize (fuel : nat) (ac : _pep_ac_encode)
  : option _pep_ac_encode :=
  match fuel with
  | O => None
  | S fuel' =>
      let shift_out (range : Z) :=
        let byte := u8 (Z.shiftr (enc_low ac) PEP_CODE_BITS) in
        _pep_arith_encode_normalize fuel'
          (mk_enc (byte :: enc_out ac)
                  (u32 (Z.shiftl (enc_low ac) PEP_CODE_BITS_INV))
                  (u32 (Z.shiftl range PEP_CODE_BITS_INV))
                  (enc_scales ac)) in
      if Z.lxor (enc_low ac) (u32 (enc_low ac + enc_range ac)) >=? PEP_CODE_MAX_VALUE then
        if enc_range ac >=? PEP_PROB_MAX_VALUE then Some ac
        else shift_out (PEP_PROB_MAX_VALUE - Z.land (enc_low ac) (PEP_PROB_MAX_VALUE - 1))
      else shift_out (enc_range ac)
  end.

(** [in_byte = 0; if( data_ref != end_of_data ) in_byte = *data_ref++] *)
Definition next_byte (input : list Z) : Z * list Z :=
  match input with
  | [] => (0, [])
  | b :: rest => (b, rest)
  end.

(** [range /= scale; result = ( code - low ) / range].  A zero divisor
    is undefined behaviour in the source; [Z]'s division gives 0. *)
Definition _pep_arith_decode_curr_freq (ac : _pep_ac_decode) (scale : Z)
  : _pep_ac_decode * Z :=
  let range1 := dec_range ac / scale in
  (mk_dec (dec_in ac) (dec_low ac) range1 (dec_code ac),
   u32 (dec_code ac - dec_low ac) / range1).

(** The [while( 1 )] of [_pep_arith_decode_update], with the same fuel
    convention as the encoder's loop. *)
Fixpoint decode_normalize (fuel : nat) (ac : _pep_ac_decode) : option _pep_ac_decode :=
  match fuel with
  | O => None
  | S fuel' =>
      let shift_in (range : Z) :=
        let '(in_byte, rest) := next_byte (dec_in ac) in
        decode_normalize fuel'
          (mk_dec rest
                  (u32 (Z.shiftl (dec_low ac) 8))
                  (u32 (Z.shiftl range 8))
                  (Z.lor (u32 (Z.shiftl (dec_code ac) 8)) in_byte)) in
      if Z.lxor (dec_low ac) (u32 (dec_low ac + dec_range ac)) >=? PEP_CODE_MAX_VALUE then
        if dec_range ac <? PEP_PROB_MAX_VALUE then
          shift_in (PEP_PROB_MAX_VALUE - Z.land (dec_low ac) (PEP_PROB_MAX_VALUE - 1))
        else Some ac
      else shift_in (dec_range ac)
  end.

Definition _pep_arith_decode_update (fuel : nat) (ac : _pep_ac_decode) (prob : _pep_prob)
  : option _pep_ac_decode :=
  let low1 := u32 (dec_low ac + u32 (dec_range ac * prob_low prob)) in
  let range1 := u32 (dec_range ac * u32 (prob_high prob - prob_low prob)) in
  decode_normalize fuel (mk_dec (dec_in ac) low1 range1 (dec_code ac)).

(** Iterations granted to each renormalization loop by the drivers below.
    [encode_normalize_total] and [decode_normalize_total] show that eight
    are enough whenever the range is not zero, and
    [encode_normalize_zero_range] that no number is enough when it is. *)
Definition normalize_fuel : nat := 8.

(** ** Pixel transforms *)

(** [( ( uint8_t* )( &c ) )[ i ]] and the colour with bytes [b0 .. b3]. *)
Definition color_byte (c : Z) (i : Z) : Z := Z.land (Z.shiftr c (8 * i)) 0xff.

Definition color_of_bytes (b0 b1 b2 b3 : Z) : Z :=
  Z.lor (Z.lor b0 (Z.shiftl b1 8)) (Z.lor (Z.shiftl b2 16) (Z.shiftl b3 24)).

Definition _pep_pre_multiply (pixel : Z) (format : pep_format) : Z :=
  let b0 := color_byte pixel 0 in
  let b1 := color_byte pixel 1 in
  let b2 := color_byte pixel 2 in
  let b3 := color_byte pixel 3 in
  let mul (b scaled_a : Z) := u8 (Z.shiftr (u32 (b * scaled_a + 32896)) 16) in
  if format_val format <=? format_val pep_bgra then
    let scaled_a := b3 * 257 in
    color_of_bytes b0 (mul b1 scaled_a) (mul b2 scaled_a) (mul b3 scaled_a)
  else
    let scaled_a := b0 * 257 in
    color_of_bytes (mul b0 scaled_a) (mul b1 scaled_a) (mul b2 scaled_a) b3.

Definition _pep_reformat (in_color : Z) (in_format out_format : pep_format) : Z :=
  let i := format_val in_format in
  let o := format_val out_format in
  if i =? o then in_color
  else if (i <=? format_val pep_bgra) && (o <=? format_val pep_bgra) then
    Z.lor (Z.lor (Z.land in_color 0xff00ff00)
                 (u32 (Z.shiftl (Z.land in_color 0x000000ff) 16)))
          (Z.shiftr (Z.land in_color 0x00ff0000) 16)
  else if (i >=? format_val pep_abgr) && (o >=? format_val pep_abgr) then
    Z.lor (Z.lor (Z.land in_color 0x00ff00ff)
                 (u32 (Z.shiftl (Z.land in_color 0x0000ff00) 16)))
          (Z.shiftr (Z.land in_color 0xff000000) 16)
  else if Z.lxor i o =? 2 then
    Z.lor (Z.lor (u32 (Z.shiftl (Z.land in_color 0x000000ff) 24))
                 (u32 (Z.shiftl (Z.land in_color 0x0000ff00) 8)))
          (Z.lor (Z.shiftr (Z.land in_color 0x00ff0000) 8)
                 (Z.shiftr (Z.land in_color 0xff000000) 24))
  else if i <? o then
    Z.lor (Z.shiftr (Z.land in_color 0xff000000) 24)
          (u32 (Z.shiftl (Z.land in_color 0x00ffffff) 8))
  else
    Z.lor (u32 (Z.shiftl (Z.land in_color 0x000000ff) 24))
          (Z.shiftr (Z.land in_color 0xffffff00) 8).

(** ** Index packing parameters *)

(** [__builtin_clz( x )] for a non-zero 32-bit [x]. *)
Definition PEP_COUNT_LEADING_ZEROS (x : Z) : Z := 31 - Z.log2 x.

Definition PEP_BITS_TO_FIT (N : Z) : Z :=
  if N <=? 1 then 1 else 32 - PEP_COUNT_LEADING_ZEROS (N - 1).

Definition bits_per_index_of (palette_size : Z) : Z :=
  let bits_per_index := u8 (PEP_BITS_TO_FIT palette_size) in
  if bits_per_index >? 8 then 8 else bits_per_index.

Definition indices_per_byte_of (palette_size : Z) : Z :=
  u8 (8 / bits_per_index_of palette_size).

Definition index_mask_of (palette_size : Z) : Z :=
  u8 (Z.shiftl 1 (bits_per_index_of palette_size) - 1).

Definition is_nil {A} (l : list A) : bool :=
  match l with [] => true | _ => false end.

(** ** Model contexts *)

Definition context_zero : _pep_context := mk_context (replicate 257 0) 0.

Definition ctx_get (cs : list _pep_context) (i : Z) : _pep_context :=
  default context_zero (cs !! Z.to_nat i).

Definition ctx_set (cs : list _pep_context) (i : Z) (c : _pep_context)
  : list _pep_context := <[Z.to_nat i := c]> cs.

(** [memset( contexts, 0, ... )] followed by the initialisation of
    [order0 = &contexts[ PEP_CONTEXTS_MAX ]]. *)
Definition contexts_init : list _pep_context :=
  replicate 256 context_zero ++ [mk_context (replicate 257 1) PEP_FREQ_N].

(** ** pep_compress *)

(** [while( n < out_pep.palette_size && this_p != out_pep.palette[ n ] ) n++].
    The recursion walks the array together with [n]: the head of [pal] is
    [palette[ n ]]. *)
Fixpoint palette_scan (pal : list Z) (size this_p n : Z) : Z :=
  match pal with
  | [] => n
  | c :: rest =>
      if (n <? size) && negb (this_p =? c)
      then palette_scan rest size this_p (n + 1)
      else n
  end.

(** The palette construction loop.  [first] is [p == in_pixels]. *)
Fixpoint build_palette (px : list Z) (first : bool) (last_p : Z)
    (pal : list Z) (size : Z) : list Z * Z :=
  match px with
  | [] => (pal, size)
  | this_p :: rest =>
      if negb first && (this_p =? last_p) then
        build_palette rest false last_p pal size
      else
        let n := palette_scan pal size this_p 0 in
        if (n >=? size) && (u16 size + 1 <? 256) then
          build_palette rest false this_p (set pal size this_p) (u8 (size + 1))
        else
          build_palette rest false this_p pal size
  end.

(** The index search of the encode loop:
    [while( index < palette_size && *p != palette[ index ] )
       { if( ++index >= 256 ) { index = 0; break; } }].
    As in [palette_scan] the head of [pal] is [palette[ index ]]; the
    array has 256 entries, so the break at 256 comes before its end. *)
Fixpoint index_search (pal : list Z) (size p index : Z) : Z :=
  match pal with
  | [] => index
  | c :: rest =>
      if (index <? size) && negb (p =? c) then
        let index' := u16 (index + 1) in
        if index' >=? 256 then 0 else index_search rest size p index'
      else index
  end.

(** The locals of the encode loop that change from one iteration to the
    next. *)
Record encoder := mk_encoder {
  e_contexts : list _pep_context;
  e_ac : _pep_ac_encode;
  e_context_id : Z;             (* uint64_t *)
  e_indices_in_byte : Z;        (* uint8_t *)
  e_symbol : Z;                 (* uint8_t *)
  e_freq_max : Z                (* uint16_t *)
}.

Definition encoder_init : encoder :=
  mk_encoder contexts_init (mk_enc [] 0 (u32 (2 ^ 32 - 1)) []) 0 0 0 PEP_FREQ_MAX.

(** The body of [if( indices_in_byte >= indices_per_byte || ... )]: one
    packed symbol goes through the model and the coder. *)
Definition encode_symbol (palette_size : Z) (st : encoder) : option encoder :=
  let symbol := e_symbol st in
  let id := e_context_id st mod PEP_CONTEXTS_MAX in
  let context_ref := ctx_get (e_contexts st) id in
  let context_sum := sum context_ref in
  let finish (cs : list _pep_context) (ac : _pep_ac_encode) (freq_max : Z) :=
    ac' ← _pep_arith_encode_normalize normalize_fuel ac;
    Some (mk_encoder cs ac' (u64 (Z.lor (Z.shiftl (e_context_id st) 8) symbol))
            0 0 freq_max) in
  if negb (context_sum =? 0) && negb (get (freq context_ref) symbol =? 0) then
    let prob := _pep_get_prob_from_ctx context_ref symbol in
    let ac1 := _pep_arith_encode (e_ac st) prob in
    let '(context', freq_max') :=
      PEP_UPDATE context_ref symbol (e_freq_max st) palette_size in
    finish (ctx_set (e_contexts st) id context') ac1 freq_max'
  else
    escaped ←
      (if negb (context_sum =? 0) then
         let prob := _pep_get_prob_from_ctx context_ref PEP_FREQ_END in
         ac1 ← _pep_arith_encode_normalize normalize_fuel
                 (_pep_arith_encode (e_ac st) prob);
         Some (ac1,
               mk_context
                 (set (freq context_ref) PEP_FREQ_END
                    (u16 (get (freq context_ref) PEP_FREQ_END + 1)))
                 (u32 (sum context_ref + 1)))
       else Some (e_ac st, context_ref));
    let '(ac1, context1) := escaped in
    let order0 := ctx_get (e_contexts st) PEP_CONTEXTS_MAX in
    let prob := _pep_get_prob_from_ctx order0 symbol in
    let ac2 := _pep_arith_encode ac1 prob in
    let context2 :=
      if context_sum =? 0
      then mk_context (set (freq context1) PEP_FREQ_END 1) 1
      else context1 in
    let context3 :=
      mk_context (set (freq context2) symbol 1) (u32 (sum context2 + 1)) in
    let '(order0', freq_max') :=
      PEP_UPDATE order0 symbol (e_freq_max st) palette_size in
    finish (ctx_set (ctx_set (e_contexts st) id context3) PEP_CONTEXTS_MAX order0')
           ac2 freq_max'.

(** One iteration of [while( p < p_end || indices_in_byte > 0 )].  [px]
    is what remains of the pixel buffer from [p] on. *)
Definition encode_iter (pal : list Z) (palette_size : Z)
    (bits_per_index indices_per_byte : Z) (px : list Z) (st : encoder)
  : option (list Z * encoder) :=
  let '(px', st1) :=
    match px with
    | p :: rest =>
        let index := index_search pal palette_size p 0 in
        let symbol :=
          u8 (Z.lor (e_symbol st)
                (Z.shiftl index (e_indices_in_byte st * bits_per_index))) in
        (rest, mk_encoder (e_contexts st) (e_ac st) (e_context_id st)
                 (u8 (e_indices_in_byte st + 1)) symbol (e_freq_max st))
    | [] => ([], st)
    end in
  if (e_indices_in_byte st1 >=? indices_per_byte)
     || (is_nil px' && (e_indices_in_byte st1 >? 0))
  then st2 ← encode_symbol palette_size st1; Some (px', st2)
  else Some (px', st1).

(** The encode loop, cut after [n] iterations: the state reached when the
    loop condition fails, or after [n] iterations if it still holds. *)
Fixpoint encode_loop (n : nat) (pal : list Z) (palette_size : Z)
    (bits_per_index indices_per_byte : Z) (px : list Z) (st : encoder)
  : option encoder :=
  match n with
  | O => Some st
  | S n' =>
      if is_nil px && negb (e_indices_in_byte st >? 0) then Some st
      else
        '(px', st') ←
          encode_iter pal palette_size bits_per_index indices_per_byte px st;
        encode_loop n' pal palette_size bits_per_index indices_per_byte px' st'
  end.

(** The four bytes written after the loop. *)
Fixpoint encode_flush (i : nat) (ac : _pep_ac_encode) : _pep_ac_encode :=
  match i with
  | O => ac
  | S i' =>
      let byte := u8 (Z.shiftr (enc_low ac) PEP_CODE_BITS) in
      encode_flush i'
        (mk_enc (byte :: enc_out ac)
                (u32 (Z.shiftl (enc_low ac) PEP_CODE_BITS_INV))
                (enc_range ac) (enc_scales ac))
  end.

(** The pixels [in_pixels[0 .. pixels_area)] that the function reads. *)
Definition pixels_read (in_pixels : list Z) (width height : Z) : list Z :=
  take (Z.to_nat (u32 (width * height))) in_pixels.

Definition compress_palette (in_pixels : list Z) (width height : Z) : list Z * Z :=
  build_palette (pixels_read in_pixels width height) true 0 (replicate 256 0) 0.

(** The encoder after [n] iterations of the encode loop of
    [pep_compress( in_pixels, width, height, .. )]. *)
Definition compress_state (in_pixels : list Z) (width height : Z) (n : nat)
  : option encoder :=
  let '(pal, size) := compress_palette in_pixels width height in
  encode_loop n pal size (bits_per_index_of size) (indices_per_byte_of size)
    (pixels_read in_pixels width height) encoder_init.

(** [pep_compress].  [None] stands for a call that does not return (a
    renormalization loop that never ends); every other call returns
    [Some] image.  Each pixel is consumed by one iteration and the partial
    group by one more, so [pixels_area + 1] iterations finish the loop.
    The output buffer ([pixels_area * 8] bytes in the source) is taken to
    hold whatever is written. *)
Definition pep_compress (in_pixels : option (list Z)) (width height : Z)
    (in_format : pep_format) (in_channel_bits : pep_channel_bits) : option pep :=
  let pixels_area := u32 (width * height) in
  match in_pixels with
  | None => Some pep_zero
  | Some pixels =>
      if pixels_area =? 0 then Some pep_zero
      else
        let '(pal, size) := compress_palette pixels width height in
        st ← compress_state pixels width height (S (Z.to_nat pixels_area));
        let ac := encode_flush 4 (e_ac st) in
        let out := rev (enc_out ac) in
        Some (mk_pep (Some out) (Z.of_nat (length out)) width height in_format
                pal size in_channel_bits)
  end.

(** ** pep_decompress *)

(** The buffer returned by [PEP_MALLOC] is not initialised: a cell is
    [None] until the function writes it. *)
Definition pixel_buffer := list (option Z).

(** The locals of the decode loop that change from one iteration to the
    next.  [decode_result] is always assigned before it is read, so it is
    not part of the state. *)
Record decoder := mk_decoder {
  d_contexts : list _pep_context;
  d_ac : _pep_ac_decode;
  d_context_id : Z;             (* uint32_t *)
  d_freq_max : Z;               (* uint16_t *)
  d_out_pixels : pixel_buffer;
  d_canvas_pos : Z              (* uint64_t *)
}.

(** [out_pixels[ canvas_pos ] = pixel; ++canvas_pos] for one palette
    entry. *)
Definition put_pixel (palette : list Z) (in_format out_format : pep_format)
    (pre_multiply : Z) (palette_idx : Z) (out : pixel_buffer) (canvas_pos : Z)
  : pixel_buffer * Z :=
  let pixel := _pep_reformat (get palette palette_idx) in_format out_format in
  let pixel := if pre_multiply =? 0 then pixel else _pep_pre_multiply pixel out_format in
  (<[Z.to_nat canvas_pos := Some pixel]> out, u64 (canvas_pos + 1)).

(** [while( indices_in_byte < indices_per_byte && canvas_pos < area )]:
    [n] bounds the iterations by [indices_per_byte]. *)
Fixpoint unpack_indices (n : nat) (palette : list Z) (in_format out_format : pep_format)
    (pre_multiply symbol bits_per_index indices_per_byte index_mask area : Z)
    (indices_in_byte : Z) (out : pixel_buffer) (canvas_pos : Z) : pixel_buffer * Z :=
  match n with
  | O => (out, canvas_pos)
  | S n' =>
      if (indices_in_byte <? indices_per_byte) && (canvas_pos <? area) then
        let palette_idx :=
          u8 (Z.land (Z.shiftr symbol (indices_in_byte * bits_per_index)) index_mask) in
        let '(out', canvas_pos') :=
          put_pixel palette in_format out_format pre_multiply palette_idx out canvas_pos in
        unpack_indices n' palette in_format out_format pre_multiply symbol
          bits_per_index indices_per_byte index_mask area
          (u8 (indices_in_byte + 1)) out' canvas_pos'
      else (out, canvas_pos)
  end.

(** One iteration of [for( b = 0; b < packed_indices_size; b++ )]. *)
Definition decode_symbol (palette : list Z) (palette_size : Z)
    (in_format out_format : pep_format) (pre_multiply : Z)
    (bits_per_index indices_per_byte index_mask area : Z) (st : decoder)
  : option decoder :=
  let id := d_context_id st mod PEP_CONTEXTS_MAX in
  let context_ref := ctx_get (d_contexts st) id in
  let context_sum := sum context_ref in
  (* if( context_sum != 0 ) *)
  first ←
    (if negb (context_sum =? 0) then
       let '(ac1, decode_freq) := _pep_arith_decode_curr_freq (d_ac st) context_sum in
       let decode_result := _pep_get_sym_from_freq context_ref decode_freq in
       ac2 ← _pep_arith_decode_update normalize_fuel ac1 (sym_prob decode_result);
       if negb (sym_symbol decode_result =? PEP_FREQ_END) then
         let '(context', freq_max') :=
           PEP_UPDATE context_ref (sym_symbol decode_result) (d_freq_max st) palette_size in
         Some (ac2, context', freq_max', Some (sym_symbol decode_result))
       else
         Some (ac2,
               mk_context
                 (set (freq context_ref) PEP_FREQ_END
                    (u16 (get (freq context_ref) PEP_FREQ_END + 1)))
                 (u32 (sum context_ref + 1)),
               d_freq_max st, None)
     else Some (d_ac st, context_ref, d_freq_max st, None));
  let '(ac2, context1, freq_max1, symbol_found) := first in
  (* if( !symbol_found ) *)
  second ←
    match symbol_found with
    | Some symbol =>
        Some (ac2, ctx_set (d_contexts st) id context1, freq_max1, symbol)
    | None =>
        let order0 := ctx_get (d_contexts st) PEP_CONTEXTS_MAX in
        let '(ac3, decode_freq) := _pep_arith_decode_curr_freq ac2 (sum order0) in
        let decode_result := _pep_get_sym_from_freq order0 decode_freq in
        ac4 ← _pep_arith_decode_update normalize_fuel ac3 (sym_prob decode_result);
        let symbol := sym_symbol decode_result in
        let context2 :=
          if context_sum =? 0
          then mk_context (set (freq context1) PEP_FREQ_END 1) 1
          else context1 in
        let context3 :=
          mk_context (set (freq context2) symbol 1) (u32 (sum context2 + 1)) in
        let '(order0', freq_max') := PEP_UPDATE order0 symbol freq_max1 palette_size in
        Some (ac4,
              ctx_set (ctx_set (d_contexts st) id context3) PEP_CONTEXTS_MAX order0',
              freq_max', symbol)
    end;
  let '(ac', contexts', freq_max', symbol) := second in
  (* convert packed-palette-indices to pixels *)
  let '(out', canvas_pos') :=
    if indices_per_byte >? 1 then
      unpack_indices (Z.to_nat indices_per_byte) palette in_format out_format
        pre_multiply symbol bits_per_index indices_per_byte index_mask area
        0 (d_out_pixels st) (d_canvas_pos st)
    else if d_canvas_pos st <? area then
      put_pixel palette in_format out_format pre_multiply symbol
        (d_out_pixels st) (d_canvas_pos st)
    else (d_out_pixels st, d_canvas_pos st) in
  Some (mk_decoder contexts' ac' (u32 (Z.lor (Z.shiftl (d_context_id st) 8) symbol))
          freq_max' out' canvas_pos').

Fixpoint decode_loop (b : nat) (step : decoder -> option decoder) (st : decoder)
  : option decoder :=
  match b with
  | O => Some st
  | S b' => st' ← step st; decode_loop b' step st'
  end.

(** The four bytes that prime [ac.code]. *)
Fixpoint decode_prime (i : nat) (ac : _pep_ac_decode) : _pep_ac_decode :=
  match i with
  | O => ac
  | S i' =>
      let '(in_byte, rest) := next_byte (dec_in ac) in
      decode_prime i'
        (mk_dec rest (dec_low ac) (dec_range ac)
           (Z.lor (u32 (Z.shiftl (dec_code ac) 8)) in_byte))
  end.

(** [pep_decompress].  [static_palette] is what the function's
    [static uint32_t palette[ 256 ]] holds on entry (zeros at the first
    call, the previous image's colours afterwards).  The outer [None] is a
    call that does not return, [Some None] is the NULL result. *)
Definition pep_decompress (static_palette : list Z) (in_pep : option pep)
    (out_format : pep_format) (transparent_first_color pre_multiply : Z)
  : option (option pixel_buffer) :=
  match in_pep with
  | None => Some None
  | Some in_pep =>
      match bytes in_pep with
      | None => Some None
      | Some data =>
          if (bytes_size in_pep =? 0) || (width in_pep =? 0) || (height in_pep =? 0)
          then Some None
          else
            let area := u32 (width in_pep * height in_pep) in
            let out_pixels : pixel_buffer := replicate (Z.to_nat area) None in
            let bits_per_index := bits_per_index_of (palette_size in_pep) in
            let indices_per_byte := indices_per_byte_of (palette_size in_pep) in
            let index_mask := index_mask_of (palette_size in_pep) in
            let palette0 :=
              take (Z.to_nat (palette_size in_pep)) (palette in_pep)
              ++ drop (Z.to_nat (palette_size in_pep)) static_palette in
            let packed_indices_size := area / indices_per_byte in
            let palette1 :=
              if transparent_first_color =? 0 then palette0
              else if format_val (format in_pep) <=? format_val pep_bgra
                   then set palette0 0 (Z.land (get palette0 0) 0xffffff00)
                   else set palette0 0 (Z.land (get palette0 0) 0x00ffffff) in
            let ac :=
              decode_prime 4
                (mk_dec (take (Z.to_nat (bytes_size in_pep)) data)
                   0 (u32 (2 ^ 32 - 1)) 0) in
            st ← decode_loop (Z.to_nat packed_indices_size)
                   (decode_symbol palette1 (palette_size in_pep) (format in_pep)
                      out_format pre_multiply bits_per_index indices_per_byte
                      index_mask area)
                   (mk_decoder contexts_init ac 0 PEP_FREQ_MAX out_pixels 0);
            Some (Some (d_out_pixels st))
      end
  end.

(** ** pep_serialize *)

(** The variable-length size:
    [while( size >= 0x80 ) { *out++ = ( size | 0x80 ) & 0xff; size >>= 7; }
     *out++ = size].  A [uint32_t] is below [0x80] after four shifts, so the
    five iterations granted here are never used up. *)
Fixpoint write_size (fuel : nat) (size : Z) : list Z :=
  match fuel with
  | O => [u8 size]
  | S fuel' =>
      if size >=? 0x80
      then Z.land (Z.lor size 0x80) 0xff :: write_size fuel' (Z.shiftr size 7)
      else [u8 size]
  end.

Definition is_white (c : Z) : bool :=
  (color_byte c 0 =? 255) && (color_byte c 1 =? 255)
  && (color_byte c 2 =? 255) && (color_byte c 3 =? 255).

(** Bytes [b0 b1 b2 b3] of a colour, compared one by one. *)
Definition has_bytes (c b0 b1 b2 b3 : Z) : bool :=
  (color_byte c 0 =? b0) && (color_byte c 1 =? b1)
  && (color_byte c 2 =? b2) && (color_byte c 3 =? b3).

(** [palette_count = in_pep->palette_size ? in_pep->palette_size : 256] *)
Definition palette_count_of (palette_size : Z) : Z :=
  if palette_size =? 0 then 256 else palette_size.

Definition serialize_is_bitmap (in_pep : pep) : bool :=
  if palette_count_of (palette_size in_pep) =? 2 then
    let color0 := get (palette in_pep) 0 in
    let color1 := get (palette in_pep) 1 in
    if format_val (format in_pep) <=? format_val pep_bgra then
      (is_white color0 && has_bytes color1 0 0 0 255)
      || (has_bytes color0 0 0 0 255 && is_white color1)
    else
      (is_white color0 && has_bytes color1 255 0 0 0)
      || (has_bytes color0 255 0 0 0 && is_white color1)
  else false.

(** [only_rgb]: 1 unless some palette entry below [palette_count] has a
    byte 3 other than [0xff]; the loop is skipped for a bitmap. *)
Definition serialize_only_rgb (in_pep : pep) (is_bitmap : bool) : bool :=
  if is_bitmap then true
  else forallb (fun c => color_byte c 3 =? 0xff)
         (take (Z.to_nat (palette_count_of (palette_size in_pep))) (palette in_pep)).

Definition bool_val (b : bool) : Z := if b then 1 else 0.

Definition serialize_flags (in_pep : pep) (is_small only_rgb is_bitmap : bool) : Z :=
  u8 (Z.lor (Z.lor (Z.lor (Z.lor
        (Z.land (format_val (format in_pep)) 0x3)
        (Z.shiftl (Z.land (channel_bits_val (channel_bits in_pep)) 0x3) 2))
        (Z.shiftl (Z.land (bool_val is_small) 0x1) 4))
        (Z.shiftl (Z.land (bool_val only_rgb) 0x1) 5))
        (Z.shiftl (Z.land (bool_val is_bitmap) 0x1) 6)).

Definition serialize_dims (w h : Z) (is_small : bool) : list Z :=
  if is_small then [Z.land w 0xff; Z.land h 0xff]
  else
    let packed_dims := Z.lor (Z.shiftl (Z.land w 0xfff) 12) (Z.land h 0xfff) in
    [Z.land (Z.shiftr packed_dims 16) 0xff;
     Z.land (Z.shiftr packed_dims 8) 0xff;
     Z.land packed_dims 0xff].

(** The palette at 8 bits per channel. *)
Fixpoint write_palette8 (colors : list Z) (only_rgb : bool) : list Z :=
  match colors with
  | [] => []
  | color :: rest =>
      [color_byte color 0; color_byte color 1; color_byte color 2]
      ++ (if only_rgb then [] else [color_byte color 3])
      ++ write_palette8 rest only_rgb
  end.

(** [while( bit_count >= 8 ) { bit_count -= 8;
      *out++ = ( bit_buffer >> bit_count ) & 0xff; }]:
    [bit_count] is a [uint8_t], so 32 iterations are never used up. *)
Fixpoint drain_bits (fuel : nat) (bit_buffer bit_count : Z) : list Z * Z :=
  match fuel with
  | O => ([], bit_count)
  | S fuel' =>
      if bit_count >=? 8 then
        let bit_count' := u8 (bit_count - 8) in
        let '(out, final) := drain_bits fuel' bit_buffer bit_count' in
        (Z.land (Z.shiftr bit_buffer bit_count') 0xff :: out, final)
      else ([], bit_count)
  end.

(** The palette below 8 bits per channel: channels are pushed into
    [bit_buffer] most significant first and whole bytes are drained. *)
Fixpoint write_palette_bits (colors : list Z) (channel_bits shift mask : Z)
    (only_rgb : bool) (bit_buffer bit_count : Z) : list Z :=
  match colors with
  | [] =>
      if bit_count >? 0
      then [Z.land (u32 (Z.shiftl bit_buffer (8 - bit_count))) 0xff]
      else []
  | color :: rest =>
      let push (buffer i : Z) :=
        u32 (Z.lor (Z.shiftl buffer channel_bits)
               (Z.land (Z.shiftr (color_byte color i) shift) mask)) in
      let buffer3 := push (push (push bit_buffer 0) 1) 2 in
      let count3 := u8 (bit_count + channel_bits * 3) in
      let '(buffer4, count4) :=
        if only_rgb then (buffer3, count3)
        else (push buffer3 3, u8 (count3 + channel_bits)) in
      let '(out, count5) := drain_bits 32 buffer4 count4 in
      out ++ write_palette_bits rest channel_bits shift mask only_rgb buffer4 count5
  end.

Definition serialize_palette (in_pep : pep) (only_rgb : bool) : list Z :=
  let colors :=
    take (Z.to_nat (palette_count_of (palette_size in_pep))) (palette in_pep) in
  let channel_bits := u16 (Z.shiftl 1 (channel_bits_val (channel_bits in_pep))) in
  let shift := u8 (8 - channel_bits) in
  let mask := u8 (Z.shiftl 1 channel_bits - 1) in
  if channel_bits =? 8 then write_palette8 colors only_rgb
  else write_palette_bits colors channel_bits shift mask only_rgb 0 0.

(** Everything [pep_serialize] writes before the closing ['\0']: flags,
    dimensions, size, palette size and palette (unless bitmap), and the
    compressed bytes. *)
Definition serialize_fields (in_pep : pep) (data : list Z) : list Z :=
  let w := u16 (width in_pep - 1) in
  let h := u16 (height in_pep - 1) in
  let is_small := (w <=? 255) && (h <=? 255) in
  let is_bitmap := serialize_is_bitmap in_pep in
  let only_rgb := serialize_only_rgb in_pep is_bitmap in
  [serialize_flags in_pep is_small only_rgb is_bitmap]
  ++ serialize_dims w h is_small
  ++ write_size 5 (u32 (bytes_size in_pep))
  ++ (if is_bitmap then []
      else u8 (palette_size in_pep) :: serialize_palette in_pep only_rgb)
  ++ take (Z.to_nat (bytes_size in_pep)) data.

(** [pep_serialize] returns the buffer ([None] for NULL) and stores
    [*out_size].  The buffer holds the bytes the function writes; the
    allocation ([total_size]) is a few bytes longer and the rest of it is
    left as [PEP_MALLOC] returned it. *)
Definition pep_serialize (in_pep : option pep) : option (list Z) * Z :=
  match in_pep with
  | None => (None, 0)
  | Some in_pep =>
      match bytes in_pep with
      | None => (None, 0)
      | Some data =>
          if (width in_pep =? 0) || (height in_pep =? 0) || (bytes_size in_pep =? 0)
          then (None, 0)
          else
            let fields := serialize_fields in_pep data in
            (* *out_bytes_ref = '\0'; *out_size = out_bytes_ref - out_bytes *)
            (Some (fields ++ [0]), u32 (Z.of_nat (length fields)))
      end
  end.

(** ** pep_deserialize *)

(** [*bytes_ref++].  The function is given no length: reading past the
    end of the supplied buffer is outside the model ([None]). *)
Definition read_byte (input : list Z) : option (Z * list Z) :=
  match input with
  | [] => None
  | b :: rest => Some (b, rest)
  end.

Definition format_of_val (v : Z) : pep_format :=
  if v =? 0 then pep_rgba else if v =? 1 then pep_bgra
  else if v =? 2 then pep_abgr else pep_argb.

Definition channel_bits_of_val (v : Z) : pep_channel_bits :=
  if v =? 0 then pep_1bit else if v =? 1 then pep_2bit
  else if v =? 2 then pep_4bit else pep_8bit.

(** [do { byte_val = *bytes_ref++;
         bytes_size |= ( byte_val & 0x7f ) << shift; shift += 7; }
     while( byte_val & 0x80 )].  Bits shifted beyond bit 31 are lost. *)
Fixpoint read_size (input : list Z) (bytes_size shift : Z) : option (Z * list Z) :=
  match input with
  | [] => None
  | byte_val :: rest =>
      let bytes_size' :=
        Z.lor bytes_size (u32 (Z.shiftl (Z.land byte_val 0x7f) shift)) in
      let shift' := u8 (shift + 7) in
      if negb (Z.land byte_val 0x80 =? 0)
      then read_size rest bytes_size' shift'
      else Some (bytes_size', rest)
  end.

Fixpoint read_palette8 (n : nat) (only_rgb : bool) (input : list Z)
  : option (list Z * list Z) :=
  match n with
  | O => Some ([], input)
  | S n' =>
      '(c0, input) ← read_byte input;
      '(c1, input) ← read_byte input;
      '(c2, input) ← read_byte input;
      '(c3, input) ← (if only_rgb then Some (0xff, input) else read_byte input);
      '(colors, input) ← read_palette8 n' only_rgb input;
      Some (color_of_bytes c0 c1 c2 c3 :: colors, input)
  end.

(** The bit reader's state: [bit_buffer], [bit_count] and the input. *)
Definition read_channel (channel_bits mask : Z) (st : Z * Z * list Z)
  : option (Z * (Z * Z * list Z)) :=
  let '(bit_buffer, bit_count, input) := st in
  (* while( bit_count < channel_bits ): channel_bits is at most 4 here, so
     one byte always ends the loop *)
  '(bit_buffer, bit_count, input) ←
    (if bit_count <? channel_bits then
       '(b, input) ← read_byte input;
       Some (u32 (Z.lor (Z.shiftl bit_buffer 8) b), u8 (bit_count + 8), input)
     else Some (bit_buffer, bit_count, input));
  let bit_count := u8 (bit_count - channel_bits) in
  let value := u8 (Z.land (Z.shiftr bit_buffer bit_count) mask) in
  let scaled := u8 (Z.shiftl value (8 - channel_bits)) in
  let scaled :=
    if channel_bits <? 8 then
      let scaled := Z.lor scaled (Z.shiftr scaled channel_bits) in
      if channel_bits <? 4
      then Z.lor scaled (Z.shiftr scaled (2 * channel_bits))
      else scaled
    else scaled in
  Some (u8 scaled, (bit_buffer, bit_count, input)).

Fixpoint read_palette_bits (n : nat) (channel_bits mask : Z) (only_rgb : bool)
    (st : Z * Z * list Z) : option (list Z * list Z) :=
  match n with
  | O => Some ([], snd st)
  | S n' =>
      '(v0, st) ← read_channel channel_bits mask st;
      '(v1, st) ← read_channel channel_bits mask st;
      '(v2, st) ← read_channel channel_bits mask st;
      '(v3, st) ← (if only_rgb then Some (0xff, st)
                   else read_channel channel_bits mask st);
      '(colors, input) ← read_palette_bits n' channel_bits mask only_rgb st;
      Some (color_of_bytes v0 v1 v2 v3 :: colors, input)
  end.

(** The width and height fields: two bytes, or three bytes holding two
    12-bit numbers. *)
Definition read_dims (is_small : Z) (input : list Z) : option (Z * Z * list Z) :=
  if negb (is_small =? 0) then
    '(w, input) ← read_byte input;
    '(h, input) ← read_byte input;
    Some (w, h, input)
  else
    '(b0, input) ← read_byte input;
    '(b1, input) ← read_byte input;
    '(b2, input) ← read_byte input;
    let packed_dims := Z.lor (Z.lor (Z.shiftl b0 16) (Z.shiftl b1 8)) b2 in
    Some (Z.land (Z.shiftr packed_dims 12) 0xfff, Z.land packed_dims 0xfff, input).

(** [if( is_bitmap ) ... else ...]: the palette size and the colours
    written to [out_pep.palette], then the rest of the input. *)
Definition read_palette (format : pep_format) (channel_bits : pep_channel_bits)
    (only_rgb : bool) (is_bitmap : Z) (input : list Z)
  : option (Z * list Z * list Z) :=
  if negb (is_bitmap =? 0) then
    let black :=
      if format_val format <=? format_val pep_bgra
      then 0xff000000 else 0x000000ff in
    Some (2, [black; 0xffffffff], input)
  else
    '(palette_size, input) ← read_byte input;
    let palette_count := palette_count_of palette_size in
    let cb := u8 (Z.shiftl 1 (channel_bits_val channel_bits)) in
    let mask := u8 (Z.shiftl 1 cb - 1) in
    '(colors, input) ←
      (if cb =? 8
       then read_palette8 (Z.to_nat palette_count) only_rgb input
       else read_palette_bits (Z.to_nat palette_count) cb mask only_rgb
              (0, 0, input));
    Some (palette_size, colors, input).

(** [pep_deserialize]: [Some] image when every read stays inside
    [in_bytes]. *)
Definition pep_deserialize (in_bytes : option (list Z)) : option pep :=
  match in_bytes with
  | None => Some pep_zero
  | Some input =>
      '(packed_flags, input) ← read_byte input;
      let format := format_of_val (Z.land packed_flags 0x3) in
      let channel_bits := channel_bits_of_val (Z.land (Z.shiftr packed_flags 2) 0x3) in
      let is_small := Z.land (Z.shiftr packed_flags 4) 0x1 in
      let only_rgb := negb (Z.land (Z.shiftr packed_flags 5) 0x1 =? 0) in
      let is_bitmap := Z.land (Z.shiftr packed_flags 6) 0x1 in
      '(w, h, input) ← read_dims is_small input;
      '(bytes_size, input) ← read_size input 0 0;
      '(palette_size, colors, input) ←
        read_palette format channel_bits only_rgb is_bitmap input;
      (* memcpy( out_pep.bytes, bytes_ref, bytes_size ) *)
      if Z.of_nat (length input) <? bytes_size then None
      else
        Some (mk_pep (Some (take (Z.to_nat bytes_size) input)) bytes_size
                (u16 (w + 1)) (u16 (h + 1)) format
                (colors ++ replicate (256 - length colors)%nat 0)
                palette_size channel_bits)
  end.

(** ** pep_free *)

(** [pep_free( in_pep )] returns nothing; the model gives the image that
    [in_pep] points to after the call, and the buffer handed to [free]
    ([None] when [free] is not called). *)
Definition pep_free (in_pep : option pep) : option pep * option (list Z) :=
  match in_pep with
  | None => (None, None)
  | Some p =>
      match bytes p with
      | None => (Some p, None)
      | Some data =>
          (Some (mk_pep None 0 (width p) (height p) (format p) (palette p)
                   (palette_size p) (channel_bits p)),
           Some data)
      end
  end.

(** ** pep_save and pep_load *)

(** The files: the bytes stored under each path. *)
Definition files := gmap string (list Z).

(** The source does not fix what the C library does: [fopen] may fail,
    and [fwrite] and [fread] may transfer fewer bytes than they are asked
    for.  An [io] value gives these outcomes for one call: whether [fopen]
    succeeds, and how many bytes can be transferred at most. *)
Record io := mk_io {
  fopen_ok : bool;
  io_limit : nat
}.

(** [pep_save( in_pep, file_path )]: the result and the files after the
    call.  [fopen( .., "wb" )] empties the file, [fwrite] then stores the
    bytes it manages to write. *)
Definition pep_save (in_pep : option pep) (file_path : option string)
    (env : io) (fs : files) : Z * files :=
  match in_pep, file_path with
  | Some p, Some path =>
      let '(bytes, bytes_size) := pep_serialize (Some p) in
      match bytes with
      | None => (0, fs)
      | Some buf =>
          if bytes_size =? 0 then (0, fs)
          else if negb (fopen_ok env) then (0, fs)
          else
            let written := Nat.min (Z.to_nat bytes_size) (io_limit env) in
            (bool_val (Z.of_nat written =? bytes_size),
             <[path := take written buf]> fs)
      end
  | _, _ => (0, fs)
  end.

(** [pep_load( file_path )].  [fopen( .., "rb" )] fails when there is no
    file; [ftell] gives the length of the file; the buffer given to
    [pep_deserialize] holds the bytes of the file and nothing more. *)
Definition pep_load (file_path : option string) (env : io) (fs : files)
  : option pep :=
  match file_path with
  | None => Some pep_zero
  | Some path =>
      match fs !! path with
      | None => Some pep_zero
      | Some content =>
          if negb (fopen_ok env) then Some pep_zero
          else
            let file_size := Z.of_nat (length content) in
            if file_size <=? 0 then Some pep_zero
            else
              let read := Nat.min (Z.to_nat file_size) (io_limit env) in
              if negb (Z.of_nat read =? file_size) then Some pep_zero
              else pep_deserialize (Some content)
      end
  end.

(** ** The allocation of pep_serialize *)

(** [while( temp_size >= 0x80 ) { size_bytes++; temp_size >>= 7; }
     ++size_bytes]: [temp_size] is a [uint32_t], below [0x80] after four
    shifts. *)
Fixpoint count_size_bytes (fuel : nat) (temp_size size_bytes : Z) : Z :=
  match fuel with
  | O => u8 (size_bytes + 1)
  | S fuel' =>
      if temp_size >=? 0x80
      then count_size_bytes fuel' (Z.shiftr temp_size 7) (u8 (size_bytes + 1))
      else u8 (size_bytes + 1)
  end.

(** [total_size], the number of bytes [pep_serialize] asks [PEP_MALLOC]
    for before it writes anything. *)
Definition serialize_total_size (in_pep : pep) : Z :=
  let palette_count := u16 (palette_count_of (palette_size in_pep)) in
  let w := u16 (width in_pep - 1) in
  let h := u16 (height in_pep - 1) in
  let is_small := (w <=? 255) && (h <=? 255) in
  let dim_bytes := if is_small then 2 else 3 in
  let size_bytes := count_size_bytes 5 (u32 (bytes_size in_pep)) 0 in
  let is_bitmap := serialize_is_bitmap in_pep in
  let only_rgb := serialize_only_rgb in_pep is_bitmap in
  let palette_bytes :=
    if is_bitmap then 0
    else
      let channel_bits := u16 (Z.shiftl 1 (channel_bits_val (channel_bits in_pep))) in
      if channel_bits =? 8
      then u16 (palette_count * (if only_rgb then 3 else 4))
      else
        let channels := if only_rgb then 3 else 4 in
        u16 (Z.shiftr (channel_bits * channels * palette_count + 7) 3) in
  u64 (dim_bytes + size_bytes + (if is_bitmap then 0 else 1) + palette_bytes
       + bytes_size in_pep + 4).


(** * Definitions used to state and prove the properties *)

(** ** The renormalization loops *)

(** The register update shared by both renormalization loops: [None] when
    the loop breaks, the shifted [low] and [range] when it goes round. *)
Definition renorm_next (low range : Z) : option (Z * Z) :=
  if Z.lxor low (u32 (low + range)) >=? PEP_CODE_MAX_VALUE then
    if range >=? PEP_PROB_MAX_VALUE then None
    else Some (u32 (Z.shiftl low 8),
               u32 (Z.shiftl (PEP_PROB_MAX_VALUE - Z.land low (PEP_PROB_MAX_VALUE - 1)) 8))
  else Some (u32 (Z.shiftl low 8), u32 (Z.shiftl range 8)).

(** The loop breaks within [n] iterations. *)
Fixpoint breaks_within (n : nat) (low range : Z) : Prop :=
  match n with
  | O => False
  | S n' =>
      match renorm_next low range with
      | None => True
      | Some (low', range') => breaks_within n' low' range'
      end
  end.

(** 32-bit registers with a range that is not zero. *)
Definition regs_ok (low range : Z) : Prop :=
  0 <= low < 2 ^ 32 /\ 0 < range < 2 ^ 32.

(** [loop_exit r]: [r] is the value of the range register when a
    renormalization loop terminates, in [_pep_arith_encode_normalize] or
    in [_pep_arith_decode_update]. *)
Inductive loop_exit : Z -> Prop :=
  | exit_encode fuel ac ac' :
      _pep_arith_encode_normalize fuel ac = Some ac' -> loop_exit (enc_range ac')
  | exit_decode fuel ac prob ac' :
      _pep_arith_decode_update fuel ac prob = Some ac' -> loop_exit (dec_range ac').

(** ** Channel orders *)

(** The bit of the input colour that [_pep_reformat c a b] puts at bit
    [i] of its result. *)
Definition reformat_bit_source (a b : pep_format) (i : Z) : Z :=
  match a, b with
  | pep_rgba, pep_bgra | pep_bgra, pep_rgba =>
      if i <? 8 then i + 16 else if i <? 16 then i else if i <? 24 then i - 16 else i
  | pep_abgr, pep_argb | pep_argb, pep_abgr =>
      if i <? 8 then i else if i <? 16 then i + 16 else if i <? 24 then i else i - 16
  | pep_rgba, pep_abgr | pep_abgr, pep_rgba | pep_bgra, pep_argb | pep_argb, pep_bgra =>
      if i <? 8 then i + 24 else if i <? 16 then i + 8
      else if i <? 24 then i - 8 else i - 24
  | pep_rgba, pep_argb | pep_bgra, pep_abgr =>
      if i <? 8 then i + 24 else i - 8
  | pep_argb, pep_rgba | pep_abgr, pep_bgra =>
      if i <? 24 then i + 8 else i - 24
  | _, _ => i
  end.

(** ** Valid images *)

(** An image as [pep_compress] returns it for dimensions between 1 and
    4096 ([compress_valid]): [data] is the compressed buffer, [bytes_size]
    its length, below 2^31, and the palette array holds 256 32-bit
    entries. *)
Definition valid_image (p : pep) (data : list Z) : Prop :=
  1 <= width p <= 4096 /\ 1 <= height p <= 4096
  /\ bytes p = Some data /\ Z.of_nat (length data) = bytes_size p
  /\ 0 < bytes_size p < 2 ^ 31
  /\ 0 <= palette_size p < 256
  /\ length (palette p) = 256%nat
  /\ Forall (fun c => 0 <= c < 2 ^ 32) (palette p).

(** ** Invalid input *)

(** C8 as the specification states it, for one call of [pep_compress]:
    a NULL buffer, a zero dimension or a dimension above 4096 gives the
    empty image. *)
Definition oversize_claim (in_pixels : option (list Z)) (w h : Z) : Prop :=
  in_pixels = None \/ w = 0 \/ h = 0 \/ 4096 < w \/ 4096 < h ->
  forall f cb, exists p,
    pep_compress in_pixels w h f cb = Some p /\ bytes p = None /\ bytes_size p = 0.

(** The inputs that [pep_compress] and [pep_decompress] reject. *)
Definition compress_rejects (in_pixels : option (list Z)) (w h : Z) : Prop :=
  in_pixels = None \/ w = 0 \/ h = 0.

Definition decompress_rejects (in_pep : option pep) : Prop :=
  match in_pep with
  | None => True
  | Some p => bytes p = None \/ bytes_size p = 0 \/ width p = 0 \/ height p = 0
  end.

(** ** The container *)

(** C9 as the specification states it, for one image: [out_size] counts
    the closing NUL and the byte at [out_size - 1] is that NUL. *)
Definition sentinel_claim (p : pep) : Prop :=
  forall buf out_size,
    pep_serialize (Some p) = (Some buf, out_size) ->
    out_size = Z.of_nat (length buf) /\ get buf (out_size - 1) = 0.

(** The image [pep_compress] builds from the two pixels [0; 1]. *)
Definition two_pixel_image : pep :=
  mk_pep (Some [1; 254; 1; 254]) 4 2 1 pep_rgba
    (0 :: 1 :: replicate 254 0) 2 pep_8bit.


(** ** Concrete images *)

(** The packed symbols that went through the coder in the first [n]
    iterations of the encode loop, as the totals handed to
    [_pep_arith_encode], oldest first. *)
Definition totals_coded (in_pixels : list Z) (width height : Z) (n : nat)
  : option (list Z) :=
  st ← compress_state in_pixels width height n;
  Some (rev (enc_scales (e_ac st))).

(** C7 as the specification states it: the 1 by 1 image. *)
Definition one_pixel_claim : Prop :=
  exists p,
    pep_compress (Some [0x11223344]) 1 1 pep_rgba pep_8bit = Some p
    /\ palette_size p = 1 /\ take 1 (palette p) = [0x11223344]
    /\ bits_per_index_of (palette_size p) = 1
    /\ indices_per_byte_of (palette_size p) = 8
    /\ totals_coded [0x11223344] 1 1 2 = Some []
    /\ bytes_size p = 4
    /\ pep_decompress (replicate 256 0) (Some p) pep_rgba 0 0
       = Some (Some [Some 0x11223344]).

(** A 3 by 3 image of two colours. *)
Definition nine_pixels : list Z :=
  [0xff0000ff; 0xff00ff00; 0xff0000ff; 0xff00ff00; 0xff0000ff;
   0xff00ff00; 0xff0000ff; 0xff00ff00; 0xff0000ff].

(** What [pep_compress] makes of it. *)
Definition nine_pixel_image : pep :=
  mk_pep (Some [169; 86; 169; 86; 0]) 5 3 3 pep_rgba
    (0xff0000ff :: 0xff00ff00 :: replicate 254 0) 2 pep_8bit.

(** A 128 by 129 image of 131 colours, numbered by first appearance.
    After pixel 0 the colours 1 .. 128 alternate with colour 0 for 8190
    pairs, so that the context selected by symbol 0 sees 8191 symbols
    without a rescale; then the new colours 129 and 130 escape from that
    context, and colour 1 is coded in it. *)
Definition escape_image : list Z :=
  [0]
  ++ flat_map (fun x => [x; 0]) (take (Z.to_nat 8190) (concat (replicate 64 (seqZ 1 128))))
  ++ [129; 0; 130; 0; 1]
  ++ replicate 126 0.

(** The round trip of C1 for one image: compressing at 8 bits per channel
    and decompressing to the same format gives the pixels back. *)
Definition round_trip (pixels : list Z) (w h : Z) (f : pep_format) : Prop :=
  (p ← pep_compress (Some pixels) w h f pep_8bit;
   pep_decompress (replicate 256 0) (Some p) f 0 0)
  = Some (Some (map Some pixels)).

(** [n] opaque pixels of at most [colors] colours in an irregular order. *)
Definition speckle (colors n : Z) : list Z :=
  map (fun i => 0xff000000 + (i * i * 7 + i / 3) mod colors) (seqZ 0 n).

(** ** Cells of the output buffer *)

(** Every cell of [out] that has been written lies below [pos]. *)
Definition written_below (out : pixel_buffer) (pos : Z) : Prop :=
  forall k v, out !! k = Some (Some v) -> Z.of_nat k < pos.


(** ** The palette *)

(** The palette as the specification words it: the pixels are scanned in
    order and a colour that is not in the palette yet is appended while
    the palette holds fewer than [cap] entries. *)
Fixpoint first_colors (cap : nat) (seen px : list Z) : list Z :=
  match px with
  | [] => seen
  | c :: rest =>
      if bool_decide (c ∈ seen) then first_colors cap seen rest
      else if (length seen <? cap)%nat then first_colors cap (seen ++ [c]) rest
      else first_colors cap seen rest
  end.

(** C6 as the specification states it, for one image: the palette is
    filled up to 256 entries, a pixel whose colour is among them is coded
    by the id of that colour, and any other pixel by id 0. *)
Definition palette_claim (in_pixels : list Z) (w h : Z) : Prop :=
  let pal := fst (compress_palette in_pixels w h) in
  let size := snd (compress_palette in_pixels w h) in
  let colors := first_colors 256 [] (pixels_read in_pixels w h) in
  take (length colors) pal = colors
  /\ forall p, p ∈ pixels_read in_pixels w h ->
       let id := index_search pal size p 0 in
       if bool_decide (p ∈ colors) then get pal id = p else id = 0.

(** The array [palette[256]] holds the colours [seen] in its first
    [size] entries. *)
Definition palette_holds (pal : list Z) (size : Z) (seen : list Z) : Prop :=
  size = Z.of_nat (length seen)
  /\ (length seen <= 255)%nat
  /\ pal = seen ++ replicate (256 - length seen) 0.


(** ** The container round trip *)

(** The observable fields of two images agree. *)
Definition same_image (p q : pep) : Prop :=
  width q = width p /\ height q = height p
  /\ format q = format p /\ channel_bits q = channel_bits p
  /\ palette_size q = palette_size p
  /\ take (Z.to_nat (palette_count_of (palette_size p))) (palette q)
     = take (Z.to_nat (palette_count_of (palette_size p))) (palette p)
  /\ bytes_size q = bytes_size p
  /\ bytes q = bytes p.

(** C2 as the specification states it, for one image: serializing and
    deserializing gives the image back. *)
Definition container_claim (p : pep) : Prop :=
  exists buf out_size q,
    pep_serialize (Some p) = (Some buf, out_size)
    /\ pep_deserialize (Some buf) = Some q
    /\ same_image p q.

(** The two-colour palette is white then black. *)
Definition bitmap_white_first (p : pep) : bool :=
  serialize_is_bitmap p && is_white (get (palette p) 0).

(** What [pep_compress] makes of the pixels [0x12345678; 0xff345678] at
    4 bits per channel, and of [0xffffffff; 0xff000000] (white, black). *)
Definition four_bit_image : pep :=
  mk_pep (Some [1; 254; 1; 254]) 4 2 1 pep_rgba
    (0x12345678 :: 0xff345678 :: replicate 254 0) 2 pep_4bit.

Definition white_black_image : pep :=
  mk_pep (Some [1; 254; 1; 254]) 4 2 1 pep_rgba
    (0xffffffff :: 0xff000000 :: replicate 254 0) 2 pep_8bit.


(** ** The model without the coder *)

(** The frequency model never reads the coder's registers.  The
    definitions below follow [encode_symbol], [encode_iter] and
    [encode_loop] but leave the coder out: they return the probabilities
    that are handed to [_pep_arith_encode] and keep [e_ac] as it is.
    [encode_loop_model] shows that the encode loop reaches the same model
    state whenever those probabilities are well formed. *)

(** Each probability is coded and followed by a renormalization. *)
Fixpoint code_probs (ac : _pep_ac_encode) (probs : list _pep_prob)
  : option _pep_ac_encode :=
  match probs with
  | [] => Some ac
  | prob :: rest =>
      ac' ← _pep_arith_encode_normalize normalize_fuel (_pep_arith_encode ac prob);
      code_probs ac' rest
  end.

Definition with_ac (st : encoder) (ac : _pep_ac_encode) : encoder :=
  mk_encoder (e_contexts st) ac (e_context_id st) (e_indices_in_byte st)
    (e_symbol st) (e_freq_max st).

Definition model_symbol (palette_size : Z) (st : encoder) : list _pep_prob * encoder :=
  let symbol := e_symbol st in
  let id := e_context_id st mod PEP_CONTEXTS_MAX in
  let context_ref := ctx_get (e_contexts st) id in
  let context_sum := sum context_ref in
  let finish (cs : list _pep_context) (freq_max : Z) :=
    mk_encoder cs (e_ac st) (u64 (Z.lor (Z.shiftl (e_context_id st) 8) symbol))
      0 0 freq_max in
  if negb (context_sum =? 0) && negb (get (freq context_ref) symbol =? 0) then
    let prob := _pep_get_prob_from_ctx context_ref symbol in
    let '(context', freq_max') :=
      PEP_UPDATE context_ref symbol (e_freq_max st) palette_size in
    ([prob], finish (ctx_set (e_contexts st) id context') freq_max')
  else
    let '(escape, context1) :=
      if negb (context_sum =? 0) then
        ([_pep_get_prob_from_ctx context_ref PEP_FREQ_END],
         mk_context
           (set (freq context_ref) PEP_FREQ_END
              (u16 (get (freq context_ref) PEP_FREQ_END + 1)))
           (u32 (sum context_ref + 1)))
      else ([], context_ref) in
    let order0 := ctx_get (e_contexts st) PEP_CONTEXTS_MAX in
    let prob := _pep_get_prob_from_ctx order0 symbol in
    let context2 :=
      if context_sum =? 0
      then mk_context (set (freq context1) PEP_FREQ_END 1) 1
      else context1 in
    let context3 :=
      mk_context (set (freq context2) symbol 1) (u32 (sum context2 + 1)) in
    let '(order0', freq_max') :=
      PEP_UPDATE order0 symbol (e_freq_max st) palette_size in
    (escape ++ [prob],
     finish (ctx_set (ctx_set (e_contexts st) id context3) PEP_CONTEXTS_MAX order0')
            freq_max').

Definition model_iter (pal : list Z) (palette_size : Z)
    (bits_per_index indices_per_byte : Z) (px : list Z) (st : encoder)
  : list _pep_prob * list Z * encoder :=
  let '(px', st1) :=
    match px with
    | p :: rest =>
        let index := index_search pal palette_size p 0 in
        let symbol :=
          u8 (Z.lor (e_symbol st)
                (Z.shiftl index (e_indices_in_byte st * bits_per_index))) in
        (rest, mk_encoder (e_contexts st) (e_ac st) (e_context_id st)
                 (u8 (e_indices_in_byte st + 1)) symbol (e_freq_max st))
    | [] => ([], st)
    end in
  if (e_indices_in_byte st1 >=? indices_per_byte)
     || (is_nil px' && (e_indices_in_byte st1 >? 0))
  then let '(probs, st2) := model_symbol palette_size st1 in (probs, px', st2)
  else ([], px', st1).

(** A probability the coder can take: a total between 1 and 2^14 and a
    non-empty interval inside it. *)
Definition prob_ok (prob : _pep_prob) : bool :=
  (1 <=? prob_scale prob) && (prob_scale prob <=? PEP_PROB_MAX_VALUE)
  && (0 <=? prob_low prob) && (prob_low prob <? prob_high prob)
  && (prob_high prob <=? prob_scale prob).

(** The model after [n] iterations of the encode loop; [None] as soon as
    a probability is not [prob_ok]. *)
Fixpoint model_loop (n : nat) (pal : list Z) (palette_size : Z)
    (bits_per_index indices_per_byte : Z) (px : list Z) (st : encoder)
  : option encoder :=
  match n with
  | O => Some st
  | S n' =>
      if is_nil px && negb (e_indices_in_byte st >? 0) then Some st
      else
        let '(probs, px', st') :=
          model_iter pal palette_size bits_per_index indices_per_byte px st in
        if forallb prob_ok probs
        then model_loop n' pal palette_size bits_per_index indices_per_byte px' st'
        else None
  end.

Definition compress_model (in_pixels : list Z) (width height : Z) (n : nat)
  : option encoder :=
  let '(pal, size) := compress_palette in_pixels width height in
  model_loop n pal size (bits_per_index_of size) (indices_per_byte_of size)
    (pixels_read in_pixels width height) encoder_init.

(** What the coder keeps between two symbols: 32-bit registers and a
    range of at least 2^14. *)
Definition coder_ok (ac : _pep_ac_encode) : Prop :=
  0 <= enc_low ac < 2 ^ 32 /\ PEP_PROB_MAX_VALUE <= enc_range ac < 2 ^ 32.

(** A 2048 by 1024 image: the colours 0 .. 16 once each, then colour 0
    to the end. *)
Definition wrap_image : list Z :=
  seqZ 0 17 ++ replicate (Z.to_nat (2048 * 1024 - 17)) 0.


(** ** Runs of one colour *)

(** The model after [m] more packed symbols 0 coded from context 0 when
    none of them triggers a rescale: the frequency of symbol 0 and the sum
    of context 0 grow by [2 * m], nothing else moves. *)
Definition zero_run (m : Z) (st : encoder) : encoder :=
  match e_contexts st with
  | mk_context (f0 :: fs) s0 :: cs =>
      mk_encoder (mk_context (f0 + 2 * m :: fs) (s0 + 2 * m) :: cs)
        (e_ac st) 0 0 0 (e_freq_max st)
  | _ => st
  end.

(** How many symbols 0 context 0 takes before PEP_UPDATE rescales it (0
    when the encoder is not about to code symbol 0 from context 0). *)
Definition zero_run_length (st : encoder) : Z :=
  match e_contexts st with
  | mk_context (f0 :: fs) s0 :: cs =>
      if (e_context_id st =? 0) && (e_indices_in_byte st =? 0) && (e_symbol st =? 0)
         && (0 <? f0) && (f0 <=? s0) && (e_freq_max st <=? 65535)
      then Z.min ((e_freq_max st - f0 - 1) / 2) ((PEP_PROB_MAX_VALUE - s0 - 1) / 2)
      else 0
  | _ => 0
  end.

(** [model_loop] for one index per byte on the pixels [prefix] followed
    by pixels of colour 0, with the runs of colour 0 taken in one step
    each.  [fuel] bounds the number of steps. *)
Fixpoint fast_loop (fuel : nat) (pal : list Z) (palette_size bits_per_index : Z)
    (n : Z) (prefix : list Z) (st : encoder) : option encoder :=
  match fuel with
  | O => None
  | S fuel' =>
      if n <=? 0 then Some st
      else if negb (e_indices_in_byte st =? 0) then None
      else
        let step (p : Z) (rest : list Z) :=
          let '(probs, _, st') :=
            model_iter pal palette_size bits_per_index 1 [p] st in
          if forallb prob_ok probs
          then fast_loop fuel' pal palette_size bits_per_index (n - 1) rest st'
          else None in
        match prefix with
        | p :: rest => step p rest
        | [] =>
            let m := Z.min n (zero_run_length st) in
            if 0 <? m
            then fast_loop fuel' pal palette_size bits_per_index (n - m) []
                   (zero_run m st)
            else step 0 []
        end
  end.


(** ** The documented update *)

(** PEP_UPDATE in the words of its documentation, over unbounded
    integers: add 2 to the symbol's slot and to the sum; when the slot
    reaches FREQ_MAX or the sum reaches 2^14, raise FREQ_MAX by
    [(256 - palette_size) / 2], halve the non-zero slots rounding up and
    sum them again. *)
Definition halve (f : Z) : Z := if f =? 0 then 0 else (f + 1) / 2.

Definition total (fs : list Z) : Z := foldr Z.add 0 fs.

Definition documented_update (ctx : _pep_context) (s F palette_size : Z)
  : _pep_context * Z :=
  let freq1 := <[Z.to_nat s := get (freq ctx) s + 2]> (freq ctx) in
  if (get (freq ctx) s + 2 >=? F) || (sum ctx + 2 >=? 2 ^ 14) then
    (mk_context (map halve freq1) (total (map halve freq1)),
     F + (256 - palette_size) / 2)
  else (mk_context freq1 (sum ctx + 2), F).

(** * Definitions for the codec round trip *)

(** ** The coded stream *)

(** The number that a run of bytes spells, most significant byte first. *)
Definition num (bs : list Z) : Z := fold_left (fun acc b => acc * 256 + b) bs 0.

Definition is_byte (b : Z) : Prop := 0 <= b < 256.

(** The bytes [E] still to come spell a number inside the coder's
    interval [[low, low + range)], read at the scale of [E]'s length. *)
Definition fits (low range : Z) (E : list Z) : Prop :=
  let scale := 256 ^ (Z.of_nat (length E) - 4) in
  low * scale <= num E < (low + range) * scale.

(** The registers between two operations of the encoder: the interval
    does not pass 2^32, and reaches it only with a range of at most 2^24. *)
Definition interval_ok (low range : Z) : Prop :=
  0 <= low /\ 1 <= range /\ low + range <= 2 ^ 32
  /\ (low + range = 2 ^ 32 -> range <= 2 ^ 24).

(** The decoder's view of the stream [E]: its [code] register holds the
    first four bytes and its input the rest. *)
Definition reads (d : _pep_ac_decode) (E : list Z) : Prop :=
  dec_code d = num (take 4 E) /\ dec_in d = drop 4 E.

(** A frequency table: [PEP_FREQ_N] 16-bit counters. *)
Definition freq_ok (fs : list Z) : Prop :=
  length fs = 257%nat /\ Forall (fun f => 0 <= f < 2 ^ 16) fs.

(** The context array: [PEP_CONTEXTS_MAX + 1] frequency tables. *)
Definition ctxs_ok (cs : list _pep_context) : Prop :=
  length cs = 257%nat /\ Forall (fun c => freq_ok (freq c)) cs.

(** Encoder and decoder agree on the model and on the coder's registers. *)
Definition in_step (e : encoder) (d : decoder) : Prop :=
  d_contexts d = e_contexts e
  /\ d_freq_max d = e_freq_max e
  /\ d_context_id d mod 256 = e_context_id e mod 256
  /\ 0 <= d_context_id d /\ 0 <= e_context_id e
  /\ dec_low (d_ac d) = enc_low (e_ac e)
  /\ dec_range (d_ac d) = enc_range (e_ac e).

(** The tail of one iteration of the decode loop: the pixels of one
    packed symbol go to the output buffer. *)
Definition write_group (palette : list Z) (in_format out_format : pep_format)
    (pre_multiply bits_per_index indices_per_byte index_mask area : Z)
    (symbol : Z) (out : pixel_buffer) (canvas_pos : Z) : pixel_buffer * Z :=
  if indices_per_byte >? 1 then
    unpack_indices (Z.to_nat indices_per_byte) palette in_format out_format
      pre_multiply symbol bits_per_index indices_per_byte index_mask area
      0 out canvas_pos
  else if canvas_pos <? area then
    put_pixel palette in_format out_format pre_multiply symbol out canvas_pos
  else (out, canvas_pos).

(** The state after one iteration that decoded [symbol]. *)
Definition decoded (d : decoder) (contexts : list _pep_context) (ac : _pep_ac_decode)
    (freq_max symbol : Z) (written : pixel_buffer * Z) : decoder :=
  mk_decoder contexts ac (u32 (Z.lor (Z.shiftl (d_context_id d) 8) symbol))
    freq_max (fst written) (snd written).

(** ** Packed indices *)

(** [symbol |= ( index << ( indices_in_byte * bits_per_index ) )] for the
    indices [ids], starting at slot [k]. *)
Fixpoint pack (bits_per_index k symbol : Z) (ids : list Z) : Z :=
  match ids with
  | [] => symbol
  | index :: rest =>
      pack bits_per_index (k + 1)
        (u8 (Z.lor symbol (Z.shiftl index (k * bits_per_index)))) rest
  end.

(** The pixel that the decoder writes for a palette index. *)
Definition paint (palette : list Z) (in_format out_format : pep_format)
    (pre_multiply : Z) (palette_idx : Z) : Z :=
  let pixel := _pep_reformat (get palette palette_idx) in_format out_format in
  if pre_multiply =? 0 then pixel else _pep_pre_multiply pixel out_format.

(** ** The decoder's palette *)

(** The palette [pep_decompress] reads colours from: the image's entries
    over the function's static array, with the alpha byte of entry 0
    cleared on request. *)
Definition decompress_palette (static_palette : list Z) (in_pep : pep)
    (transparent_first_color : Z) : list Z :=
  let palette0 :=
    take (Z.to_nat (palette_size in_pep)) (palette in_pep)
    ++ drop (Z.to_nat (palette_size in_pep)) static_palette in
  if transparent_first_color =? 0 then palette0
  else if format_val (format in_pep) <=? format_val pep_bgra
       then set palette0 0 (Z.land (get palette0 0) 0xffffff00)
       else set palette0 0 (Z.land (get palette0 0) 0x00ffffff).

(** What [pep_decompress] returns for the image that [pep_compress] makes
    of [pixels]: the pixels of the whole groups, each painted from the
    palette entry of its index, and the cells of the last, partial group
    left unwritten. *)
Definition decoded_pixels (static_palette : list Z) (p : pep)
    (out_format : pep_format) (transparent_first_color pre_multiply : Z)
    (pixels : list Z) : pixel_buffer :=
  let per_byte := indices_per_byte_of (palette_size p) in
  let area := Z.of_nat (length pixels) in
  map Some
    (map (fun q =>
            paint (decompress_palette static_palette p transparent_first_color)
              (format p) out_format pre_multiply
              (index_search (palette p) (palette_size p) q 0))
         (take (Z.to_nat (per_byte * (area / per_byte))) pixels))
  ++ replicate (Z.to_nat (area mod per_byte)) None.

(** Every probability that [pep_compress] hands to the coder on these
    pixels is well formed ([prob_ok]): a total between 1 and 2^14 and a
    non-empty interval inside it. *)
Definition probabilities_ok (pixels : list Z) (w h : Z) : bool :=
  match compress_model pixels w h (S (Z.to_nat (w * h))) with
  | Some _ => true
  | None => false
  end.

(** ** Counting in the model *)

(** A context after at most [k] coded symbols: its sum is the total of its
    counters and at most [2 k + 1], and once the context is in use its
    escape counter is not zero. *)
Definition context_counts (k : Z) (c : _pep_context) : Prop :=
  freq_ok (freq c) /\ sum c = total (freq c) /\ sum c <= 2 * k + 1
  /\ (sum c <> 0 -> 1 <= get (freq c) PEP_FREQ_END).

(** The order-0 context after at most [k] coded symbols: no counter is
    zero and the sum is at most [2 k + 257]. *)
Definition order0_counts (k : Z) (c : _pep_context) : Prop :=
  freq_ok (freq c) /\ sum c = total (freq c) /\ sum c <= 2 * k + 257
  /\ (forall i, 0 <= i <= 256 -> 1 <= get (freq c) i).

Definition model_counts (k : Z) (cs : list _pep_context) : Prop :=
  length cs = 257%nat
  /\ (forall i, 0 <= i < 256 -> context_counts k (ctx_get cs i))
  /\ order0_counts k (ctx_get cs PEP_CONTEXTS_MAX).


(** ** The size of the output *)

(** How many bytes a renormalization loop may still shift out from the
    registers [low] and [range].  Once the interval ends on a multiple of
    2^31 (as it does after the loop has cut the range down to a block
    boundary) the range only grows; before that it is multiplied by 256 at
    each byte until it reaches 2^24. *)
Definition shifts_bound (low range : Z) : nat :=
  if (low + range) mod 2 ^ 31 =? 0 then
    if 2 ^ 14 <=? range then 0%nat else if 2 ^ 6 <=? range then 1%nat else 2%nat
  else
    if 2 ^ 24 <=? range then 0%nat else if 2 ^ 16 <=? range then 1%nat
    else if 2 ^ 8 <=? range then 2%nat else 3%nat.

(** The context of the next symbol has not been used yet. *)
Definition fresh_context (st : encoder) : bool :=
  sum (ctx_get (e_contexts st) (e_context_id st mod PEP_CONTEXTS_MAX)) =? 0.


(** ** Files *)

(** A call of the C library in which nothing fails. *)
Definition io_fine (env : io) (size : Z) : Prop :=
  fopen_ok env = true /\ (Z.to_nat size <= io_limit env)%nat.


(** ** Another palette *)

(** What [pep_decompress] returns for the bytes that [pep_compress] made
    of [pixels] with the palette [pal] of [size] entries, when the image
    now carries the palette and format of [q]: the index of each pixel,
    painted from [q]'s palette. *)
Definition repainted_pixels (static_palette : list Z) (pal : list Z) (size : Z) (q : pep)
    (out_format : pep_format) (transparent_first_color pre_multiply : Z)
    (pixels : list Z) : pixel_buffer :=
  let per_byte := indices_per_byte_of size in
  let area := Z.of_nat (length pixels) in
  map Some
    (map (fun x =>
            paint (decompress_palette static_palette q transparent_first_color)
              (format q) out_format pre_multiply
              (index_search pal size x 0))
         (take (Z.to_nat (per_byte * (area / per_byte))) pixels))
  ++ replicate (Z.to_nat (area mod per_byte)) None.

(** ** Black and white *)

(** Opaque white and opaque black in a format, as [pep_serialize] tests
    for them and [pep_deserialize] writes them. *)
Definition white : Z := 0xffffffff.

Definition black (f : pep_format) : Z :=
  if format_val f <=? format_val pep_bgra then 0xff000000 else 0x000000ff.


(** ** The coder on its own *)

(** The decoder's side of [code_probs]: for each probability the target
    frequency is read ([_pep_arith_decode_curr_freq]) and the registers
    are updated with the probability ([_pep_arith_decode_update]).  The
    targets are returned. *)
Fixpoint decode_probs (d : _pep_ac_decode) (probs : list _pep_prob)
  : option (list Z * _pep_ac_decode) :=
  match probs with
  | [] => Some ([], d)
  | prob :: rest =>
      let '(d1, target) := _pep_arith_decode_curr_freq d (prob_scale prob) in
      d2 ← _pep_arith_decode_update normalize_fuel d1 prob;
      '(targets, d') ← decode_probs d2 rest;
      Some (target :: targets, d')
  end.

(** The registers both coders start from. *)
Definition enc_start : _pep_ac_encode := mk_enc [] 0 (u32 (2 ^ 32 - 1)) [].

Definition dec_start (input : list Z) : _pep_ac_decode :=
  decode_prime 4 (mk_dec input 0 (u32 (2 ^ 32 - 1)) 0).

(** ** Pre-multiplied alpha *)

(** The byte that [_pep_pre_multiply] reads as alpha, and the product of
    a byte with it, scaled back to a byte and rounded to nearest. *)
Definition alpha_index (f : pep_format) : Z :=
  if format_val f <=? format_val pep_bgra then 3 else 0.

Definition scaled (b a : Z) : Z := (b * a + 127) / 255.

(** ** Palettes below 8 bits per channel *)

(** The [cb] bits [pep_serialize] keeps of each channel of a colour:
    the top bits of bytes 0, 1, 2 and, unless [only_rgb], 3. *)
Definition color_digits (cb : Z) (only_rgb : bool) (color : Z) : list Z :=
  let d i := Z.land (Z.shiftr (color_byte color i) (8 - cb)) (Z.ones cb) in
  [d 0; d 1; d 2] ++ (if only_rgb then [] else [d 3]).

(** A writer that takes one channel at a time and emits a byte as soon as
    eight bits are pending; the last byte is padded with zeros. *)
Fixpoint emit (cb acc cnt : Z) (ds : list Z) : list Z :=
  match ds with
  | [] => if cnt >? 0 then [Z.land (u32 (Z.shiftl acc (8 - cnt))) 0xff] else []
  | d :: rest =>
      let acc' := u32 (Z.lor (Z.shiftl acc cb) d) in
      if cnt + cb >=? 8 then Z.land acc' 0xff :: emit cb acc' 0 rest
      else emit cb acc' (cnt + cb) rest
  end.

(** The reader is [rc] bits short of the end of the byte it holds in
    [rb]; the writer has [cnt] bits of that byte pending. *)
Definition in_sync (cb acc cnt : Z) (ds : list Z) (rb rc : Z)
    (stream rest : list Z) : Prop :=
  if cnt =? 0 then rc = 0 /\ stream = emit cb acc 0 ds ++ rest
  else exists b0 W, emit cb acc cnt ds = b0 :: W
         /\ Z.land rb 0xff = b0 /\ rc = 8 - cnt /\ stream = W ++ rest.

(** [read_channel]'s widening of a stored channel to a byte. *)
Definition widen (cb d : Z) : Z :=
  let scaled := u8 (Z.shiftl d (8 - cb)) in
  let scaled :=
    if cb <? 8 then
      let scaled := Z.lor scaled (Z.shiftr scaled cb) in
      if cb <? 4 then Z.lor scaled (Z.shiftr scaled (2 * cb)) else scaled
    else scaled in
  u8 scaled.

Definition next_count (cb cnt : Z) : Z :=
  if cnt + cb >=? 8 then 0 else cnt + cb.

(** What a channel byte [b] comes back as after [cb] bits of it were
    stored: its top [cb] bits, repeated to fill the byte (a 1-bit channel
    fills the high half only). *)
Definition kept (cb b : Z) : Z :=
  (b / 2 ^ (8 - cb)) * (if cb =? 4 then 17 else if cb =? 2 then 85 else 240).

Definition kept_color (cb : Z) (only_rgb : bool) (color : Z) : Z :=
  color_of_bytes (kept cb (color_byte color 0)) (kept cb (color_byte color 1))
    (kept cb (color_byte color 2))
    (if only_rgb then 0xff else kept cb (color_byte color 3)).


(** * Properties *)

(** ** Machine integers *)

Lemma u8_mod x : u8 x = x mod 2 ^ 8.
Proof. unfold u8. change 0xff with (Z.ones 8). apply Z.land_ones. lia. Qed.
Lemma u16_mod x : u16 x = x mod 2 ^ 16.
Proof. unfold u16. change 0xffff with (Z.ones 16). apply Z.land_ones. lia. Qed.
Lemma u32_mod x : u32 x = x mod 2 ^ 32.
Proof. unfold u32. change 0xffffffff with (Z.ones 32). apply Z.land_ones. lia. Qed.
Lemma u64_mod x : u64 x = x mod 2 ^ 64.
Proof. unfold u64. change 0xffffffffffffffff with (Z.ones 64). apply Z.land_ones. lia. Qed.

Lemma u16_small x : 0 <= x < 2 ^ 16 -> u16 x = x.
Proof. intros. rewrite u16_mod. apply Z.mod_small. assumption. Qed.

Lemma u8_small x : 0 <= x < 2 ^ 8 -> u8 x = x.
Proof. intros. rewrite u8_mod. apply Z.mod_small. assumption. Qed.

Lemma u32_small x : 0 <= x < 2 ^ 32 -> u32 x = x.
Proof. intros. rewrite u32_mod. apply Z.mod_small. assumption. Qed.

Lemma u64_small x : 0 <= x < 2 ^ 64 -> u64 x = x.
Proof. intros. rewrite u64_mod. apply Z.mod_small. assumption. Qed.

(** Closed statements about concrete inputs are settled by evaluation. *)
Ltac evaluate := repeat apply conj; vm_compute; reflexivity.

(** ** Channel orders *)

Ltac masks :=
  change 0xff00ff00 with (Z.lor (Z.shiftl (Z.ones 8) 8) (Z.shiftl (Z.ones 8) 24)) in *;
  change 0x00ff00ff with (Z.lor (Z.ones 8) (Z.shiftl (Z.ones 8) 16)) in *;
  change 0x000000ff with (Z.ones 8) in *;
  change 0x0000ff00 with (Z.shiftl (Z.ones 8) 8) in *;
  change 0x00ff0000 with (Z.shiftl (Z.ones 8) 16) in *;
  change 0xff000000 with (Z.shiftl (Z.ones 8) 24) in *;
  change 0x00ffffff with (Z.ones 24) in *;
  change 0xffffff00 with (Z.shiftl (Z.ones 24) 8) in *;
  change 0xffffffff with (Z.ones 32) in *.


Ltac eval_conditions :=
  repeat match goal with
  | |- context [if ?b then _ else _] =>
      let v := eval vm_compute in b in
      change b with v; cbv iota
  end.



Lemma reformat_bits c a b i :
  0 <= i < 32 ->
  Z.testbit (_pep_reformat c a b) i = Z.testbit c (reformat_bit_source a b i).
Proof.
  intros Hi.
  destruct a, b; unfold _pep_reformat; eval_conditions; unfold reformat_bit_source; try reflexivity;
  unfold u32; masks;
  destruct (Z.ltb_spec i 8), (Z.ltb_spec i 16), (Z.ltb_spec i 24); try lia; cbv iota.
  all: Z.bitblast_core.
Qed.

Lemma testbit_high c i : 0 <= c < 2 ^ 32 -> 32 <= i -> Z.testbit c i = false.
Proof.
  intros Hc Hi. rewrite <- (Z.mod_small c (2 ^ 32)) by lia.
  apply Z.mod_pow2_bits_high. lia.
Qed.

Lemma reformat_high c a b i :
  0 <= c < 2 ^ 32 -> 32 <= i -> Z.testbit (_pep_reformat c a b) i = false.
Proof.
  intros Hc Hi.
  destruct a, b; unfold _pep_reformat; eval_conditions;
    try (apply testbit_high; assumption);
    unfold u32; masks.
  all: Z.bitblast_core.
Qed.

Lemma reformat_bit_source_range a b i : 0 <= i < 32 -> 0 <= reformat_bit_source a b i < 32.
Proof.
  intros Hi. destruct a, b; unfold reformat_bit_source;
    repeat match goal with |- context [?x <? ?y] => destruct (Z.ltb_spec x y) end; lia.
Qed.

Lemma reformat_bit_source_inverse a b i : 0 <= i < 32 -> reformat_bit_source a b (reformat_bit_source b a i) = i.
Proof.
  intros Hi. destruct a, b; unfold reformat_bit_source;
    repeat match goal with |- context [?x <? ?y] => destruct (Z.ltb_spec x y) end; lia.
Qed.

(** C10. For every 32-bit colour [c] and all formats [a], [b],
    converting from [a] to [b] and back gives [c], and converting from
    [a] to [a] gives [c]. *)
Theorem reformat_round_trip c a b :
  0 <= c < 2 ^ 32 ->
  _pep_reformat (_pep_reformat c a b) b a = c /\ _pep_reformat c a a = c.
Proof.
  intros Hc. split.
  - apply Z.bits_inj'. intros i Hi.
    destruct (Z.lt_ge_cases i 32) as [Hlt | Hge].
    + rewrite reformat_bits by lia.
      rewrite reformat_bits by (apply reformat_bit_source_range; lia).
      rewrite reformat_bit_source_inverse by lia. reflexivity.
    + rewrite (testbit_high c i) by lia.
      destruct (Z.testbit (_pep_reformat (_pep_reformat c a b) b a) i) eqn:E; [|reflexivity].
      (* the outer conversion never sets a bit above 31 *)
      assert (Hin : forall j, 32 <= j -> Z.testbit (_pep_reformat c a b) j = false)
        by (intros; apply reformat_high; assumption).
      revert E. generalize (_pep_reformat c a b) Hin. intros x Hx.
      destruct a, b; unfold _pep_reformat; eval_conditions;
        try (rewrite Hx by lia; discriminate); unfold u32; masks; intros E; rewrite <- E; Z.bitblast_core.
  - unfold _pep_reformat. rewrite Z.eqb_refl. reflexivity.
Qed.

Lemma reformat_round_trip_witness :
  _pep_reformat (_pep_reformat 0x11223344 pep_rgba pep_argb) pep_argb pep_rgba
  = 0x11223344
  /\ _pep_reformat 0x11223344 pep_rgba pep_rgba = 0x11223344.
Proof. apply reformat_round_trip. lia. Defined.

(** ** The arithmetic coder *)

Lemma encode_normalize_unfold fuel ac :
  _pep_arith_encode_normalize (S fuel) ac =
  match renorm_next (enc_low ac) (enc_range ac) with
  | None => Some ac
  | Some (low', range') =>
      _pep_arith_encode_normalize fuel
        (mk_enc (u8 (Z.shiftr (enc_low ac) 24) :: enc_out ac) low' range' (enc_scales ac))
  end.
Proof.
  unfold renorm_next. cbn [_pep_arith_encode_normalize].
  change PEP_CODE_BITS_INV with 8. change PEP_CODE_BITS with 24.
  repeat case_match; simplify_eq; reflexivity.
Qed.

Lemma decode_normalize_unfold fuel ac :
  decode_normalize (S fuel) ac =
  match renorm_next (dec_low ac) (dec_range ac) with
  | None => Some ac
  | Some (low', range') =>
      decode_normalize fuel
        (mk_dec (snd (next_byte (dec_in ac))) low' range'
           (Z.lor (u32 (Z.shiftl (dec_code ac) 8)) (fst (next_byte (dec_in ac)))))
  end.
Proof.
  unfold renorm_next. cbn [decode_normalize].
  destruct (next_byte (dec_in ac)) as [b rest]. cbn [fst snd].
  rewrite Z.geb_leb, Z.ltb_antisym.
  repeat case_match; simplify_eq; try reflexivity; try lia.
Qed.

Lemma renorm_next_none low range :
  renorm_next low range = None -> PEP_PROB_MAX_VALUE <= range.
Proof.
  unfold renorm_next. repeat case_match; try discriminate. intros _. lia.
Qed.

Lemma encode_normalize_range fuel : forall ac ac',
  _pep_arith_encode_normalize fuel ac = Some ac' ->
  PEP_PROB_MAX_VALUE <= enc_range ac'.
Proof.
  induction fuel as [|fuel IH]; intros ac ac' H; [discriminate|].
  rewrite encode_normalize_unfold in H.
  destruct (renorm_next (enc_low ac) (enc_range ac)) as [[l r]|] eqn:E.
  - eauto.
  - injection H as <-. eauto using renorm_next_none.
Qed.

Lemma decode_normalize_range fuel : forall ac ac',
  decode_normalize fuel ac = Some ac' ->
  PEP_PROB_MAX_VALUE <= dec_range ac'.
Proof.
  induction fuel as [|fuel IH]; intros ac ac' H; [discriminate|].
  rewrite decode_normalize_unfold in H.
  destruct (renorm_next (dec_low ac) (dec_range ac)) as [[l r]|] eqn:E.
  - eauto.
  - injection H as <-. eauto using renorm_next_none.
Qed.

(** C3. Whenever a renormalization loop terminates, in the encoder
    ([_pep_arith_encode_normalize]) or in the decoder
    ([_pep_arith_decode_update]), the range register is at least
    2^14 = PEP_PROB_MAX_VALUE. *)
Theorem range_after_renormalization r : loop_exit r -> 2 ^ 14 <= r.
Proof.
  change (2 ^ 14) with PEP_PROB_MAX_VALUE.
  destruct 1 as [fuel ac ac' H | fuel ac prob ac' H].
  - eauto using encode_normalize_range.
  - unfold _pep_arith_decode_update in H. eauto using decode_normalize_range.
Qed.

Lemma range_after_renormalization_witness : 2 ^ 14 <= 4278255360.
Proof.
  apply range_after_renormalization.
  apply (exit_encode 2 (mk_enc [] 0 16711935 []) (mk_enc [0] 0 4278255360 [])).
  vm_compute. reflexivity.
Defined.

(** *** Termination of the loops *)

Lemma lxor_top_byte low range :
  0 <= low < 2 ^ 32 -> 0 < range < 2 ^ 32 -> range mod 2 ^ 24 = 0 ->
  2 ^ 24 <= Z.lxor low ((low + range) mod 2 ^ 32).
Proof.
  intros Hl Hr Hm.
  set (s := (low + range) mod 2 ^ 32).
  assert (Hs : 0 <= s < 2 ^ 32) by (apply Z.mod_pos_bound; lia).
  destruct (Z.lt_ge_cases (Z.lxor low s) (2 ^ 24)) as [Hlt|]; [exfalso|assumption].
  assert (Hx : 0 <= Z.lxor low s) by (apply Z.lxor_nonneg; lia).
  assert (E : Z.shiftr (Z.lxor low s) 24 = 0).
  { rewrite Z.shiftr_div_pow2 by lia. apply Z.div_small. lia. }
  rewrite Z.shiftr_lxor in E. apply Z.lxor_eq in E.
  rewrite !Z.shiftr_div_pow2 in E by lia.
  subst s. revert E Hs. 
  change (2 ^ 32) with 4294967296 in *. change (2 ^ 24) with 16777216 in *.
  intros. Z.div_mod_to_equations. lia.
Qed.

Lemma shl8 x : u32 (Z.shiftl x 8) = (x * 256) mod 2 ^ 32.
Proof. rewrite u32_mod, Z.shiftl_mul_pow2 by lia. reflexivity. Qed.

Lemma renorm_next_some low range low' range' :
  regs_ok low range -> renorm_next low range = Some (low', range') ->
  regs_ok low' range' /\ low' = (low * 256) mod 2 ^ 32.
Proof.
  intros [Hl Hr]. unfold renorm_next, regs_ok.
  change PEP_CODE_MAX_VALUE with (2 ^ 24 - 1). change PEP_PROB_MAX_VALUE with (2 ^ 14).
  rewrite !shl8, u32_mod.
  destruct (Z.geb_spec (Z.lxor low ((low + range) mod 2 ^ 32)) (2 ^ 24 - 1)) as [Hx|Hx].
  - destruct (Z.geb_spec range (2 ^ 14)); [discriminate|].
    intros [= <- <-].
    assert (0 <= Z.land low (2 ^ 14 - 1) < 2 ^ 14).
    { change (2 ^ 14 - 1) with (Z.ones 14). rewrite Z.land_ones by lia.
      apply Z.mod_pos_bound. lia. }
    split; [split|reflexivity].
    + apply Z.mod_pos_bound. lia.
    + rewrite Z.mod_small; lia.
  - intros [= <- <-].
    split; [split|reflexivity].
    + apply Z.mod_pos_bound. lia.
    + assert (range mod 2 ^ 24 <> 0).
      { intros Hm. pose proof (lxor_top_byte low range Hl Hr Hm). lia. }
      pose proof (Z.mod_pos_bound (range * 256) (2 ^ 32) ltac:(lia)).
      assert ((range * 256) mod 2 ^ 32 <> 0); [|lia].
      change (2 ^ 32) with 4294967296 in *. change (2 ^ 24) with 16777216 in *.
      Z.div_mod_to_equations. lia.
Qed.

Lemma renorm_next_low0 range low' range' :
  0 < range < 2 ^ 32 -> renorm_next 0 range = Some (low', range') ->
  low' = 0 /\ range' = range * 256 /\ range < 2 ^ 24.
Proof.
  intros Hr. unfold renorm_next.
  change PEP_CODE_MAX_VALUE with (2 ^ 24 - 1). change PEP_PROB_MAX_VALUE with (2 ^ 14).
  rewrite Z.add_0_l, u32_mod, Z.mod_small, Z.lxor_0_l by lia.
  destruct (Z.geb_spec range (2 ^ 24 - 1)).
  - destruct (Z.geb_spec range (2 ^ 14)); [discriminate|lia].
  - intros [= <- <-]. rewrite !shl8, (Z.mod_small (range * 256)) by lia.
    repeat split; lia.
Qed.

Lemma breaks_within_low0 n : forall range,
  0 < range < 2 ^ 32 -> 2 ^ 24 <= range * 256 ^ Z.of_nat n -> breaks_within (S n) 0 range.
Proof.
  induction n as [|n IH]; intros range Hr Hbig; cbn [breaks_within].
  - destruct (renorm_next 0 range) as [[l r]|] eqn:E; [|exact I].
    apply renorm_next_low0 in E; [|assumption]. change (256 ^ Z.of_nat 0) with 1 in Hbig. lia.
  - destruct (renorm_next 0 range) as [[l r]|] eqn:E; [|exact I].
    apply renorm_next_low0 in E; [|assumption]. destruct E as (-> & -> & Hlt).
    apply IH; [lia|].
    rewrite Nat2Z.inj_succ, Z.pow_succ_r in Hbig by lia. lia.
Qed.

Lemma breaks_within_step n low range :
  (forall low' range',
     renorm_next low range = Some (low', range') -> breaks_within n low' range') ->
  breaks_within (S n) low range.
Proof.
  intros H. cbn [breaks_within].
  destruct (renorm_next low range) as [[l r]|]; [apply H; reflexivity | exact I].
Qed.

Lemma breaks_within_8 low range : regs_ok low range -> breaks_within 8 low range.
Proof.
  intros H0.
  apply breaks_within_step. intros l1 r1 E1.
  destruct (renorm_next_some _ _ _ _ H0 E1) as [H1 L1].
  apply breaks_within_step. intros l2 r2 E2.
  destruct (renorm_next_some _ _ _ _ H1 E2) as [H2 L2].
  apply breaks_within_step. intros l3 r3 E3.
  destruct (renorm_next_some _ _ _ _ H2 E3) as [H3 L3].
  apply breaks_within_step. intros l4 r4 E4.
  destruct (renorm_next_some _ _ _ _ H3 E4) as [H4 L4].
  assert (E : l4 = 0).
  { destruct H0 as [? _]. clear - L1 L2 L3 L4 H.
    change (2 ^ 32) with 4294967296 in *. Z.div_mod_to_equations. lia. }
  rewrite E in *. destruct H4 as [_ H4].
  apply (breaks_within_low0 3 r4 H4). change (256 ^ Z.of_nat 3) with 16777216. lia.
Qed.

Lemma breaks_within_encode n : forall ac,
  breaks_within n (enc_low ac) (enc_range ac) ->
  exists ac', _pep_arith_encode_normalize n ac = Some ac'.
Proof.
  induction n as [|n IH]; intros ac H; [destruct H|].
  rewrite encode_normalize_unfold. cbn [breaks_within] in H.
  destruct (renorm_next (enc_low ac) (enc_range ac)) as [[l r]|]; [|eauto].
  apply IH. exact H.
Qed.

Lemma breaks_within_decode n : forall ac,
  breaks_within n (dec_low ac) (dec_range ac) ->
  exists ac', decode_normalize n ac = Some ac'.
Proof.
  induction n as [|n IH]; intros ac H; [destruct H|].
  rewrite decode_normalize_unfold. cbn [breaks_within] in H.
  destruct (renorm_next (dec_low ac) (dec_range ac)) as [[l r]|]; [|eauto].
  apply IH. exact H.
Qed.

(** Registers stay 32-bit and the range stays positive through the loop. *)
Lemma encode_normalize_regs fuel : forall ac ac',
  regs_ok (enc_low ac) (enc_range ac) ->
  _pep_arith_encode_normalize fuel ac = Some ac' ->
  regs_ok (enc_low ac') (enc_range ac') /\ enc_scales ac' = enc_scales ac.
Proof.
  induction fuel as [|fuel IH]; intros ac ac' Hok H; [discriminate|].
  rewrite encode_normalize_unfold in H.
  destruct (renorm_next (enc_low ac) (enc_range ac)) as [[l r]|] eqn:E.
  - apply renorm_next_some in E; [|assumption]. destruct E as [Hok' _].
    apply IH in H; [|exact Hok']. exact H.
  - injection H as <-. auto.
Qed.

Lemma decode_normalize_regs fuel : forall ac ac',
  regs_ok (dec_low ac) (dec_range ac) ->
  decode_normalize fuel ac = Some ac' ->
  regs_ok (dec_low ac') (dec_range ac').
Proof.
  induction fuel as [|fuel IH]; intros ac ac' Hok H; [discriminate|].
  rewrite decode_normalize_unfold in H.
  destruct (renorm_next (dec_low ac) (dec_range ac)) as [[l r]|] eqn:E.
  - apply renorm_next_some in E; [|assumption]. destruct E as [Hok' _].
    apply IH in H; [|exact Hok']. exact H.
  - injection H as <-. auto.
Qed.

(** Eight iterations end the encoder's loop from any 32-bit registers
    with a non-zero range. *)
Lemma encode_normalize_total ac :
  regs_ok (enc_low ac) (enc_range ac) ->
  exists ac', _pep_arith_encode_normalize normalize_fuel ac = Some ac'
    /\ PEP_PROB_MAX_VALUE <= enc_range ac' < 2 ^ 32
    /\ 0 <= enc_low ac' < 2 ^ 32.
Proof.
  intros Hok.
  destruct (breaks_within_encode 8 ac (breaks_within_8 _ _ Hok)) as [ac' H].
  exists ac'. split; [exact H|].
  pose proof (encode_normalize_range _ _ _ H).
  destruct (encode_normalize_regs _ _ _ Hok H) as [[? ?] _]. lia.
Qed.

Lemma decode_normalize_total ac :
  regs_ok (dec_low ac) (dec_range ac) ->
  exists ac', decode_normalize normalize_fuel ac = Some ac'
    /\ PEP_PROB_MAX_VALUE <= dec_range ac' < 2 ^ 32
    /\ 0 <= dec_low ac' < 2 ^ 32.
Proof.
  intros Hok.
  destruct (breaks_within_decode 8 ac (breaks_within_8 _ _ Hok)) as [ac' H].
  exists ac'. split; [exact H|].
  pose proof (decode_normalize_range _ _ _ H).
  destruct (decode_normalize_regs _ _ _ Hok H) as [? ?]. lia.
Qed.

(** With a zero range the loop never ends: no amount of fuel is enough. *)
Lemma encode_normalize_zero_range fuel : forall ac,
  0 <= enc_low ac < 2 ^ 32 -> enc_range ac = 0 ->
  _pep_arith_encode_normalize fuel ac = None.
Proof.
  induction fuel as [|fuel IH]; intros ac Hl Hr; [reflexivity|].
  rewrite encode_normalize_unfold. unfold renorm_next.
  rewrite Hr, Z.add_0_r, u32_mod, Z.mod_small, Z.lxor_nilpotent by lia.
  change (0 >=? PEP_CODE_MAX_VALUE) with false. cbv iota.
  apply IH; cbn [enc_low enc_range].
  - rewrite shl8. apply Z.mod_pos_bound. lia.
  - reflexivity.
Qed.


(** ** Invalid input *)

(** A 4097 by 1 image of one colour is compressed like any other. *)
Lemma compress_4097 :
  exists p,
    pep_compress (Some (replicate (Z.to_nat 4097) 0)) 4097 1 pep_rgba pep_8bit = Some p
    /\ bytes p = Some [0; 0; 0; 0; 0] /\ bytes_size p = 5 /\ width p = 4097.
Proof. eexists. split; [vm_compute; reflexivity|]. repeat apply conj; reflexivity. Qed.

Lemma oversize_claim_fails :
  ~ oversize_claim (Some (replicate (Z.to_nat 4097) 0)) 4097 1.
Proof.
  intros H. destruct (H ltac:(lia) pep_rgba pep_8bit) as (p & Hp & Hb & _).
  destruct compress_4097 as (q & Hq & Hqb & _).
  rewrite Hq in Hp. injection Hp as <-. rewrite Hqb in Hb. discriminate Hb.
Qed.

(** C8 (amended). [pep_compress] returns the empty image (bytes NULL,
    bytes_size 0) when [in_pixels] is NULL or a dimension is 0, and
    [pep_decompress] returns NULL when the image pointer or its bytes are
    NULL or its bytes_size, width or height is 0. *)
Theorem invalid_input_results in_pixels w h f cb static_palette in_pep out_format tfc pm :
  compress_rejects in_pixels w h ->
  decompress_rejects in_pep ->
  (exists p, pep_compress in_pixels w h f cb = Some p
             /\ bytes p = None /\ bytes_size p = 0)
  /\ pep_decompress static_palette in_pep out_format tfc pm = Some None.
Proof.
  intros Hc Hd. split.
  - exists pep_zero. split; [|split; reflexivity].
    unfold pep_compress. destruct in_pixels as [px|]; [|reflexivity].
    destruct Hc as [Hc | [-> | ->]]; [discriminate| |].
    + reflexivity.
    + rewrite Z.mul_0_r. reflexivity.
  - unfold pep_decompress. destruct in_pep as [p|]; [|reflexivity].
    cbn in Hd. destruct (bytes p) as [data|]; [|reflexivity].
    destruct Hd as [Hd | [-> | [-> | ->]]]; [discriminate| | |].
    + reflexivity.
    + rewrite Z.eqb_refl, orb_true_r. reflexivity.
    + rewrite Z.eqb_refl, !orb_true_r. reflexivity.
Qed.

Lemma invalid_input_results_witness :
  (exists p, pep_compress (Some [7]) 0 3 pep_bgra pep_4bit = Some p
             /\ bytes p = None /\ bytes_size p = 0)
  /\ pep_decompress (replicate 256 0) (Some pep_zero) pep_rgba 0 0 = Some None.
Proof.
  apply invalid_input_results.
  - right. left. reflexivity.
  - left. reflexivity.
Defined.

(** ** The container *)

Lemma compress_two_pixels :
  pep_compress (Some [0; 1]) 2 1 pep_rgba pep_8bit = Some two_pixel_image.
Proof. vm_compute. reflexivity. Qed.

Lemma sentinel_claim_fails : ~ sentinel_claim two_pixel_image.
Proof.
  intros H.
  destruct (H [28; 1; 0; 4; 2; 0; 0; 0; 0; 1; 0; 0; 0; 1; 254; 1; 254; 0] 17
              ltac:(vm_compute; reflexivity)) as [Hsize _].
  vm_compute in Hsize. discriminate Hsize.
Qed.

Lemma drain_bits_length fuel : forall bb bc,
  (length (fst (drain_bits fuel bb bc)) <= fuel)%nat.
Proof.
  induction fuel as [|fuel IH]; intros bb bc; cbn [drain_bits]; [cbn; lia|].
  destruct (bc >=? 8); [|cbn; lia].
  specialize (IH bb (u8 (bc - 8))). destruct (drain_bits fuel bb (u8 (bc - 8))).
  cbn in *. lia.
Qed.

Lemma write_palette_bits_length colors cb shift mask only_rgb : forall bb bc,
  (length (write_palette_bits colors cb shift mask only_rgb bb bc)
   <= 32 * length colors + 1)%nat.
Proof.
  induction colors as [|c colors IH]; intros bb bc; cbn [write_palette_bits].
  - destruct (bc >? 0); cbn; lia.
  - match goal with |- context [if only_rgb then ?a else ?b] =>
      destruct (if only_rgb then a else b) as [b4 c4] end.
    pose proof (drain_bits_length 32 b4 c4) as Hd.
    destruct (drain_bits 32 b4 c4) as [out c5]. cbn [fst] in Hd.
    rewrite length_app. specialize (IH b4 c5). cbn [length]. lia.
Qed.

Lemma write_palette8_length colors only_rgb :
  (length (write_palette8 colors only_rgb) <= 4 * length colors)%nat.
Proof.
  induction colors as [|c colors IH]; cbn [write_palette8 length]; [lia|].
  destruct only_rgb; cbn [app length]; lia.
Qed.

Lemma write_size_length fuel : forall size, (length (write_size fuel size) <= S fuel)%nat.
Proof.
  induction fuel as [|fuel IH]; intros size; cbn [write_size]; [cbn; lia|].
  destruct (size >=? 128); cbn [length]; [specialize (IH (Z.shiftr size 7))|]; lia.
Qed.

Lemma serialize_palette_length p only_rgb :
  0 <= palette_size p < 256 ->
  Z.of_nat (length (serialize_palette p only_rgb)) <= 8193.
Proof.
  intros Hps. unfold serialize_palette.
  set (colors := take _ _).
  assert (length colors <= 256)%nat.
  { subst colors. rewrite length_take. unfold palette_count_of.
    destruct (palette_size p =? 0); lia. }
  destruct (_ =? 8).
  - pose proof (write_palette8_length colors only_rgb). lia.
  - match goal with |- context [write_palette_bits ?c ?a ?b ?m ?o ?x ?y] =>
      pose proof (write_palette_bits_length c a b m o x y) end. lia.
Qed.

Lemma serialize_fields_length p data :
  0 <= palette_size p < 256 ->
  Z.of_nat (length data) = bytes_size p ->
  bytes_size p <= Z.of_nat (length (serialize_fields p data)) <= bytes_size p + 8204.
Proof.
  intros Hps Hlen. unfold serialize_fields.
  rewrite !length_app. cbn [length].
  rewrite firstn_all2 by lia.
  match goal with |- context [length (serialize_dims ?w ?h ?s)] =>
    assert (length (serialize_dims w h s) <= 3)%nat
      by (unfold serialize_dims; destruct s; cbn; lia) end.
  pose proof (write_size_length 5 (u32 (bytes_size p))).
  match goal with |- context [length (if ?b then [] else ?x :: ?l)] =>
    assert (Z.of_nat (length (if b then [] else x :: l)) <= 8194) end.
  { destruct (serialize_is_bitmap p); cbn [length]; [lia|].
    pose proof (serialize_palette_length p
                  (serialize_only_rgb p false) Hps). lia. }
  lia.
Qed.

(** C9 (amended). For a valid image ([valid_image]) the buffer returned
    by [pep_serialize] is the container fields followed by one NUL byte:
    [out_size] counts every field except that byte, the byte at index
    [out_size] is 0x00, and the [bytes_size] bytes just before it are the
    compressed bytes. *)
Theorem serialize_sentinel p data :
  valid_image p data ->
  exists buf out_size,
    pep_serialize (Some p) = (Some buf, out_size)
    /\ Z.of_nat (length buf) = out_size + 1
    /\ get buf out_size = 0
    /\ take (Z.to_nat (bytes_size p))
         (drop (Z.to_nat (out_size - bytes_size p)) buf) = data.
Proof.
  intros (Hw & Hh & Hb & Hlen & Hsize & Hps & _).
  pose proof (serialize_fields_length p data Hps Hlen) as Hf.
  unfold pep_serialize. rewrite Hb.
  destruct (Z.eqb_spec (width p) 0); [lia|].
  destruct (Z.eqb_spec (height p) 0); [lia|].
  destruct (Z.eqb_spec (bytes_size p) 0); [lia|]. cbn [orb].
  set (fields := serialize_fields p data) in *.
  assert (Hu : u32 (Z.of_nat (length fields)) = Z.of_nat (length fields)).
  { unfold u32. change 0xffffffff with (Z.ones 32).
    rewrite Z.land_ones, Z.mod_small; lia. }
  exists (fields ++ [0]), (u32 (Z.of_nat (length fields))).
  rewrite Hu. split; [reflexivity|]. split; [|split].
  - rewrite length_app. cbn [length]. lia.
  - unfold get. rewrite Nat2Z.id, lookup_app_r by lia.
    rewrite Nat.sub_diag. reflexivity.
  - assert (Hsplit : exists header, fields = header ++ data).
    { subst fields. unfold serialize_fields.
      rewrite (firstn_all2 data) by lia.
      eexists. rewrite !app_assoc. reflexivity. }
    destruct Hsplit as [header Hsplit]. rewrite Hsplit in *.
    rewrite length_app in *.
    replace (Z.to_nat (Z.of_nat (length header + length data) - bytes_size p))
      with (length header) by lia.
    rewrite <- app_assoc, drop_app_length.
    rewrite take_app_length'; [reflexivity|lia].
Qed.

Lemma serialize_sentinel_witness :
  exists buf out_size,
    pep_serialize (Some two_pixel_image) = (Some buf, out_size)
    /\ Z.of_nat (length buf) = out_size + 1
    /\ get buf out_size = 0
    /\ take (Z.to_nat (bytes_size two_pixel_image))
         (drop (Z.to_nat (out_size - bytes_size two_pixel_image)) buf)
       = [1; 254; 1; 254].
Proof.
  apply (serialize_sentinel two_pixel_image [1; 254; 1; 254]).
  unfold valid_image. cbn. repeat split; try lia.
  apply (bool_decide_unpack _). vm_compute. exact I.
Defined.

(** ** The decoder's output buffer *)

Section Canvas.

Variables (palette : list Z) (palette_size : Z) (in_format out_format : pep_format).
Variables (pre_multiply bits_per_index indices_per_byte index_mask area : Z).
Hypothesis Harea : area < 2 ^ 32.
Hypothesis Hipb : 1 <= indices_per_byte.

Lemma put_pixel_written palette_idx out pos :
  0 <= pos < area -> written_below out pos ->
  snd (put_pixel palette in_format out_format pre_multiply palette_idx out pos) = pos + 1
  /\ written_below
       (fst (put_pixel palette in_format out_format pre_multiply palette_idx out pos))
       (pos + 1)
  /\ length (fst (put_pixel palette in_format out_format pre_multiply palette_idx out pos))
     = length out.
Proof.
  intros Hpos Hout. unfold put_pixel. cbv zeta. cbn [fst snd]. split; [|split].
  - apply u64_small. lia.
  - intros k v Hk. destruct (decide (k = Z.to_nat pos)) as [->|Hne]; [lia|].
    unfold pixel_buffer in *. rewrite list_lookup_insert_ne in Hk by congruence.
    apply Hout in Hk. lia.
  - apply length_insert.
Qed.

Lemma unpack_indices_written symbol : forall n indices_in_byte out pos out' pos',
  0 <= pos -> written_below out pos ->
  unpack_indices n palette in_format out_format pre_multiply symbol bits_per_index
    indices_per_byte index_mask area indices_in_byte out pos = (out', pos') ->
  pos <= pos' <= pos + Z.of_nat n /\ written_below out' pos'
  /\ length out' = length out.
Proof.
  induction n as [|n IH]; intros iib out pos out' pos' Hpos Hout H; cbn [unpack_indices] in H.
  - injection H as <- <-. split; [lia|]. split; [assumption|reflexivity].
  - destruct ((iib <? indices_per_byte) && (pos <? area)) eqn:Hguard.
    + apply andb_prop in Hguard as [_ Hlt]. apply Z.ltb_lt in Hlt.
      destruct (put_pixel_written
                  (u8 (Z.land (Z.shiftr symbol (iib * bits_per_index)) index_mask))
                  out pos ltac:(lia) Hout) as (Hnext & Hw & Hlen).
      destruct (put_pixel _ _ _ _ _ out pos) as [out1 pos1].
      cbn [fst snd] in Hnext, Hw, Hlen.
      subst pos1. apply IH in H; [|lia|assumption].
      destruct H as (H1 & H2 & H3). split; [lia|]. split; [assumption|congruence].
    + injection H as <- <-. split; [lia|]. split; [assumption|reflexivity].
Qed.

Lemma decode_symbol_written st st' :
  0 <= d_canvas_pos st -> written_below (d_out_pixels st) (d_canvas_pos st) ->
  decode_symbol palette palette_size in_format out_format pre_multiply
    bits_per_index indices_per_byte index_mask area st = Some st' ->
  d_canvas_pos st <= d_canvas_pos st' <= d_canvas_pos st + indices_per_byte
  /\ written_below (d_out_pixels st') (d_canvas_pos st')
  /\ length (d_out_pixels st') = length (d_out_pixels st).
Proof.
  intros Hpos Hout H. unfold decode_symbol in H.
  repeat match type of H with
  | mbind _ ?m = _ =>
      destruct m as [[[[? ?] ?] ?]|] eqn:?; cbn [mbind option_bind] in H;
      [|discriminate H]
  end.
  match type of H with
  | (let '(_, _) := ?p in _) = _ => destruct p as [out' pos'] eqn:Hcanvas
  end.
  injection H as <-. cbn [d_canvas_pos d_out_pixels].
  destruct (indices_per_byte >? 1) eqn:Hmany.
  - apply unpack_indices_written in Hcanvas; [|assumption..].
    destruct Hcanvas as (H1 & H2 & H3). split; [lia|]. split; assumption.
  - destruct (Z.ltb_spec (d_canvas_pos st) area).
    + match type of Hcanvas with
      | put_pixel _ _ _ _ ?idx _ _ = _ =>
          destruct (put_pixel_written idx (d_out_pixels st) (d_canvas_pos st)
                      ltac:(lia) Hout) as (Hnext & Hw & Hlen)
      end.
      rewrite Hcanvas in Hnext, Hw, Hlen. cbn [fst snd] in Hnext, Hw, Hlen. subst pos'.
      split; [lia|]. split; assumption.
    + injection Hcanvas as <- <-. split; [lia|]. split; [assumption|reflexivity].
Qed.

Lemma decode_loop_written : forall b st st',
  0 <= d_canvas_pos st -> written_below (d_out_pixels st) (d_canvas_pos st) ->
  decode_loop b
    (decode_symbol palette palette_size in_format out_format pre_multiply
       bits_per_index indices_per_byte index_mask area) st = Some st' ->
  d_canvas_pos st' <= d_canvas_pos st + Z.of_nat b * indices_per_byte
  /\ written_below (d_out_pixels st') (d_canvas_pos st')
  /\ length (d_out_pixels st') = length (d_out_pixels st).
Proof.
  induction b as [|b IH]; intros st st' Hpos Hout H; cbn [decode_loop] in H.
  - injection H as <-. split; [lia|]. split; [assumption|reflexivity].
  - destruct (decode_symbol _ _ _ _ _ _ _ _ _ st) as [st1|] eqn:E;
      cbn [mbind option_bind] in H; [|discriminate H].
    apply decode_symbol_written in E; [|assumption..].
    destruct E as (E1 & E2 & E3).
    apply IH in H; [|lia|assumption].
    destruct H as (H1 & H2 & H3). split; [nia|]. split; [assumption|congruence].
Qed.

End Canvas.

Lemma indices_per_byte_pos palette_size :
  0 <= palette_size < 256 -> 1 <= indices_per_byte_of palette_size <= 8.
Proof.
  intros H.
  assert (Hall : Forall (fun s => 1 <= indices_per_byte_of s <= 8) (seqZ 0 256))
    by (apply (bool_decide_unpack _); vm_compute; exact I).
  rewrite Forall_forall in Hall. apply Hall, elem_of_seqZ. lia.
Qed.

(** [pep_decompress] writes whole groups only: a cell at or beyond
    [indices_per_byte * (area / indices_per_byte)] is never written, so
    the last pixels stay unwritten whenever the area is not a multiple of
    [indices_per_byte]. *)
Lemma decompress_written static_palette p out_format tfc pm out :
  0 <= palette_size p < 256 ->
  pep_decompress static_palette (Some p) out_format tfc pm = Some (Some out) ->
  let area := u32 (width p * height p) in
  let indices_per_byte := indices_per_byte_of (palette_size p) in
  length out = Z.to_nat area
  /\ written_below out (indices_per_byte * (area / indices_per_byte)).
Proof.
  intros Hps H area ipb. unfold pep_decompress in H.
  destruct (bytes p) as [data|]; [|discriminate H].
  destruct ((bytes_size p =? 0) || (width p =? 0) || (height p =? 0));
    [discriminate H|].
  fold area ipb in H.
  destruct (decode_loop _ _ _) as [st|] eqn:Hloop;
    cbn [mbind option_bind] in H; [|discriminate H].
  injection H as <-.
  pose proof (indices_per_byte_pos _ Hps) as Hipb. fold ipb in Hipb.
  assert (Ha : 0 <= area < 2 ^ 32).
  { unfold area. rewrite u32_mod. apply Z.mod_pos_bound. lia. }
  apply decode_loop_written in Hloop; cbn [d_canvas_pos d_out_pixels]; try lia.
  - destruct Hloop as (Hpos & Hw & Hlen).
    rewrite Z2Nat.id in Hpos by (apply Z.div_pos; lia).
    split.
    + rewrite Hlen. apply length_replicate.
    + intros k v Hk. apply Hw in Hk. cbn [d_canvas_pos] in Hpos. nia.
  - intros k v Hk. apply lookup_replicate in Hk as [Hk _]. discriminate Hk.
Qed.

(** The last pixel is never written when the area is not a multiple of
    [indices_per_byte]. *)
Lemma decompress_tail_unwritten static_palette p out_format tfc pm out :
  0 <= palette_size p < 256 ->
  pep_decompress static_palette (Some p) out_format tfc pm = Some (Some out) ->
  let area := u32 (width p * height p) in
  area mod indices_per_byte_of (palette_size p) <> 0 ->
  out !! Z.to_nat (area - 1) = Some None.
Proof.
  intros Hps H area Hmod.
  destruct (decompress_written _ _ _ _ _ _ Hps H) as [Hlen Hw]. fold area in Hlen, Hw.
  pose proof (indices_per_byte_pos _ Hps) as Hipb.
  set (ipb := indices_per_byte_of (palette_size p)) in *.
  assert (Ha : 0 <= area < 2 ^ 32).
  { unfold area. rewrite u32_mod. apply Z.mod_pos_bound. lia. }
  pose proof (Z.div_mod area ipb ltac:(lia)) as Hdiv.
  pose proof (Z.mod_pos_bound area ipb ltac:(lia)) as Hrem.
  assert (Hpos : area <> 0).
  { intros E. apply Hmod. rewrite E. apply Z.mod_0_l. lia. }
  destruct (out !! Z.to_nat (area - 1)) as [[v|]|] eqn:Hcell.
  - apply Hw in Hcell. lia.
  - reflexivity.
  - apply lookup_ge_None in Hcell. lia.
Qed.



(** ** Concrete images *)

Lemma one_pixel_decompress :
  pep_decompress (replicate 256 0)
    (Some (mk_pep (Some [0; 0; 0; 0; 0]) 5 1 1 pep_rgba
             (0x11223344 :: replicate 255 0) 1 pep_8bit)) pep_rgba 0 0
  = Some (Some [None]).
Proof. vm_compute. reflexivity. Qed.

Lemma compress_one_pixel :
  pep_compress (Some [0x11223344]) 1 1 pep_rgba pep_8bit
  = Some (mk_pep (Some [0; 0; 0; 0; 0]) 5 1 1 pep_rgba
            (0x11223344 :: replicate 255 0) 1 pep_8bit).
Proof. vm_compute. reflexivity. Qed.

(** C7 (amended). For the 1 by 1 image with the pixel 0x11223344 in
    rgba, [pep_compress] builds the palette [0x11223344] of size 1, uses
    1 bit per index and 8 indices per byte, codes one packed symbol (the
    partial group, from the order-0 context of total 257), and the
    compressed stream is one coded byte followed by the four flush bytes. *)
Theorem one_pixel_scenario :
  pep_compress (Some [0x11223344]) 1 1 pep_rgba pep_8bit
  = Some (mk_pep (Some [0; 0; 0; 0; 0]) 5 1 1 pep_rgba
            (0x11223344 :: replicate 255 0) 1 pep_8bit)
  /\ bits_per_index_of 1 = 1
  /\ indices_per_byte_of 1 = 8
  /\ totals_coded [0x11223344] 1 1 2 = Some [257].
Proof. split; [exact compress_one_pixel|]. evaluate. Qed.

Lemma one_pixel_claim_fails : ~ one_pixel_claim.
Proof.
  intros (p & Hp & _ & _ & _ & _ & _ & Hsize & _).
  rewrite compress_one_pixel in Hp. injection Hp as <-. discriminate Hsize.
Qed.

(** Images made of whole groups come back as they went in. *)
Lemma round_trip_whole_groups :
  round_trip (speckle 2 64) 8 8 pep_rgba
  /\ round_trip (speckle 3 64) 16 4 pep_bgra
  /\ round_trip (speckle 13 64) 4 16 pep_abgr
  /\ round_trip (speckle 200 256) 16 16 pep_argb.
Proof. evaluate. Qed.

(** C1 (the code at a failing input). The 3 by 3 image [nine_pixels] has
    two colours, so eight indices are packed per byte: [pep_compress]
    codes two packed symbols, [pep_decompress] decodes 9 / 8 = 1 of them
    and the ninth pixel of its result is never written.
    [decompress_tail_unwritten] shows the same for every image whose area
    is not a multiple of [indices_per_byte]. *)
Theorem round_trip_loses_tail :
  pep_compress (Some nine_pixels) 3 3 pep_rgba pep_8bit = Some nine_pixel_image
  /\ totals_coded nine_pixels 3 3 10 = Some [257; 259]
  /\ pep_decompress (replicate 256 0) (Some nine_pixel_image) pep_rgba 0 0
     = Some (Some (map Some (take 8 nine_pixels) ++ [None])).
Proof. evaluate. Qed.

(** C4 (the code at a failing input). In [escape_image] the context
    selected by symbol 0 reaches the sum 16382 through updates, two
    escapes then raise it to 16386 without a rescale, and the next symbol
    coded from it hands the total 16386 > 2^14 to [_pep_arith_encode]. *)
Theorem escape_total_exceeds_prob_max :
  (st ← compress_state escape_image 128 129 (Z.to_nat 16386);
   head (enc_scales (e_ac st))) = Some 16386
  /\ PEP_PROB_MAX_VALUE < 16386.
Proof.
  split; [|reflexivity].
  vm_cast_no_check (eq_refl (Some 16386)).
Qed.


(** ** The palette *)

Lemma palette_scan_spec p : forall seen rest n size,
  size = n + Z.of_nat (length seen) ->
  (p ∈ seen ->
     exists i, (i < length seen)%nat
       /\ palette_scan (seen ++ rest) size p n = n + Z.of_nat i
       /\ seen !! i = Some p)
  /\ (p ∉ seen -> palette_scan (seen ++ rest) size p n = size).
Proof.
  induction seen as [|c seen IH]; intros rest n size Hsize.
  - split; [intros H; inversion H|]. intros _. cbn [length] in Hsize.
    destruct rest as [|r rest]; cbn; [lia|].
    rewrite (proj2 (Z.ltb_ge n size)) by lia. cbn. lia.
  - cbn [app palette_scan length] in *.
    rewrite (proj2 (Z.ltb_lt n size)) by lia. cbn [andb].
    destruct (Z.eqb_spec p c) as [->|Hne]; cbn [negb].
    + split.
      * intros _. exists 0%nat. cbn. split; [lia|]. split; [lia|reflexivity].
      * intros Hnot. exfalso. apply Hnot. left.
    + destruct (IH rest (n + 1) size ltac:(lia)) as [IHin IHout]. split.
      * intros Hin. apply elem_of_cons in Hin as [?|Hin]; [contradiction|].
        destruct (IHin Hin) as (i & Hi & Hscan & Hlook).
        exists (S i). cbn. split; [lia|]. split; [lia|assumption].
      * intros Hnot. apply IHout. intros Hin. apply Hnot. right. assumption.
Qed.

(** With at most 255 colours the encoder's search never reaches its
    wrap to 0 and is the builder's scan. *)
Lemma index_search_scan p size : size <= 255 -> forall pal n,
  0 <= n -> index_search pal size p n = palette_scan pal size p n.
Proof.
  intros Hsize. induction pal as [|c pal IH]; intros n Hn; [reflexivity|].
  cbn [index_search palette_scan].
  destruct (Z.ltb_spec n size); cbn [andb]; [|reflexivity].
  destruct (negb (p =? c)); [|reflexivity].
  rewrite u16_small by lia.
  destruct (Z.geb_spec (n + 1) 256); [lia|].
  apply IH. lia.
Qed.

Lemma palette_holds_set pal size seen p :
  palette_holds pal size seen -> (length seen < 255)%nat ->
  palette_holds (set pal size p) (u8 (size + 1)) (seen ++ [p]).
Proof.
  intros (-> & Hlen & ->) Hlt. unfold palette_holds, set.
  rewrite length_app. cbn [length]. rewrite u8_small by lia.
  split; [lia|]. split; [lia|].
  rewrite Nat2Z.id.
  replace (256 - length seen)%nat with (S (256 - (length seen + 1))) by lia.
  cbn [replicate].
  rewrite insert_app_r_alt, Nat.sub_diag by lia. cbn.
  rewrite <- app_assoc. reflexivity.
Qed.

Lemma build_palette_spec : forall px first last_p pal size seen,
  palette_holds pal size seen ->
  (first = false -> last_p ∈ seen \/ length seen = 255%nat) ->
  palette_holds (fst (build_palette px first last_p pal size))
                (snd (build_palette px first last_p pal size))
                (first_colors 255 seen px).
Proof.
  induction px as [|c px IH]; intros first last_p pal size seen Hpal Hlast;
    cbn [build_palette first_colors]; [assumption|].
  assert (Hfull : length seen = 255%nat ->
            (if bool_decide (c ∈ seen) then first_colors 255 seen px
             else if (length seen <? 255)%nat then first_colors 255 (seen ++ [c]) px
                  else first_colors 255 seen px) = first_colors 255 seen px).
  { intros E. rewrite E. destruct (bool_decide (c ∈ seen)); reflexivity. }
  destruct (negb first && (c =? last_p)) eqn:Hskip.
  - (* same colour as the previous pixel *)
    apply andb_true_iff in Hskip as [Hf Heq].
    apply negb_true_iff in Hf. apply Z.eqb_eq in Heq. subst c.
    destruct (Hlast Hf) as [Hin | Hlen].
    + rewrite bool_decide_eq_true_2 by assumption. apply IH; auto.
    + rewrite Hfull by assumption. apply IH; auto.
  - destruct Hpal as (Hsize & Hlen & Hrep).
    destruct (palette_scan_spec c seen (replicate (256 - length seen) 0) 0 size
                ltac:(lia)) as [Hin Hout].
    rewrite <- Hrep in Hin, Hout.
    destruct (decide (c ∈ seen)) as [Hc | Hc].
    + rewrite bool_decide_eq_true_2 by assumption.
      destruct (Hin Hc) as (i & Hi & Hscan & _). rewrite Hscan.
      destruct (Z.geb_spec (0 + Z.of_nat i) size); [lia|]. cbn [andb].
      apply IH; [repeat split; assumption|]. intros _. left. assumption.
    + rewrite bool_decide_eq_false_2 by assumption.
      rewrite (Hout Hc).
      destruct (Z.geb_spec size size); [|lia]. cbn [andb].
      rewrite u16_small by lia.
      destruct (Z.ltb_spec (size + 1) 256) as [Hroom | Hroom].
      * rewrite (proj2 (Nat.ltb_lt (length seen) 255)) by lia.
        apply IH.
        -- apply palette_holds_set; [repeat split; assumption | lia].
        -- intros _. left. apply elem_of_app. right. left.
      * rewrite (proj2 (Nat.ltb_ge (length seen) 255)) by lia.
        apply IH; [repeat split; assumption|]. intros _. right. lia.
Qed.

Lemma first_colors_NoDup cap : forall px seen,
  NoDup seen -> NoDup (first_colors cap seen px).
Proof.
  induction px as [|c px IH]; intros seen Hnd; cbn [first_colors]; [assumption|].
  destruct (decide (c ∈ seen)) as [Hc | Hc].
  - rewrite bool_decide_eq_true_2 by assumption. auto.
  - rewrite bool_decide_eq_false_2 by assumption.
    destruct (length seen <? cap)%nat; [|auto].
    apply IH. apply NoDup_app. split; [assumption|]. split.
    + intros x Hx Hx'. apply list_elem_of_singleton in Hx'. subst x. contradiction.
    + apply NoDup_singleton.
Qed.

Lemma compress_palette_holds in_pixels w h :
  palette_holds (fst (compress_palette in_pixels w h))
                (snd (compress_palette in_pixels w h))
                (first_colors 255 [] (pixels_read in_pixels w h)).
Proof.
  unfold compress_palette. apply build_palette_spec.
  - repeat split; cbn; lia.
  - discriminate.
Qed.

(** C6 (amended). [pep_compress] scans the pixels in order and appends
    each colour that is not in the palette yet until the palette holds
    255 entries; the entries are pairwise distinct, and a pixel whose
    colour is in the palette is coded by the one id whose entry is that
    colour. *)
Theorem palette_construction in_pixels w h p :
  let pal := fst (compress_palette in_pixels w h) in
  let size := snd (compress_palette in_pixels w h) in
  let colors := first_colors 255 [] (pixels_read in_pixels w h) in
  p ∈ colors ->
  take (Z.to_nat size) pal = colors
  /\ 0 <= size <= 255
  /\ NoDup colors
  /\ (let id := index_search pal size p 0 in
      0 <= id < size /\ get pal id = p
      /\ forall j, 0 <= j < size -> get pal j = p -> j = id).
Proof.
  intros pal size colors Hp.
  destruct (compress_palette_holds in_pixels w h) as (Hsize & Hlen & Hrep).
  fold pal size colors in Hsize, Hlen, Hrep.
  assert (Hnd : NoDup colors) by (apply first_colors_NoDup, NoDup_nil_2).
  split; [|split; [|split]].
  - rewrite Hrep, Hsize, Nat2Z.id. apply take_app_length.
  - lia.
  - assumption.
  - cbn zeta. rewrite index_search_scan by lia.
    destruct (palette_scan_spec p colors (replicate (256 - length colors) 0) 0 size
                ltac:(lia)) as [Hin _].
    destruct (Hin Hp) as (i & Hi & Hscan & Hlook).
    rewrite <- Hrep in Hscan. rewrite Hscan, Z.add_0_l.
    assert (Hget : forall k, (k < length colors)%nat ->
              get pal (Z.of_nat k) = default 0 (colors !! k)).
    { intros k Hk. unfold get. rewrite Nat2Z.id, Hrep, lookup_app_l by lia.
      reflexivity. }
    split; [lia|]. split.
    + rewrite Hget, Hlook by assumption. reflexivity.
    + intros j Hj Hpj.
      assert (Hjn : (Z.to_nat j < length colors)%nat) by lia.
      rewrite <- (Z2Nat.id j) in Hpj by lia.
      rewrite Hget in Hpj by assumption.
      destruct (colors !! Z.to_nat j) as [x|] eqn:Hx.
      * cbn in Hpj. subst x.
        pose proof (NoDup_lookup _ _ _ _ Hnd Hx Hlook). lia.
      * apply lookup_ge_None in Hx. lia.
Qed.

Lemma palette_construction_witness :
  let in_pixels := [7; 7; 9; 7; 11; 9] in
  let pal := fst (compress_palette in_pixels 3 2) in
  let size := snd (compress_palette in_pixels 3 2) in
  take (Z.to_nat size) pal = [7; 9; 11]
  /\ 0 <= size <= 255
  /\ NoDup [7; 9; 11]
  /\ (let id := index_search pal size 9 0 in
      0 <= id < size /\ get pal id = 9
      /\ forall j, 0 <= j < size -> get pal j = 9 -> j = id).
Proof.
  apply (palette_construction [7; 7; 9; 7; 11; 9] 3 2 9).
  apply (bool_decide_unpack _). vm_compute. exact I.
Defined.

(** With 257 distinct colours in a row the palette stops at 255 entries,
    and the two colours left out are both coded as id 255. *)
Lemma palette_of_257_colors :
  let pal := fst (compress_palette (seqZ 0 257) 257 1) in
  let size := snd (compress_palette (seqZ 0 257) 257 1) in
  size = 255
  /\ pal = seqZ 0 255 ++ [0]
  /\ index_search pal size 255 0 = 255
  /\ index_search pal size 256 0 = 255.
Proof. evaluate. Qed.

Lemma palette_claim_fails : ~ palette_claim (seqZ 0 257) 257 1.
Proof.
  intros [_ Hid]. specialize (Hid 256).
  destruct palette_of_257_colors as (_ & _ & _ & H256).
  cbn zeta in Hid, H256. rewrite H256 in Hid.
  assert (Hin : 256 ∈ pixels_read (seqZ 0 257) 257 1)
    by (apply (bool_decide_unpack _); vm_compute; exact I).
  specialize (Hid Hin).
  assert (Hout : bool_decide (256 ∈ first_colors 256 [] (pixels_read (seqZ 0 257) 257 1))
                 = false) by (vm_compute; reflexivity).
  rewrite Hout in Hid. discriminate Hid.
Qed.


(** ** The container: reading back what [pep_serialize] wrote *)

Lemma flags_decode p is_small only_rgb is_bitmap :
  let flags := serialize_flags p is_small only_rgb is_bitmap in
  format_of_val (Z.land flags 0x3) = format p
  /\ channel_bits_of_val (Z.land (Z.shiftr flags 2) 0x3) = channel_bits p
  /\ Z.land (Z.shiftr flags 4) 0x1 = bool_val is_small
  /\ negb (Z.land (Z.shiftr flags 5) 0x1 =? 0) = only_rgb
  /\ Z.land (Z.shiftr flags 6) 0x1 = bool_val is_bitmap.
Proof.
  unfold serialize_flags.
  destruct (format p), (channel_bits p), is_small, only_rgb, is_bitmap;
    repeat split; reflexivity.
Qed.

Lemma read_dims_serialize w h rest :
  0 <= w < 4096 -> 0 <= h < 4096 ->
  let is_small := (w <=? 255) && (h <=? 255) in
  read_dims (bool_val is_small) (serialize_dims w h is_small ++ rest)
  = Some (w, h, rest).
Proof.
  intros Hw Hh is_small. unfold read_dims, serialize_dims.
  destruct is_small eqn:E; subst is_small; cbn [bool_val Z.eqb negb app read_byte mbind option_bind].
  - apply andb_true_iff in E as [E1 E2]. apply Z.leb_le in E1, E2.
    change 0xff with (Z.ones 8). rewrite !Z.land_ones, !Z.mod_small by lia.
    reflexivity.
  - do 3 f_equal; [f_equal|].
    + change 0xfff with (Z.ones 12). change 0xff with (Z.ones 8).
      rewrite <- (Z.mod_small w (2 ^ 12)) at 4 by lia. Z.bitblast; Z.bitblast_core.
    + change 0xfff with (Z.ones 12). change 0xff with (Z.ones 8).
      rewrite <- (Z.mod_small h (2 ^ 12)) at 4 by lia. Z.bitblast; Z.bitblast_core.
Qed.

Lemma size_byte_last n :
  0 <= n < 128 ->
  u8 n = n /\ Z.land n 0x7f = n /\ Z.land n 0x80 = 0.
Proof.
  intros Hn. split; [apply u8_small; lia|]. split.
  - change 0x7f with (Z.ones 7). rewrite Z.land_ones, Z.mod_small; lia.
  - rewrite <- (Z.mod_small n (2 ^ 7)) by lia. change 0x80 with (2 ^ 7).
    apply Z.bits_inj'. intros i Hi.
    rewrite Z.land_spec, Z.testbit_mod_pow2, Z.pow2_bits_eqb, Z.bits_0 by lia.
    destruct (Z.ltb_spec i 7), (Z.eqb_spec 7 i); try lia;
      rewrite ?andb_false_r; reflexivity.
Qed.

Lemma size_byte_more n :
  let b := Z.land (Z.lor n 0x80) 0xff in
  Z.land b 0x7f = Z.land n 0x7f /\ Z.land b 0x80 <> 0.
Proof.
  intros b. subst b. split.
  - change 0x7f with (Z.ones 7). change 0xff with (Z.ones 8). change 0x80 with (2 ^ 7).
    apply Z.bits_inj'. intros i Hi.
    rewrite !Z.land_spec, Z.lor_spec, Z.pow2_bits_eqb, !Z.testbit_ones_nonneg by lia.
    destruct (Z.ltb_spec i 7), (Z.ltb_spec i 8), (Z.eqb_spec 7 i); try lia;
      rewrite ?andb_false_r, ?orb_false_r, ?andb_true_r; reflexivity.
  - intros H. apply (f_equal (fun x => Z.testbit x 7)) in H.
    change 0x80 with (2 ^ 7) in H. change 0xff with (Z.ones 8) in H.
    rewrite !Z.land_spec, Z.lor_spec, Z.pow2_bits_eqb, Z.testbit_ones_nonneg in H by lia.
    rewrite Z.bits_0, orb_true_r in H. discriminate H.
Qed.

Lemma size_bits_join n shift :
  0 <= shift ->
  Z.lor (u32 (Z.shiftl (Z.land n 0x7f) shift))
        (u32 (Z.shiftl (Z.shiftr n 7) (shift + 7)))
  = u32 (Z.shiftl n shift).
Proof.
  intros Hs. unfold u32. change 0x7f with (Z.ones 7). change 0xffffffff with (Z.ones 32).
  Z.bitblast. rewrite Z.testbit_neg_r by lia. reflexivity.
Qed.

Lemma read_write_size fuel : forall n rest acc shift,
  0 <= n < 2 ^ (7 * (Z.of_nat fuel + 1)) ->
  0 <= shift -> shift + 7 * Z.of_nat fuel < 256 ->
  read_size (write_size fuel n ++ rest) acc shift
  = Some (Z.lor acc (u32 (Z.shiftl n shift)), rest).
Proof.
  assert (Hlast : forall n rest acc shift, 0 <= n < 128 ->
            read_size ([u8 n] ++ rest) acc shift
            = Some (Z.lor acc (u32 (Z.shiftl n shift)), rest)).
  { intros n rest acc shift Hn. destruct (size_byte_last n Hn) as (-> & E1 & E2).
    cbn [app read_size]. rewrite E1, E2. reflexivity. }
  induction fuel as [|fuel IH]; intros n rest acc shift Hn Hs Hshift.
  - cbn [write_size]. apply Hlast. cbn in Hn. lia.
  - cbn [write_size]. destruct (Z.geb_spec n 128) as [Hbig | Hsmall].
    + destruct (size_byte_more n) as [E1 E2].
      cbn [app read_size]. rewrite E1.
      destruct (Z.eqb_spec (Z.land (Z.land (Z.lor n 128) 255) 128) 0); [contradiction|].
      cbn [negb]. rewrite u8_small by lia.
      rewrite IH.
      * rewrite <- Z.lor_assoc, size_bits_join by lia. reflexivity.
      * rewrite Z.shiftr_div_pow2 by lia. split; [apply Z.div_pos; lia|].
        apply Z.div_lt_upper_bound; [lia|].
        rewrite <- Z.pow_add_r by lia.
        replace (7 + 7 * (Z.of_nat fuel + 1)) with (7 * (Z.of_nat (S fuel) + 1)) by lia.
        lia.
      * lia.
      * lia.
    + apply Hlast. lia.
Qed.

Lemma color_bytes_join c :
  0 <= c < 2 ^ 32 ->
  color_of_bytes (color_byte c 0) (color_byte c 1) (color_byte c 2) (color_byte c 3) = c.
Proof.
  intros Hc. unfold color_of_bytes, color_byte. change 0xff with (Z.ones 8).
  rewrite <- (Z.mod_small c (2 ^ 32)) at 5 by lia.
  Z.bitblast.
Qed.

Lemma read_write_palette8 only_rgb rest : forall colors,
  Forall (fun c => 0 <= c < 2 ^ 32) colors ->
  (only_rgb = true -> Forall (fun c => color_byte c 3 = 0xff) colors) ->
  read_palette8 (length colors) only_rgb (write_palette8 colors only_rgb ++ rest)
  = Some (colors, rest).
Proof.
  induction colors as [|c colors IH]; intros Hrange Halpha; [reflexivity|].
  apply Forall_cons in Hrange as [Hc Hrange].
  cbn [length read_palette8 write_palette8 app read_byte mbind option_bind].
  destruct only_rgb.
  - specialize (Halpha eq_refl). apply Forall_cons in Halpha as [Ha Halpha].
    cbn [app mbind option_bind]. rewrite IH by auto. cbn [mbind option_bind].
    rewrite <- Ha, color_bytes_join by assumption. reflexivity.
  - cbn [app read_byte mbind option_bind]. rewrite IH by (auto; discriminate).
    cbn [mbind option_bind]. rewrite color_bytes_join by assumption. reflexivity.
Qed.

Lemma has_bytes_color c b0 b1 b2 b3 :
  0 <= c < 2 ^ 32 -> has_bytes c b0 b1 b2 b3 = true -> c = color_of_bytes b0 b1 b2 b3.
Proof.
  intros Hc H. unfold has_bytes in H.
  repeat (apply andb_true_iff in H as [H ?]).
  repeat match goal with E : (_ =? _) = true |- _ => apply Z.eqb_eq in E end.
  rewrite <- (color_bytes_join c Hc). congruence.
Qed.

Lemma is_white_color c : 0 <= c < 2 ^ 32 -> is_white c = true -> c = 0xffffffff.
Proof. intros Hc H. apply (has_bytes_color c 255 255 255 255 Hc H). Qed.

(** The palette of a bitmap whose first colour is not white. *)
Lemma bitmap_palette p :
  length (palette p) = 256%nat ->
  Forall (fun c => 0 <= c < 2 ^ 32) (palette p) ->
  serialize_is_bitmap p = true -> bitmap_white_first p = false ->
  palette_size p = 2
  /\ take 2 (palette p)
     = [if format_val (format p) <=? format_val pep_bgra
        then 0xff000000 else 0x000000ff; 0xffffffff].
Proof.
  intros Hlen Hrange Hbm Hwf. unfold bitmap_white_first in Hwf. rewrite Hbm in Hwf.
  cbn [andb] in Hwf. unfold serialize_is_bitmap in Hbm.
  destruct (palette p) as [|c0 [|c1 pal]] eqn:Hpal; try discriminate Hlen.
  apply Forall_cons in Hrange as [Hc0 Hrange].
  apply Forall_cons in Hrange as [Hc1 _].
  change (get (c0 :: c1 :: pal) 0) with c0 in *.
  change (get (c0 :: c1 :: pal) 1) with c1 in *.
  rewrite Hwf in Hbm. cbn [andb orb] in Hbm.
  destruct (Z.eqb_spec (palette_count_of (palette_size p)) 2) as [Hcount|];
    [|discriminate Hbm].
  split.
  { unfold palette_count_of in Hcount. destruct (palette_size p =? 0); [discriminate|assumption]. }
  cbn [take].
  destruct (format_val (format p) <=? format_val pep_bgra);
    apply andb_true_iff in Hbm as [Hblack Hwhite];
    rewrite (is_white_color c1 Hc1 Hwhite);
    rewrite (has_bytes_color c0 _ _ _ _ Hc0 Hblack); reflexivity.
Qed.

Lemma only_rgb_alpha p :
  serialize_only_rgb p false = true ->
  Forall (fun c => color_byte c 3 = 0xff)
    (take (Z.to_nat (palette_count_of (palette_size p))) (palette p)).
Proof.
  unfold serialize_only_rgb. intros H. apply Forall_forall. intros c Hc.
  rewrite forallb_forall in H. apply Z.eqb_eq, H. apply list_elem_of_In. assumption.
Qed.

(** [pep_deserialize] on the buffer [pep_serialize] writes. *)
Lemma deserialize_fields p data :
  1 <= width p <= 4096 -> 1 <= height p <= 4096 ->
  Z.of_nat (length data) = bytes_size p ->
  0 < bytes_size p < 2 ^ 32 ->
  0 <= palette_size p < 256 ->
  length (palette p) = 256%nat ->
  Forall (fun c => 0 <= c < 2 ^ 32) (palette p) ->
  channel_bits p = pep_8bit \/ serialize_is_bitmap p = true ->
  bitmap_white_first p = false ->
  exists colors,
    pep_deserialize (Some (serialize_fields p data ++ [0]))
    = Some (mk_pep (Some data) (bytes_size p) (width p) (height p) (format p)
              (colors ++ replicate (256 - length colors) 0)
              (palette_size p) (channel_bits p))
    /\ colors = take (Z.to_nat (palette_count_of (palette_size p))) (palette p).
Proof.
  intros Hw Hh Hlen Hsize Hps Hpal Hrange Hcb Hwf.
  unfold pep_deserialize, serialize_fields.
  set (w := u16 (width p - 1)). set (h := u16 (height p - 1)).
  assert (Ew : w = width p - 1) by (apply u16_small; lia).
  assert (Eh : h = height p - 1) by (apply u16_small; lia).
  set (is_small := (w <=? 255) && (h <=? 255)).
  set (is_bitmap := serialize_is_bitmap p) in *.
  set (only_rgb := serialize_only_rgb p is_bitmap).
  destruct (flags_decode p is_small only_rgb is_bitmap) as (F1 & F2 & F3 & F4 & F5).
  cbn zeta in F1, F2, F3, F4, F5.
  cbn [app read_byte mbind option_bind]. rewrite F1, F2, F3, F4, F5.
  rewrite <- !app_assoc.
  subst is_small. clearbody w h. rewrite read_dims_serialize by lia.
  cbn [mbind option_bind].
  rewrite (read_write_size 5).
  2-4: rewrite ?u32_small by lia.
  2-4: change (7 * (Z.of_nat 5 + 1)) with 42.
  2-4: change (Z.of_nat 5) with 5.
  2-4: lia.
  cbn [mbind option_bind].
  rewrite Z.lor_0_l, Z.shiftl_0_r, (u32_small (bytes_size p)), u32_small by lia.
  rewrite (firstn_all2 data) by lia.
  assert (Hdata : forall colors ps,
    (if Z.of_nat (length (data ++ [0])) <? bytes_size p then None
     else Some (mk_pep (Some (take (Z.to_nat (bytes_size p)) (data ++ [0])))
                  (bytes_size p) (u16 (w + 1)) (u16 (h + 1)) (format p)
                  (colors ++ replicate (256 - length colors) 0) ps (channel_bits p)))
    = Some (mk_pep (Some data) (bytes_size p) (width p) (height p) (format p)
              (colors ++ replicate (256 - length colors) 0) ps (channel_bits p))).
  { intros colors ps. rewrite length_app. cbn [length].
    destruct (Z.ltb_spec (Z.of_nat (length data + 1)) (bytes_size p)); [lia|].
    rewrite take_app_length' by lia.
    rewrite Ew, Eh, !u16_small by lia. do 3 f_equal; lia. }
  unfold read_palette. clear F1 F2 F3 F4 F5.
  destruct is_bitmap eqn:Hbm; cbn [bool_val Z.eqb negb].
  - destruct (bitmap_palette p Hpal Hrange Hbm Hwf) as [Hps2 Htake].
    cbn [mbind option_bind]. rewrite app_nil_l, Hdata.
    eexists. split; [rewrite Hps2; reflexivity|].
    rewrite Hps2. exact (eq_sym Htake).
  - destruct Hcb as [Hcb | Hcb]; [|discriminate Hcb].
    cbn [app read_byte mbind option_bind].
    rewrite u8_small by lia.
    unfold serialize_palette. rewrite Hcb in Hdata |- *.
    change (u8 (Z.shiftl 1 (channel_bits_val pep_8bit))) with 8.
    change (u16 (Z.shiftl 1 (channel_bits_val pep_8bit))) with 8.
    cbn [Z.eqb Pos.eqb].
    set (colors := take (Z.to_nat (palette_count_of (palette_size p))) (palette p)).
    assert (Hcount : length colors = Z.to_nat (palette_count_of (palette_size p))).
    { subst colors. rewrite length_take. unfold palette_count_of.
      destruct (palette_size p =? 0); lia. }
    rewrite <- Hcount, read_write_palette8.
    + cbn [mbind option_bind]. rewrite Hdata. eauto.
    + subst colors. apply Forall_take. assumption.
    + intros Hrgb. apply only_rgb_alpha. subst only_rgb. exact Hrgb.
Qed.

(** C2 (amended). For a valid image (dimensions between 1 and 4096, a
    non-empty compressed buffer shorter than 2^31 bytes, 32-bit palette
    entries) that is stored at 8 bits per channel or takes the bitmap
    path, and whose palette is not the white-then-black one of the bitmap
    path ([bitmap_white_first] false), [pep_deserialize] applied to the
    buffer of [pep_serialize] gives back the width, height, format,
    channel_bits, palette_size, palette entries, bytes_size and
    compressed bytes. *)
Theorem serialize_round_trip p data :
  valid_image p data ->
  channel_bits p = pep_8bit \/ serialize_is_bitmap p = true ->
  bitmap_white_first p = false ->
  container_claim p.
Proof.
  intros (Hw & Hh & Hb & Hlen & Hsize & Hps & Hpal & Hrange) Hcb Hwf.
  destruct (deserialize_fields p data Hw Hh Hlen ltac:(lia) Hps Hpal Hrange Hcb Hwf)
    as (colors & Hd & Hcolors).
  unfold container_claim, pep_serialize. rewrite Hb.
  destruct (Z.eqb_spec (width p) 0); [lia|].
  destruct (Z.eqb_spec (height p) 0); [lia|].
  destruct (Z.eqb_spec (bytes_size p) 0); [lia|]. cbn [orb].
  eexists _, _, _. split; [reflexivity|]. split; [exact Hd|].
  unfold same_image; cbn [width height format channel_bits palette_size palette
                          bytes_size bytes].
  repeat split; try reflexivity; [|symmetry; assumption].
  assert (Hcount : 0 < palette_count_of (palette_size p) <= 256)
    by (unfold palette_count_of; destruct (Z.eqb_spec (palette_size p) 0); lia).
  rewrite Hcolors at 1.
  rewrite take_app_le by (rewrite length_take, Hpal; lia).
  rewrite take_take. f_equal. lia.
Qed.

Lemma serialize_round_trip_witness : container_claim two_pixel_image.
Proof.
  apply (serialize_round_trip two_pixel_image [1; 254; 1; 254]).
  - unfold valid_image. cbn. repeat split; try lia.
    apply (bool_decide_unpack _). vm_compute. exact I.
  - left. reflexivity.
  - reflexivity.
Defined.

Lemma compress_four_bit :
  pep_compress (Some [0x12345678; 0xff345678]) 2 1 pep_rgba pep_4bit
  = Some four_bit_image.
Proof. vm_compute. reflexivity. Qed.

Lemma compress_white_black :
  pep_compress (Some [0xffffffff; 0xff000000]) 2 1 pep_rgba pep_8bit
  = Some white_black_image.
Proof. vm_compute. reflexivity. Qed.

(** The palette does not come back at 4 bits per channel, and the
    white-then-black bitmap comes back black-then-white. *)
Lemma container_claim_fails :
  ~ container_claim four_bit_image /\ ~ container_claim white_black_image.
Proof.
  split; intros (buf & n & q & Hs & Hd & Hsame);
    vm_compute in Hs; injection Hs as <- <-;
    vm_compute in Hd; injection Hd as <-;
    destruct Hsame as (_ & _ & _ & _ & _ & Hpal & _);
    vm_compute in Hpal; discriminate Hpal.
Qed.


(** ** The model without the coder *)

Lemma u32_range x : 0 <= u32 x < 2 ^ 32.
Proof. rewrite u32_mod. apply Z.mod_pos_bound. lia. Qed.

(** A well-formed probability leaves the registers 32-bit and the range
    positive, so the renormalization that follows terminates. *)
Lemma arith_encode_ok ac prob :
  coder_ok ac -> prob_ok prob = true ->
  exists ac',
    _pep_arith_encode_normalize normalize_fuel (_pep_arith_encode ac prob) = Some ac'
    /\ coder_ok ac'.
Proof.
  intros [Hl Hr] Hp. unfold prob_ok in Hp.
  repeat (apply andb_true_iff in Hp as [Hp ?]).
  repeat match goal with
         | H : (_ <=? _) = true |- _ => apply Z.leb_le in H
         | H : (_ <? _) = true |- _ => apply Z.ltb_lt in H
         end.
  change PEP_PROB_MAX_VALUE with (2 ^ 14) in *.
  destruct (encode_normalize_total (_pep_arith_encode ac prob)) as (ac' & Hn & Hr' & Hl').
  - unfold _pep_arith_encode, regs_ok. cbn [enc_low enc_range].
    split; [apply u32_range|].
    set (r := enc_range ac / prob_scale prob).
    assert (Hr1 : 1 <= r) by (apply Z.div_le_lower_bound; lia).
    assert (Hr2 : r * prob_scale prob <= enc_range ac)
      by (subst r; rewrite Z.mul_comm; apply Z.mul_div_le; lia).
    rewrite (u32_small (prob_high prob - prob_low prob)) by lia.
    rewrite u32_small; nia.
  - exists ac'. split; [assumption|]. split; assumption.
Qed.

Lemma code_probs_nil ac : code_probs ac [] = Some ac.
Proof. reflexivity. Qed.

Lemma code_probs_cons ac prob rest :
  code_probs ac (prob :: rest)
  = (ac' ← _pep_arith_encode_normalize normalize_fuel (_pep_arith_encode ac prob);
     code_probs ac' rest).
Proof. reflexivity. Qed.

Lemma bind_some {A B} (x : A) (f : A -> option B) : Some x ≫= f = f x.
Proof. reflexivity. Qed.

Lemma bind_none {A B} (f : A -> option B) : None ≫= f = None.
Proof. reflexivity. Qed.

Lemma code_probs_ok : forall probs ac,
  coder_ok ac -> forallb prob_ok probs = true ->
  exists ac', code_probs ac probs = Some ac' /\ coder_ok ac'.
Proof.
  induction probs as [|prob probs IH]; intros ac Hac Hp.
  - rewrite code_probs_nil. eauto.
  - cbn [forallb] in Hp. apply andb_true_iff in Hp as [Hp Hps].
    rewrite code_probs_cons.
    destruct (arith_encode_ok ac prob Hac Hp) as (ac1 & -> & Hac1).
    rewrite bind_some. apply IH; assumption.
Qed.

(** [encode_symbol] is [model_symbol] with the coder fed in between. *)
Lemma encode_symbol_model palette_size st :
  encode_symbol palette_size st
  = (ac' ← code_probs (e_ac st) (fst (model_symbol palette_size st));
     Some (with_ac (snd (model_symbol palette_size st)) ac')).
Proof.
  unfold encode_symbol, model_symbol, with_ac.
  destruct (negb (sum _ =? 0) && negb (get _ _ =? 0)).
  - destruct (PEP_UPDATE _ _ _ _) as [context' freq_max'].
    cbn [fst snd]. rewrite code_probs_cons.
    destruct (_pep_arith_encode_normalize _ _) as [ac1|];
      rewrite ?bind_some, ?bind_none, ?code_probs_nil, ?bind_some; reflexivity.
  - destruct (negb (sum _ =? 0));
      destruct (PEP_UPDATE _ _ _ _) as [order0' freq_max']; cbn [fst snd].
    + rewrite <- app_comm_cons, app_nil_l, code_probs_cons.
      destruct (_pep_arith_encode_normalize normalize_fuel
                  (_pep_arith_encode (e_ac st) _)) as [ac1|];
        rewrite ?bind_some, ?bind_none; [|reflexivity].
      rewrite code_probs_cons.
      destruct (_pep_arith_encode_normalize _ _) as [ac2|];
        rewrite ?bind_some, ?bind_none, ?code_probs_nil, ?bind_some; reflexivity.
    + rewrite bind_some, app_nil_l, code_probs_cons.
      destruct (_pep_arith_encode_normalize _ _) as [ac1|];
        rewrite ?bind_some, ?bind_none, ?code_probs_nil, ?bind_some; reflexivity.
Qed.

Lemma model_symbol_with_ac palette_size st ac :
  model_symbol palette_size (with_ac st ac)
  = (fst (model_symbol palette_size st),
     with_ac (snd (model_symbol palette_size st)) ac).
Proof.
  unfold model_symbol, with_ac.
  cbn [e_contexts e_ac e_context_id e_indices_in_byte e_symbol e_freq_max].
  destruct (negb (sum _ =? 0) && negb (get _ _ =? 0)).
  - destruct (PEP_UPDATE _ _ _ _). reflexivity.
  - destruct (negb (sum _ =? 0)); destruct (PEP_UPDATE _ _ _ _); reflexivity.
Qed.

Lemma encode_iter_model pal palette_size bpi ipb px st ac :
  encode_iter pal palette_size bpi ipb px (with_ac st ac)
  = (let '(probs, px', st') := model_iter pal palette_size bpi ipb px st in
     ac' ← code_probs ac probs; Some (px', with_ac st' ac')).
Proof.
  assert (Hsym : forall st1,
    (st2 ← encode_symbol palette_size (with_ac st1 ac);
     Some (@pair (list Z) encoder (match px with [] => [] | _ :: rest => rest end) st2))
    = (let '(probs, st2) := model_symbol palette_size st1 in
       ac' ← code_probs ac probs;
       Some (match px with [] => [] | _ :: rest => rest end, with_ac st2 ac'))).
  { intros st1. rewrite encode_symbol_model, model_symbol_with_ac.
    destruct (model_symbol palette_size st1) as [probs st2].
    change (e_ac (with_ac st1 ac)) with ac. cbn [fst snd].
    destruct (code_probs ac probs); rewrite ?bind_some, ?bind_none; reflexivity. }
  unfold encode_iter, model_iter.
  destruct px as [|p rest].
  - change (e_indices_in_byte (with_ac st ac)) with (e_indices_in_byte st).
    destruct ((e_indices_in_byte st >=? ipb)
              || (is_nil [] && (e_indices_in_byte st >? 0))).
    + rewrite (Hsym st). destruct (model_symbol palette_size st). reflexivity.
    + rewrite code_probs_nil, bind_some. reflexivity.
  - change (e_indices_in_byte (with_ac st ac)) with (e_indices_in_byte st).
    change (e_symbol (with_ac st ac)) with (e_symbol st).
    change (e_contexts (with_ac st ac)) with (e_contexts st).
    change (e_context_id (with_ac st ac)) with (e_context_id st).
    change (e_freq_max (with_ac st ac)) with (e_freq_max st).
    change (e_ac (with_ac st ac)) with ac.
    match goal with |- context [u8 (Z.lor ?a ?b)] => set (symbol := u8 (Z.lor a b)) end.
    set (iib := u8 (e_indices_in_byte st + 1)).
    change (e_indices_in_byte (mk_encoder (e_contexts st) ac (e_context_id st) iib
                                 symbol (e_freq_max st))) with iib.
    change (e_indices_in_byte (mk_encoder (e_contexts st) (e_ac st) (e_context_id st)
                                 iib symbol (e_freq_max st))) with iib.
    destruct ((iib >=? ipb) || (is_nil rest && (iib >? 0))).
    + change (mk_encoder (e_contexts st) ac (e_context_id st) iib symbol (e_freq_max st))
        with (with_ac (mk_encoder (e_contexts st) (e_ac st) (e_context_id st) iib
                         symbol (e_freq_max st)) ac).
      rewrite (Hsym _). destruct (model_symbol palette_size _). reflexivity.
    + rewrite code_probs_nil, bind_some. reflexivity.
Qed.

(** The encode loop follows the model as long as the probabilities are
    well formed, and it does return. *)
Lemma encode_loop_model pal palette_size bpi ipb : forall n px st st' ac,
  coder_ok ac ->
  model_loop n pal palette_size bpi ipb px st = Some st' ->
  exists ac',
    encode_loop n pal palette_size bpi ipb px (with_ac st ac) = Some (with_ac st' ac')
    /\ coder_ok ac'.
Proof.
  assert (Hm : forall n px st,
    model_loop (S n) pal palette_size bpi ipb px st
    = if is_nil px && negb (e_indices_in_byte st >? 0) then Some st
      else
        let '(probs, px', st') := model_iter pal palette_size bpi ipb px st in
        if forallb prob_ok probs
        then model_loop n pal palette_size bpi ipb px' st'
        else None) by reflexivity.
  assert (He : forall n px st,
    encode_loop (S n) pal palette_size bpi ipb px st
    = if is_nil px && negb (e_indices_in_byte st >? 0) then Some st
      else
        '(px', st') ← encode_iter pal palette_size bpi ipb px st;
        encode_loop n pal palette_size bpi ipb px' st') by reflexivity.
  induction n as [|n IH]; intros px st st' ac Hac H.
  - injection H as <-. exists ac. split; [reflexivity|assumption].
  - rewrite Hm in H. rewrite He.
    change (e_indices_in_byte (with_ac st ac)) with (e_indices_in_byte st).
    destruct (is_nil px && negb (e_indices_in_byte st >? 0)).
    + injection H as <-. exists ac. split; [reflexivity|assumption].
    + rewrite encode_iter_model.
      destruct (model_iter pal palette_size bpi ipb px st) as [[probs px'] st1].
      destruct (forallb prob_ok probs) eqn:Hp; [|discriminate H].
      destruct (code_probs_ok probs ac Hac Hp) as (ac1 & -> & Hac1).
      rewrite bind_some. apply IH; assumption.
Qed.

Lemma with_ac_init : with_ac encoder_init (e_ac encoder_init) = encoder_init.
Proof. reflexivity. Qed.

Lemma compress_state_model in_pixels w h n st' :
  compress_model in_pixels w h n = Some st' ->
  exists ac', compress_state in_pixels w h n = Some (with_ac st' ac').
Proof.
  unfold compress_model, compress_state.
  destruct (compress_palette in_pixels w h) as [pal size]. intros Hm.
  rewrite <- with_ac_init.
  assert (Hinit : coder_ok (e_ac encoder_init))
    by (vm_compute; intuition discriminate).
  destruct (encode_loop_model _ _ _ _ _ _ _ _ _ Hinit Hm) as (ac' & -> & _).
  eauto.
Qed.


(** ** The frequency update *)

Lemma rescale_loop_halve : forall fs acc,
  Forall (fun f => 0 <= f < 2 ^ 16) fs ->
  0 <= acc -> acc + 2 ^ 15 * Z.of_nat (length fs) < 2 ^ 32 ->
  rescale_loop fs acc = (map halve fs, acc + total (map halve fs))
  /\ 0 <= total (map halve fs) <= 2 ^ 15 * Z.of_nat (length fs).
Proof.
  induction fs as [|f fs IH]; intros acc Hfs Hacc Hsum.
  - cbn. split; [f_equal|]; lia.
  - apply Forall_cons in Hfs as [Hf Hfs].
    cbn [rescale_loop map total foldr length] in *. fold (total (map halve fs)).
    destruct (Z.eqb_spec f 0) as [->|Hnz].
    + change (halve 0) with 0.
      destruct (IH acc Hfs Hacc ltac:(lia)) as [-> Hb]. split; [f_equal|]; lia.
    + assert (Hh : 0 <= (f + 1) / 2 <= 2 ^ 15).
      { split; [apply Z.div_pos; lia|].
        apply Z.div_le_upper_bound; lia. }
      assert (Ef : halve f = (f + 1) / 2).
      { unfold halve. destruct (Z.eqb_spec f 0); [contradiction|reflexivity]. }
      rewrite Ef, Z.shiftr_div_pow2 by lia. change (2 ^ 1) with 2.
      rewrite (u16_small ((f + 1) / 2)) by lia.
      rewrite u32_small by lia.
      destruct (IH (acc + (f + 1) / 2) Hfs ltac:(lia) ltac:(lia)) as [-> Hb].
      split; [f_equal|]; lia.
Qed.

(** While no counter wraps, PEP_UPDATE is the documented update, and
    FREQ_MAX does not decrease. *)
Lemma PEP_UPDATE_documented ctx s F palette_size :
  length (freq ctx) = 257%nat -> 0 <= s <= 256 ->
  Forall (fun f => 0 <= f < 2 ^ 16 - 2) (freq ctx) ->
  0 <= sum ctx < 2 ^ 32 - 2 ->
  0 <= palette_size <= 256 ->
  0 <= F -> F + (256 - palette_size) / 2 < 2 ^ 16 ->
  PEP_UPDATE ctx s F palette_size = documented_update ctx s F palette_size
  /\ F <= snd (PEP_UPDATE ctx s F palette_size).
Proof.
  intros Hlen Hs Hfreq Hsum Hps HF HF'.
  assert (Hslot : 0 <= get (freq ctx) s < 2 ^ 16 - 2).
  { unfold get. destruct (freq ctx !! Z.to_nat s) as [f|] eqn:E; cbn; [|lia].
    apply (Forall_lookup_1 _ _ _ _ Hfreq E). }
  assert (Hstep : 0 <= (256 - palette_size) / 2) by (apply Z.div_pos; lia).
  unfold PEP_UPDATE, documented_update, set.
  rewrite (u16_small (get (freq ctx) s + 2)) by lia.
  rewrite (u32_small (sum ctx + 2)) by lia.
  set (freq1 := <[Z.to_nat s := get (freq ctx) s + 2]> (freq ctx)).
  assert (Hget : get freq1 s = get (freq ctx) s + 2).
  { unfold get at 1. subst freq1. rewrite list_lookup_insert_eq by lia. reflexivity. }
  rewrite Hget. change PEP_PROB_MAX_VALUE with (2 ^ 14).
  destruct ((get (freq ctx) s + 2 >=? F) || (sum ctx + 2 >=? 2 ^ 14)).
  - assert (Hfreq1 : Forall (fun f => 0 <= f < 2 ^ 16) freq1).
    { subst freq1. apply Forall_insert; [|lia].
      eapply Forall_impl; [exact Hfreq|]. cbn. intros; lia. }
    destruct (rescale_loop_halve freq1 0 Hfreq1 ltac:(lia)) as [-> _].
    { subst freq1. rewrite length_insert, Hlen. lia. }
    rewrite Z.shiftr_div_pow2 by lia.
    change PEP_FREQ_END with 256. change (2 ^ 1) with 2.
    rewrite u16_small by lia. cbn [snd]. split; [reflexivity|lia].
  - cbn [snd]. split; [reflexivity|lia].
Qed.


(** ** Runs of one colour *)

Lemma zero_step pal ps bpi f0 fs s0 cs ac F px :
  index_search pal ps 0 0 = 0 ->
  0 < f0 -> f0 <= s0 -> f0 + 2 < F -> F <= 65535 -> s0 + 2 < 2 ^ 14 ->
  model_iter pal ps bpi 1 (0 :: px)
    (mk_encoder (mk_context (f0 :: fs) s0 :: cs) ac 0 0 0 F)
  = ([mk_prob f0 0 s0], px,
     mk_encoder (mk_context (f0 + 2 :: fs) (s0 + 2) :: cs) ac 0 0 0 F).
Proof.
  intros Hidx Hf0 Hs0 HF HF16 Hsum.
  unfold model_iter. rewrite Hidx.
  cbn [e_symbol e_indices_in_byte e_contexts e_ac e_context_id e_freq_max].
  rewrite Z.shiftl_0_l.
  change (u8 (Z.lor 0 0)) with 0. change (u8 (0 + 1)) with 1.
  change (1 >=? 1) with true. cbn [orb].
  unfold model_symbol.
  cbn [e_symbol e_indices_in_byte e_contexts e_ac e_context_id e_freq_max].
  change (0 mod PEP_CONTEXTS_MAX) with 0.
  change (ctx_get (mk_context (f0 :: fs) s0 :: cs) 0) with (mk_context (f0 :: fs) s0).
  cbn [sum freq].
  change (get (f0 :: fs) 0) with f0.
  destruct (Z.eqb_spec s0 0); [lia|].
  destruct (Z.eqb_spec f0 0); [lia|].
  cbn [negb andb].
  unfold PEP_UPDATE. cbn [sum freq].
  change (get (f0 :: fs) 0) with f0.
  change (set (f0 :: fs) 0 (u16 (f0 + 2))) with (u16 (f0 + 2) :: fs).
  change (get (u16 (f0 + 2) :: fs) 0) with (u16 (f0 + 2)).
  rewrite u16_small, u32_small by lia.
  change PEP_PROB_MAX_VALUE with (2 ^ 14).
  destruct (Z.geb_spec (f0 + 2) F); [lia|].
  destruct (Z.geb_spec (s0 + 2) (2 ^ 14)); [lia|].
  cbn [orb].
  unfold _pep_get_prob_from_ctx. cbn [sum freq].
  change (Z.to_nat 0) with 0%nat. cbn [cum_freq].
  change (get (f0 :: fs) 0) with f0.
  rewrite Z.add_0_l, u32_small by lia.
  reflexivity.
Qed.

Lemma model_loop_S n pal ps bpi ipb px st :
  model_loop (S n) pal ps bpi ipb px st
  = if is_nil px && negb (e_indices_in_byte st >? 0) then Some st
    else
      let '(probs, px', st') := model_iter pal ps bpi ipb px st in
      if forallb prob_ok probs then model_loop n pal ps bpi ipb px' st' else None.
Proof. reflexivity. Qed.

(** A run of [m] pixels of colour 0 that stays below both rescale
    thresholds is coded as [zero_run] says. *)
Lemma model_loop_zero_run pal ps bpi n px cs fs ac F :
  index_search pal ps 0 0 = 0 -> F <= 65535 ->
  forall (m : nat) f0 s0,
    0 < f0 -> f0 <= s0 ->
    f0 + 2 * Z.of_nat m < F -> s0 + 2 * Z.of_nat m < 2 ^ 14 ->
    model_loop (m + n) pal ps bpi 1 (replicate m 0 ++ px)
      (mk_encoder (mk_context (f0 :: fs) s0 :: cs) ac 0 0 0 F)
    = model_loop n pal ps bpi 1 px
        (mk_encoder (mk_context (f0 + 2 * Z.of_nat m :: fs) (s0 + 2 * Z.of_nat m) :: cs)
           ac 0 0 0 F).
Proof.
  intros Hidx HF16. induction m as [|m IH]; intros f0 s0 Hf0 Hs0 HF Hsum.
  - rewrite !Z.add_0_r. reflexivity.
  - change (S m + n)%nat with (S (m + n)).
    change (replicate (S m) 0 ++ px) with (0 :: (replicate m 0 ++ px)).
    rewrite model_loop_S.
    change (is_nil (0 :: replicate m 0 ++ px)) with false. cbn [andb].
    rewrite zero_step by (assumption || lia).
    assert (Hok : forallb prob_ok [mk_prob f0 0 s0] = true).
    { unfold prob_ok. cbn [forallb prob_scale prob_low prob_high].
      change PEP_PROB_MAX_VALUE with (2 ^ 14).
      repeat (apply andb_true_iff; split); try reflexivity;
        first [apply Z.leb_le | apply Z.ltb_lt]; lia. }
    rewrite Hok.
    rewrite IH by lia.
    do 4 f_equal; [f_equal|]; lia.
Qed.

(** With one index per byte an iteration looks at one pixel only. *)
Lemma model_iter_one pal ps bpi p rest st :
  e_indices_in_byte st = 0 ->
  model_iter pal ps bpi 1 (p :: rest) st
  = (let '(probs, _, st') := model_iter pal ps bpi 1 [p] st in (probs, rest, st')).
Proof.
  intros Hiib. unfold model_iter. rewrite Hiib.
  cbn [e_indices_in_byte]. change (u8 (0 + 1)) with 1.
  change (1 >=? 1) with true. cbn [orb].
  destruct (model_symbol ps _). reflexivity.
Qed.

Lemma zero_run_length_spec cs0 ac id iib sym F m :
  0 < m <= zero_run_length (mk_encoder cs0 ac id iib sym F) ->
  exists f0 fs s0 cs,
    cs0 = mk_context (f0 :: fs) s0 :: cs /\ id = 0 /\ iib = 0 /\ sym = 0
    /\ 0 < f0 /\ f0 <= s0 /\ F <= 65535
    /\ f0 + 2 * m < F /\ s0 + 2 * m < 2 ^ 14.
Proof.
  unfold zero_run_length.
  cbn [e_contexts e_context_id e_indices_in_byte e_symbol e_freq_max e_ac].
  destruct cs0 as [|[[|f0 fs] s0] cs]; try lia.
  destruct ((id =? 0) && (iib =? 0) && (sym =? 0) && (0 <? f0) && (f0 <=? s0)
            && (F <=? 65535)) eqn:E; [|lia].
  repeat (apply andb_true_iff in E as [E ?]).
  repeat match goal with
         | H : (_ =? _) = true |- _ => apply Z.eqb_eq in H
         | H : (_ <=? _) = true |- _ => apply Z.leb_le in H
         | H : (_ <? _) = true |- _ => apply Z.ltb_lt in H
         end.
  change PEP_PROB_MAX_VALUE with 16384. change (2 ^ 14) with 16384.
  intros [Hm Hmin].
  exists f0, fs, s0, cs. split; [reflexivity|].
  repeat split; try assumption.
  - assert (m <= (F - f0 - 1) / 2) by lia. Z.div_mod_to_equations. lia.
  - assert (m <= (16384 - s0 - 1) / 2) by lia. Z.div_mod_to_equations. lia.
Qed.

Lemma fast_loop_correct pal ps bpi :
  index_search pal ps 0 0 = 0 ->
  forall fuel n prefix st st' (zeros : nat),
    fast_loop fuel pal ps bpi n prefix st = Some st' ->
    n <= Z.of_nat (length prefix) + Z.of_nat zeros ->
    model_loop (Z.to_nat n) pal ps bpi 1 (prefix ++ replicate zeros 0) st = Some st'.
Proof.
  intros Hidx. induction fuel as [|fuel IH]; intros n prefix st st' zeros H Hn;
    [discriminate H|].
  cbn [fast_loop] in H.
  destruct (Z.leb_spec n 0) as [Hn0 | Hn0].
  { injection H as <-. replace (Z.to_nat n) with 0%nat by lia. reflexivity. }
  destruct (Z.eqb_spec (e_indices_in_byte st) 0) as [Hiib|]; [|discriminate H].
  cbn [negb] in H.
  assert (Hstep : forall p rest more,
    (let '(probs, _, st1) := model_iter pal ps bpi 1 [p] st in
     if forallb prob_ok probs then fast_loop fuel pal ps bpi (n - 1) rest st1 else None)
    = Some st' ->
    n - 1 <= Z.of_nat (length rest) + Z.of_nat more ->
    model_loop (Z.to_nat n) pal ps bpi 1 (p :: rest ++ replicate more 0) st = Some st').
  { intros p rest more Hp Hlen.
    replace (Z.to_nat n) with (S (Z.to_nat (n - 1))) by lia.
    rewrite model_loop_S. change (is_nil (p :: rest ++ replicate more 0)) with false.
    cbn [andb]. rewrite model_iter_one by assumption.
    destruct (model_iter pal ps bpi 1 [p] st) as [[probs ?] st1].
    destruct (forallb prob_ok probs); [|discriminate Hp].
    apply IH; assumption. }
  destruct prefix as [|p rest].
  - destruct (Z.ltb_spec 0 (Z.min n (zero_run_length st))) as [Hm | Hm].
    + (* a run of zeros *)
      set (m := Z.min n (zero_run_length st)) in *.
      destruct st as [cs0 ac id iib sym F].
      destruct (zero_run_length_spec cs0 ac id iib sym F m ltac:(lia))
        as (f0 & fs & s0 & cs & -> & -> & -> & -> & Hf0 & Hs0 & HF16 & HF & Hsum).
      cbn [length] in Hn. cbn [app].
      replace zeros with (Z.to_nat m + (zeros - Z.to_nat m))%nat by lia.
      rewrite replicate_add.
      replace (Z.to_nat n) with (Z.to_nat m + Z.to_nat (n - m))%nat by lia.
      rewrite (model_loop_zero_run pal ps bpi _ _ cs fs ac F Hidx HF16)
        by (rewrite ?Z2Nat.id by lia; assumption).
      rewrite Z2Nat.id by lia.
      specialize (IH (n - m) [] _ st' (zeros - Z.to_nat m)%nat H).
      cbn [app length] in IH. apply IH. lia.
    + (* one pixel of colour 0 *)
      destruct zeros as [|more]; [cbn [length] in Hn; lia|].
      cbn [app replicate]. apply (Hstep 0 [] more H).
      cbn [length] in *. lia.
  - cbn [app]. apply (Hstep p rest zeros H). cbn [length] in Hn. lia.
Qed.

(** *** The palette of an image that ends in a run of one colour *)

Lemma build_palette_same c : forall (k : nat) pal size,
  build_palette (replicate k c) false c pal size = (pal, size).
Proof.
  induction k as [|k IH]; intros pal size; cbn [replicate build_palette]; [reflexivity|].
  rewrite Z.eqb_refl. cbn [negb andb]. apply IH.
Qed.

Lemma build_palette_trailing c k : forall l first last_p pal size,
  build_palette (l ++ c :: replicate k c) first last_p pal size
  = build_palette (l ++ [c]) first last_p pal size.
Proof.
  induction l as [|x l IH]; intros first last_p pal size; cbn [app build_palette].
  - destruct (negb first && (c =? last_p)) eqn:E.
    + apply andb_true_iff in E as [_ E]. apply Z.eqb_eq in E. subst last_p.
      apply build_palette_same.
    + destruct ((palette_scan pal size c 0 >=? size) && (u16 size + 1 <? 256));
        apply build_palette_same.
  - destruct (negb first && (x =? last_p)); [apply IH|].
    destruct ((palette_scan pal size x 0 >=? size) && (u16 size + 1 <? 256)); apply IH.
Qed.

Lemma wrap_image_read : pixels_read wrap_image 2048 1024 = wrap_image.
Proof.
  unfold pixels_read. change (u32 (2048 * 1024)) with 2097152.
  apply take_ge. unfold wrap_image. rewrite length_app, length_replicate.
  change (length (seqZ 0 17)) with 17%nat. lia.
Qed.

Lemma wrap_image_palette :
  compress_palette wrap_image 2048 1024 = (seqZ 0 17 ++ replicate 239 0, 17).
Proof.
  unfold compress_palette. rewrite wrap_image_read. unfold wrap_image.
  replace (Z.to_nat (2048 * 1024 - 17)) with (S (Z.to_nat 2097134)) by lia.
  change (replicate (S (Z.to_nat 2097134)) 0) with (0 :: replicate (Z.to_nat 2097134) 0).
  rewrite build_palette_trailing. vm_compute. reflexivity.
Qed.

Lemma wrap_image_model (n : Z) st' :
  fast_loop 1200 (seqZ 0 17 ++ replicate 239 0) 17 5 n (seqZ 0 17) encoder_init = Some st' ->
  n <= 2097152 ->
  compress_model wrap_image 2048 1024 (Z.to_nat n) = Some st'.
Proof.
  intros Hfast Hn. unfold compress_model.
  rewrite wrap_image_palette, wrap_image_read.
  change (bits_per_index_of 17) with 5. change (indices_per_byte_of 17) with 1.
  assert (Hidx : index_search (seqZ 0 17 ++ replicate 239 0) 17 0 0 = 0)
    by reflexivity.
  unfold wrap_image. apply (fast_loop_correct _ _ _ Hidx 1200).
  - exact Hfast.
  - change (length (seqZ 0 17)) with 17%nat. lia.
Qed.

(** C5 (the code at a failing input). [freq_max] is a [uint16_t]: on
    [wrap_image] every rescale adds 119 to it, and during the
    1977073rd packed symbol the 550th rescale takes it from 65459 round to
    42, below the 128 it started from. *)
Theorem freq_max_wraps :
  e_freq_max <$> compress_state wrap_image 2048 1024 (Z.to_nat 1977072) = Some 65459
  /\ e_freq_max <$> compress_state wrap_image 2048 1024 (Z.to_nat 1977073) = Some 42
  /\ 42 < PEP_FREQ_MAX.
Proof.
  assert (Hrun : forall n F,
    n <= 2097152 ->
    e_freq_max <$> fast_loop 1200 (seqZ 0 17 ++ replicate 239 0) 17 5 n (seqZ 0 17)
                     encoder_init = Some F ->
    e_freq_max <$> compress_state wrap_image 2048 1024 (Z.to_nat n) = Some F).
  { intros n F Hn Hfast.
    destruct (fast_loop _ _ _ _ _ _ _) as [st'|] eqn:E; [|discriminate Hfast].
    apply wrap_image_model in E; [|assumption].
    destruct (compress_state_model _ _ _ _ _ E) as [ac' ->]. exact Hfast. }
  split; [|split; [|reflexivity]]; apply Hrun; try lia.
  - vm_compute. reflexivity.
  - vm_compute. reflexivity.
Qed.

(** ** What pep_compress returns *)

Lemma first_colors_Forall (P : Z -> Prop) cap : forall px seen,
  Forall P seen -> Forall P px -> Forall P (first_colors cap seen px).
Proof.
  induction px as [|c px IH]; intros seen Hseen Hpx; cbn [first_colors]; [assumption|].
  apply Forall_cons in Hpx as [Hc Hpx].
  destruct (bool_decide (c ∈ seen)); [auto|].
  destruct (length seen <? cap)%nat; [|auto].
  apply IH; [|assumption]. apply Forall_app. split; [assumption|].
  apply Forall_cons. split; [assumption|apply Forall_nil_2].
Qed.

(** Each renormalization writes at most one byte per iteration. *)
Lemma encode_normalize_out fuel : forall ac ac',
  _pep_arith_encode_normalize fuel ac = Some ac' ->
  (length (enc_out ac') <= length (enc_out ac) + fuel)%nat.
Proof.
  induction fuel as [|fuel IH]; intros ac ac' H; [discriminate H|].
  rewrite encode_normalize_unfold in H.
  destruct (renorm_next (enc_low ac) (enc_range ac)) as [[l r]|].
  - apply IH in H. cbn [enc_out length] in H. lia.
  - injection H as <-. lia.
Qed.

Lemma code_probs_out : forall probs ac ac',
  code_probs ac probs = Some ac' ->
  (length (enc_out ac') <= length (enc_out ac) + 8 * length probs)%nat.
Proof.
  induction probs as [|prob probs IH]; intros ac ac' H.
  - rewrite code_probs_nil in H. injection H as <-. lia.
  - rewrite code_probs_cons in H.
    destruct (_pep_arith_encode_normalize normalize_fuel (_pep_arith_encode ac prob))
      as [ac1|] eqn:E; [|discriminate H].
    rewrite bind_some in H. apply IH in H.
    apply encode_normalize_out in E. unfold _pep_arith_encode in E.
    cbn [enc_out length] in *. change normalize_fuel with 8%nat in E. lia.
Qed.

Lemma model_symbol_probs ps st : (length (fst (model_symbol ps st)) <= 2)%nat.
Proof.
  unfold model_symbol.
  destruct (negb (sum _ =? 0) && negb (get _ _ =? 0)).
  - destruct (PEP_UPDATE _ _ _ _). cbn. lia.
  - destruct (negb (sum _ =? 0)); destruct (PEP_UPDATE _ _ _ _); cbn; lia.
Qed.

Lemma encode_symbol_out ps st st' :
  encode_symbol ps st = Some st' ->
  (length (enc_out (e_ac st')) <= length (enc_out (e_ac st)) + 16)%nat.
Proof.
  rewrite encode_symbol_model. intros H.
  destruct (code_probs (e_ac st) (fst (model_symbol ps st))) as [ac'|] eqn:E;
    [|discriminate H].
  rewrite bind_some in H. injection H as <-.
  apply code_probs_out in E. pose proof (model_symbol_probs ps st).
  change (e_ac (with_ac (snd (model_symbol ps st)) ac')) with ac'. lia.
Qed.

Lemma encode_iter_out pal ps bpi ipb px st px' st' :
  encode_iter pal ps bpi ipb px st = Some (px', st') ->
  (length (enc_out (e_ac st')) <= length (enc_out (e_ac st)) + 16)%nat.
Proof.
  unfold encode_iter.
  destruct px as [|p rest].
  - destruct ((e_indices_in_byte st >=? ipb) || _).
    + destruct (encode_symbol ps st) as [st2|] eqn:E; [|discriminate].
      rewrite bind_some. intros [= <- <-]. apply (encode_symbol_out _ _ _ E).
    + intros [= <- <-]. lia.
  - match goal with |- context [encode_symbol ps ?s] => set (st1 := s) end.
    change (e_ac st) with (e_ac st1).
    destruct ((e_indices_in_byte st1 >=? ipb) || _).
    + destruct (encode_symbol ps st1) as [st2|] eqn:E; [|discriminate].
      rewrite bind_some. intros [= <- <-]. apply (encode_symbol_out _ _ _ E).
    + intros [= <- <-]. lia.
Qed.

Lemma encode_loop_out pal ps bpi ipb : forall n px st st',
  encode_loop n pal ps bpi ipb px st = Some st' ->
  (length (enc_out (e_ac st')) <= length (enc_out (e_ac st)) + 16 * n)%nat.
Proof.
  induction n as [|n IH]; intros px st st' H.
  - injection H as <-. lia.
  - cbn [encode_loop] in H.
    destruct (is_nil px && negb (e_indices_in_byte st >? 0)).
    + injection H as <-. lia.
    + destruct (encode_iter pal ps bpi ipb px st) as [[px1 st1]|] eqn:E;
        [|discriminate H].
      rewrite bind_some in H. apply IH in H. apply encode_iter_out in E. lia.
Qed.

Lemma encode_flush_out : forall i ac,
  length (enc_out (encode_flush i ac)) = (length (enc_out ac) + i)%nat.
Proof.
  induction i as [|i IH]; intros ac; cbn [encode_flush]; [lia|].
  rewrite IH. cbn [enc_out length]. lia.
Qed.

(** What [pep_compress] returns for an image of valid dimensions is a
    valid image. *)
Lemma compress_valid px w h f cb p :
  1 <= w <= 4096 -> 1 <= h <= 4096 ->
  Forall (fun c => 0 <= c < 2 ^ 32) px ->
  pep_compress (Some px) w h f cb = Some p ->
  exists data,
    valid_image p data
    /\ width p = w /\ height p = h /\ format p = f /\ channel_bits p = cb.
Proof.
  intros Hw Hh Hpx. unfold pep_compress.
  assert (Harea : 1 <= w * h <= 2 ^ 24) by nia.
  rewrite (u32_small (w * h)) by lia.
  destruct (Z.eqb_spec (w * h) 0); [lia|].
  pose proof (compress_palette_holds px w h) as (Hsize & Hlen & Hrep).
  unfold compress_state.
  destruct (compress_palette px w h) as [pal size]. cbn [fst snd] in *.
  destruct (encode_loop _ _ _ _ _ _ _) as [st|] eqn:Hloop; [|discriminate].
  rewrite bind_some. intros Hp. apply (inj Some) in Hp. subst p.
  exists (rev (enc_out (encode_flush 4 (e_ac st)))).
  split; [|repeat split].
  unfold valid_image.
  apply encode_loop_out in Hloop.
  change (length (enc_out (e_ac encoder_init))) with 0%nat in Hloop.
  pose proof (encode_flush_out 4 (e_ac st)) as Hflush.
  rewrite <- (length_rev (enc_out (encode_flush 4 (e_ac st)))) in Hflush.
  revert Hflush.
  generalize (rev (enc_out (encode_flush 4 (e_ac st)))). intros data Hflush.
  cbn [width height bytes bytes_size palette palette_size].
  repeat split; try lia.
  - rewrite Hrep, length_app, length_replicate. lia.
  - rewrite Hrep. apply Forall_app. split.
    + apply first_colors_Forall; [apply Forall_nil_2|].
      unfold pixels_read. apply Forall_take. assumption.
    + apply Forall_replicate. lia.
Qed.

(** * The codec round trip *)

(** ** The coder's interval and the coded stream *)

Lemma num_app bs cs : num (bs ++ cs) = num bs * 256 ^ Z.of_nat (length cs) + num cs.
Proof.
  revert bs. induction cs as [|c cs IH] using rev_ind; intros bs.
  - rewrite app_nil_r. cbn. lia.
  - rewrite app_assoc. unfold num in *. rewrite !fold_left_app. cbn [fold_left].
    rewrite <- fold_left_app, IH, length_app, Nat2Z.inj_add. cbn [length].
    rewrite Z.pow_add_r by lia. change (256 ^ Z.of_nat 1) with 256. lia.
Qed.

Lemma num_cons b bs : num (b :: bs) = b * 256 ^ Z.of_nat (length bs) + num bs.
Proof. change (b :: bs) with ([b] ++ bs). rewrite num_app. cbn. lia. Qed.

Lemma num_range bs : Forall is_byte bs -> 0 <= num bs < 256 ^ Z.of_nat (length bs).
Proof.
  induction 1 as [|b bs Hb _ IH].
  - cbn. lia.
  - rewrite num_cons. cbn [length]. rewrite Nat2Z.inj_succ, Z.pow_succ_r by lia.
    unfold is_byte in Hb. nia.
Qed.

(** The window of four bytes lies in the interval. *)
Lemma fits_window low range E :
  (4 <= length E)%nat -> Forall is_byte E -> fits low range E ->
  low <= num (take 4 E) < low + range.
Proof.
  intros Hlen Hb [Hlo Hhi].
  assert (Hsplit : num E = num (take 4 E) * 256 ^ (Z.of_nat (length E) - 4)
                           + num (drop 4 E)).
  { rewrite <- (take_drop 4 E) at 1. rewrite num_app, length_drop.
    replace (Z.of_nat (length E - 4)) with (Z.of_nat (length E) - 4) by lia.
    reflexivity. }
  pose proof (num_range (drop 4 E) (Forall_drop _ _ _ Hb)) as Hd.
  rewrite length_drop in Hd.
  replace (Z.of_nat (length E - 4)) with (Z.of_nat (length E) - 4) in Hd by lia.
  rewrite Hsplit in Hlo, Hhi.
  set (P := 256 ^ (Z.of_nat (length E) - 4)) in *.
  assert (0 < P) by (apply Z.pow_pos_nonneg; lia).
  nia.
Qed.

Lemma lxor_below low s k :
  0 <= low -> 0 <= s -> 0 <= k -> Z.lxor low s < 2 ^ k -> low / 2 ^ k = s / 2 ^ k.
Proof.
  intros Hl Hs Hk Hx.
  assert (Hx0 : 0 <= Z.lxor low s) by (apply Z.lxor_nonneg; lia).
  assert (E : Z.shiftr (Z.lxor low s) k = 0).
  { rewrite Z.shiftr_div_pow2 by lia. apply Z.div_small. lia. }
  rewrite Z.shiftr_lxor in E. apply Z.lxor_eq in E.
  rewrite !Z.shiftr_div_pow2 in E by lia. exact E.
Qed.

Lemma lxor_same_block low s k :
  0 <= low -> 0 <= s -> 0 <= k -> low / 2 ^ k = s / 2 ^ k -> Z.lxor low s < 2 ^ k.
Proof.
  intros Hl Hs Hk E.
  assert (Hx0 : 0 <= Z.lxor low s) by (apply Z.lxor_nonneg; lia).
  assert (E' : Z.shiftr (Z.lxor low s) k = 0).
  { rewrite Z.shiftr_lxor, !Z.shiftr_div_pow2, E by lia. apply Z.lxor_nilpotent. }
  rewrite Z.shiftr_div_pow2 in E' by lia.
  apply Z.div_small_iff in E'; lia.
Qed.

Lemma renorm_next_fits low range low' range' :
  interval_ok low range -> renorm_next low range = Some (low', range') ->
  interval_ok low' range'
  /\ forall E, (4 <= length E)%nat -> fits low' range' E ->
       fits low range (low / 2 ^ 24 :: E).
Proof.
  intros (Hl & Hr & Hs & Htop). unfold renorm_next.
  change PEP_CODE_MAX_VALUE with (2 ^ 24 - 1). change PEP_PROB_MAX_VALUE with (2 ^ 14).
  rewrite !shl8, u32_mod.
  assert (Hfit : forall R, 1 <= R -> R <= range ->
            low + R <= (low / 2 ^ 24 + 1) * 2 ^ 24 ->
            forall E, (4 <= length E)%nat ->
              fits ((low * 256) mod 2 ^ 32) (R * 256) E ->
              fits low range (low / 2 ^ 24 :: E)).
  { intros R HR1 HR2 Hblock E HE. unfold fits. cbn [length].
    rewrite num_cons, Nat2Z.inj_succ.
    set (n := Z.of_nat (length E)). set (P := 256 ^ (n - 4)).
    assert (0 < P) by (apply Z.pow_pos_nonneg; lia).
    assert (Epow : 256 ^ n = P * 4294967296).
    { replace n with ((n - 4) + 4) at 1 by lia. rewrite Z.pow_add_r by lia. reflexivity. }
    assert (Epow1 : 256 ^ (Z.succ n - 4) = 256 * P).
    { replace (Z.succ n - 4) with (Z.succ (n - 4)) by lia.
      rewrite Z.pow_succ_r by lia. reflexivity. }
    rewrite Epow, Epow1.
    assert (Elow : (low * 256) mod 2 ^ 32 = (low - low / 2 ^ 24 * 2 ^ 24) * 256).
    { change (2 ^ 32) with 4294967296. change (2 ^ 24) with 16777216.
      Z.div_mod_to_equations; lia. }
    rewrite Elow. change (2 ^ 24) with 16777216 in *.
    set (b := low / 16777216) in *. clearbody b.
    assert (HRP : R * P <= range * P) by (apply Z.mul_le_mono_nonneg_r; lia).
    intros [H1 H2]. split; lia. }
  destruct (Z.geb_spec (Z.lxor low ((low + range) mod 2 ^ 32)) (2 ^ 24 - 1)) as [Hx|Hx].
  - destruct (Z.geb_spec range (2 ^ 14)) as [|Hsmall]; [discriminate|].
    intros [= <- <-].
    change (2 ^ 14 - 1) with (Z.ones 14). rewrite Z.land_ones by lia.
    set (R := 2 ^ 14 - low mod 2 ^ 14).
    assert (HR : 1 <= R <= 2 ^ 14)
      by (subst R; pose proof (Z.mod_pos_bound low (2 ^ 14)); lia).
    assert (Hblock : low + R <= (low / 2 ^ 24 + 1) * 2 ^ 24).
    { subst R. change (2 ^ 24) with 16777216. change (2 ^ 14) with 16384.
      Z.div_mod_to_equations; lia. }
    assert (HRr : R <= range).
    { destruct (Z.eq_dec (low + range) (2 ^ 32)) as [E|Hne].
      - subst R. change (2 ^ 32) with 4294967296 in *. change (2 ^ 14) with 16384 in *.
        Z.div_mod_to_equations; lia.
      - rewrite Z.mod_small in Hx by lia.
        assert (Hd : low / 2 ^ 14 <> (low + range) / 2 ^ 14).
        { intros E. apply lxor_same_block in E; lia. }
        subst R. change (2 ^ 14) with 16384 in *.
        Z.div_mod_to_equations; lia. }
    rewrite (Z.mod_small (R * 256)) by lia.
    split.
    + unfold interval_ok. 
      assert (Elow : (low * 256) mod 2 ^ 32 = (low - low / 2 ^ 24 * 2 ^ 24) * 256).
      { change (2 ^ 32) with 4294967296. change (2 ^ 24) with 16777216.
        Z.div_mod_to_equations; lia. }
      rewrite Elow. change (2 ^ 32) with (2 ^ 24 * 256). 
      pose proof (Z.mod_pos_bound low (2 ^ 24) ltac:(lia)).
      pose proof (Z.div_mod low (2 ^ 24) ltac:(lia)).
      repeat split; lia.
    + apply Hfit; lia.
  - intros [= <- <-].
    assert (Hlt : low + range < 2 ^ 32).
    { destruct (Z.eq_dec (low + range) (2 ^ 32)) as [E|]; [|lia].
      rewrite E, Z.mod_same, Z.lxor_0_r in Hx by lia. lia. }
    rewrite Z.mod_small in Hx by lia.
    assert (Hd : low / 2 ^ 24 = (low + range) / 2 ^ 24)
      by (apply lxor_below; lia).
    assert (Hblock : low + range <= (low / 2 ^ 24 + 1) * 2 ^ 24).
    { rewrite Hd. change (2 ^ 24) with 16777216.
      Z.div_mod_to_equations; lia. }
    assert (Hr24 : range < 2 ^ 24).
    { pose proof (Z.mod_pos_bound low (2 ^ 24) ltac:(lia)).
      pose proof (Z.div_mod low (2 ^ 24) ltac:(lia)).
      pose proof (Z.mod_pos_bound (low + range) (2 ^ 24) ltac:(lia)).
      pose proof (Z.div_mod (low + range) (2 ^ 24) ltac:(lia)). lia. }
    rewrite (Z.mod_small (range * 256)) by lia.
    split.
    + unfold interval_ok.
      assert (Elow : (low * 256) mod 2 ^ 32 = (low - low / 2 ^ 24 * 2 ^ 24) * 256).
      { change (2 ^ 32) with 4294967296. change (2 ^ 24) with 16777216.
        Z.div_mod_to_equations; lia. }
      rewrite Elow. change (2 ^ 32) with (2 ^ 24 * 256) in *.
      pose proof (Z.mod_pos_bound low (2 ^ 24) ltac:(lia)).
      pose proof (Z.div_mod low (2 ^ 24) ltac:(lia)).
      pose proof (Z.mod_pos_bound (low + range) (2 ^ 24) ltac:(lia)).
      pose proof (Z.div_mod (low + range) (2 ^ 24) ltac:(lia)).
      repeat split; lia.
    + apply Hfit; lia.
Qed.

Lemma prob_ok_spec prob :
  prob_ok prob = true ->
  1 <= prob_scale prob <= 2 ^ 14
  /\ 0 <= prob_low prob < prob_high prob /\ prob_high prob <= prob_scale prob.
Proof.
  unfold prob_ok. change PEP_PROB_MAX_VALUE with (2 ^ 14). intros Hp.
  repeat (apply andb_true_iff in Hp as [Hp ?]).
  repeat match goal with
         | H : (_ <=? _) = true |- _ => apply Z.leb_le in H
         | H : (_ <? _) = true |- _ => apply Z.ltb_lt in H
         end.
  lia.
Qed.

(** Coding a probability narrows the interval. *)
Lemma arith_encode_fits ac prob :
  interval_ok (enc_low ac) (enc_range ac) -> 2 ^ 14 <= enc_range ac ->
  prob_ok prob = true ->
  let r := enc_range ac / prob_scale prob in
  let ac1 := _pep_arith_encode ac prob in
  1 <= r
  /\ enc_low ac1 = enc_low ac + prob_low prob * r
  /\ enc_range ac1 = r * (prob_high prob - prob_low prob)
  /\ enc_out ac1 = enc_out ac
  /\ interval_ok (enc_low ac1) (enc_range ac1)
  /\ forall E, fits (enc_low ac1) (enc_range ac1) E ->
       fits (enc_low ac) (enc_range ac) E.
Proof.
  intros (Hl & Hr & Hs & Htop) Hbig Hp r ac1.
  destruct (prob_ok_spec _ Hp) as (Hscale & Hlow & Hhigh).
  assert (Hr1 : 1 <= r) by (apply Z.div_le_lower_bound; lia).
  assert (Hr2 : r * prob_scale prob <= enc_range ac)
    by (subst r; rewrite Z.mul_comm; apply Z.mul_div_le; lia).
  assert (Hlo : 0 <= prob_low prob * r) by nia.
  assert (Hhi : prob_high prob * r <= r * prob_scale prob) by nia.
  assert (Hw : 1 * r <= (prob_high prob - prob_low prob) * r)
    by (apply Z.mul_le_mono_nonneg_r; lia).
  assert (El : enc_low ac1 = enc_low ac + prob_low prob * r).
  { subst ac1. unfold _pep_arith_encode. cbn [enc_low]. fold r.
    rewrite (u32_small (prob_low prob * r)) by lia. apply u32_small. lia. }
  assert (Er : enc_range ac1 = r * (prob_high prob - prob_low prob)).
  { subst ac1. unfold _pep_arith_encode. cbn [enc_range]. fold r.
    rewrite (u32_small (prob_high prob - prob_low prob)) by lia.
    apply u32_small. lia. }
  split; [assumption|]. split; [assumption|]. split; [assumption|].
  split; [reflexivity|]. rewrite El, Er. split.
  - unfold interval_ok. repeat split; lia.
  - unfold fits. intros E.
    set (P := 256 ^ (Z.of_nat (length E) - 4)).
    destruct (Z.le_gt_cases 0 (Z.of_nat (length E) - 4)).
    + assert (0 < P) by (apply Z.pow_pos_nonneg; lia). nia.
    + assert (P = 0) by (apply Z.pow_neg_r; lia). lia.
Qed.

Lemma top_byte low : 0 <= low < 2 ^ 32 -> u8 (Z.shiftr low 24) = low / 2 ^ 24.
Proof.
  intros H. rewrite Z.shiftr_div_pow2 by lia. apply u8_small.
  split; [apply Z.div_pos; lia|]. apply Z.div_lt_upper_bound; lia.
Qed.

Lemma top_byte_is_byte low : 0 <= low < 2 ^ 32 -> is_byte (low / 2 ^ 24).
Proof.
  intros H. split; [apply Z.div_pos; lia|]. apply Z.div_lt_upper_bound; lia.
Qed.

(** The decoder shifts one byte in. *)
Lemma reads_shift d b E low range :
  (4 <= length E)%nat -> Forall is_byte (b :: E) -> reads d (b :: E) ->
  reads (mk_dec (snd (next_byte (dec_in d))) low range
           (Z.lor (u32 (Z.shiftl (dec_code d) 8)) (fst (next_byte (dec_in d))))) E.
Proof.
  intros Hlen Hb [Hcode Hin]. apply Forall_cons in Hb as [Hb HE].
  destruct E as [|e0 [|e1 [|e2 [|e3 E]]]]; cbn [length] in Hlen; try lia.
  unfold reads. cbn [take drop firstn skipn] in *. rewrite Hin, Hcode.
  cbn [next_byte fst snd dec_code dec_in]. split; [|reflexivity].
  repeat (apply Forall_cons in HE as [? HE]). unfold is_byte in *.
  rewrite shl8. unfold num. cbn [fold_left].
  replace ((((0 * 256 + b) * 256 + e0) * 256 + e1) * 256 + e2)
    with (b * 2 ^ 24 + (e0 * 2 ^ 16 + e1 * 2 ^ 8 + e2)) by lia.
  set (t := e0 * 2 ^ 16 + e1 * 2 ^ 8 + e2).
  assert (Ht : 0 <= t < 2 ^ 24) by (subst t; lia).
  replace ((b * 2 ^ 24 + t) * 256) with (t * 256 + b * 2 ^ 32) by lia.
  rewrite Z.mod_add, Z.mod_small by lia.
  replace (t * 256) with (Z.shiftl t 8) by (rewrite Z.shiftl_mul_pow2; lia).
  rewrite <- Z.add_nocarry_lor.
  - rewrite Z.shiftl_mul_pow2, take_0 by lia. subst t. cbn [fold_left]. lia.
  - apply Z.bits_inj'. intros i Hi. rewrite Z.land_spec, Z.bits_0.
    destruct (Z.lt_ge_cases i 8).
    + rewrite Z.shiftl_spec_low by lia. reflexivity.
    + rewrite (Z.bits_above_log2 e3), andb_false_r; [reflexivity|lia|].
      destruct (Z.eq_dec e3 0) as [->|]; [change (Z.log2 0) with 0; lia|].
      assert (2 ^ 8 <= 2 ^ i) by (apply Z.pow_le_mono_r; lia). apply Z.log2_lt_pow2; lia.
Qed.

(** Encoder and decoder renormalize in step: the decoder reads the bytes
    the encoder writes, and the interval of the bytes to come carries
    back over the loop. *)
Lemma normalize_sync fuel : forall ac ac',
  interval_ok (enc_low ac) (enc_range ac) ->
  _pep_arith_encode_normalize fuel ac = Some ac' ->
  exists N,
    enc_out ac' = rev N ++ enc_out ac
    /\ Forall is_byte N
    /\ interval_ok (enc_low ac') (enc_range ac')
    /\ 2 ^ 14 <= enc_range ac'
    /\ (forall E, (4 <= length E)%nat ->
          fits (enc_low ac') (enc_range ac') E ->
          fits (enc_low ac) (enc_range ac) (N ++ E))
    /\ (forall d E, dec_low d = enc_low ac -> dec_range d = enc_range ac ->
          (4 <= length E)%nat -> Forall is_byte E -> reads d (N ++ E) ->
          exists d', decode_normalize fuel d = Some d'
            /\ dec_low d' = enc_low ac' /\ dec_range d' = enc_range ac'
            /\ reads d' E).
Proof.
  induction fuel as [|fuel IH]; intros ac ac' Hok H; [discriminate H|].
  rewrite encode_normalize_unfold in H.
  destruct (renorm_next (enc_low ac) (enc_range ac)) as [[l r]|] eqn:En.
  - destruct (renorm_next_fits _ _ _ _ Hok En) as [Hok' Hfit].
    apply IH in H; [|exact Hok'].
    destruct H as (N & Hout & HN & Hok'' & Hbig & Hback & Hdec).
    cbn [enc_out enc_low enc_range] in *.
    assert (Hl32 : 0 <= enc_low ac < 2 ^ 32) by (unfold interval_ok in Hok; lia).
    rewrite top_byte in Hout by assumption.
    exists (enc_low ac / 2 ^ 24 :: N). split; [|split; [|split; [|split; [|split]]]].
    + rewrite Hout. cbn [rev]. rewrite <- app_assoc. reflexivity.
    + apply Forall_cons. split; [apply top_byte_is_byte; assumption|assumption].
    + assumption.
    + assumption.
    + intros E HE HfE. cbn [app]. apply Hfit.
      * rewrite length_app. lia.
      * apply Hback; assumption.
    + intros d E Hdl Hdr HE HbE Hreads. cbn [app] in Hreads.
      rewrite decode_normalize_unfold, Hdl, Hdr, En.
      apply Hdec; try reflexivity; try assumption.
      apply (reads_shift d (enc_low ac / 2 ^ 24)).
      * rewrite length_app. lia.
      * apply Forall_cons. split; [apply top_byte_is_byte; assumption|].
        apply Forall_app. split; assumption.
      * assumption.
  - injection H as <-. exists []. split; [reflexivity|]. split; [constructor|].
    split; [assumption|]. split.
    { apply renorm_next_none in En. exact En. }
    split.
    + intros E _ HfE. exact HfE.
    + intros d E Hdl Hdr HE HbE Hreads. exists d.
      rewrite decode_normalize_unfold, Hdl, Hdr, En. auto.
Qed.

(** One probability through both coders: the decoder's target falls in
    the coded interval, and the registers stay equal. *)
Lemma code_prob_sync fuel ac prob ac2 :
  interval_ok (enc_low ac) (enc_range ac) -> 2 ^ 14 <= enc_range ac ->
  prob_ok prob = true ->
  _pep_arith_encode_normalize fuel (_pep_arith_encode ac prob) = Some ac2 ->
  exists N,
    enc_out ac2 = rev N ++ enc_out ac
    /\ Forall is_byte N
    /\ interval_ok (enc_low ac2) (enc_range ac2)
    /\ 2 ^ 14 <= enc_range ac2
    /\ (forall E, (4 <= length E)%nat ->
          fits (enc_low ac2) (enc_range ac2) E ->
          fits (enc_low ac) (enc_range ac) (N ++ E))
    /\ (forall d E, dec_low d = enc_low ac -> dec_range d = enc_range ac ->
          (4 <= length E)%nat -> Forall is_byte E -> reads d (N ++ E) ->
          fits (enc_low ac2) (enc_range ac2) E ->
          prob_low prob <= snd (_pep_arith_decode_curr_freq d (prob_scale prob))
                        < prob_high prob
          /\ exists d2,
               _pep_arith_decode_update fuel
                 (fst (_pep_arith_decode_curr_freq d (prob_scale prob))) prob = Some d2
               /\ dec_low d2 = enc_low ac2 /\ dec_range d2 = enc_range ac2
               /\ reads d2 E).
Proof.
  intros Hok Hbig Hp Hn.
  destruct (arith_encode_fits ac prob Hok Hbig Hp) as (Hr1 & El & Er & Eo & Hok1 & Hnarrow).
  destruct (normalize_sync fuel _ _ Hok1 Hn) as (N & Hout & HN & Hok2 & Hbig2 & Hback & Hdec).
  destruct (prob_ok_spec _ Hp) as (Hscale & Hlow & Hhigh).
  exists N. split; [rewrite Hout, Eo; reflexivity|].
  split; [assumption|]. split; [assumption|]. split; [assumption|]. split.
  - intros E HE HfE. apply Hnarrow, Hback; assumption.
  - intros d E Hdl Hdr HE HbE Hreads HfE.
    set (r := enc_range ac / prob_scale prob) in *.
    assert (Hwin : enc_low ac + prob_low prob * r <= dec_code d
                   < enc_low ac + prob_low prob * r
                     + r * (prob_high prob - prob_low prob)).
    { destruct Hreads as [-> _]. rewrite <- El, <- Er. apply fits_window.
      - rewrite length_app. lia.
      - apply Forall_app. split; assumption.
      - apply Hback; assumption. }
    unfold _pep_arith_decode_curr_freq. cbn [fst snd]. rewrite Hdl, Hdr. fold r.
    destruct Hok as (Hl0 & _ & Hsum & Htop).
    assert (Hr2 : r * prob_scale prob <= enc_range ac)
      by (subst r; rewrite Z.mul_comm; apply Z.mul_div_le; lia).
    assert (Hhi : prob_high prob * r <= r * prob_scale prob) by nia.
    assert (Hlo : 0 <= prob_low prob * r) by nia.
    assert (Hw : r * (prob_high prob - prob_low prob) <= r * prob_scale prob)
      by (apply Z.mul_le_mono_nonneg_l; lia).
    assert (Hw0 : 0 <= r * (prob_high prob - prob_low prob)) by nia.
    rewrite (u32_small (dec_code d - enc_low ac)) by nia.
    split.
    + split.
      * apply Z.div_le_lower_bound; lia.
      * apply Z.div_lt_upper_bound; [lia|]. nia.
    + unfold _pep_arith_decode_update. cbn [dec_in dec_low dec_range dec_code].
      apply Hdec; cbn [dec_low dec_range]; try assumption.
      * rewrite El. unfold _pep_arith_encode in El. 
        rewrite (Z.mul_comm r (prob_low prob)).
        rewrite (u32_small (prob_low prob * r)) by lia. apply u32_small. lia.
      * rewrite Er. rewrite (u32_small (prob_high prob - prob_low prob)) by lia.
        apply u32_small. lia.
Qed.

(** The four flush bytes spell [low]. *)
Lemma encode_flush_fits ac :
  0 <= enc_low ac < 2 ^ 32 -> 1 <= enc_range ac ->
  exists E,
    enc_out (encode_flush 4 ac) = rev E ++ enc_out ac
    /\ Forall is_byte E /\ length E = 4%nat
    /\ fits (enc_low ac) (enc_range ac) E.
Proof.
  intros Hl Hr.
  set (low := enc_low ac) in *.
  exists [low / 2 ^ 24; (low / 2 ^ 16) mod 256; (low / 2 ^ 8) mod 256; low mod 256].
  split; [|split; [|split]].
  - cbn [encode_flush enc_out enc_low rev app].
    change PEP_CODE_BITS with 24. change PEP_CODE_BITS_INV with 8. fold low.
    rewrite !shl8, !Z.shiftr_div_pow2, !u8_mod by lia.
    change (2 ^ 32) with 4294967296; change (2 ^ 24) with 16777216;
      change (2 ^ 16) with 65536; change (2 ^ 8) with 256.
    assert (E0 : (low / 16777216) mod 256 = low / 16777216)
      by (Z.div_mod_to_equations; lia).
    assert (E1 : ((low * 256) mod 4294967296 / 16777216) mod 256 = (low / 65536) mod 256)
      by (Z.div_mod_to_equations; lia).
    assert (E2 : (((low * 256) mod 4294967296 * 256) mod 4294967296 / 16777216) mod 256
                 = (low / 256) mod 256)
      by (Z.div_mod_to_equations; lia).
    assert (E3 : ((((low * 256) mod 4294967296 * 256) mod 4294967296 * 256)
                    mod 4294967296 / 16777216) mod 256 = low mod 256)
      by (Z.div_mod_to_equations; lia).
    rewrite E0, E1, E2, E3. reflexivity.
  - repeat apply Forall_cons_2; try apply Forall_nil_2; unfold is_byte.
    + split; [apply Z.div_pos; lia|apply Z.div_lt_upper_bound; lia].
    + apply Z.mod_pos_bound; lia.
    + apply Z.mod_pos_bound; lia.
    + apply Z.mod_pos_bound; lia.
  - reflexivity.
  - unfold fits. cbn [length]. change (Z.of_nat 4 - 4) with 0.
    change (256 ^ 0) with 1. unfold num. cbn [fold_left].
    assert (E : (((0 * 256 + low / 2 ^ 24) * 256 + (low / 2 ^ 16) mod 256) * 256
                 + (low / 2 ^ 8) mod 256) * 256 + low mod 256 = low).
    { change (2 ^ 24) with 16777216; change (2 ^ 16) with 65536;
        change (2 ^ 8) with 256. Z.div_mod_to_equations. lia. }
    rewrite E. fold low. lia.
Qed.

(** ** Looking a symbol up and finding it again *)

Lemma total_nonneg fs : Forall (fun f => 0 <= f < 2 ^ 16) fs -> 0 <= total fs <= 2 ^ 16 * Z.of_nat (length fs).
Proof.
  induction 1 as [|f fs Hf _ IH]; cbn [total foldr length]; [lia|].
  fold (total fs). lia.
Qed.

Lemma total_take_S fs k f :
  fs !! k = Some f -> total (take (S k) fs) = total (take k fs) + f.
Proof.
  revert k. induction fs as [|g fs IH]; intros [|k] H; try discriminate H.
  - injection H as ->. cbn. rewrite take_0. cbn. lia.
  - cbn [take]. cbn [total foldr]. fold (total (take (S k) fs)) (total (take k fs)).
    rewrite (IH k H). lia.
Qed.

Lemma cum_freq_total : forall fs n acc,
  Forall (fun f => 0 <= f < 2 ^ 16) fs -> 0 <= acc ->
  acc + 2 ^ 16 * Z.of_nat (length fs) < 2 ^ 32 ->
  cum_freq fs n acc = acc + total (take n fs).
Proof.
  induction fs as [|f fs IH]; intros n acc Hfs Hacc Hsum.
  - destruct n; cbn; lia.
  - apply Forall_cons in Hfs as [Hf Hfs]. cbn [length] in Hsum.
    destruct n as [|n]; [cbn; lia|].
    cbn [cum_freq take total foldr]. fold (total (take n fs)).
    rewrite u32_small by lia. rewrite IH by (try assumption; lia). lia.
Qed.

Lemma sym_search_found : forall fs k s0 acc target,
  Forall (fun f => 0 <= f < 2 ^ 16) fs -> 0 <= acc ->
  acc + 2 ^ 16 * Z.of_nat (length fs) < 2 ^ 32 ->
  (k < length fs)%nat ->
  acc + total (take k fs) <= target < acc + total (take (S k) fs) ->
  sym_search fs s0 acc target = (s0 + Z.of_nat k, acc + total (take (S k) fs)).
Proof.
  induction fs as [|f fs IH]; intros k s0 acc target Hfs Hacc Hsum Hk Ht;
    cbn [length] in *; [lia|].
  apply Forall_cons in Hfs as [Hf Hfs].
  cbn [sym_search]. rewrite u32_small by lia.
  destruct k as [|k].
  - rewrite take_0 in Ht. cbn [take total foldr] in *. rewrite take_0 in *.
    cbn [foldr] in *.
    destruct (Z.gtb_spec (acc + f) target); [|lia].
    f_equal; lia.
  - cbn [take total foldr] in *. fold (total (take k fs)) in Ht.
    fold (total (take (S k) fs)) in *.
    pose proof (total_nonneg (take k fs) (Forall_take _ _ _ Hfs)) as [Hnn _].
    destruct (Z.gtb_spec (acc + f) target); [lia|].
    rewrite (IH k (s0 + 1) (acc + f) target); try assumption; try lia.
    f_equal; lia.
Qed.

(** [_pep_get_sym_from_freq] finds the symbol whose interval
    [_pep_get_prob_from_ctx] gave, from any target inside that interval. *)
Lemma get_sym_from_prob ctx s target :
  freq_ok (freq ctx) -> 0 <= s <= 256 ->
  prob_low (_pep_get_prob_from_ctx ctx s) <= target
    < prob_high (_pep_get_prob_from_ctx ctx s) ->
  _pep_get_sym_from_freq ctx target = mk_sym (_pep_get_prob_from_ctx ctx s) s.
Proof.
  intros [Hlen Hfs] Hs. unfold _pep_get_prob_from_ctx, _pep_get_sym_from_freq.
  cbn [prob_low prob_high].
  assert (Hk : (Z.to_nat s < length (freq ctx))%nat) by lia.
  destruct (lookup_lt_is_Some_2 _ _ Hk) as [f Hf].
  assert (Hfr : 0 <= f < 2 ^ 16) by (apply (Forall_lookup_1 _ _ _ _ Hfs Hf)).
  assert (Hget : get (freq ctx) s = f) by (unfold get; rewrite Hf; reflexivity).
  rewrite Hget, cum_freq_total by (try assumption; lia).
  rewrite Z.add_0_l.
  pose proof (total_nonneg (take (Z.to_nat s) (freq ctx)) (Forall_take _ _ _ Hfs))
    as [Hnn Hub].
  rewrite length_take in Hub.
  rewrite u32_small by lia. intros Ht.
  rewrite (sym_search_found _ (Z.to_nat s) 0 0 target); try assumption; try lia.
  - rewrite !Z.add_0_l, Z2Nat.id by lia. rewrite Hget.
    rewrite (total_take_S _ _ _ Hf).
    replace (total (take (Z.to_nat s) (freq ctx)) + f - f)
      with (total (take (Z.to_nat s) (freq ctx))) by lia.
    rewrite u32_small by lia. reflexivity.
  - rewrite (total_take_S _ _ _ Hf). lia.
Qed.

(** ** The frequency tables stay well formed *)

Lemma u16_range x : 0 <= u16 x < 2 ^ 16.
Proof. rewrite u16_mod. apply Z.mod_pos_bound. lia. Qed.

Lemma freq_ok_set fs i v : freq_ok fs -> 0 <= v < 2 ^ 16 -> freq_ok (set fs i v).
Proof.
  intros [Hlen Hfs] Hv. unfold set. split.
  - rewrite length_insert. exact Hlen.
  - apply Forall_insert; assumption.
Qed.

Lemma rescale_loop_ok : forall fs acc,
  Forall (fun f => 0 <= f < 2 ^ 16) fs ->
  length (fst (rescale_loop fs acc)) = length fs
  /\ Forall (fun f => 0 <= f < 2 ^ 16) (fst (rescale_loop fs acc)).
Proof.
  induction fs as [|f fs IH]; intros acc Hfs; cbn [rescale_loop].
  - split; [reflexivity|constructor].
  - apply Forall_cons in Hfs as [Hf Hfs].
    destruct (f =? 0).
    + destruct (IH acc Hfs) as [Hl Hr].
      destruct (rescale_loop fs acc) as [rest' acc']. cbn [fst length] in *.
      split; [lia|]. apply Forall_cons. split; assumption.
    + destruct (IH (u32 (acc + u16 (Z.shiftr (f + 1) 1))) Hfs) as [Hl Hr].
      destruct (rescale_loop fs _) as [rest' acc']. cbn [fst length] in *.
      split; [lia|]. apply Forall_cons. split; [apply u16_range|assumption].
Qed.

Lemma PEP_UPDATE_freq_ok ctx s F palette_size :
  freq_ok (freq ctx) -> freq_ok (freq (fst (PEP_UPDATE ctx s F palette_size))).
Proof.
  intros Hok. unfold PEP_UPDATE.
  pose proof (freq_ok_set _ s _ Hok (u16_range (get (freq ctx) s + 2))) as [Hlen Hfs].
  destruct (_ || _).
  - destruct (rescale_loop_ok _ 0 Hfs) as [Hl Hr].
    destruct (rescale_loop _ 0) as [freq2 sum2]. cbn [fst freq] in *.
    split; [lia|assumption].
  - cbn [fst freq]. split; assumption.
Qed.

Lemma ctxs_ok_get cs i : ctxs_ok cs -> freq_ok (freq (ctx_get cs i)).
Proof.
  intros [Hlen Hcs]. unfold ctx_get.
  destruct (cs !! Z.to_nat i) as [c|] eqn:E.
  - apply (Forall_lookup_1 _ _ _ _ Hcs E).
  - change (freq_ok (replicate 257 0)).
    split; [reflexivity|]. apply Forall_replicate. lia.
Qed.

Lemma ctxs_ok_set cs i c : ctxs_ok cs -> freq_ok (freq c) -> ctxs_ok (ctx_set cs i c).
Proof.
  intros [Hlen Hcs] Hc. unfold ctx_set. split.
  - rewrite length_insert. exact Hlen.
  - apply Forall_insert; assumption.
Qed.

Lemma contexts_init_ok : ctxs_ok contexts_init.
Proof.
  split; [reflexivity|]. unfold contexts_init. apply Forall_app. split.
  - apply Forall_replicate. split; [reflexivity|]. apply Forall_replicate. lia.
  - apply Forall_cons. split; [|constructor].
    split; [reflexivity|]. apply Forall_replicate. lia.
Qed.

(** The context of the next symbol is the symbol just coded. *)
Lemma next_context_id (mask id s : Z) k :
  mask = Z.ones k -> 8 <= k -> 0 <= id -> 0 <= s < 256 ->
  0 <= Z.land (Z.lor (Z.shiftl id 8) s) mask
  /\ Z.land (Z.lor (Z.shiftl id 8) s) mask mod 256 = s.
Proof.
  intros -> Hk Hid Hs. rewrite Z.land_ones by lia. split.
  - apply Z.mod_pos_bound. apply Z.pow_pos_nonneg; lia.
  - change 256 with (2 ^ 8). rewrite <- !Z.land_ones by lia.
    apply Z.bits_inj'. intros i Hi. rewrite !Z.land_spec, Z.lor_spec, !Z.testbit_ones_nonneg by lia.
    destruct (Z.ltb_spec i 8).
    + rewrite Z.shiftl_spec_low, orb_false_l by lia.
      replace (i <? k) with true by (symmetry; apply Z.ltb_lt; lia).
      rewrite !andb_true_r. reflexivity.
    + rewrite !andb_false_r. symmetry. apply Z.bits_above_log2; [lia|].
      destruct (Z.eq_dec s 0) as [->|]; [change (Z.log2 0) with 0; lia|].
      assert (2 ^ 8 <= 2 ^ i) by (apply Z.pow_le_mono_r; lia).
      apply Z.log2_lt_pow2; lia.
Qed.

Lemma next_context_u64 id s :
  0 <= id -> 0 <= s < 256 ->
  0 <= u64 (Z.lor (Z.shiftl id 8) s) /\ u64 (Z.lor (Z.shiftl id 8) s) mod 256 = s.
Proof. intros. apply (next_context_id _ id s 64); try lia. reflexivity. Qed.

Lemma next_context_u32 id s :
  0 <= id -> 0 <= s < 256 ->
  0 <= u32 (Z.lor (Z.shiftl id 8) s) /\ u32 (Z.lor (Z.shiftl id 8) s) mod 256 = s.
Proof. intros. apply (next_context_id _ id s 32); try lia. reflexivity. Qed.

(** ** The three ways a symbol is coded *)

Section ModelSymbol.

Variables (palette_size : Z) (st : encoder).

Let id := e_context_id st mod PEP_CONTEXTS_MAX.
Let ctx := ctx_get (e_contexts st) id.
Let order0 := ctx_get (e_contexts st) PEP_CONTEXTS_MAX.
Let s := e_symbol st.
Let finish (cs : list _pep_context) (freq_max : Z) :=
  mk_encoder cs (e_ac st) (u64 (Z.lor (Z.shiftl (e_context_id st) 8) s)) 0 0 freq_max.

Lemma model_symbol_hit :
  (sum ctx =? 0) = false -> (get (freq ctx) s =? 0) = false ->
  model_symbol palette_size st
  = ([_pep_get_prob_from_ctx ctx s],
     finish (ctx_set (e_contexts st) id
               (fst (PEP_UPDATE ctx s (e_freq_max st) palette_size)))
            (snd (PEP_UPDATE ctx s (e_freq_max st) palette_size))).
Proof.
  intros Hsum Hf. unfold model_symbol. fold id. fold ctx. fold s.
  rewrite Hsum, Hf. cbn [negb andb].
  destruct (PEP_UPDATE ctx s (e_freq_max st) palette_size). reflexivity.
Qed.

Lemma model_symbol_escape :
  (sum ctx =? 0) = false -> (get (freq ctx) s =? 0) = true ->
  let context1 :=
    mk_context (set (freq ctx) PEP_FREQ_END (u16 (get (freq ctx) PEP_FREQ_END + 1)))
      (u32 (sum ctx + 1)) in
  let context3 := mk_context (set (freq context1) s 1) (u32 (sum context1 + 1)) in
  model_symbol palette_size st
  = ([_pep_get_prob_from_ctx ctx PEP_FREQ_END; _pep_get_prob_from_ctx order0 s],
     finish (ctx_set (ctx_set (e_contexts st) id context3) PEP_CONTEXTS_MAX
               (fst (PEP_UPDATE order0 s (e_freq_max st) palette_size)))
            (snd (PEP_UPDATE order0 s (e_freq_max st) palette_size))).
Proof.
  intros Hsum Hf context1 context3. unfold model_symbol.
  fold id. fold ctx. fold s. fold order0.
  rewrite Hsum, Hf. cbn [negb andb]. fold context1. fold context3.
  destruct (PEP_UPDATE order0 s (e_freq_max st) palette_size). reflexivity.
Qed.

Lemma model_symbol_fresh :
  (sum ctx =? 0) = true ->
  let context2 := mk_context (set (freq ctx) PEP_FREQ_END 1) 1 in
  let context3 := mk_context (set (freq context2) s 1) (u32 (sum context2 + 1)) in
  model_symbol palette_size st
  = ([_pep_get_prob_from_ctx order0 s],
     finish (ctx_set (ctx_set (e_contexts st) id context3) PEP_CONTEXTS_MAX
               (fst (PEP_UPDATE order0 s (e_freq_max st) palette_size)))
            (snd (PEP_UPDATE order0 s (e_freq_max st) palette_size))).
Proof.
  intros Hsum context2 context3. unfold model_symbol.
  fold id. fold ctx. fold s. fold order0.
  rewrite Hsum. cbn [negb andb]. fold context2. fold context3.
  destruct (PEP_UPDATE order0 s (e_freq_max st) palette_size). reflexivity.
Qed.

End ModelSymbol.

(** ** One iteration of the decode loop *)

Section DecodeSymbol.

Variables (palette : list Z) (palette_size : Z) (in_format out_format : pep_format).
Variables (pre_multiply bits_per_index indices_per_byte index_mask area : Z).

Let step := decode_symbol palette palette_size in_format out_format pre_multiply
              bits_per_index indices_per_byte index_mask area.
Let group := write_group palette in_format out_format pre_multiply
               bits_per_index indices_per_byte index_mask area.

(** The symbol is found in its context. *)
Lemma decode_symbol_hit d prob s ac2 :
  let id := d_context_id d mod PEP_CONTEXTS_MAX in
  let ctx := ctx_get (d_contexts d) id in
  (sum ctx =? 0) = false ->
  _pep_get_sym_from_freq ctx (snd (_pep_arith_decode_curr_freq (d_ac d) (sum ctx)))
  = mk_sym prob s ->
  (s =? PEP_FREQ_END) = false ->
  _pep_arith_decode_update normalize_fuel
    (fst (_pep_arith_decode_curr_freq (d_ac d) (sum ctx))) prob = Some ac2 ->
  step d
  = Some (decoded d
            (ctx_set (d_contexts d) id (fst (PEP_UPDATE ctx s (d_freq_max d) palette_size)))
            ac2 (snd (PEP_UPDATE ctx s (d_freq_max d) palette_size)) s
            (group s (d_out_pixels d) (d_canvas_pos d))).
Proof.
  intros id ctx Hsum Hsym Hs Hupd.
  unfold step, decode_symbol. fold id. fold ctx. rewrite Hsum. cbn [negb].
  destruct (_pep_arith_decode_curr_freq (d_ac d) (sum ctx)) as [ac1 t].
  cbn [fst snd] in *. rewrite Hsym. cbn [sym_prob sym_symbol].
  rewrite Hupd, bind_some, Hs. cbn [negb].
  destruct (PEP_UPDATE ctx s (d_freq_max d) palette_size) as [ctx' F'].
  rewrite !bind_some. cbn [fst snd].
  unfold decoded, group, write_group.
  destruct (indices_per_byte >? 1).
  - destruct (unpack_indices _ _ _ _ _ _ _ _ _ _ _ _ _). reflexivity.
  - destruct (d_canvas_pos d <? area).
    + destruct (put_pixel _ _ _ _ _ _ _). reflexivity.
    + reflexivity.
Qed.

(** The symbol is new in its context: an escape, then order 0. *)
Lemma decode_symbol_escape d prob1 ac2 prob2 s ac4 :
  let id := d_context_id d mod PEP_CONTEXTS_MAX in
  let ctx := ctx_get (d_contexts d) id in
  let order0 := ctx_get (d_contexts d) PEP_CONTEXTS_MAX in
  (sum ctx =? 0) = false ->
  _pep_get_sym_from_freq ctx (snd (_pep_arith_decode_curr_freq (d_ac d) (sum ctx)))
  = mk_sym prob1 PEP_FREQ_END ->
  _pep_arith_decode_update normalize_fuel
    (fst (_pep_arith_decode_curr_freq (d_ac d) (sum ctx))) prob1 = Some ac2 ->
  _pep_get_sym_from_freq order0 (snd (_pep_arith_decode_curr_freq ac2 (sum order0)))
  = mk_sym prob2 s ->
  _pep_arith_decode_update normalize_fuel
    (fst (_pep_arith_decode_curr_freq ac2 (sum order0))) prob2 = Some ac4 ->
  let context1 :=
    mk_context (set (freq ctx) PEP_FREQ_END (u16 (get (freq ctx) PEP_FREQ_END + 1)))
      (u32 (sum ctx + 1)) in
  let context3 := mk_context (set (freq context1) s 1) (u32 (sum context1 + 1)) in
  step d
  = Some (decoded d
            (ctx_set (ctx_set (d_contexts d) id context3) PEP_CONTEXTS_MAX
               (fst (PEP_UPDATE order0 s (d_freq_max d) palette_size)))
            ac4 (snd (PEP_UPDATE order0 s (d_freq_max d) palette_size)) s
            (group s (d_out_pixels d) (d_canvas_pos d))).
Proof.
  intros id ctx order0 Hsum Hsym1 Hupd1 Hsym2 Hupd2 context1 context3.
  unfold step, decode_symbol. fold id. fold ctx. rewrite Hsum. cbn [negb].
  destruct (_pep_arith_decode_curr_freq (d_ac d) (sum ctx)) as [ac1 t].
  cbn [fst snd] in *. rewrite Hsym1. cbn [sym_prob sym_symbol].
  rewrite Hupd1, bind_some.
  change (negb (PEP_FREQ_END =? PEP_FREQ_END)) with false. cbv iota.
  rewrite bind_some. fold order0.
  destruct (_pep_arith_decode_curr_freq ac2 (sum order0)) as [ac3 t2].
  cbn [fst snd] in *. rewrite Hsym2. cbn [sym_prob sym_symbol].
  rewrite Hupd2, bind_some. fold context1. fold context3.
  destruct (PEP_UPDATE order0 s (d_freq_max d) palette_size) as [order0' F'].
  rewrite !bind_some. cbn [fst snd].
  unfold decoded, group, write_group.
  destruct (indices_per_byte >? 1).
  - destruct (unpack_indices _ _ _ _ _ _ _ _ _ _ _ _ _). reflexivity.
  - destruct (d_canvas_pos d <? area).
    + destruct (put_pixel _ _ _ _ _ _ _). reflexivity.
    + reflexivity.
Qed.

(** The context is empty: order 0 at once. *)
Lemma decode_symbol_fresh d prob2 s ac4 :
  let id := d_context_id d mod PEP_CONTEXTS_MAX in
  let ctx := ctx_get (d_contexts d) id in
  let order0 := ctx_get (d_contexts d) PEP_CONTEXTS_MAX in
  (sum ctx =? 0) = true ->
  _pep_get_sym_from_freq order0
    (snd (_pep_arith_decode_curr_freq (d_ac d) (sum order0)))
  = mk_sym prob2 s ->
  _pep_arith_decode_update normalize_fuel
    (fst (_pep_arith_decode_curr_freq (d_ac d) (sum order0))) prob2 = Some ac4 ->
  let context2 := mk_context (set (freq ctx) PEP_FREQ_END 1) 1 in
  let context3 := mk_context (set (freq context2) s 1) (u32 (sum context2 + 1)) in
  step d
  = Some (decoded d
            (ctx_set (ctx_set (d_contexts d) id context3) PEP_CONTEXTS_MAX
               (fst (PEP_UPDATE order0 s (d_freq_max d) palette_size)))
            ac4 (snd (PEP_UPDATE order0 s (d_freq_max d) palette_size)) s
            (group s (d_out_pixels d) (d_canvas_pos d))).
Proof.
  intros id ctx order0 Hsum Hsym2 Hupd2 context2 context3.
  unfold step, decode_symbol. fold id. fold ctx. rewrite Hsum. cbn [negb].
  rewrite bind_some. fold order0.
  destruct (_pep_arith_decode_curr_freq (d_ac d) (sum order0)) as [ac3 t2].
  cbn [fst snd] in *. rewrite Hsym2. cbn [sym_prob sym_symbol].
  rewrite Hupd2, bind_some. fold context2. fold context3.
  destruct (PEP_UPDATE order0 s (d_freq_max d) palette_size) as [order0' F'].
  rewrite !bind_some. cbn [fst snd].
  unfold decoded, group, write_group.
  destruct (indices_per_byte >? 1).
  - destruct (unpack_indices _ _ _ _ _ _ _ _ _ _ _ _ _). reflexivity.
  - destruct (d_canvas_pos d <? area).
    + destruct (put_pixel _ _ _ _ _ _ _). reflexivity.
    + reflexivity.
Qed.

End DecodeSymbol.

(** ** One packed symbol through the encoder and the decoder *)

Lemma get_prob_scale ctx s : prob_scale (_pep_get_prob_from_ctx ctx s) = sum ctx.
Proof. reflexivity. Qed.

Lemma code_probs_one ac prob :
  code_probs ac [prob]
  = _pep_arith_encode_normalize normalize_fuel (_pep_arith_encode ac prob).
Proof.
  rewrite code_probs_cons.
  destruct (_pep_arith_encode_normalize _ _); reflexivity.
Qed.

Ltac projections :=
  cbn [d_contexts d_ac d_context_id d_freq_max d_out_pixels d_canvas_pos
       e_contexts e_ac e_context_id e_indices_in_byte e_symbol e_freq_max
       with_ac decoded fst snd] in *.

Lemma symbol_sync palette_size st st' :
  ctxs_ok (e_contexts st) -> 0 <= e_symbol st < 256 -> 0 <= e_context_id st ->
  interval_ok (enc_low (e_ac st)) (enc_range (e_ac st)) ->
  2 ^ 14 <= enc_range (e_ac st) ->
  forallb prob_ok (fst (model_symbol palette_size st)) = true ->
  encode_symbol palette_size st = Some st' ->
  exists N,
    enc_out (e_ac st') = rev N ++ enc_out (e_ac st)
    /\ Forall is_byte N
    /\ ctxs_ok (e_contexts st') /\ 0 <= e_context_id st'
    /\ e_indices_in_byte st' = 0 /\ e_symbol st' = 0
    /\ interval_ok (enc_low (e_ac st')) (enc_range (e_ac st'))
    /\ 2 ^ 14 <= enc_range (e_ac st')
    /\ (forall E, (4 <= length E)%nat ->
          fits (enc_low (e_ac st')) (enc_range (e_ac st')) E ->
          fits (enc_low (e_ac st)) (enc_range (e_ac st)) (N ++ E))
    /\ (forall palette in_format out_format pre_multiply bits_per_index
               indices_per_byte index_mask area d E,
          in_step st d -> (4 <= length E)%nat -> Forall is_byte E ->
          reads (d_ac d) (N ++ E) ->
          fits (enc_low (e_ac st')) (enc_range (e_ac st')) E ->
          exists d',
            decode_symbol palette palette_size in_format out_format pre_multiply
              bits_per_index indices_per_byte index_mask area d = Some d'
            /\ in_step st' d' /\ reads (d_ac d') E
            /\ (d_out_pixels d', d_canvas_pos d')
               = write_group palette in_format out_format pre_multiply bits_per_index
                   indices_per_byte index_mask area (e_symbol st)
                   (d_out_pixels d) (d_canvas_pos d)).
Proof.
  intros Hcs Hs Hid Hok Hbig Hp H.
  rewrite encode_symbol_model in H.
  set (id := e_context_id st mod PEP_CONTEXTS_MAX) in *.
  set (ctx := ctx_get (e_contexts st) id).
  set (order0 := ctx_get (e_contexts st) PEP_CONTEXTS_MAX).
  assert (Hctx : freq_ok (freq ctx)) by apply ctxs_ok_get, Hcs.
  assert (Hord : freq_ok (freq order0)) by apply ctxs_ok_get, Hcs.
  destruct (next_context_u64 (e_context_id st) (e_symbol st) Hid Hs) as [Hid64 Hm64].
  destruct (sum ctx =? 0) eqn:Hsum; [|destruct (get (freq ctx) (e_symbol st) =? 0) eqn:Hf].
  - (* the context is empty *)
    rewrite (model_symbol_fresh palette_size st Hsum) in H, Hp.
    cbn [fst snd forallb] in H, Hp. rewrite andb_true_r in Hp.
    fold id in H. fold ctx in H. fold order0 in H, Hp.
    rewrite code_probs_one in H.
    destruct (_pep_arith_encode_normalize _ _) as [ac'|] eqn:Hn; [|discriminate H].
    rewrite bind_some in H. injection H as <-.
    destruct (code_prob_sync _ _ _ _ Hok Hbig Hp Hn)
      as (N & Hout & HN & Hok' & Hbig' & Hback & Hdec).
    exists N. projections.
    split; [assumption|]. split; [assumption|]. split.
    { apply ctxs_ok_set; [apply ctxs_ok_set; [assumption|]|].
      - cbn [freq]. repeat apply freq_ok_set; try assumption; lia.
      - apply PEP_UPDATE_freq_ok. assumption. }
    split; [assumption|]. split; [reflexivity|]. split; [reflexivity|].
    split; [assumption|]. split; [assumption|]. split; [assumption|].
    intros palette in_format out_format pre_multiply bits_per_index
           indices_per_byte index_mask area d E Hstep HE HbE Hreads HfE.
    destruct d as [dcs dac did dF dout dpos].
    destruct Hstep as (Ec & EF & Em & Hd0 & _ & El & Er). projections. subst dcs dF.
    destruct (Hdec dac E El Er HE HbE Hreads HfE) as (Ht & d2 & Hupd & El2 & Er2 & Hr2).
    rewrite get_prob_scale in Ht, Hupd.
    pose proof (get_sym_from_prob order0 (e_symbol st) _ Hord ltac:(lia) Ht) as Hsym.
    eexists. split.
    { apply (decode_symbol_fresh palette palette_size in_format out_format pre_multiply
               bits_per_index indices_per_byte index_mask area
               (mk_decoder (e_contexts st) dac did (e_freq_max st) dout dpos)
               (_pep_get_prob_from_ctx order0 (e_symbol st)) (e_symbol st) d2);
        projections.
      - change PEP_CONTEXTS_MAX with 256. rewrite Em. exact Hsum.
      - exact Hsym.
      - exact Hupd. }
    projections. change PEP_CONTEXTS_MAX with 256 in *. rewrite Em. fold id.
    destruct (next_context_u32 did (e_symbol st) Hd0 Hs) as [Hid32 Hm32].
    split.
    { unfold in_step. projections. repeat split; try assumption; try reflexivity.
      rewrite Hm32, Hm64. reflexivity. }
    split; [assumption|]. symmetry. apply surjective_pairing.
  - (* an escape, then order 0 *)
    rewrite (model_symbol_escape palette_size st Hsum Hf) in H, Hp.
    cbn [fst snd forallb] in H, Hp. rewrite andb_true_r in Hp.
    apply andb_true_iff in Hp as [Hp1 Hp2].
    fold id in H, Hp1. fold ctx in H, Hp1. fold order0 in H, Hp2.
    rewrite code_probs_cons in H.
    destruct (_pep_arith_encode_normalize normalize_fuel
                (_pep_arith_encode (e_ac st) (_pep_get_prob_from_ctx ctx PEP_FREQ_END)))
      as [ac1|] eqn:Hn1; [|discriminate H].
    rewrite bind_some, code_probs_one in H.
    destruct (_pep_arith_encode_normalize _ _) as [ac'|] eqn:Hn2 in H; [|discriminate H].
    rewrite bind_some in H. injection H as <-.
    destruct (code_prob_sync _ _ _ _ Hok Hbig Hp1 Hn1)
      as (N1 & Hout1 & HN1 & Hok1 & Hbig1 & Hback1 & Hdec1).
    destruct (code_prob_sync _ _ _ _ Hok1 Hbig1 Hp2 Hn2)
      as (N2 & Hout2 & HN2 & Hok' & Hbig' & Hback2 & Hdec2).
    exists (N1 ++ N2). projections.
    split; [rewrite Hout2, Hout1, rev_app_distr, app_assoc; reflexivity|].
    split; [apply Forall_app; split; assumption|]. split.
    { apply ctxs_ok_set; [apply ctxs_ok_set; [assumption|]|].
      - cbn [freq]. repeat apply freq_ok_set; try assumption; try lia.
        apply u16_range.
      - apply PEP_UPDATE_freq_ok. assumption. }
    split; [assumption|]. split; [reflexivity|]. split; [reflexivity|].
    split; [assumption|]. split; [assumption|]. split.
    { intros E HE HfE. rewrite <- app_assoc. apply Hback1.
      - rewrite length_app. lia.
      - apply Hback2; assumption. }
    intros palette in_format out_format pre_multiply bits_per_index
           indices_per_byte index_mask area d E Hstep HE HbE Hreads HfE.
    destruct d as [dcs dac did dF dout dpos].
    destruct Hstep as (Ec & EF & Em & Hd0 & _ & El & Er). projections. subst dcs dF.
    rewrite <- app_assoc in Hreads.
    destruct (Hdec1 dac (N2 ++ E) El Er)
      as (Ht1 & d2 & Hupd1 & El2 & Er2 & Hr2); try assumption.
    { rewrite length_app. lia. }
    { apply Forall_app. split; assumption. }
    { apply Hback2; assumption. }
    destruct (Hdec2 d2 E El2 Er2 HE HbE Hr2 HfE) as (Ht2 & d4 & Hupd2 & El4 & Er4 & Hr4).
    rewrite get_prob_scale in Ht1, Hupd1, Ht2, Hupd2.
    pose proof (get_sym_from_prob ctx PEP_FREQ_END _ Hctx
                  ltac:(change PEP_FREQ_END with 256; lia) Ht1) as Hsym1.
    pose proof (get_sym_from_prob order0 (e_symbol st) _ Hord ltac:(lia) Ht2) as Hsym2.
    eexists. split.
    { apply (decode_symbol_escape palette palette_size in_format out_format pre_multiply
               bits_per_index indices_per_byte index_mask area
               (mk_decoder (e_contexts st) dac did (e_freq_max st) dout dpos)
               (_pep_get_prob_from_ctx ctx PEP_FREQ_END) d2
               (_pep_get_prob_from_ctx order0 (e_symbol st)) (e_symbol st) d4);
        projections; change PEP_CONTEXTS_MAX with 256 in *; rewrite ?Em; fold id; fold ctx.
      - exact Hsum.
      - exact Hsym1.
      - exact Hupd1.
      - exact Hsym2.
      - exact Hupd2. }
    projections. change PEP_CONTEXTS_MAX with 256 in *. rewrite Em. fold id.
    destruct (next_context_u32 did (e_symbol st) Hd0 Hs) as [Hid32 Hm32].
    split.
    { unfold in_step. projections. repeat split; try assumption; try reflexivity.
      rewrite Hm32, Hm64. reflexivity. }
    split; [assumption|]. symmetry. apply surjective_pairing.
  - (* the symbol is in its context *)
    rewrite (model_symbol_hit palette_size st Hsum Hf) in H, Hp.
    cbn [fst snd forallb] in H, Hp. rewrite andb_true_r in Hp.
    fold id in H, Hp. fold ctx in H, Hp.
    rewrite code_probs_one in H.
    destruct (_pep_arith_encode_normalize _ _) as [ac'|] eqn:Hn; [|discriminate H].
    rewrite bind_some in H. injection H as <-.
    destruct (code_prob_sync _ _ _ _ Hok Hbig Hp Hn)
      as (N & Hout & HN & Hok' & Hbig' & Hback & Hdec).
    exists N. projections.
    split; [assumption|]. split; [assumption|]. split.
    { apply ctxs_ok_set; [assumption|]. apply PEP_UPDATE_freq_ok. assumption. }
    split; [assumption|]. split; [reflexivity|]. split; [reflexivity|].
    split; [assumption|]. split; [assumption|]. split; [assumption|].
    intros palette in_format out_format pre_multiply bits_per_index
           indices_per_byte index_mask area d E Hstep HE HbE Hreads HfE.
    destruct d as [dcs dac did dF dout dpos].
    destruct Hstep as (Ec & EF & Em & Hd0 & _ & El & Er). projections. subst dcs dF.
    destruct (Hdec dac E El Er HE HbE Hreads HfE) as (Ht & d2 & Hupd & El2 & Er2 & Hr2).
    rewrite get_prob_scale in Ht, Hupd.
    pose proof (get_sym_from_prob ctx (e_symbol st) _ Hctx ltac:(lia) Ht) as Hsym.
    eexists. split.
    { apply (decode_symbol_hit palette palette_size in_format out_format pre_multiply
               bits_per_index indices_per_byte index_mask area
               (mk_decoder (e_contexts st) dac did (e_freq_max st) dout dpos)
               (_pep_get_prob_from_ctx ctx (e_symbol st)) (e_symbol st) d2);
        projections; change PEP_CONTEXTS_MAX with 256 in *; rewrite ?Em; fold id; fold ctx.
      - exact Hsum.
      - exact Hsym.
      - change PEP_FREQ_END with 256. apply Z.eqb_neq. lia.
      - exact Hupd. }
    projections. change PEP_CONTEXTS_MAX with 256 in *. rewrite Em. fold id.
    destruct (next_context_u32 did (e_symbol st) Hd0 Hs) as [Hid32 Hm32].
    split.
    { unfold in_step. projections. repeat split; try assumption; try reflexivity.
      rewrite Hm32, Hm64. reflexivity. }
    split; [assumption|]. symmetry. apply surjective_pairing.
Qed.

(** ** Packing and unpacking *)

Lemma pack_app bpi ids : forall k symbol js,
  pack bpi k symbol (ids ++ js) = pack bpi (k + Z.of_nat (length ids)) (pack bpi k symbol ids) js.
Proof.
  induction ids as [|i ids IH]; intros k symbol js; cbn [pack app length].
  - f_equal. lia.
  - rewrite IH. f_equal. lia.
Qed.

(** Slot [j] of a packed symbol holds index [j]. *)
Lemma pack_slot bpi : forall ids k symbol j,
  1 <= bpi -> 0 <= k -> (k + Z.of_nat (length ids)) * bpi <= 8 ->
  0 <= symbol < 2 ^ (k * bpi) ->
  Forall (fun i => 0 <= i < 2 ^ bpi) ids ->
  0 <= pack bpi k symbol ids < 2 ^ ((k + Z.of_nat (length ids)) * bpi)
  /\ (0 <= j < k ->
      Z.land (Z.shiftr (pack bpi k symbol ids) (j * bpi)) (Z.ones bpi)
      = Z.land (Z.shiftr symbol (j * bpi)) (Z.ones bpi))
  /\ (forall i, ids !! Z.to_nat (j - k) = Some i -> k <= j ->
      Z.land (Z.shiftr (pack bpi k symbol ids) (j * bpi)) (Z.ones bpi) = i).
Proof.
  induction ids as [|i ids IH]; intros k symbol j Hb Hk Hfit Hsym His; cbn [pack length] in *.
  - rewrite Z.add_0_r. split; [assumption|]. split; [reflexivity|].
    intros i Hi. discriminate Hi.
  - apply Forall_cons in His as [Hi His].
    set (symbol' := Z.lor symbol (Z.shiftl i (k * bpi))).
    assert (Hkb : 0 <= k * bpi) by lia.
    assert (Hnew : 0 <= symbol' < 2 ^ ((k + 1) * bpi)).
    { subst symbol'. split.
      - apply Z.lor_nonneg. split; [lia|]. apply Z.shiftl_nonneg. lia.
      - destruct (Z.eq_dec (Z.lor symbol (Z.shiftl i (k * bpi))) 0) as [->|Hne].
        + apply Z.pow_pos_nonneg; lia.
        + apply Z.log2_lt_pow2.
          * assert (0 <= Z.lor symbol (Z.shiftl i (k * bpi))); [|lia].
            apply Z.lor_nonneg. split; [lia|]. apply Z.shiftl_nonneg. lia.
          * rewrite Z.log2_lor by (try apply Z.shiftl_nonneg; lia).
            apply Z.max_lub_lt.
            -- destruct (Z.eq_dec symbol 0) as [->|]; [change (Z.log2 0) with 0; lia|].
               assert (Z.log2 symbol < k * bpi) by (apply Z.log2_lt_pow2; lia). lia.
            -- destruct (Z.eq_dec i 0) as [->|].
               ++ rewrite Z.shiftl_0_l. change (Z.log2 0) with 0. lia.
               ++ rewrite Z.log2_shiftl by lia.
                  assert (Z.log2 i < bpi) by (apply Z.log2_lt_pow2; lia). lia. }
    assert (Hu8 : u8 symbol' = symbol').
    { apply u8_small. split; [lia|].
      assert (2 ^ ((k + 1) * bpi) <= 2 ^ 8) by (apply Z.pow_le_mono_r; lia). lia. }
    rewrite Hu8.
    destruct (IH (k + 1) symbol' j Hb ltac:(lia) ltac:(lia) Hnew His) as (Hr & Hlow & Hhigh).
    replace (k + 1 + Z.of_nat (length ids)) with (k + Z.pos (Pos.of_succ_nat (length ids)))
      in Hr by lia.
    split; [exact Hr|].
    assert (Hslot : forall j', 0 <= j' ->
              Z.land (Z.shiftr symbol' (j' * bpi)) (Z.ones bpi)
              = if j' <? k then Z.land (Z.shiftr symbol (j' * bpi)) (Z.ones bpi)
                else if j' =? k then i else 0).
    { intros j' Hj'. subst symbol'. apply Z.bits_inj'. intros t Ht.
      rewrite Z.land_spec, Z.shiftr_spec, Z.lor_spec by lia.
      destruct (Z.ltb_spec t bpi) as [Htb|Htb].
      - rewrite Z.testbit_ones_nonneg, (proj2 (Z.ltb_lt t bpi)), andb_true_r by lia.
        destruct (Z.ltb_spec j' k).
        + rewrite Z.shiftl_spec_low, orb_false_r by nia.
          rewrite Z.land_spec, Z.shiftr_spec, Z.testbit_ones_nonneg by lia.
          rewrite (proj2 (Z.ltb_lt t bpi)), andb_true_r by lia. reflexivity.
        + assert (Hzero : Z.testbit symbol (t + j' * bpi) = false).
          { destruct (Z.eq_dec symbol 0) as [->|]; [apply Z.bits_0|].
            apply Z.bits_above_log2; [lia|].
            assert (Z.log2 symbol < k * bpi) by (apply Z.log2_lt_pow2; lia). nia. }
          rewrite Hzero, orb_false_l, Z.shiftl_spec by lia.
          destruct (Z.eqb_spec j' k) as [->|Hne].
          * f_equal. lia.
          * rewrite Z.bits_0.
            destruct (Z.eq_dec i 0) as [->|]; [apply Z.bits_0|].
            apply Z.bits_above_log2; [nia|].
            assert (Z.log2 i < bpi) by (apply Z.log2_lt_pow2; lia). nia.
      - rewrite Z.testbit_ones_nonneg, (proj2 (Z.ltb_ge t bpi)), andb_false_r by lia.
        destruct (j' <? k); [|destruct (j' =? k)].
        + rewrite Z.land_spec, Z.testbit_ones_nonneg, (proj2 (Z.ltb_ge t bpi)) by lia.
          symmetry. apply andb_false_r.
        + destruct (Z.eq_dec i 0) as [->|]; [symmetry; apply Z.bits_0|].
          symmetry. apply Z.bits_above_log2; [lia|].
          assert (Z.log2 i < bpi) by (apply Z.log2_lt_pow2; lia). lia.
        + symmetry. apply Z.bits_0. }
    split.
    + intros Hj. rewrite Hlow by lia. rewrite Hslot by lia.
      destruct (Z.ltb_spec j k); [reflexivity|lia].
    + intros i' Hi' Hkj.
      destruct (Z.eq_dec j k) as [->|Hne].
      * rewrite Z.sub_diag in Hi'. injection Hi' as <-.
        rewrite Hlow by lia. rewrite Hslot by lia.
        rewrite Z.ltb_irrefl, Z.eqb_refl. reflexivity.
      * apply Hhigh; [|lia].
        replace (Z.to_nat (j - k)) with (S (Z.to_nat (j - (k + 1)))) in Hi' by lia.
        exact Hi'.
Qed.

Section WriteGroup.

Variables (palette : list Z) (in_format out_format : pep_format).
Variables (pre_multiply bits_per_index indices_per_byte area : Z).
Hypothesis Hbits : 1 <= bits_per_index.
Hypothesis Hper : 1 <= indices_per_byte.
Hypothesis Hbyte : indices_per_byte * bits_per_index <= 8.
Hypothesis Harea : area < 2 ^ 32.

Let index_mask := Z.ones bits_per_index.
Let color := paint palette in_format out_format pre_multiply.

Lemma put_pixel_next palette_idx (done : list Z) k :
  Z.of_nat (length done) < area ->
  put_pixel palette in_format out_format pre_multiply palette_idx
    (map Some done ++ replicate (S k) None) (Z.of_nat (length done))
  = (map Some (done ++ [color palette_idx]) ++ replicate k None,
     Z.of_nat (length (done ++ [color palette_idx]))).
Proof.
  intros Hpos. unfold put_pixel. cbv zeta. f_equal.
  - rewrite Nat2Z.id. unfold pixel_buffer.
    replace (length done) with (length (map Some done) + 0)%nat at 1
      by (rewrite length_map; lia).
    rewrite insert_app_r. cbn [replicate]. rewrite map_app, <- app_assoc. reflexivity.
  - rewrite length_app. cbn [length]. rewrite u64_small by lia. lia.
Qed.

Lemma unpack_indices_group symbol : forall n indices_in_byte (done : list Z) k,
  0 <= indices_in_byte -> indices_in_byte + Z.of_nat n <= indices_per_byte ->
  (n <= k)%nat -> Z.of_nat (length done + k) <= area ->
  unpack_indices n palette in_format out_format pre_multiply symbol bits_per_index
    indices_per_byte index_mask area indices_in_byte
    (map Some done ++ replicate k None) (Z.of_nat (length done))
  = (map Some
       (done ++ map (fun j => color (u8 (Z.land (Z.shiftr symbol (j * bits_per_index))
                                           index_mask)))
                    (seqZ indices_in_byte (Z.of_nat n)))
     ++ replicate (k - n) None,
     Z.of_nat (length done + n)).
Proof.
  induction n as [|n IH]; intros iib done k Hiib Hn Hk Hlen; cbn [unpack_indices].
  - rewrite seqZ_nil by lia. cbn [map]. rewrite app_nil_r, Nat.sub_0_r, Nat.add_0_r.
    reflexivity.
  - destruct (Z.ltb_spec iib indices_per_byte); [|lia].
    destruct (Z.ltb_spec (Z.of_nat (length done)) area); [|lia].
    cbn [andb]. destruct k as [|k]; [lia|].
    rewrite put_pixel_next by lia.
    assert (Hi8 : indices_per_byte <= 8) by nia.
    rewrite (u8_small (iib + 1)) by lia.
    rewrite IH; try lia; [|rewrite length_app; cbn [length]; lia].
    rewrite (seqZ_cons iib (Z.of_nat (S n))) by lia. cbn [map].
    rewrite <- app_assoc. cbn [app].
    replace (Z.pred (Z.of_nat (S n))) with (Z.of_nat n) by lia.
    replace (Z.succ iib) with (iib + 1) by lia.
    rewrite length_app. cbn [length].
    replace (S k - S n)%nat with (k - n)%nat by lia.
    do 2 f_equal. lia.
Qed.

(** A whole group: the decoder writes the colours of the indices that
    the encoder packed. *)
Lemma write_group_pack ids (done : list Z) k :
  Z.of_nat (length ids) = indices_per_byte ->
  Forall (fun i => 0 <= i < 2 ^ bits_per_index) ids ->
  (length ids <= k)%nat -> Z.of_nat (length done + k) <= area ->
  write_group palette in_format out_format pre_multiply bits_per_index
    indices_per_byte index_mask area (pack bits_per_index 0 0 ids)
    (map Some done ++ replicate k None) (Z.of_nat (length done))
  = (map Some (done ++ map color ids) ++ replicate (k - length ids) None,
     Z.of_nat (length done + length ids)).
Proof.
  intros Hlen Hids Hk Harea'. unfold write_group.
  assert (Hslot : forall j i, ids !! j = Some i ->
            u8 (Z.land (Z.shiftr (pack bits_per_index 0 0 ids) (Z.of_nat j * bits_per_index))
                  index_mask) = i).
  { intros j i Hj.
    destruct (pack_slot bits_per_index ids 0 0 (Z.of_nat j) Hbits ltac:(lia))
      as (_ & _ & Hhigh); try assumption.
    - lia.
    - change (0 * bits_per_index) with 0. change (2 ^ 0) with 1. lia.
    - unfold index_mask. rewrite (Hhigh i); [| rewrite Z.sub_0_r, Nat2Z.id; exact Hj | lia].
      apply u8_small.
      pose proof (Forall_lookup_1 _ _ _ _ Hids Hj) as Hi. cbn beta in Hi.
      assert (2 ^ bits_per_index <= 2 ^ 8) by (apply Z.pow_le_mono_r; nia). lia. }
  destruct (Z.gtb_spec indices_per_byte 1).
  - rewrite unpack_indices_group; try lia.
    rewrite <- Hlen, Nat2Z.id. do 3 f_equal. apply (f_equal (app done)).
    repeat match goal with |- context [map ?f ?l] => change (map f l) with (f <$> l) end.
    apply list_eq. intros j. rewrite list_lookup_fmap.
    destruct (ids !! j) as [i|] eqn:Hj.
    + rewrite list_lookup_fmap.
      rewrite (lookup_seqZ_lt) by (apply lookup_lt_Some in Hj; lia).
      cbn [fmap option_fmap option_map]. rewrite Z.add_0_l, (Hslot _ _ Hj). 
      rewrite Hj. reflexivity.
    + rewrite list_lookup_fmap, Hj, lookup_seqZ_ge; [reflexivity|].
      apply lookup_ge_None in Hj. lia.
  - destruct ids as [|i [|i' ids]]; cbn [length] in *; try lia.
    destruct (Z.ltb_spec (Z.of_nat (length done)) area); [|lia].
    destruct k as [|k]; [lia|].
    assert (Hsym : pack bits_per_index 0 0 [i] = i).
    { cbn [pack]. change (0 * bits_per_index) with 0.
      rewrite Z.shiftl_0_r, Z.lor_0_l. apply u8_small.
      apply Forall_cons in Hids as [Hi _].
      assert (2 ^ bits_per_index <= 2 ^ 8) by (apply Z.pow_le_mono_r; nia). lia. }
    rewrite Hsym, put_pixel_next by lia.
    rewrite length_app. cbn [length map].
    replace (S k - 1)%nat with k by lia. reflexivity.
Qed.

End WriteGroup.

(** ** The encode loop and the decode loop *)

Lemma encode_loop_S n pal ps bpi ipb px st :
  encode_loop (S n) pal ps bpi ipb px st
  = if is_nil px && negb (e_indices_in_byte st >? 0) then Some st
    else
      '(px', st') ← encode_iter pal ps bpi ipb px st;
      encode_loop n pal ps bpi ipb px' st'.
Proof. reflexivity. Qed.

Lemma encode_symbol_with_ac palette_size m ac :
  encode_symbol palette_size (with_ac m ac)
  = (ac' ← code_probs ac (fst (model_symbol palette_size m));
     Some (with_ac (snd (model_symbol palette_size m)) ac')).
Proof.
  rewrite encode_symbol_model, model_symbol_with_ac. cbn [fst snd].
  change (e_ac (with_ac m ac)) with ac.
  destruct (code_probs ac _); reflexivity.
Qed.

Section Codec.

Variables (pal : list Z) (palette_size bits_per_index indices_per_byte : Z).
Variables (palette : list Z) (in_format out_format : pep_format) (pre_multiply area : Z).
Hypothesis Hbits : 1 <= bits_per_index.
Hypothesis Hper : 1 <= indices_per_byte.
Hypothesis Hbyte : indices_per_byte * bits_per_index <= 8.
Hypothesis Harea : area < 2 ^ 32.

Let idx (p : Z) := index_search pal palette_size p 0.
Let color := paint palette in_format out_format pre_multiply.
Let step := decode_symbol palette palette_size in_format out_format pre_multiply
              bits_per_index indices_per_byte (Z.ones bits_per_index) area.
Let fits_slot (p : Z) := 0 <= idx p < 2 ^ bits_per_index.

Lemma codec_loop : forall n px m ac mf stf g,
  (length px < n)%nat ->
  ctxs_ok (e_contexts m) -> 0 <= e_context_id m ->
  interval_ok (enc_low ac) (enc_range ac) -> 2 ^ 14 <= enc_range ac ->
  e_indices_in_byte m = Z.of_nat (length g) ->
  Z.of_nat (length g) < indices_per_byte -> (px = [] -> g = []) ->
  e_symbol m = pack bits_per_index 0 0 (map idx g) ->
  Forall fits_slot g -> Forall fits_slot px ->
  model_loop n pal palette_size bits_per_index indices_per_byte px m = Some mf ->
  encode_loop n pal palette_size bits_per_index indices_per_byte px (with_ac m ac)
  = Some stf ->
  exists E,
    enc_out (encode_flush 4 (e_ac stf)) = rev E ++ enc_out ac
    /\ Forall is_byte E /\ (4 <= length E)%nat
    /\ fits (enc_low ac) (enc_range ac) E
    /\ forall d (done : list Z),
         in_step (with_ac m ac) d -> reads (d_ac d) E ->
         d_out_pixels d = map Some done ++ replicate (length g + length px) None ->
         d_canvas_pos d = Z.of_nat (length done) ->
         Z.of_nat (length done + length g + length px) <= area ->
         let whole := Z.of_nat (length g + length px) / indices_per_byte in
         exists df,
           decode_loop (Z.to_nat whole) step d = Some df
           /\ d_out_pixels df
              = map Some
                  (done ++ map (fun p => color (idx p))
                             (take (Z.to_nat (indices_per_byte * whole)) (g ++ px)))
                ++ replicate
                     (Z.to_nat (Z.of_nat (length g + length px) mod indices_per_byte))
                     None.
Proof.
  induction n as [|n IH];
    intros px m ac mf stf g Hn Hcs Hid Hok Hbig Hiib Hg Hnil Hsym Hgs Hpx Hm He; [lia|].
  rewrite model_loop_S in Hm. rewrite encode_loop_S in He.
  change (e_indices_in_byte (with_ac m ac)) with (e_indices_in_byte m) in He.
  destruct px as [|p rest].
  - (* the loop is over *)
    rewrite (Hnil eq_refl) in *. cbn [length] in Hiib. rewrite Hiib in Hm, He.
    cbn [is_nil andb negb] in Hm, He. change (Z.of_nat 0 >? 0) with false in Hm, He.
    cbn [negb] in Hm, He. injection He as <-.
    change (e_ac (with_ac m ac)) with ac.
    destruct (encode_flush_fits ac) as (E & Hout & HbE & HlE & HfE).
    { unfold interval_ok in Hok. lia. }
    { unfold interval_ok in Hok. lia. }
    exists E. split; [assumption|]. split; [assumption|]. split; [lia|].
    split; [assumption|].
    intros d done _ _ Hout' _ _. cbn [length Nat.add].
    change (Z.of_nat 0) with 0. rewrite Z.div_0_l, Z.mod_0_l by lia.
    exists d. split; [reflexivity|].
    rewrite Z.mul_0_r. change (Z.to_nat 0) with 0%nat. rewrite take_0. cbn [map].
    rewrite Hout'. cbn [length Nat.add replicate]. rewrite !app_nil_r. reflexivity.
  - cbn [is_nil andb] in Hm, He.
    rewrite encode_iter_model in He.
    apply Forall_cons in Hpx as [Hp Hrest].
    assert (Hi8 : indices_per_byte <= 8) by nia.
    unfold model_iter in Hm, He.
    rewrite Hiib, (u8_small (Z.of_nat (length g) + 1)) in Hm, He by lia.
    set (m1 := mk_encoder (e_contexts m) (e_ac m) (e_context_id m)
                 (Z.of_nat (length g) + 1)
                 (u8 (Z.lor (e_symbol m)
                        (Z.shiftl (index_search pal palette_size p 0)
                           (Z.of_nat (length g) * bits_per_index))))
                 (e_freq_max m)) in *.
    change (e_indices_in_byte m1) with (Z.of_nat (length g) + 1) in Hm, He.
    assert (Hsym1 : e_symbol m1 = pack bits_per_index 0 0 (map idx (g ++ [p]))).
    { subst m1. cbn [e_symbol]. rewrite map_app, pack_app, <- Hsym, length_map.
      cbn [map pack]. rewrite Z.add_0_l. reflexivity. }
    destruct ((Z.of_nat (length g) + 1 >=? indices_per_byte)
              || (is_nil rest && (Z.of_nat (length g) + 1 >? 0))) eqn:Hcond.
    + (* the group goes through the coder *)
      destruct (model_symbol palette_size m1) as [probs m2] eqn:Hms.
      cbv beta iota zeta in Hm, He.
      destruct (forallb prob_ok probs) eqn:Hprobs; [|discriminate Hm].
      destruct (code_probs ac probs) as [ac'|] eqn:Hcode; [|discriminate He].
      rewrite bind_some in He.
      assert (Hes : encode_symbol palette_size (with_ac m1 ac) = Some (with_ac m2 ac')).
      { rewrite encode_symbol_with_ac, Hms. cbn [fst snd]. rewrite Hcode. reflexivity. }
      destruct (symbol_sync palette_size (with_ac m1 ac) (with_ac m2 ac'))
        as (N & HoutN & HbN & Hcs2 & Hid2 & Hiib2 & Hsym2 & Hok2 & Hbig2 & Hback & Hdec);
        try assumption.
      { subst m1. cbn [e_symbol with_ac]. 
        assert (H8 := u8_mod (Z.lor (e_symbol m)
                        (Z.shiftl (index_search pal palette_size p 0)
                           (Z.of_nat (length g) * bits_per_index)))).
        rewrite H8. apply Z.mod_pos_bound. lia. }
      { rewrite model_symbol_with_ac, Hms. exact Hprobs. }
      change (e_contexts (with_ac m2 ac')) with (e_contexts m2) in Hcs2.
      change (e_context_id (with_ac m2 ac')) with (e_context_id m2) in Hid2.
      change (e_indices_in_byte (with_ac m2 ac')) with (e_indices_in_byte m2) in Hiib2.
      change (e_symbol (with_ac m2 ac')) with (e_symbol m2) in Hsym2.
      change (e_ac (with_ac m2 ac')) with ac' in *.
      change (e_ac (with_ac m1 ac)) with ac in *.
      destruct (IH rest m2 ac' mf stf []) as (E' & HoutE & HbE & HlE & HfE & Hloop);
        try assumption; try (cbn [length] in *; lia).
      { reflexivity. }
      { constructor. }
      exists (N ++ E').
      split; [rewrite HoutE, HoutN, rev_app_distr, app_assoc; reflexivity|].
      split; [apply Forall_app; split; assumption|].
      split; [rewrite length_app; lia|].
      split; [apply Hback; assumption|].
      intros d done Hstep Hreads Hbuf Hpos Hroom whole.
      destruct (Z.ltb_spec (Z.of_nat (length g) + 1) indices_per_byte) as [Hpart|Hfull].
      * (* a partial group at the end: the decoder stops before it *)
        assert (rest = []) as ->.
        { destruct rest; [reflexivity|]. cbn [is_nil andb] in Hcond.
          rewrite orb_false_r in Hcond. apply Z.geb_le in Hcond. lia. }
        assert (Hwhole : whole = 0).
        { subst whole. apply Z.div_small. cbn [length]. lia. }
        rewrite Hwhole, Z.mul_0_r. exists d. split; [reflexivity|].
        rewrite Hbuf. change (Z.to_nat 0) with 0%nat. rewrite take_0. cbn [map].
        rewrite app_nil_r, Z.mod_small by (cbn [length]; lia).
        rewrite Nat2Z.id. reflexivity.
      * (* a whole group *)
        assert (Hlen : Z.of_nat (length (map idx (g ++ [p]))) = indices_per_byte).
        { rewrite length_map, length_app. cbn [length]. lia. }
        destruct (Hdec palette in_format out_format pre_multiply bits_per_index
                    indices_per_byte (Z.ones bits_per_index) area d E')
          as (d' & Hd' & Hstep' & Hreads' & Hwrite); try assumption.
        change (e_symbol (with_ac m1 ac)) with (e_symbol m1) in Hwrite.
        rewrite Hsym1, Hbuf, Hpos in Hwrite.
        rewrite (write_group_pack palette in_format out_format pre_multiply
                   bits_per_index indices_per_byte area Hbits Hper Hbyte Harea)
          in Hwrite; try assumption.
        2:{ rewrite Forall_map. apply Forall_app. split; [exact Hgs|].
            apply Forall_cons. split; [exact Hp|constructor]. }
        2:{ rewrite length_map, length_app. cbn [length]. lia. }
        2:{ cbn [length] in Hroom |- *. lia. }
        injection Hwrite as Hbuf' Hpos'.
        destruct (Hloop d' (done ++ map color (map idx (g ++ [p]))))
          as (df & Hdf & Houtf); try assumption.
        { rewrite Hbuf'. cbn [length Nat.add]. do 2 f_equal.
          rewrite length_map, length_app. cbn [length]. lia. }
        { rewrite Hpos', length_app, !length_map. reflexivity. }
        { rewrite length_app, !length_map, length_app. cbn [length] in *. lia. }
        cbn [length Nat.add app] in Houtf.
        assert (Hw : whole = 1 + Z.of_nat (length rest) / indices_per_byte).
        { subst whole. cbn [length].
          replace (Z.of_nat (length g + S (length rest)))
            with (1 * indices_per_byte + Z.of_nat (length rest)) by lia.
          rewrite Z.add_comm, Z.div_add by lia. lia. }
        exists df. split.
        { rewrite Hw, Z2Nat.inj_add by (try apply Z.div_pos; lia).
          change (Z.to_nat 1) with 1%nat. cbn [Nat.add decode_loop].
          fold step in Hd'. rewrite Hd', bind_some. exact Hdf. }
        rewrite Houtf. f_equal.
        -- f_equal. rewrite <- app_assoc. f_equal.
           rewrite map_map, <- map_app. f_equal.
           replace (g ++ p :: rest) with ((g ++ [p]) ++ rest)
             by (rewrite <- app_assoc; reflexivity).
           rewrite Hw. rewrite take_app_ge.
           ++ f_equal. f_equal. rewrite length_app. cbn [length].
              assert (0 <= Z.of_nat (length rest) / indices_per_byte)
                by (apply Z.div_pos; lia). nia.
           ++ rewrite length_app. cbn [length].
              assert (0 <= Z.of_nat (length rest) / indices_per_byte)
                by (apply Z.div_pos; lia). nia.
        -- f_equal. f_equal. cbn [length].
           replace (Z.of_nat (length g + S (length rest)))
             with (Z.of_nat (length rest) + 1 * indices_per_byte) by lia.
           rewrite Z.mod_add by lia. reflexivity.
    + (* the group is not full yet *)
      cbv beta iota zeta in Hm, He.
      cbn [forallb] in Hm. rewrite code_probs_nil, bind_some in He.
      apply orb_false_iff in Hcond as [Hc1 Hc2].
      rewrite Z.geb_leb in Hc1. apply Z.leb_gt in Hc1.
      assert (Hmore : rest <> []).
      { intros ->. cbn [is_nil andb] in Hc2. rewrite Z.gtb_ltb in Hc2.
        apply Z.ltb_ge in Hc2. lia. }
      assert (Hlen : (length (g ++ [p]) + length rest
                      = length g + length (p :: rest))%nat)
        by (rewrite length_app; cbn [length]; lia).
      assert (Hg1 : Z.of_nat (length (g ++ [p])) = Z.of_nat (length g) + 1)
        by (rewrite length_app; cbn [length]; lia).
      destruct (IH rest m1 ac mf stf (g ++ [p])) as (E & HoutE & HbE & HlE & HfE & Hloop).
      { cbn [length] in Hn. lia. }
      { exact Hcs. }
      { exact Hid. }
      { exact Hok. }
      { exact Hbig. }
      { rewrite Hg1. reflexivity. }
      { rewrite Hg1. exact Hc1. }
      { intros ->. contradiction. }
      { exact Hsym1. }
      { apply Forall_app. split; [exact Hgs|]. apply Forall_cons. split; [exact Hp|constructor]. }
      { exact Hrest. }
      { exact Hm. }
      { exact He. }
      exists E. split; [assumption|]. split; [assumption|]. split; [assumption|].
      split; [assumption|].
      intros d done Hstep Hreads Hbuf Hpos Hroom.
      specialize (Hloop d done Hstep Hreads).
      rewrite Hlen, <- app_assoc in Hloop. cbn [app] in Hloop.
      apply Hloop; try assumption.
      rewrite length_app. cbn [length] in Hroom |- *. lia.
Qed.

End Codec.

(** ** From the palette to the pixels *)

Lemma index_search_holds pal size seen p :
  palette_holds pal size seen ->
  (p ∈ seen ->
     exists i, (i < length seen)%nat
       /\ index_search pal size p 0 = Z.of_nat i /\ seen !! i = Some p)
  /\ (p ∉ seen -> index_search pal size p 0 = size).
Proof.
  intros (Hsize & Hlen & ->).
  rewrite index_search_scan by lia.
  destruct (palette_scan_spec p seen (replicate (256 - length seen) 0) 0 size
              ltac:(lia)) as [Hin Hout].
  split; [|exact Hout].
  intros Hp. destruct (Hin Hp) as (i & Hi & Hscan & Hlook).
  exists i. rewrite Hscan. split; [assumption|]. split; [lia|assumption].
Qed.

Lemma first_colors_grows cap : forall px seen,
  (length seen <= length (first_colors cap seen px))%nat.
Proof.
  induction px as [|c px IH]; intros seen; cbn [first_colors]; [lia|].
  destruct (bool_decide (c ∈ seen)); [apply IH|].
  destruct (length seen <? cap)%nat; [|apply IH].
  specialize (IH (seen ++ [c])). rewrite length_app in IH. cbn [length] in IH. lia.
Qed.

Lemma first_colors_complete cap : forall px seen,
  (forall p, p ∈ seen \/ p ∈ px -> p ∈ first_colors cap seen px)
  \/ (cap <= length (first_colors cap seen px))%nat.
Proof.
  induction px as [|c px IH]; intros seen; cbn [first_colors].
  - left. intros p [Hp|Hp]; [assumption|inversion Hp].
  - destruct (decide (c ∈ seen)) as [Hc|Hc].
    + rewrite bool_decide_eq_true_2 by assumption.
      destruct (IH seen) as [Hall|Hfull]; [left|right; assumption].
      intros p [Hp|Hp]; [auto|].
      apply elem_of_cons in Hp as [->|Hp]; auto.
    + rewrite bool_decide_eq_false_2 by assumption.
      destruct (Nat.ltb_spec (length seen) cap).
      * destruct (IH (seen ++ [c])) as [Hall|Hfull]; [left|right; assumption].
        intros p [Hp|Hp].
        -- apply Hall. left. apply elem_of_app. left. assumption.
        -- apply elem_of_cons in Hp as [->|Hp].
           ++ apply Hall. left. apply elem_of_app. right. constructor.
           ++ apply Hall. right. assumption.
      * right. pose proof (first_colors_grows cap px seen). lia.
Qed.

(** The packing parameters of a palette of 1 to 255 colours. *)
Lemma packing_params palette_size :
  1 <= palette_size <= 255 ->
  1 <= bits_per_index_of palette_size
  /\ 1 <= indices_per_byte_of palette_size
  /\ indices_per_byte_of palette_size * bits_per_index_of palette_size <= 8
  /\ index_mask_of palette_size = Z.ones (bits_per_index_of palette_size)
  /\ palette_size <= 2 ^ bits_per_index_of palette_size
  /\ (palette_size = 255 -> bits_per_index_of palette_size = 8).
Proof.
  intros H.
  assert (Hall : Forall (fun s =>
            1 <= bits_per_index_of s
            /\ 1 <= indices_per_byte_of s
            /\ indices_per_byte_of s * bits_per_index_of s <= 8
            /\ index_mask_of s = Z.ones (bits_per_index_of s)
            /\ s <= 2 ^ bits_per_index_of s
            /\ (s = 255 -> bits_per_index_of s = 8)) (seqZ 1 255))
    by (apply (bool_decide_unpack _); vm_compute; exact I).
  rewrite Forall_forall in Hall. apply Hall, elem_of_seqZ. lia.
Qed.

(** The four bytes that prime the decoder. *)
Lemma decode_prime_reads E range :
  (4 <= length E)%nat -> Forall is_byte E ->
  let d := decode_prime 4 (mk_dec E 0 range 0) in
  dec_low d = 0 /\ dec_range d = range /\ reads d E.
Proof.
  intros Hlen Hb.
  destruct E as [|e0 [|e1 [|e2 [|e3 E]]]]; cbn [length] in Hlen; try lia.
  repeat (apply Forall_cons in Hb as [? Hb]). unfold is_byte in *.
  cbn [decode_prime next_byte dec_in dec_low dec_range dec_code].
  split; [reflexivity|]. split; [reflexivity|]. split; [|reflexivity].
  cbn [dec_code take]. rewrite take_0. unfold num. cbn [fold_left].
  rewrite !shl8.
  change (0 * 256) with 0. rewrite Z.mod_0_l, Z.lor_0_l by lia.
  assert (Hlor : forall a b, 0 <= a < 2 ^ 24 -> 0 <= b < 256 ->
            Z.lor ((a * 256) mod 2 ^ 32) b = a * 256 + b).
  { intros a b Ha Hb'. rewrite Z.mod_small by lia.
    replace (a * 256) with (Z.shiftl a 8) by (rewrite Z.shiftl_mul_pow2; lia).
    rewrite <- Z.add_nocarry_lor; [reflexivity|].
    apply Z.bits_inj'. intros i Hi. rewrite Z.land_spec, Z.bits_0.
    destruct (Z.lt_ge_cases i 8).
    - rewrite Z.shiftl_spec_low by lia. reflexivity.
    - rewrite (Z.bits_above_log2 b), andb_false_r; [reflexivity|lia|].
      destruct (Z.eq_dec b 0) as [->|]; [change (Z.log2 0) with 0; lia|].
      assert (2 ^ 8 <= 2 ^ i) by (apply Z.pow_le_mono_r; lia).
      apply Z.log2_lt_pow2; lia. }
  rewrite (Hlor e0 e1), (Hlor (e0 * 256 + e1) e2),
    (Hlor ((e0 * 256 + e1) * 256 + e2) e3) by lia. lia.
Qed.

(** ** pep_decompress after pep_compress *)

Lemma compress_palette_size pixels w h :
  pixels_read pixels w h <> [] -> 1 <= snd (compress_palette pixels w h) <= 255.
Proof.
  intros Hne.
  destruct (compress_palette_holds pixels w h) as (Hsize & Hlen & _).
  destruct (pixels_read pixels w h) as [|c px]; [contradiction|].
  cbn [first_colors] in Hsize, Hlen.
  rewrite bool_decide_eq_false_2 in Hsize, Hlen by (intros Hc; inversion Hc).
  change (length [] <? 255)%nat with true in Hsize, Hlen. cbv iota in Hsize, Hlen.
  pose proof (first_colors_grows 255 px ([] ++ [c])) as Hg. cbn [app length] in Hg.
  cbn [app] in Hsize, Hlen. lia.
Qed.

(** Every index that [pep_compress] packs fits its slot. *)
Lemma compress_index_fits pixels w h p :
  p ∈ pixels_read pixels w h ->
  let pal := fst (compress_palette pixels w h) in
  let size := snd (compress_palette pixels w h) in
  0 <= index_search pal size p 0 < 2 ^ bits_per_index_of size.
Proof.
  intros Hp pal size.
  pose proof (compress_palette_holds pixels w h) as Hholds. fold pal size in Hholds.
  assert (Hne : pixels_read pixels w h <> []) by (intros E; rewrite E in Hp; inversion Hp).
  pose proof (compress_palette_size pixels w h Hne) as Hsize. fold size in Hsize.
  destruct (packing_params size Hsize) as (_ & _ & _ & _ & Hfit & Hfull).
  destruct (index_search_holds pal size _ p Hholds) as [Hin Hout].
  destruct Hholds as (Es & Hlen & _).
  destruct (decide (p ∈ first_colors 255 [] (pixels_read pixels w h))) as [Hc|Hc].
  - destruct (Hin Hc) as (i & Hi & -> & _). lia.
  - rewrite (Hout Hc).
    destruct (first_colors_complete 255 (pixels_read pixels w h) []) as [Hall|Hcap].
    + exfalso. apply Hc, Hall. right. assumption.
    + rewrite Hfull by lia. lia.
Qed.

Lemma compress_decompress_general pixels w h f cb static_palette out_format tfc pm st :
  1 <= w <= 65535 -> 1 <= h <= 65535 ->
  length pixels = Z.to_nat (w * h) ->
  compress_model pixels w h (S (Z.to_nat (w * h))) = Some st ->
  exists p,
    pep_compress (Some pixels) w h f cb = Some p
    /\ pep_decompress static_palette (Some p) out_format tfc pm
       = Some (Some (decoded_pixels static_palette p out_format tfc pm pixels)).
Proof.
  intros Hw Hh Hlen Hmodel.
  assert (Harea : 1 <= w * h < 2 ^ 32) by nia.
  assert (Hread : pixels_read pixels w h = pixels).
  { unfold pixels_read. rewrite u32_small by lia. apply take_ge. lia. }
  assert (Hne : pixels_read pixels w h <> []).
  { rewrite Hread. intros ->. cbn [length] in Hlen. lia. }
  pose proof (compress_palette_size pixels w h Hne) as Hsize.
  pose proof (fun p => compress_index_fits pixels w h p) as Hslots.
  unfold pep_compress, compress_state. unfold compress_model in Hmodel.
  rewrite u32_small by lia.
  destruct (Z.eqb_spec (w * h) 0); [lia|].
  destruct (compress_palette pixels w h) as [pal size]. cbn [fst snd] in *.
  destruct (packing_params size Hsize) as (Hbits & Hper & Hbyte & Hmask & _).
  rewrite Hread in *.
  set (bpi := bits_per_index_of size) in *. set (ipb := indices_per_byte_of size) in *.
  assert (Hinit : coder_ok (e_ac encoder_init)) by (vm_compute; intuition discriminate).
  destruct (encode_loop_model _ _ _ _ _ _ _ _ _ Hinit Hmodel) as (acf & Henc & _).
  rewrite with_ac_init in Henc. rewrite Henc, bind_some.
  set (palette1 := decompress_palette static_palette
                     (mk_pep None 0 0 0 f pal size cb) tfc).
  destruct (codec_loop pal size bpi ipb palette1 f out_format pm (w * h)
              Hbits Hper Hbyte ltac:(lia)
              (S (Z.to_nat (w * h))) pixels encoder_init (e_ac encoder_init)
              st (with_ac st acf) [])
    as (E & Hout & HbE & HlE & HfE & Hloop).
  { lia. }
  { apply contexts_init_ok. }
  { cbn. lia. }
  { vm_compute. intuition discriminate. }
  { vm_compute. discriminate. }
  { reflexivity. }
  { cbn [length]. lia. }
  { reflexivity. }
  { reflexivity. }
  { constructor. }
  { apply Forall_forall. intros p Hp. apply Hslots. exact Hp. }
  { exact Hmodel. }
  { rewrite with_ac_init. exact Henc. }
  change (e_ac (with_ac st acf)) with acf in Hout.
  change (enc_out (e_ac encoder_init)) with (@nil Z) in Hout.
  rewrite app_nil_r in Hout. cbv zeta.
  change (e_ac (with_ac st acf)) with acf. rewrite Hout, rev_involutive.
  eexists. split; [reflexivity|].
  unfold pep_decompress.
  cbn [bytes bytes_size width height palette palette_size format].
  destruct (Z.eqb_spec (Z.of_nat (length E)) 0); [lia|].
  destruct (Z.eqb_spec w 0); [lia|]. destruct (Z.eqb_spec h 0); [lia|].
  cbn [orb]. rewrite u32_small, Nat2Z.id, firstn_all by lia.
  fold bpi. fold ipb. rewrite Hmask. fold bpi.
  destruct (decode_prime_reads E (u32 (2 ^ 32 - 1)) HlE HbE) as (Hl0 & Hr0 & Hreads).
  set (d0 := mk_decoder contexts_init (decode_prime 4 (mk_dec E 0 (u32 (2 ^ 32 - 1)) 0))
               0 PEP_FREQ_MAX (replicate (Z.to_nat (w * h)) None) 0).
  destruct (Hloop d0 []) as (df & Hdf & Houtf).
  { unfold in_step, d0. cbn [d_contexts d_freq_max d_context_id d_ac].
    rewrite Hl0, Hr0. repeat split; try reflexivity; lia. }
  { exact Hreads. }
  { unfold d0. cbn [d_out_pixels length Nat.add map app]. rewrite Hlen. reflexivity. }
  { reflexivity. }
  { cbn [length Nat.add]. lia. }
  cbn [length Nat.add app] in Hdf, Houtf.
  rewrite Hlen, Z2Nat.id in Hdf, Houtf by lia.
  change (decompress_palette static_palette (mk_pep None 0 0 0 f pal size cb) tfc)
    with (decompress_palette static_palette
            (mk_pep (Some E) (Z.of_nat (length E)) w h f pal size cb) tfc) in palette1.
  unfold decompress_palette in palette1.
  cbn [palette palette_size format] in palette1. fold palette1.
  rewrite Hdf, bind_some, Houtf.
  unfold decoded_pixels. cbn [palette palette_size format].
  fold ipb. rewrite Hlen, Z2Nat.id by lia. reflexivity.
Qed.

(** ** Images of at most 255 colours *)

(** With at most 255 distinct colours the palette holds every colour of
    the image, once each. *)
Lemma first_colors_all px :
  (length (remove_dups px) <= 255)%nat ->
  (forall p, p ∈ px -> p ∈ first_colors 255 [] px)
  /\ length (first_colors 255 [] px) = length (remove_dups px).
Proof.
  intros Hfew.
  assert (Hnd : NoDup (first_colors 255 [] px))
    by (apply first_colors_NoDup; constructor).
  assert (Hsub : forall c, c ∈ first_colors 255 [] px -> c ∈ remove_dups px).
  { intros c Hc. apply elem_of_remove_dups.
    assert (HF : Forall (fun c => c ∈ px) (first_colors 255 [] px)).
    { apply first_colors_Forall; [constructor|]. apply Forall_forall. auto. }
    rewrite Forall_forall in HF. apply HF. exact Hc. }
  pose proof (NoDup_submseteq _ _ Hnd Hsub) as Hms.
  assert (Hall : forall p, p ∈ px -> p ∈ first_colors 255 [] px).
  { destruct (first_colors_complete 255 px []) as [Hall|Hcap].
    - intros p Hp. apply Hall. right. exact Hp.
    - intros p Hp.
      pose proof (submseteq_length_Permutation _ _ Hms ltac:(lia)) as Hperm.
      rewrite Hperm. apply elem_of_remove_dups. exact Hp. }
  split; [exact Hall|].
  apply Permutation_length. apply NoDup_Permutation; [assumption|apply NoDup_remove_dups|].
  intros c. split; [apply Hsub|].
  intros Hc. apply Hall. apply elem_of_remove_dups. exact Hc.
Qed.

Lemma reformat_same c f : _pep_reformat c f f = c.
Proof. unfold _pep_reformat. rewrite Z.eqb_refl. reflexivity. Qed.

Lemma compress_decompress_exact pixels w h f cb static_palette st :
  1 <= w <= 65535 -> 1 <= h <= 65535 ->
  length pixels = Z.to_nat (w * h) ->
  (length (remove_dups pixels) <= 255)%nat ->
  (w * h) mod indices_per_byte_of (Z.of_nat (length (remove_dups pixels))) = 0 ->
  compress_model pixels w h (S (Z.to_nat (w * h))) = Some st ->
  exists p,
    pep_compress (Some pixels) w h f cb = Some p
    /\ palette_size p = Z.of_nat (length (remove_dups pixels))
    /\ pep_decompress static_palette (Some p) f 0 0 = Some (Some (map Some pixels)).
Proof.
  intros Hw Hh Hlen Hfew Hmod Hmodel.
  destruct (compress_decompress_general pixels w h f cb static_palette f 0 0 st
              Hw Hh Hlen Hmodel) as (p & Hc & Hd).
  assert (Harea : 1 <= w * h < 2 ^ 32) by nia.
  assert (Hread : pixels_read pixels w h = pixels).
  { unfold pixels_read. rewrite u32_small by lia. apply take_ge. lia. }
  pose proof (compress_palette_holds pixels w h) as Hholds.
  rewrite Hread in Hholds.
  destruct (first_colors_all pixels Hfew) as [Hall Hcount].
  assert (Hp : palette p = fst (compress_palette pixels w h)
               /\ palette_size p = snd (compress_palette pixels w h)
               /\ format p = f).
  { revert Hc. unfold pep_compress. rewrite u32_small by lia.
    destruct (Z.eqb_spec (w * h) 0); [lia|].
    destruct (compress_palette pixels w h) as [pal size].
    destruct (compress_state _ _ _ _) as [s|]; [|discriminate].
    rewrite bind_some. intros [= <-]. repeat split; reflexivity. }
  destruct Hp as (Epal & Esize & Ef). rewrite <- Epal, <- Esize in Hholds.
  assert (Hps : palette_size p = Z.of_nat (length (remove_dups pixels))).
  { destruct Hholds as (-> & _). rewrite Hcount. reflexivity. }
  exists p. split; [exact Hc|]. split; [exact Hps|].
  rewrite Hd. do 2 f_equal. unfold decoded_pixels. rewrite Hps.
  set (ipb := indices_per_byte_of (Z.of_nat (length (remove_dups pixels)))) in *.
  rewrite Hlen, Z2Nat.id, Hmod by lia.
  change (Z.to_nat 0) with 0%nat. cbn [replicate]. rewrite app_nil_r.
  assert (Hipb : 1 <= ipb).
  { subst ipb. rewrite <- Hps.
    destruct (packing_params (palette_size p)) as (_ & H1 & _); [|exact H1].
    rewrite Esize. apply compress_palette_size. rewrite Hread.
    intros ->. cbn [length] in Hlen. lia. }
  assert (Hwhole : ipb * (w * h / ipb) = w * h).
  { pose proof (Z.div_mod (w * h) ipb ltac:(lia)). lia. }
  rewrite Hwhole, take_ge by lia.
  f_equal. rewrite <- (map_id pixels) at 2. apply map_ext_in. intros q Hq.
  apply list_elem_of_In in Hq.
  destruct (index_search_holds _ _ _ q Hholds) as [Hin _].
  destruct (Hin (Hall q Hq)) as (i & Hi & Eidx & Hlook).
  rewrite <- Hps, Eidx, Ef. unfold paint. rewrite reformat_same.
  change (0 =? 0) with true. cbv iota.
  unfold decompress_palette. change (0 =? 0) with true. cbv iota.
  destruct Hholds as (Es & Hl255 & Ep).
  unfold get. rewrite Nat2Z.id, lookup_app_l.
  - rewrite lookup_take_lt by lia. rewrite Ep, lookup_app_l by lia.
    rewrite Hlook. reflexivity.
  - rewrite length_take, Ep, length_app, length_replicate. lia.
Qed.

(** X1. When every probability handed to the coder is well formed,
    [pep_compress] returns, and [pep_decompress] of its result (to any
    format, with or without pre-multiplication or a transparent first
    colour) returns the pixels of the whole groups of
    [indices_per_byte] pixels, each painted from the decoder's palette
    entry of the index the encoder gave it, followed by the unwritten
    cells of the last, partial group. *)
Theorem decompress_after_compress pixels w h f cb static_palette out_format tfc pm :
  1 <= w <= 65535 -> 1 <= h <= 65535 ->
  length pixels = Z.to_nat (w * h) ->
  probabilities_ok pixels w h = true ->
  exists p,
    pep_compress (Some pixels) w h f cb = Some p
    /\ pep_decompress static_palette (Some p) out_format tfc pm
       = Some (Some (decoded_pixels static_palette p out_format tfc pm pixels)).
Proof.
  intros Hw Hh Hlen Hok. unfold probabilities_ok in Hok.
  destruct (compress_model pixels w h (S (Z.to_nat (w * h)))) as [st|] eqn:Hmodel;
    [|discriminate Hok].
  exact (compress_decompress_general pixels w h f cb static_palette out_format tfc pm st
           Hw Hh Hlen Hmodel).
Qed.

Lemma decompress_after_compress_witness :
  exists p,
    pep_compress (Some nine_pixels) 3 3 pep_rgba pep_8bit = Some p
    /\ pep_decompress (replicate 256 0) (Some p) pep_argb 1 1
       = Some (Some (decoded_pixels (replicate 256 0) p pep_argb 1 1 nine_pixels)).
Proof.
  apply decompress_after_compress; try lia; vm_compute; reflexivity.
Defined.

(** X2. The round trip: for an image of at most 255 distinct colours
    whose area is a multiple of [indices_per_byte], and whose
    probabilities are well formed, [pep_decompress] of [pep_compress] to
    the same format gives the pixels back, whatever the function's static
    palette holds. *)
Theorem compress_round_trip pixels w h f cb static_palette :
  1 <= w <= 65535 -> 1 <= h <= 65535 ->
  length pixels = Z.to_nat (w * h) ->
  (length (remove_dups pixels) <= 255)%nat ->
  (w * h) mod indices_per_byte_of (Z.of_nat (length (remove_dups pixels))) = 0 ->
  probabilities_ok pixels w h = true ->
  exists p,
    pep_compress (Some pixels) w h f cb = Some p
    /\ palette_size p = Z.of_nat (length (remove_dups pixels))
    /\ pep_decompress static_palette (Some p) f 0 0 = Some (Some (map Some pixels)).
Proof.
  intros Hw Hh Hlen Hfew Hmod Hok. unfold probabilities_ok in Hok.
  destruct (compress_model pixels w h (S (Z.to_nat (w * h)))) as [st|] eqn:Hmodel;
    [|discriminate Hok].
  exact (compress_decompress_exact pixels w h f cb static_palette st
           Hw Hh Hlen Hfew Hmod Hmodel).
Qed.

Lemma compress_round_trip_witness :
  exists p,
    pep_compress (Some (speckle 13 64)) 4 16 pep_abgr pep_8bit = Some p
    /\ palette_size p = Z.of_nat (length (remove_dups (speckle 13 64)))
    /\ pep_decompress (replicate 256 7) (Some p) pep_abgr 0 0
       = Some (Some (map Some (speckle 13 64))).
Proof.
  apply compress_round_trip; try lia; vm_compute; try reflexivity; lia.
Defined.

(** ** Small images: every probability is well formed *)

Lemma total_app a b : total (a ++ b) = total a + total b.
Proof.
  induction a as [|x a IH]; cbn [app total foldr]; [reflexivity|].
  fold (total (a ++ b)) (total a). lia.
Qed.

Lemma total_insert : forall fs n v f,
  fs !! n = Some f -> total (<[n := v]> fs) = total fs - f + v.
Proof.
  induction fs as [|g fs IH]; intros [|n] v f H; try discriminate H.
  - injection H as ->. cbn. lia.
  - cbn [insert list_insert total foldr].
    change (foldr Z.add 0 (<[n:=v]> fs)) with (total (<[n:=v]> fs)).
    fold (total fs). rewrite (IH n v f H). lia.
Qed.

Lemma lookup_le_total : forall fs n f,
  Forall (fun f => 0 <= f < 2 ^ 16) fs -> fs !! n = Some f -> 0 <= f <= total fs.
Proof.
  induction fs as [|g fs IH]; intros [|n] f Hfs H; try discriminate H;
    apply Forall_cons in Hfs as [Hg Hfs]; cbn [total foldr]; fold (total fs).
  - injection H as ->. pose proof (total_nonneg fs Hfs). lia.
  - pose proof (IH n f Hfs H). lia.
Qed.

Lemma total_take_le fs n :
  Forall (fun f => 0 <= f < 2 ^ 16) fs -> total (take n fs) <= total fs.
Proof.
  intros Hfs. rewrite <- (take_drop n fs) at 2. rewrite total_app.
  pose proof (total_nonneg (drop n fs) (Forall_drop _ _ _ Hfs)). lia.
Qed.

Lemma halve_le f : 0 <= f -> 0 <= halve f <= f /\ (1 <= f -> 1 <= halve f).
Proof.
  intros Hf. unfold halve. destruct (Z.eqb_spec f 0); [lia|].
  split; [|intros _]; Z.div_mod_to_equations; lia.
Qed.

Lemma total_halve_le fs :
  Forall (fun f => 0 <= f < 2 ^ 16) fs -> total (map halve fs) <= total fs.
Proof.
  induction 1 as [|f fs Hf _ IH]; cbn [map total foldr]; [lia|].
  fold (total (map halve fs)) (total fs).
  pose proof (halve_le f ltac:(lia)). lia.
Qed.

Lemma get_lookup fs i f : fs !! Z.to_nat i = Some f -> get fs i = f.
Proof. unfold get. intros ->. reflexivity. Qed.

Lemma get_set_eq fs i v : (Z.to_nat i < length fs)%nat -> get (set fs i v) i = v.
Proof. intros H. unfold get, set. rewrite list_lookup_insert_eq by exact H. reflexivity. Qed.

Lemma get_set_ne fs i j v : 0 <= i -> 0 <= j -> i <> j -> get (set fs i v) j = get fs j.
Proof.
  intros Hi Hj H. unfold get, set. rewrite list_lookup_insert_ne by lia. reflexivity.
Qed.

Lemma get_halve fs i : get (map halve fs) i = halve (get fs i).
Proof.
  unfold get. change (map halve fs) with (halve <$> fs). rewrite list_lookup_fmap.
  destruct (fs !! Z.to_nat i); reflexivity.
Qed.

Lemma get_freq_range fs i :
  freq_ok fs -> 0 <= i <= 256 -> 0 <= get fs i <= total fs /\ get fs i < 2 ^ 16.
Proof.
  intros [Hlen Hfs] Hi.
  destruct (lookup_lt_is_Some_2 fs (Z.to_nat i) ltac:(lia)) as [f Hf].
  rewrite (get_lookup _ _ _ Hf).
  pose proof (lookup_le_total _ _ _ Hfs Hf).
  pose proof (Forall_lookup_1 _ _ _ _ Hfs Hf) as Hr. cbn beta in Hr. lia.
Qed.

Lemma total_set fs i v :
  freq_ok fs -> 0 <= i <= 256 -> total (set fs i v) = total fs - get fs i + v.
Proof.
  intros [Hlen Hfs] Hi.
  destruct (lookup_lt_is_Some_2 fs (Z.to_nat i) ltac:(lia)) as [f Hf].
  rewrite (get_lookup _ _ _ Hf). apply total_insert. exact Hf.
Qed.

(** The probability of a symbol whose counter is not zero, in a context
    whose sum is the total of its counters and at most 2^14. *)
Lemma get_prob_ok ctx s :
  freq_ok (freq ctx) -> sum ctx = total (freq ctx) -> sum ctx <= 2 ^ 14 ->
  0 <= s <= 256 -> 1 <= get (freq ctx) s ->
  prob_ok (_pep_get_prob_from_ctx ctx s) = true.
Proof.
  intros Hok Hsum Hmax Hs Hf. pose proof Hok as [Hlen Hfs].
  unfold prob_ok, _pep_get_prob_from_ctx. cbn [prob_scale prob_low prob_high].
  rewrite cum_freq_total by (try assumption; lia). rewrite Z.add_0_l.
  destruct (lookup_lt_is_Some_2 (freq ctx) (Z.to_nat s) ltac:(lia)) as [f Hl].
  rewrite (get_lookup _ _ _ Hl) in *.
  pose proof (total_take_S _ _ _ Hl) as HS.
  pose proof (total_take_le (freq ctx) (S (Z.to_nat s)) Hfs) as Hle.
  pose proof (total_nonneg (take (Z.to_nat s) (freq ctx)) (Forall_take _ _ _ Hfs))
    as [Hnn _].
  rewrite u32_small by lia.
  change PEP_PROB_MAX_VALUE with (2 ^ 14).
  repeat (apply andb_true_iff; split); try apply Z.leb_le; try apply Z.ltb_lt; lia.
Qed.

(** PEP_UPDATE keeps the sum equal to the total, adds at most 2 to it and
    leaves no counter at zero that was not. *)
Lemma PEP_UPDATE_counts ctx s F palette_size :
  freq_ok (freq ctx) -> sum ctx = total (freq ctx) -> sum ctx <= 2 ^ 14 ->
  0 <= s <= 256 ->
  let c' := fst (PEP_UPDATE ctx s F palette_size) in
  freq_ok (freq c') /\ sum c' = total (freq c') /\ sum c' <= sum ctx + 2
  /\ 1 <= get (freq c') s
  /\ (forall i, 0 <= i <= 256 -> 1 <= get (freq ctx) i -> 1 <= get (freq c') i).
Proof.
  intros Hok Hsum Hmax Hs c'. split; [apply PEP_UPDATE_freq_ok; exact Hok|].
  subst c'. unfold PEP_UPDATE.
  pose proof (get_freq_range _ s Hok Hs) as [Hf _].
  pose proof Hok as [Hlen Hfs].
  rewrite (u16_small (get (freq ctx) s + 2)) by lia.
  rewrite (u32_small (sum ctx + 2)) by lia.
  set (freq1 := set (freq ctx) s (get (freq ctx) s + 2)).
  assert (Hok1 : freq_ok freq1) by (apply freq_ok_set; [exact Hok|lia]).
  assert (Ht1 : total freq1 = sum ctx + 2)
    by (subst freq1; rewrite total_set by assumption; lia).
  assert (Hs1 : get freq1 s = get (freq ctx) s + 2)
    by (subst freq1; apply get_set_eq; lia).
  assert (Hi1 : forall i, 0 <= i <= 256 -> 1 <= get (freq ctx) i -> 1 <= get freq1 i).
  { intros i Hi H1. destruct (Z.eq_dec s i) as [<-|Hne]; [lia|].
    subst freq1. rewrite get_set_ne by lia. exact H1. }
  destruct (_ || _).
  - destruct Hok1 as [Hlen1 Hfs1].
    destruct (rescale_loop_halve freq1 0 Hfs1 ltac:(lia) ltac:(lia)) as [-> _].
    cbn [fst freq sum]. rewrite Z.add_0_l.
    pose proof (total_halve_le freq1 Hfs1).
    assert (Hh : forall i, 0 <= i <= 256 -> 1 <= get freq1 i ->
                   1 <= get (map halve freq1) i).
    { intros i Hi H1. rewrite get_halve. apply halve_le; lia. }
    split; [reflexivity|]. split; [lia|]. split.
    + apply Hh; lia.
    + intros i Hi H1. apply Hh, Hi1; assumption.
  - cbn [fst freq sum]. split; [lia|]. split; [lia|]. split; [lia|exact Hi1].
Qed.

Lemma ctx_get_set_eq cs i c : (Z.to_nat i < length cs)%nat -> ctx_get (ctx_set cs i c) i = c.
Proof.
  intros H. unfold ctx_get, ctx_set. rewrite list_lookup_insert_eq by exact H. reflexivity.
Qed.

Lemma ctx_get_set_ne cs i j c :
  0 <= i -> 0 <= j -> i <> j -> ctx_get (ctx_set cs i c) j = ctx_get cs j.
Proof.
  intros Hi Hj H. unfold ctx_get, ctx_set. rewrite list_lookup_insert_ne by lia.
  reflexivity.
Qed.

Lemma context_counts_mono k c : context_counts k c -> context_counts (k + 1) c.
Proof.
  intros (H1 & H2 & H3 & H4). split; [exact H1|]. split; [exact H2|].
  split; [lia|exact H4].
Qed.

Lemma order0_counts_mono k c : order0_counts k c -> order0_counts (k + 1) c.
Proof.
  intros (H1 & H2 & H3 & H4). split; [exact H1|]. split; [exact H2|].
  split; [lia|exact H4].
Qed.

(** One context replaced. *)
Lemma model_counts_set k cs id c :
  model_counts k cs -> 0 <= id < 256 -> context_counts (k + 1) c ->
  model_counts (k + 1) (ctx_set cs id c).
Proof.
  intros (Hlen & Hctx & H0) Hid Hc. unfold model_counts, PEP_CONTEXTS_MAX, PEP_FREQ_END,
    PEP_FREQ_N in *. change (257 - 1) with 256 in *.
  split; [unfold ctx_set; rewrite length_insert; exact Hlen|]. split.
  - intros i Hi. destruct (Z.eq_dec id i) as [<-|Hne].
    + rewrite ctx_get_set_eq by lia. exact Hc.
    + rewrite ctx_get_set_ne by lia. apply context_counts_mono, Hctx, Hi.
  - rewrite ctx_get_set_ne by lia. apply order0_counts_mono, H0.
Qed.

(** One context and the order-0 context replaced. *)
Lemma model_counts_set2 k cs id c o :
  model_counts k cs -> 0 <= id < 256 -> context_counts (k + 1) c ->
  order0_counts (k + 1) o ->
  model_counts (k + 1) (ctx_set (ctx_set cs id c) PEP_CONTEXTS_MAX o).
Proof.
  intros Hm Hid Hc Ho.
  destruct (model_counts_set k cs id c Hm Hid Hc) as (Hlen & Hctx & _).
  unfold model_counts, PEP_CONTEXTS_MAX, PEP_FREQ_END, PEP_FREQ_N in *.
  change (257 - 1) with 256 in *.
  split; [unfold ctx_set in *; rewrite length_insert; exact Hlen|]. split.
  - intros i Hi. rewrite ctx_get_set_ne by lia. apply Hctx, Hi.
  - rewrite ctx_get_set_eq by lia. exact Ho.
Qed.

Lemma order0_update k o s F palette_size :
  order0_counts k o -> 0 <= k -> 2 * k + 257 <= 2 ^ 14 -> 0 <= s < 256 ->
  prob_ok (_pep_get_prob_from_ctx o s) = true
  /\ order0_counts (k + 1) (fst (PEP_UPDATE o s F palette_size)).
Proof.
  intros (Hok & Hsum & Hmax & Hpos) Hk Hbound Hs. split.
  - apply get_prob_ok; try assumption; try lia. apply Hpos. lia.
  - destruct (PEP_UPDATE_counts o s F palette_size Hok Hsum ltac:(lia) ltac:(lia))
      as (Hok' & Hsum' & Hle & _ & Hkeep).
    split; [exact Hok'|]. split; [exact Hsum'|]. split; [lia|].
    intros i Hi. apply Hkeep, Hpos; exact Hi.
Qed.

(** One packed symbol through the model. *)
Lemma model_symbol_counts palette_size st k :
  model_counts k (e_contexts st) -> 0 <= k -> 2 * k + 257 <= 2 ^ 14 ->
  0 <= e_symbol st < 256 -> 0 <= e_context_id st ->
  let r := model_symbol palette_size st in
  forallb prob_ok (fst r) = true
  /\ model_counts (k + 1) (e_contexts (snd r))
  /\ 0 <= e_context_id (snd r)
  /\ e_indices_in_byte (snd r) = 0 /\ e_symbol (snd r) = 0.
Proof.
  intros Hm Hk Hbound Hs Hid r. subst r.
  pose proof Hm as (Hlen & Hctx & H0).
  set (id := e_context_id st mod PEP_CONTEXTS_MAX).
  assert (Hidr : 0 <= id < 256)
    by (subst id; change PEP_CONTEXTS_MAX with 256; apply Z.mod_pos_bound; lia).
  pose proof (Hctx id Hidr) as (Hok & Hsum & Hmax & Hesc).
  pose proof (order0_update k _ (e_symbol st) (e_freq_max st) palette_size
                H0 Hk Hbound Hs) as [Hp0 Ho'].
  pose proof (next_context_u64 (e_context_id st) (e_symbol st) Hid Hs) as [Hnext _].
  pose proof (get_freq_range _ (e_symbol st) Hok ltac:(lia)) as [Hfs _].
  pose proof (get_freq_range _ 256 Hok ltac:(lia)) as [Hf256 _].
  pose proof (total_nonneg _ (proj2 Hok)) as [Htot _].
  pose proof (proj1 Hok) as Hlenf.
  change PEP_FREQ_END with 256 in *.
  destruct (Z.eqb_spec (sum (ctx_get (e_contexts st) id)) 0) as [Hz|Hnz].
  - (* an unused context *)
    rewrite (model_symbol_fresh palette_size st) by (apply Z.eqb_eq; exact Hz).
    cbn [fst snd e_contexts e_context_id e_indices_in_byte e_symbol forallb].
    rewrite Hp0. split; [reflexivity|].
    split; [|split; [exact Hnext|split; reflexivity]].
    apply model_counts_set2; try assumption. fold id.
    cbn [freq sum]. change PEP_FREQ_END with 256.
    set (f2 := set (freq (ctx_get (e_contexts st) id)) 256 1).
    assert (Hok2 : freq_ok f2) by (apply freq_ok_set; [exact Hok|lia]).
    change (u32 (1 + 1)) with 2.
    split; [|split; [|split]]; cbn [freq sum].
    + apply freq_ok_set; [exact Hok2|lia].
    + rewrite total_set by (try lia; exact Hok2).
      subst f2. rewrite get_set_ne by lia.
      rewrite total_set by (try lia; exact Hok). lia.
    + lia.
    + intros _. change PEP_FREQ_END with 256.
      rewrite get_set_ne by lia. subst f2. rewrite get_set_eq; lia.
  - destruct (Z.eqb_spec (get (freq (ctx_get (e_contexts st) id)) (e_symbol st)) 0)
      as [Hfz|Hfnz].
    + (* escape *)
      rewrite (model_symbol_escape palette_size st)
        by (apply Z.eqb_neq || apply Z.eqb_eq; assumption).
      cbn [fst snd e_contexts e_context_id e_indices_in_byte e_symbol forallb].
      rewrite Hp0, andb_true_r. fold id. change PEP_FREQ_END with 256.
      rewrite get_prob_ok by (try assumption; try lia; apply Hesc; exact Hnz).
      split; [reflexivity|].
      split; [|split; [exact Hnext|split; reflexivity]].
      apply model_counts_set2; try assumption. fold id.
      cbn [freq sum]. change PEP_FREQ_END with 256.
      rewrite (u16_small (_ + 1)) by lia.
      rewrite (u32_small (sum _ + 1)) by lia.
      rewrite (u32_small (sum _ + 1 + 1)) by lia.
      set (f1 := set (freq (ctx_get (e_contexts st) id)) 256
                   (get (freq (ctx_get (e_contexts st) id)) 256 + 1)).
      assert (Hok1 : freq_ok f1) by (apply freq_ok_set; [exact Hok|lia]).
      split; [|split; [|split]]; cbn [freq sum].
      * apply freq_ok_set; [exact Hok1|lia].
      * rewrite total_set by (try lia; exact Hok1).
        subst f1. rewrite get_set_ne by lia.
        rewrite total_set by (try lia; exact Hok). lia.
      * lia.
      * intros _. change PEP_FREQ_END with 256.
        rewrite get_set_ne by lia. subst f1. rewrite get_set_eq; lia.
    + (* the symbol is known in its context *)
      rewrite (model_symbol_hit palette_size st)
        by (apply Z.eqb_neq; assumption).
      cbn [fst snd e_contexts e_context_id e_indices_in_byte e_symbol forallb].
      fold id. rewrite get_prob_ok by (try assumption; lia).
      split; [reflexivity|].
      split; [|split; [exact Hnext|split; reflexivity]].
      apply model_counts_set; try assumption. fold id.
      destruct (PEP_UPDATE_counts _ (e_symbol st) (e_freq_max st) palette_size
                  Hok Hsum ltac:(lia) ltac:(lia)) as (Hok' & Hsum' & Hle & _ & Hkeep).
      split; [exact Hok'|]. split; [exact Hsum'|]. split; [lia|].
      intros _. change PEP_FREQ_END with 256. apply Hkeep; [lia|]. apply Hesc. exact Hnz.
Qed.
(** One iteration of the encode loop, [k] symbols having been coded: the
    probabilities of this iteration are well formed as long as the symbols
    still to come keep the order-0 sum within 2^14. *)
Lemma model_iter_counts pal ps bpi ipb px st k :
  model_counts k (e_contexts st) -> 0 <= k ->
  0 <= e_symbol st < 256 -> 0 <= e_context_id st ->
  is_nil px && negb (e_indices_in_byte st >? 0) = false ->
  2 * (k + Z.of_nat (length px) + (if e_indices_in_byte st >? 0 then 1 else 0)) + 255
    <= 2 ^ 14 ->
  let r := model_iter pal ps bpi ipb px st in
  forallb prob_ok (fst (fst r)) = true
  /\ exists k',
       model_counts k' (e_contexts (snd r)) /\ 0 <= k'
       /\ 0 <= e_symbol (snd r) < 256 /\ 0 <= e_context_id (snd r)
       /\ 2 * (k' + Z.of_nat (length (snd (fst r)))
               + (if e_indices_in_byte (snd r) >? 0 then 1 else 0)) + 255 <= 2 ^ 14.
Proof.
  intros Hm Hk Hs Hid Hgo Hbound r. subst r. unfold model_iter.
  destruct px as [|p rest].
  - cbn [is_nil andb] in Hgo. apply negb_false_iff in Hgo. rewrite Hgo in Hbound |- *.
    cbn [length] in Hbound. rewrite orb_true_r.
    pose proof (model_symbol_counts ps st k Hm Hk ltac:(lia) Hs Hid) as Hsym.
    cbv zeta in Hsym. destruct (model_symbol ps st) as [probs st2].
    cbn [fst snd] in *. destruct Hsym as (Hp & Hm' & Hid' & Hiib & Hsy).
    split; [exact Hp|]. exists (k + 1). rewrite Hiib, Hsy. cbn [length Z.gtb Z.compare].
    split; [exact Hm'|]. lia.
  - cbn [length] in Hbound.
    set (st1 := mk_encoder _ _ _ _ _ _).
    assert (Hs1 : 0 <= e_symbol st1 < 256).
    { subst st1. cbn [e_symbol]. rewrite u8_mod. apply Z.mod_pos_bound. lia. }
    assert (Hone : forall b : bool, 0 <= (if b then 1 else 0) <= 1)
      by (intros []; lia).
    pose proof (Hone (e_indices_in_byte st >? 0)).
    destruct (_ || _).
    + pose proof (model_symbol_counts ps st1 k Hm Hk ltac:(lia) Hs1 Hid) as Hsym.
      cbv zeta in Hsym. destruct (model_symbol ps st1) as [probs st2].
      cbn [fst snd] in *. destruct Hsym as (Hp & Hm' & Hid' & Hiib & Hsy).
      split; [exact Hp|]. exists (k + 1). rewrite Hiib, Hsy. cbn [Z.gtb Z.compare].
      split; [exact Hm'|]. lia.
    + cbn [fst snd forallb]. split; [reflexivity|]. exists k.
      pose proof (Hone (e_indices_in_byte st1 >? 0)).
      split; [exact Hm|]. split; [lia|]. split; [exact Hs1|]. split; [exact Hid|]. lia.
Qed.

Lemma model_loop_counts pal ps bpi ipb : forall n px st k,
  model_counts k (e_contexts st) -> 0 <= k ->
  0 <= e_symbol st < 256 -> 0 <= e_context_id st ->
  2 * (k + Z.of_nat (length px) + (if e_indices_in_byte st >? 0 then 1 else 0)) + 255
    <= 2 ^ 14 ->
  exists st', model_loop n pal ps bpi ipb px st = Some st'.
Proof.
  induction n as [|n IH]; intros px st k Hm Hk Hs Hid Hbound; cbn [model_loop];
    [eauto|].
  destruct (is_nil px && negb (e_indices_in_byte st >? 0)) eqn:Hgo; [eauto|].
  pose proof (model_iter_counts pal ps bpi ipb px st k Hm Hk Hs Hid Hgo Hbound) as Hit.
  cbv zeta in Hit. destruct (model_iter pal ps bpi ipb px st) as [[probs px'] st'].
  cbn [fst snd] in Hit. destruct Hit as (Hp & k' & Hm' & Hk' & Hs' & Hid' & Hb').
  rewrite Hp. apply (IH px' st' k'); assumption.
Qed.

Lemma model_counts_init : model_counts 0 contexts_init.
Proof.
  split; [reflexivity|]. split.
  - intros i Hi.
    assert (E : ctx_get contexts_init i = context_zero).
    { unfold ctx_get, contexts_init. rewrite lookup_app_l by (rewrite length_replicate; lia).
      rewrite lookup_replicate_2 by lia. reflexivity. }
    rewrite E. split; [|split; [reflexivity|split; [cbn; lia|intros H; contradiction H; reflexivity]]].
    rewrite <- E. apply ctxs_ok_get, contexts_init_ok.
  - split; [apply ctxs_ok_get, contexts_init_ok|].
    split; [vm_compute; reflexivity|]. split; [vm_compute; discriminate|].
    intros i Hi.
    change (freq (ctx_get contexts_init PEP_CONTEXTS_MAX)) with (replicate 257 1).
    unfold get. rewrite lookup_replicate_2 by lia. cbn. lia.
Qed.

(** For an image of at most 8064 pixels every probability handed to the
    coder is well formed. *)
Lemma small_image_model pixels w h :
  1 <= w -> 1 <= h -> w * h <= 8064 ->
  exists st, compress_model pixels w h (S (Z.to_nat (w * h))) = Some st.
Proof.
  intros Hw Hh Harea. unfold compress_model.
  destruct (compress_palette pixels w h) as [pal size].
  apply (model_loop_counts pal size _ _ _ _ encoder_init 0).
  - exact model_counts_init.
  - lia.
  - cbn. lia.
  - cbn. lia.
  - cbn [encoder_init e_indices_in_byte Z.gtb Z.compare]. unfold pixels_read.
    rewrite length_take. rewrite u32_small by lia. lia.
Qed.

(** X3. For an image of at most 8064 pixels every probability that
    [pep_compress] hands to the arithmetic coder is well formed: its total
    is between 1 and 2^14 and its interval is not empty. *)
Theorem small_image_probabilities pixels w h :
  1 <= w -> 1 <= h -> w * h <= 8064 ->
  probabilities_ok pixels w h = true.
Proof.
  intros Hw Hh Harea. unfold probabilities_ok.
  destruct (small_image_model pixels w h Hw Hh Harea) as [st ->]. reflexivity.
Qed.

Lemma small_image_probabilities_witness : probabilities_ok nine_pixels 3 3 = true.
Proof. apply small_image_probabilities; lia. Defined.

(** X4. The round trip for small images, with no other condition on the
    model: an image of at most 8064 pixels and at most 255 distinct
    colours whose area is a multiple of [indices_per_byte] is returned
    unchanged by [pep_decompress] after [pep_compress]. *)
Theorem small_image_round_trip pixels w h f cb static_palette :
  1 <= w -> 1 <= h -> w * h <= 8064 ->
  length pixels = Z.to_nat (w * h) ->
  (length (remove_dups pixels) <= 255)%nat ->
  (w * h) mod indices_per_byte_of (Z.of_nat (length (remove_dups pixels))) = 0 ->
  exists p,
    pep_compress (Some pixels) w h f cb = Some p
    /\ pep_decompress static_palette (Some p) f 0 0 = Some (Some (map Some pixels)).
Proof.
  intros Hw Hh Harea Hlen Hfew Hmod.
  destruct (small_image_model pixels w h Hw Hh Harea) as [st Hmodel].
  destruct (compress_decompress_exact pixels w h f cb static_palette st
              ltac:(nia) ltac:(nia) Hlen Hfew Hmod Hmodel) as (p & Hc & _ & Hd).
  exists p. split; assumption.
Qed.

Lemma small_image_round_trip_witness :
  exists p,
    pep_compress (Some (speckle 5 60)) 6 10 pep_bgra pep_8bit = Some p
    /\ pep_decompress (replicate 256 0) (Some p) pep_bgra 0 0
       = Some (Some (map Some (speckle 5 60))).
Proof.
  apply small_image_round_trip; try lia; vm_compute; try reflexivity; lia.
Defined.

(** ** The size of the output *)

Lemma shifts_bound_3 low range : (shifts_bound low range <= 3)%nat.
Proof. unfold shifts_bound. repeat case_match; lia. Qed.

(** Each byte shifted out brings the loop one step closer to its end. *)
Lemma renorm_next_bound low range low' range' :
  interval_ok low range -> renorm_next low range = Some (low', range') ->
  (S (shifts_bound low' range') <= shifts_bound low range)%nat.
Proof.
  intros (Hl & Hr & Hs & Htop). unfold renorm_next.
  change PEP_CODE_MAX_VALUE with (2 ^ 24 - 1). change PEP_PROB_MAX_VALUE with (2 ^ 14).
  rewrite !shl8, u32_mod.
  destruct (Z.geb_spec (Z.lxor low ((low + range) mod 2 ^ 32)) (2 ^ 24 - 1)) as [Hx|Hx].
  - destruct (Z.geb_spec range (2 ^ 14)) as [|Hsmall]; [discriminate|].
    intros [= <- <-].
    change (2 ^ 14 - 1) with (Z.ones 14). rewrite Z.land_ones by lia.
    set (R := 2 ^ 14 - low mod 2 ^ 14).
    assert (HR : 1 <= R <= 2 ^ 14)
      by (subst R; pose proof (Z.mod_pos_bound low (2 ^ 14)); lia).
    assert (Hend : (low + R) mod 2 ^ 23 = 0 /\ R <= range).
    { destruct (Z.eq_dec (low + range) (2 ^ 32)) as [E|Hne].
      - subst R. change (2 ^ 32) with 4294967296 in *. change (2 ^ 14) with 16384 in *.
        change (2 ^ 23) with 8388608.
        Z.div_mod_to_equations; lia.
      - rewrite Z.mod_small in Hx by lia.
        assert (Hd : low / 2 ^ 23 <> (low + range) / 2 ^ 23).
        { intros E. apply lxor_same_block in E; lia. }
        subst R. change (2 ^ 14) with 16384 in *. change (2 ^ 23) with 8388608 in *.
        Z.div_mod_to_equations; lia. }
    destruct Hend as [Hend HRr].
    rewrite (Z.mod_small (R * 256)) by lia.
    assert (A1 : ((low * 256) mod 2 ^ 32 + R * 256) mod 2 ^ 31 = 0).
    { change (2 ^ 32) with 4294967296. change (2 ^ 31) with 2147483648.
      change (2 ^ 23) with 8388608 in Hend.
      Z.div_mod_to_equations; lia. }
    assert (A3 : (low + range) mod 2 ^ 31 = 0 -> R = range).
    { intros E. subst R. change (2 ^ 31) with 2147483648 in E.
      change (2 ^ 14) with 16384 in *.
      Z.div_mod_to_equations; lia. }
    unfold shifts_bound. rewrite A1. cbn [Z.eqb].
    change (2 ^ 6) with 64. change (2 ^ 8) with 256. change (2 ^ 14) with 16384 in *.
    change (2 ^ 16) with 65536. change (2 ^ 24) with 16777216.
    destruct (Z.eqb_spec ((low + range) mod 2 ^ 31) 0) as [Ha|Ha];
      [specialize (A3 Ha)|clear A3];
      repeat match goal with
             | |- context [?a <=? ?b] => destruct (Z.leb_spec a b)
             end; lia.
  - intros [= <- <-].
    assert (Hlt : low + range < 2 ^ 32).
    { destruct (Z.eq_dec (low + range) (2 ^ 32)) as [E|]; [|lia].
      rewrite E, Z.mod_same, Z.lxor_0_r in Hx by lia. lia. }
    rewrite Z.mod_small in Hx by lia.
    assert (Hd : low / 2 ^ 24 = (low + range) / 2 ^ 24)
      by (apply lxor_below; lia).
    assert (Hr24 : range < 2 ^ 24).
    { pose proof (Z.mod_pos_bound low (2 ^ 24) ltac:(lia)).
      pose proof (Z.div_mod low (2 ^ 24) ltac:(lia)).
      pose proof (Z.mod_pos_bound (low + range) (2 ^ 24) ltac:(lia)).
      pose proof (Z.div_mod (low + range) (2 ^ 24) ltac:(lia)). lia. }
    assert (Hna : (low + range) mod 2 ^ 31 <> 0).
    { change (2 ^ 31) with 2147483648. change (2 ^ 24) with 16777216 in *.
      change (2 ^ 32) with 4294967296 in *.
      Z.div_mod_to_equations; lia. }
    rewrite (Z.mod_small (range * 256)) by lia.
    unfold shifts_bound.
    destruct (Z.eqb_spec ((low + range) mod 2 ^ 31) 0) as [Ha|_]; [contradiction|].
    change (2 ^ 6) with 64. change (2 ^ 8) with 256. change (2 ^ 14) with 16384 in *.
    change (2 ^ 16) with 65536. change (2 ^ 24) with 16777216 in *.
    destruct (_ =? 0);
      repeat match goal with
             | |- context [?a <=? ?b] => destruct (Z.leb_spec a b)
             end; lia.
Qed.

(** A renormalization writes at most [shifts_bound] bytes, three at the
    most. *)
Lemma normalize_out_bound fuel : forall ac ac',
  interval_ok (enc_low ac) (enc_range ac) ->
  _pep_arith_encode_normalize fuel ac = Some ac' ->
  (length (enc_out ac')
   <= length (enc_out ac) + shifts_bound (enc_low ac) (enc_range ac))%nat.
Proof.
  induction fuel as [|fuel IH]; intros ac ac' Hok H; [discriminate|].
  rewrite encode_normalize_unfold in H.
  destruct (renorm_next (enc_low ac) (enc_range ac)) as [[l r]|] eqn:E.
  - pose proof (renorm_next_bound _ _ _ _ Hok E) as Hb.
    destruct (renorm_next_fits _ _ _ _ Hok E) as [Hok' _].
    apply IH in H; [|exact Hok']. cbn [enc_out enc_low enc_range length] in H. lia.
  - injection H as <-. lia.
Qed.

(** Coding a list of probabilities writes at most three bytes for each. *)
Lemma code_probs_out3 : forall probs ac ac',
  interval_ok (enc_low ac) (enc_range ac) -> 2 ^ 14 <= enc_range ac ->
  forallb prob_ok probs = true ->
  code_probs ac probs = Some ac' ->
  interval_ok (enc_low ac') (enc_range ac') /\ 2 ^ 14 <= enc_range ac'
  /\ (length (enc_out ac') <= length (enc_out ac) + 3 * length probs)%nat.
Proof.
  induction probs as [|prob probs IH]; intros ac ac' Hok Hbig Hp H.
  - rewrite code_probs_nil in H. injection H as <-. cbn [length]. repeat split; try apply Hok; lia.
  - cbn [forallb] in Hp. apply andb_true_iff in Hp as [Hp Hps].
    rewrite code_probs_cons in H.
    destruct (_pep_arith_encode_normalize normalize_fuel (_pep_arith_encode ac prob))
      as [ac1|] eqn:E; [|discriminate H].
    rewrite bind_some in H.
    destruct (arith_encode_fits ac prob Hok Hbig Hp) as (_ & _ & _ & Hout & Hok1 & _).
    pose proof (normalize_out_bound _ _ _ Hok1 E) as Hlen.
    pose proof (shifts_bound_3 (enc_low (_pep_arith_encode ac prob))
                  (enc_range (_pep_arith_encode ac prob))).
    destruct (code_prob_sync _ _ _ _ Hok Hbig Hp E) as (N & _ & _ & Hok2 & Hbig2 & _).
    destruct (IH ac1 ac' Hok2 Hbig2 Hps H) as (Hok' & Hbig' & Hlen').
    split; [exact Hok'|]. split; [exact Hbig'|].
    rewrite Hout in Hlen. cbn [length]. lia.
Qed.

Lemma model_symbol_resets ps st :
  e_indices_in_byte (snd (model_symbol ps st)) = 0.
Proof. unfold model_symbol. repeat case_match; reflexivity. Qed.

(** The first symbol of a context costs one probability: there is no
    escape to code. *)
Lemma model_symbol_fresh_one ps st :
  fresh_context st = true -> length (fst (model_symbol ps st)) = 1%nat.
Proof.
  unfold fresh_context. intros H. rewrite (model_symbol_fresh ps st H). reflexivity.
Qed.

(** The encode loop writes at most six bytes for each packed symbol still
    to come, and three less when the next symbol opens its context. *)
Lemma encode_loop_out_bound pal ps bpi ipb : forall n px m ac mf stf,
  interval_ok (enc_low ac) (enc_range ac) -> 2 ^ 14 <= enc_range ac ->
  model_loop n pal ps bpi ipb px m = Some mf ->
  encode_loop n pal ps bpi ipb px (with_ac m ac) = Some stf ->
  let R := (length px + (if e_indices_in_byte m >? 0 then 1 else 0))%nat in
  (length (enc_out (e_ac stf))
   + (if fresh_context m && negb (Nat.eqb R 0) then 3 else 0)
   <= length (enc_out ac) + 6 * R)%nat.
Proof.
  induction n as [|n IH]; intros px m ac mf stf Hok Hbig Hm He R.
  - injection He as <-. change (e_ac (with_ac m ac)) with ac.
    clearbody R. destruct R; cbn [Nat.eqb negb]; rewrite ?andb_false_r, ?andb_true_r;
        [|destruct (fresh_context m)]; lia.
  - rewrite model_loop_S in Hm. rewrite encode_loop_S in He.
    change (e_indices_in_byte (with_ac m ac)) with (e_indices_in_byte m) in He.
    destruct (is_nil px && negb (e_indices_in_byte m >? 0)) eqn:Hgo.
    + injection He as <-. change (e_ac (with_ac m ac)) with ac.
      clearbody R. destruct R; cbn [Nat.eqb negb]; rewrite ?andb_false_r, ?andb_true_r;
        [|destruct (fresh_context m)]; lia.
    + rewrite encode_iter_model in He.
      destruct (model_iter pal ps bpi ipb px m) as [[probs px'] m'] eqn:Hit.
      destruct (forallb prob_ok probs) eqn:Hp; [|discriminate Hm].
      destruct (code_probs ac probs) as [ac'|] eqn:Hcode; [|discriminate He].
      rewrite bind_some in He.
      destruct (code_probs_out3 probs ac ac' Hok Hbig Hp Hcode) as (Hok' & Hbig' & Hlen).
      specialize (IH px' m' ac' mf stf Hok' Hbig' Hm He). cbv zeta in IH.
      set (R' := (length px' + (if e_indices_in_byte m' >? 0 then 1 else 0))%nat) in *.
      assert (Hshape :
        ((length probs <= 2)%nat
         /\ (fresh_context m = true -> length probs = 1%nat) /\ (R' + 1 <= R)%nat)
        \/ (probs = [] /\ fresh_context m' = fresh_context m
            /\ (R' <= R)%nat /\ (1 <= R)%nat)).
      { unfold model_iter in Hit. subst R R'.
        destruct px as [|p rest].
        - cbn [is_nil andb] in Hgo. apply negb_false_iff in Hgo.
          rewrite Hgo, orb_true_r in Hit. cbn [is_nil andb] in Hit.
          pose proof (model_symbol_probs ps m) as H2.
          pose proof (model_symbol_fresh_one ps m) as H1.
          pose proof (model_symbol_resets ps m) as H0.
          destruct (model_symbol ps m) as [probs0 m2]. cbn [fst snd] in *.
          injection Hit as <- <- <-. left. rewrite Hgo, H0. cbn [length Z.gtb Z.compare].
          split; [exact H2|]. split; [exact H1|]. lia.
        - set (m1 := mk_encoder _ _ _ _ _ _) in Hit.
          assert (Hf1 : fresh_context m1 = fresh_context m) by reflexivity.
          destruct (_ || _).
          + pose proof (model_symbol_probs ps m1) as H2.
            pose proof (model_symbol_fresh_one ps m1) as H1.
            pose proof (model_symbol_resets ps m1) as H0.
            destruct (model_symbol ps m1) as [probs0 m2]. cbn [fst snd] in *.
            injection Hit as <- <- <-. left. rewrite H0. cbn [length Z.gtb Z.compare].
            split; [exact H2|]. split; [rewrite <- Hf1; exact H1|].
            destruct (e_indices_in_byte m >? 0); lia.
          + injection Hit as <- <- <-. right.
            split; [reflexivity|]. split; [exact Hf1|]. cbn [length].
            destruct (e_indices_in_byte m1 >? 0), (e_indices_in_byte m >? 0); lia. }
      destruct Hshape as [(H2 & H1 & HR)|(-> & Hf & HR & HR1)].
      * assert (IH' : (length (enc_out (e_ac stf)) <= length (enc_out ac') + 6 * R')%nat)
          by (destruct (fresh_context m' && _) in IH; lia).
        destruct (fresh_context m) eqn:Hfm; cbn [andb].
        -- specialize (H1 eq_refl). destruct (negb (Nat.eqb R 0)); lia.
        -- lia.
      * rewrite Hf in IH. cbn [length] in Hlen.
        destruct (fresh_context m); cbn [andb] in *; [|lia].
        destruct R' as [|R'], R as [|R]; cbn [Nat.eqb negb] in *; lia.
Qed.

Lemma compress_size_general pixels w h f cb st :
  1 <= w <= 65535 -> 1 <= h <= 65535 ->
  length pixels = Z.to_nat (w * h) ->
  compress_model pixels w h (S (Z.to_nat (w * h))) = Some st ->
  exists p data,
    pep_compress (Some pixels) w h f cb = Some p
    /\ bytes p = Some data /\ bytes_size p = Z.of_nat (length data)
    /\ 4 <= bytes_size p <= 6 * (w * h) + 1.
Proof.
  intros Hw Hh Hlen Hmodel.
  assert (Harea : 1 <= w * h < 2 ^ 32) by nia.
  assert (Hread : pixels_read pixels w h = pixels).
  { unfold pixels_read. rewrite u32_small by lia. apply take_ge. lia. }
  unfold pep_compress, compress_state. unfold compress_model in Hmodel.
  rewrite u32_small by lia.
  destruct (Z.eqb_spec (w * h) 0); [lia|].
  destruct (compress_palette pixels w h) as [pal size].
  rewrite Hread in *.
  assert (Hinit : coder_ok (e_ac encoder_init)) by (vm_compute; intuition discriminate).
  destruct (encode_loop_model _ _ _ _ _ _ _ _ _ Hinit Hmodel) as (acf & Henc & _).
  assert (Hok0 : interval_ok (enc_low (e_ac encoder_init)) (enc_range (e_ac encoder_init)))
    by (vm_compute; intuition discriminate).
  assert (Hbig0 : 2 ^ 14 <= enc_range (e_ac encoder_init)) by (vm_compute; discriminate).
  pose proof (encode_loop_out_bound _ _ _ _ _ _ _ _ _ _ Hok0 Hbig0 Hmodel Henc) as Hb.
  cbv zeta in Hb.
  change (fresh_context encoder_init) with true in Hb.
  change (e_indices_in_byte encoder_init >? 0) with false in Hb.
  change (enc_out (e_ac encoder_init)) with (@nil Z) in Hb.
  change (e_ac (with_ac st acf)) with acf in Hb.
  cbn [andb length] in Hb.
  destruct (Nat.eqb_spec (length pixels + 0) 0) as [E|_]; [lia|]. cbn [negb] in Hb.
  rewrite with_ac_init in Henc. rewrite Henc, bind_some.
  change (e_ac (with_ac st acf)) with acf.
  eexists _, _. split; [reflexivity|]. cbn [bytes bytes_size].
  split; [reflexivity|]. split; [reflexivity|].
  rewrite length_rev, encode_flush_out. lia.
Qed.

(** The encoder's loop ends within [shifts_bound] bytes. *)
Lemma encode_normalize_ends : forall n ac,
  interval_ok (enc_low ac) (enc_range ac) ->
  (shifts_bound (enc_low ac) (enc_range ac) < n)%nat ->
  exists ac', _pep_arith_encode_normalize n ac = Some ac'.
Proof.
  induction n as [|n IH]; intros ac Hok Hn; [lia|].
  rewrite encode_normalize_unfold.
  destruct (renorm_next (enc_low ac) (enc_range ac)) as [[l r]|] eqn:E; [|eauto].
  pose proof (renorm_next_bound _ _ _ _ Hok E) as Hb.
  destruct (renorm_next_fits _ _ _ _ Hok E) as [Hok' _].
  apply IH; cbn [enc_low enc_range]; [exact Hok'|lia].
Qed.

Lemma decode_normalize_ends : forall n d,
  interval_ok (dec_low d) (dec_range d) ->
  (shifts_bound (dec_low d) (dec_range d) < n)%nat ->
  exists d', decode_normalize n d = Some d'.
Proof.
  induction n as [|n IH]; intros d Hok Hn; [lia|].
  rewrite decode_normalize_unfold.
  destruct (renorm_next (dec_low d) (dec_range d)) as [[l r]|] eqn:E; [|eauto].
  pose proof (renorm_next_bound _ _ _ _ Hok E) as Hb.
  destruct (renorm_next_fits _ _ _ _ Hok E) as [Hok' _].
  apply IH; cbn [dec_low dec_range]; [exact Hok'|lia].
Qed.

Lemma decode_normalize_in_bound fuel : forall d d',
  interval_ok (dec_low d) (dec_range d) ->
  decode_normalize fuel d = Some d' ->
  interval_ok (dec_low d') (dec_range d')
  /\ exists k, (k <= shifts_bound (dec_low d) (dec_range d))%nat
       /\ dec_in d' = drop k (dec_in d).
Proof.
  induction fuel as [|fuel IH]; intros d d' Hok H; [discriminate|].
  rewrite decode_normalize_unfold in H.
  destruct (renorm_next (dec_low d) (dec_range d)) as [[l r]|] eqn:E.
  - pose proof (renorm_next_bound _ _ _ _ Hok E) as Hb.
    destruct (renorm_next_fits _ _ _ _ Hok E) as [Hok' _].
    apply IH in H; [|exact Hok']. cbn [dec_in dec_low dec_range] in H.
    destruct H as (Hokf & k & Hk & Hin). split; [exact Hokf|].
    exists (S k). split; [lia|]. rewrite Hin.
    destruct (dec_in d) as [|b rest]; cbn [next_byte snd drop]; [|reflexivity].
    apply drop_nil.
  - injection H as <-. split; [exact Hok|]. exists 0%nat. split; [lia|]. reflexivity.
Qed.


(** X5. [pep_compress] never fills its output buffer: when the
    probabilities are well formed the compressed stream has at least 4
    and at most [6 * width * height + 1] bytes, which is within the
    [width * height * 8] bytes that the function allocates. *)
Theorem compress_output_size pixels w h f cb :
  1 <= w <= 65535 -> 1 <= h <= 65535 ->
  length pixels = Z.to_nat (w * h) ->
  probabilities_ok pixels w h = true ->
  exists p data,
    pep_compress (Some pixels) w h f cb = Some p
    /\ bytes p = Some data /\ bytes_size p = Z.of_nat (length data)
    /\ 4 <= bytes_size p <= 6 * (w * h) + 1
    /\ bytes_size p <= w * h * 8.
Proof.
  intros Hw Hh Hlen Hok. unfold probabilities_ok in Hok.
  destruct (compress_model pixels w h (S (Z.to_nat (w * h)))) as [st|] eqn:Hmodel;
    [|discriminate Hok].
  destruct (compress_size_general pixels w h f cb st Hw Hh Hlen Hmodel)
    as (p & data & Hc & Hb & Hs & Hsize).
  exists p, data. repeat (split; [assumption || lia|]). nia.
Qed.

Lemma compress_output_size_witness :
  exists p data,
    pep_compress (Some (speckle 13 64)) 4 16 pep_rgba pep_8bit = Some p
    /\ bytes p = Some data /\ bytes_size p = Z.of_nat (length data)
    /\ 4 <= bytes_size p <= 6 * (4 * 16) + 1
    /\ bytes_size p <= 4 * 16 * 8.
Proof.
  apply compress_output_size; try lia; vm_compute; reflexivity.
Defined.

(** X6. The encoder's renormalization loop, started from registers whose
    interval [low, low + range) is not empty and does not pass 2^32, ends
    within four iterations: it appends at most three bytes to the output
    and leaves a range of at least 2^14, with the interval still inside
    2^32. *)
Theorem encode_normalize_three_bytes ac :
  interval_ok (enc_low ac) (enc_range ac) ->
  exists ac' N,
    _pep_arith_encode_normalize 4 ac = Some ac'
    /\ enc_out ac' = rev N ++ enc_out ac
    /\ (length N <= 3)%nat /\ Forall is_byte N
    /\ interval_ok (enc_low ac') (enc_range ac')
    /\ 2 ^ 14 <= enc_range ac'.
Proof.
  intros Hok.
  pose proof (shifts_bound_3 (enc_low ac) (enc_range ac)) as H3.
  destruct (encode_normalize_ends 4 ac Hok ltac:(lia)) as [ac' H].
  destruct (normalize_sync 4 ac ac' Hok H) as (N & Hout & HN & Hok' & Hbig & _).
  pose proof (normalize_out_bound 4 ac ac' Hok H) as Hlen.
  exists ac', N. split; [exact H|]. split; [exact Hout|].
  split; [|auto].
  rewrite Hout, length_app, length_rev in Hlen. lia.
Qed.

Lemma encode_normalize_three_bytes_witness :
  exists ac' N,
    _pep_arith_encode_normalize 4 (mk_enc [] 0x00ffffff 1 []) = Some ac'
    /\ enc_out ac' = rev N ++ []
    /\ (length N <= 3)%nat /\ Forall is_byte N
    /\ interval_ok (enc_low ac') (enc_range ac')
    /\ 2 ^ 14 <= enc_range ac'.
Proof.
  apply (encode_normalize_three_bytes (mk_enc [] 0x00ffffff 1 [])).
  unfold interval_ok. cbn [enc_low enc_range]. lia.
Defined.

(** X7. The decoder's renormalization loop follows the same registers:
    from an interval that is not empty and does not pass 2^32 it ends
    within four iterations, having consumed at most three bytes of the
    input, with a range of at least 2^14. *)
Theorem decode_normalize_three_bytes d :
  interval_ok (dec_low d) (dec_range d) ->
  exists d' k,
    decode_normalize 4 d = Some d'
    /\ (k <= 3)%nat /\ dec_in d' = drop k (dec_in d)
    /\ interval_ok (dec_low d') (dec_range d')
    /\ 2 ^ 14 <= dec_range d'.
Proof.
  intros Hok.
  pose proof (shifts_bound_3 (dec_low d) (dec_range d)) as H3.
  destruct (decode_normalize_ends 4 d Hok ltac:(lia)) as [d' H].
  destruct (decode_normalize_in_bound 4 d d' Hok H) as (Hok' & k & Hk & Hin).
  exists d', k. split; [exact H|]. split; [lia|]. split; [exact Hin|].
  split; [exact Hok'|].
  exact (decode_normalize_range 4 d d' H).
Qed.

Lemma decode_normalize_three_bytes_witness :
  exists d' k,
    decode_normalize 4 (mk_dec [1; 2; 3; 4; 5] 0x00ffffff 1 0x00ffffff) = Some d'
    /\ (k <= 3)%nat /\ dec_in d' = drop k [1; 2; 3; 4; 5]
    /\ interval_ok (dec_low d') (dec_range d')
    /\ 2 ^ 14 <= dec_range d'.
Proof.
  apply (decode_normalize_three_bytes (mk_dec [1; 2; 3; 4; 5] 0x00ffffff 1 0x00ffffff)).
  unfold interval_ok. cbn [dec_low dec_range]. lia.
Defined.

(** ** The container in general: any dimensions, any trailing bytes *)

(** The dimension fields hold the two numbers modulo 4096. *)
Lemma read_dims_serialize_mod w h rest :
  0 <= w < 65536 -> 0 <= h < 65536 ->
  let is_small := (w <=? 255) && (h <=? 255) in
  read_dims (bool_val is_small) (serialize_dims w h is_small ++ rest)
  = Some (w mod 4096, h mod 4096, rest).
Proof.
  intros Hw Hh is_small. unfold read_dims, serialize_dims.
  destruct is_small eqn:E; subst is_small;
    cbn [bool_val Z.eqb negb app read_byte mbind option_bind].
  - apply andb_true_iff in E as [E1 E2]. apply Z.leb_le in E1, E2.
    change 0xff with (Z.ones 8). rewrite !Z.land_ones, !Z.mod_small by lia.
    reflexivity.
  - assert (Hl : forall x, x mod 4096 = Z.land x (Z.ones 12))
      by (intros x; rewrite Z.land_ones by lia; reflexivity).
    rewrite !Hl. change 0xfff with (Z.ones 12). change 0xff with (Z.ones 8).
    f_equal. apply (f_equal2 pair); [apply (f_equal2 pair)|reflexivity];
      Z.bitblast; Z.bitblast_core.
Qed.

(** [pep_deserialize] on the fields [pep_serialize] writes, followed by
    anything. *)
Lemma deserialize_fields_rest p data rest :
  1 <= width p <= 65535 -> 1 <= height p <= 65535 ->
  Z.of_nat (length data) = bytes_size p ->
  0 < bytes_size p < 2 ^ 32 ->
  0 <= palette_size p < 256 ->
  length (palette p) = 256%nat ->
  Forall (fun c => 0 <= c < 2 ^ 32) (palette p) ->
  channel_bits p = pep_8bit \/ serialize_is_bitmap p = true ->
  bitmap_white_first p = false ->
  pep_deserialize (Some (serialize_fields p data ++ rest))
  = Some (mk_pep (Some data) (bytes_size p)
            ((width p - 1) mod 4096 + 1) ((height p - 1) mod 4096 + 1) (format p)
            (take (Z.to_nat (palette_count_of (palette_size p))) (palette p)
             ++ replicate (256 - Z.to_nat (palette_count_of (palette_size p))) 0)
            (palette_size p) (channel_bits p)).
Proof.
  intros Hw Hh Hlen Hsize Hps Hpal Hrange Hcb Hwf.
  unfold pep_deserialize, serialize_fields.
  set (w := u16 (width p - 1)). set (h := u16 (height p - 1)).
  assert (Ew : w = width p - 1) by (apply u16_small; lia).
  assert (Eh : h = height p - 1) by (apply u16_small; lia).
  set (is_small := (w <=? 255) && (h <=? 255)).
  set (is_bitmap := serialize_is_bitmap p) in *.
  set (only_rgb := serialize_only_rgb p is_bitmap).
  destruct (flags_decode p is_small only_rgb is_bitmap) as (F1 & F2 & F3 & F4 & F5).
  cbn zeta in F1, F2, F3, F4, F5.
  cbn [app read_byte mbind option_bind]. rewrite F1, F2, F3, F4, F5.
  rewrite <- !app_assoc.
  subst is_small. rewrite read_dims_serialize_mod by lia.
  cbn [mbind option_bind].
  rewrite (read_write_size 5).
  2-4: rewrite ?u32_small by lia.
  2-4: change (7 * (Z.of_nat 5 + 1)) with 42.
  2-4: change (Z.of_nat 5) with 5.
  2-4: lia.
  cbn [mbind option_bind].
  rewrite Z.lor_0_l, Z.shiftl_0_r, (u32_small (bytes_size p)), u32_small by lia.
  rewrite (firstn_all2 data) by lia.
  assert (Hcount : 0 < palette_count_of (palette_size p) <= 256)
    by (unfold palette_count_of; destruct (Z.eqb_spec (palette_size p) 0); lia).
  assert (Hdata : forall colors ps,
    (if Z.of_nat (length (data ++ rest)) <? bytes_size p then None
     else Some (mk_pep (Some (take (Z.to_nat (bytes_size p)) (data ++ rest)))
                  (bytes_size p) (u16 (w mod 4096 + 1)) (u16 (h mod 4096 + 1)) (format p)
                  (colors ++ replicate (256 - length colors) 0) ps (channel_bits p)))
    = Some (mk_pep (Some data) (bytes_size p)
              ((width p - 1) mod 4096 + 1) ((height p - 1) mod 4096 + 1) (format p)
              (colors ++ replicate (256 - length colors) 0) ps (channel_bits p))).
  { intros colors ps. rewrite length_app.
    destruct (Z.ltb_spec (Z.of_nat (length data + length rest)) (bytes_size p)); [lia|].
    rewrite take_app_length' by lia.
    pose proof (Z.mod_pos_bound w 4096 ltac:(lia)).
    pose proof (Z.mod_pos_bound h 4096 ltac:(lia)).
    rewrite !u16_small by lia. rewrite Ew, Eh. reflexivity. }
  unfold read_palette. clear F1 F2 F3 F4 F5.
  destruct is_bitmap eqn:Hbm; cbn [bool_val Z.eqb negb].
  - destruct (bitmap_palette p Hpal Hrange Hbm Hwf) as [Hps2 Htake].
    cbn [mbind option_bind]. rewrite app_nil_l, Hdata.
    rewrite Hps2. change (Z.to_nat (palette_count_of 2)) with 2%nat.
    rewrite Htake. reflexivity.
  - destruct Hcb as [Hcb | Hcb]; [|discriminate Hcb].
    cbn [app read_byte mbind option_bind].
    rewrite u8_small by lia.
    unfold serialize_palette. rewrite Hcb in Hdata |- *.
    change (u8 (Z.shiftl 1 (channel_bits_val pep_8bit))) with 8.
    change (u16 (Z.shiftl 1 (channel_bits_val pep_8bit))) with 8.
    cbn [Z.eqb Pos.eqb].
    set (colors := take (Z.to_nat (palette_count_of (palette_size p))) (palette p)).
    assert (Hcl : length colors = Z.to_nat (palette_count_of (palette_size p))).
    { subst colors. rewrite length_take. lia. }
    rewrite <- Hcl, read_write_palette8.
    + cbn [mbind option_bind]. rewrite Hdata. reflexivity.
    + subst colors. apply Forall_take. assumption.
    + intros Hrgb. apply only_rgb_alpha. subst only_rgb. exact Hrgb.
Qed.

(** [pep_decompress] reads of an image its compressed bytes, its
    dimensions, its format and the first [palette_size] palette entries,
    nothing else. *)
Lemma decompress_same_fields static_palette p q out_format tfc pm :
  bytes q = bytes p -> bytes_size q = bytes_size p ->
  width q = width p -> height q = height p -> format q = format p ->
  palette_size q = palette_size p ->
  take (Z.to_nat (palette_size p)) (palette q)
  = take (Z.to_nat (palette_size p)) (palette p) ->
  pep_decompress static_palette (Some q) out_format tfc pm
  = pep_decompress static_palette (Some p) out_format tfc pm.
Proof.
  intros Hb Hs Hw Hh Hf Hps Hpal. unfold pep_decompress.
  rewrite Hb, Hs, Hw, Hh, Hf, Hps, Hpal. reflexivity.
Qed.

Lemma first_colors_prefix cap : forall px seen,
  exists more, first_colors cap seen px = seen ++ more.
Proof.
  induction px as [|c px IH]; intros seen; cbn [first_colors].
  - exists []. rewrite app_nil_r. reflexivity.
  - destruct (bool_decide (c ∈ seen)); [apply IH|].
    destruct (length seen <? cap)%nat; [|apply IH].
    destruct (IH (seen ++ [c])) as [more ->]. exists ([c] ++ more).
    rewrite app_assoc. reflexivity.
Qed.

(** The first palette entry is the first pixel. *)
Lemma compress_palette_first pixels w h c rest :
  pixels_read pixels w h = c :: rest ->
  get (fst (compress_palette pixels w h)) 0 = c.
Proof.
  intros Hread.
  destruct (compress_palette_holds pixels w h) as (_ & _ & ->).
  rewrite Hread. cbn [first_colors]. 
  rewrite bool_decide_eq_false_2 by (apply not_elem_of_nil).
  change (length [] <? 255)%nat with true. cbv iota.
  destruct (first_colors_prefix 255 rest ([] ++ [c])) as [more ->].
  reflexivity.
Qed.

Lemma serialize_deserialize_rest p data rest :
  1 <= width p <= 65535 -> 1 <= height p <= 65535 ->
  bytes p = Some data -> Z.of_nat (length data) = bytes_size p ->
  0 < bytes_size p < 2 ^ 31 ->
  0 <= palette_size p < 256 -> length (palette p) = 256%nat ->
  Forall (fun c => 0 <= c < 2 ^ 32) (palette p) ->
  channel_bits p = pep_8bit \/ serialize_is_bitmap p = true ->
  bitmap_white_first p = false ->
  exists buf out_size,
    pep_serialize (Some p) = (Some buf, out_size)
    /\ pep_deserialize (Some (take (Z.to_nat out_size) buf ++ rest))
       = Some (mk_pep (Some data) (bytes_size p)
                 ((width p - 1) mod 4096 + 1) ((height p - 1) mod 4096 + 1) (format p)
                 (take (Z.to_nat (palette_count_of (palette_size p))) (palette p)
                  ++ replicate (256 - Z.to_nat (palette_count_of (palette_size p))) 0)
                 (palette_size p) (channel_bits p)).
Proof.
  intros Hw Hh Hb Hlen Hsize Hps Hpal Hrange Hcb Hwf.
  unfold pep_serialize. rewrite Hb.
  destruct (Z.eqb_spec (width p) 0); [lia|].
  destruct (Z.eqb_spec (height p) 0); [lia|].
  destruct (Z.eqb_spec (bytes_size p) 0); [lia|]. cbn [orb].
  eexists _, _. split; [reflexivity|].
  pose proof (serialize_fields_length p data Hps Hlen) as Hfl.
  rewrite u32_small, Nat2Z.id by lia.
  rewrite take_app_length.
  apply deserialize_fields_rest; try assumption; lia.
Qed.

(** The image that [pep_deserialize] returns decompresses like the one
    that was serialized. *)
Lemma decompress_stored static_palette p data out_format tfc pm :
  1 <= width p <= 4096 -> 1 <= height p <= 4096 ->
  bytes p = Some data -> 1 <= palette_size p < 256 ->
  length (palette p) = 256%nat ->
  pep_decompress static_palette
    (Some (mk_pep (Some data) (bytes_size p)
             ((width p - 1) mod 4096 + 1) ((height p - 1) mod 4096 + 1) (format p)
             (take (Z.to_nat (palette_count_of (palette_size p))) (palette p)
              ++ replicate (256 - Z.to_nat (palette_count_of (palette_size p))) 0)
             (palette_size p) (channel_bits p)))
    out_format tfc pm
  = pep_decompress static_palette (Some p) out_format tfc pm.
Proof.
  intros Hw Hh Hb Hps Hpal.
  apply decompress_same_fields;
    cbn [bytes bytes_size width height format palette palette_size];
    try reflexivity; try (symmetry; assumption).
  - rewrite Z.mod_small; lia.
  - rewrite Z.mod_small; lia.
  - assert (Ec : palette_count_of (palette_size p) = palette_size p).
    { unfold palette_count_of. destruct (Z.eqb_spec (palette_size p) 0); [lia|reflexivity]. }
    rewrite Ec. rewrite take_app_le by (rewrite length_take; lia).
    rewrite take_take. f_equal. lia.
Qed.

(** What [pep_compress] makes of an image of at most 255 colours that
    does not start with a white pixel: an image the container can hold. *)
Lemma compressed_image pixels w h f static_palette st :
  1 <= w <= 4096 -> 1 <= h <= 4096 ->
  length pixels = Z.to_nat (w * h) ->
  Forall (fun c => 0 <= c < 2 ^ 32) pixels ->
  (length (remove_dups pixels) <= 255)%nat ->
  (w * h) mod indices_per_byte_of (Z.of_nat (length (remove_dups pixels))) = 0 ->
  compress_model pixels w h (S (Z.to_nat (w * h))) = Some st ->
  hd 0 pixels <> 0xffffffff ->
  exists p data,
    pep_compress (Some pixels) w h f pep_8bit = Some p
    /\ valid_image p data /\ 1 <= palette_size p
    /\ channel_bits p = pep_8bit /\ bitmap_white_first p = false
    /\ pep_decompress static_palette (Some p) f 0 0 = Some (Some (map Some pixels)).
Proof.
  intros Hw Hh Hlen Hpx Hfew Hmod Hmodel Hfirst.
  destruct (compress_decompress_exact pixels w h f pep_8bit static_palette st
              ltac:(lia) ltac:(lia) Hlen Hfew Hmod Hmodel) as (p & Hc & Hsize & Hd).
  destruct (compress_valid pixels w h f pep_8bit p Hw Hh Hpx Hc)
    as (data & Hvalid & Ew & Eh & Ef & Ecb).
  assert (Harea : 1 <= w * h < 2 ^ 32) by nia.
  assert (Hread : pixels_read pixels w h = pixels).
  { unfold pixels_read. rewrite u32_small by lia. apply take_ge. lia. }
  assert (Hpal : palette p = fst (compress_palette pixels w h)
                 /\ palette_size p = snd (compress_palette pixels w h)).
  { unfold pep_compress in Hc. rewrite u32_small in Hc by lia.
    destruct (Z.eqb_spec (w * h) 0); [lia|].
    destruct (compress_palette pixels w h) as [pal size].
    destruct (compress_state pixels w h _); [|discriminate Hc].
    cbn [mbind option_bind] in Hc. injection Hc as <-. split; reflexivity. }
  destruct Hpal as [Epal Eps].
  assert (Hne : pixels_read pixels w h <> []).
  { rewrite Hread. intros ->. cbn [length] in Hlen. lia. }
  pose proof (compress_palette_size pixels w h Hne) as Hps1. rewrite <- Eps in Hps1.
  exists p, data. split; [exact Hc|]. split; [exact Hvalid|]. split; [lia|].
  split; [exact Ecb|]. split; [|exact Hd].
  unfold bitmap_white_first. apply andb_false_iff. right.
  destruct pixels as [|c rest0]; [contradiction Hne; rewrite Hread; reflexivity|].
  rewrite Epal, (compress_palette_first _ _ _ c rest0 Hread).
  apply Forall_cons in Hpx as [Hc32 _]. cbn [hd] in Hfirst.
  destruct (is_white c) eqn:Hwhite; [|reflexivity].
  apply is_white_color in Hwhite; [contradiction|assumption].
Qed.

Lemma compress_store_load pixels w h f static_palette rest st :
  1 <= w <= 4096 -> 1 <= h <= 4096 ->
  length pixels = Z.to_nat (w * h) ->
  Forall (fun c => 0 <= c < 2 ^ 32) pixels ->
  (length (remove_dups pixels) <= 255)%nat ->
  (w * h) mod indices_per_byte_of (Z.of_nat (length (remove_dups pixels))) = 0 ->
  compress_model pixels w h (S (Z.to_nat (w * h))) = Some st ->
  hd 0 pixels <> 0xffffffff ->
  exists p buf out_size q,
    pep_compress (Some pixels) w h f pep_8bit = Some p
    /\ pep_serialize (Some p) = (Some buf, out_size)
    /\ pep_deserialize (Some (take (Z.to_nat out_size) buf ++ rest)) = Some q
    /\ pep_decompress static_palette (Some q) f 0 0 = Some (Some (map Some pixels)).
Proof.
  intros Hw Hh Hlen Hpx Hfew Hmod Hmodel Hfirst.
  destruct (compressed_image pixels w h f static_palette st
              Hw Hh Hlen Hpx Hfew Hmod Hmodel Hfirst)
    as (p & data & Hc & (Vw & Vh & Vb & Vlen & Vsize & Vps & Vpal & Vrange)
        & Hps1 & Ecb & Hwf & Hd).
  destruct (serialize_deserialize_rest p data rest) as (buf & n & Hs & Hq);
    try assumption; try lia.
  { left. exact Ecb. }
  eexists p, buf, n, _. split; [exact Hc|]. split; [exact Hs|]. split; [exact Hq|].
  rewrite <- Hd. apply decompress_stored; try assumption; lia.
Qed.



(** X9. Compressing, serializing, deserializing and decompressing gives
    the pixels back: for an image of at most 4096 by 4096 pixels and 255
    colours, whole groups, well-formed probabilities and a first pixel
    that is not opaque white, stored at 8 bits per channel, whatever
    follows the serialized bytes in the buffer. *)
Theorem stored_round_trip pixels w h f static_palette rest :
  1 <= w <= 4096 -> 1 <= h <= 4096 ->
  length pixels = Z.to_nat (w * h) ->
  Forall (fun c => 0 <= c < 2 ^ 32) pixels ->
  (length (remove_dups pixels) <= 255)%nat ->
  (w * h) mod indices_per_byte_of (Z.of_nat (length (remove_dups pixels))) = 0 ->
  probabilities_ok pixels w h = true ->
  hd 0 pixels <> 0xffffffff ->
  exists p buf out_size q,
    pep_compress (Some pixels) w h f pep_8bit = Some p
    /\ pep_serialize (Some p) = (Some buf, out_size)
    /\ pep_deserialize (Some (take (Z.to_nat out_size) buf ++ rest)) = Some q
    /\ pep_decompress static_palette (Some q) f 0 0 = Some (Some (map Some pixels)).
Proof.
  intros Hw Hh Hlen Hpx Hfew Hmod Hok Hfirst. unfold probabilities_ok in Hok.
  destruct (compress_model pixels w h (S (Z.to_nat (w * h)))) as [st|] eqn:Hmodel;
    [|discriminate Hok].
  exact (compress_store_load pixels w h f static_palette rest st
           Hw Hh Hlen Hpx Hfew Hmod Hmodel Hfirst).
Qed.

Lemma stored_round_trip_witness :
  exists p buf out_size q,
    pep_compress (Some (speckle 13 64)) 4 16 pep_bgra pep_8bit = Some p
    /\ pep_serialize (Some p) = (Some buf, out_size)
    /\ pep_deserialize (Some (take (Z.to_nat out_size) buf ++ [0])) = Some q
    /\ pep_decompress (replicate 256 0) (Some q) pep_bgra 0 0
       = Some (Some (map Some (speckle 13 64))).
Proof.
  apply stored_round_trip.
  - lia.
  - lia.
  - vm_compute. reflexivity.
  - apply (bool_decide_unpack _). vm_compute. exact I.
  - vm_compute. lia.
  - vm_compute. reflexivity.
  - vm_compute. reflexivity.
  - vm_compute. discriminate.
Defined.

(** ** pep_free, pep_save and pep_load *)

(** What [pep_save] does with an image that [pep_serialize] accepts, when
    [fopen] succeeds: the file receives the bytes that [fwrite] manages to
    write, and the result tells whether these are all of them. *)
Lemma pep_save_writes p data path env fs :
  1 <= width p <= 65535 -> 1 <= height p <= 65535 ->
  bytes p = Some data -> Z.of_nat (length data) = bytes_size p ->
  0 < bytes_size p < 2 ^ 31 -> 0 <= palette_size p < 256 ->
  fopen_ok env = true ->
  let fields := serialize_fields p data in
  pep_serialize (Some p) = (Some (fields ++ [0]), Z.of_nat (length fields))
  /\ pep_save (Some p) (Some path) env fs
     = (bool_val (length fields <=? io_limit env)%nat,
        <[path := take (io_limit env) fields]> fs).
Proof.
  intros Hw Hh Hb Hlen Hsize Hps Hopen fields.
  unfold pep_save. unfold pep_serialize. rewrite Hb.
  destruct (Z.eqb_spec (width p) 0); [lia|].
  destruct (Z.eqb_spec (height p) 0); [lia|].
  destruct (Z.eqb_spec (bytes_size p) 0); [lia|]. cbn [orb].
  pose proof (serialize_fields_length p data Hps Hlen) as Hfl.
  rewrite u32_small by lia. fold fields in Hfl |- *.
  split; [reflexivity|].
  destruct (Z.eqb_spec (Z.of_nat (length fields)) 0); [lia|].
  rewrite Hopen. cbn [negb]. rewrite Nat2Z.id.
  destruct (Nat.leb_spec (length fields) (io_limit env)).
  - rewrite Nat.min_l by lia. rewrite Z.eqb_refl.
    rewrite take_app_length, take_ge by lia. reflexivity.
  - rewrite Nat.min_r by lia.
    destruct (Z.eqb_spec (Z.of_nat (io_limit env)) (Z.of_nat (length fields))); [lia|].
    rewrite take_app_le by lia. reflexivity.
Qed.

(** Saving and loading with a C library that does not fail. *)
Lemma save_then_load p data path env env' fs :
  1 <= width p <= 65535 -> 1 <= height p <= 65535 ->
  bytes p = Some data -> Z.of_nat (length data) = bytes_size p ->
  0 < bytes_size p < 2 ^ 31 ->
  0 <= palette_size p < 256 -> length (palette p) = 256%nat ->
  Forall (fun c => 0 <= c < 2 ^ 32) (palette p) ->
  channel_bits p = pep_8bit \/ serialize_is_bitmap p = true ->
  bitmap_white_first p = false ->
  io_fine env (bytes_size p + 8204) -> io_fine env' (bytes_size p + 8204) ->
  let fs' := <[path := serialize_fields p data]> fs in
  pep_save (Some p) (Some path) env fs = (1, fs')
  /\ pep_load (Some path) env' fs'
     = Some (mk_pep (Some data) (bytes_size p)
               ((width p - 1) mod 4096 + 1) ((height p - 1) mod 4096 + 1) (format p)
               (take (Z.to_nat (palette_count_of (palette_size p))) (palette p)
                ++ replicate (256 - Z.to_nat (palette_count_of (palette_size p))) 0)
               (palette_size p) (channel_bits p)).
Proof.
  intros Hw Hh Hb Hlen Hsize Hps Hpal Hrange Hcb Hwf [Hopen Hlim] [Hopen' Hlim'] fs'.
  pose proof (serialize_fields_length p data Hps Hlen) as Hfl.
  destruct (pep_save_writes p data path env fs Hw Hh Hb Hlen Hsize Hps Hopen)
    as [_ Hsave].
  split.
  - rewrite Hsave. destruct (Nat.leb_spec (length (serialize_fields p data)) (io_limit env));
      [|lia].
    rewrite take_ge by lia. reflexivity.
  - unfold pep_load. subst fs'. unfold files in *. rewrite lookup_insert_eq. rewrite Hopen'. cbn [negb].
    destruct (Z.leb_spec (Z.of_nat (length (serialize_fields p data))) 0); [lia|].
    rewrite Nat2Z.id, Nat.min_l by lia. rewrite Z.eqb_refl. cbn [negb].
    rewrite <- (app_nil_r (serialize_fields p data)).
    apply deserialize_fields_rest; try assumption; lia.
Qed.

(** After [pep_free] the image has no bytes. *)
Lemma pep_free_bytes p :
  exists q, fst (pep_free (Some p)) = Some q /\ bytes q = None.
Proof.
  unfold pep_free. destruct (bytes p) eqn:E; eexists; split; try reflexivity.
  exact E.
Qed.

Lemma compress_save_load pixels w h f static_palette path env env' fs st :
  1 <= w <= 4096 -> 1 <= h <= 4096 ->
  length pixels = Z.to_nat (w * h) ->
  Forall (fun c => 0 <= c < 2 ^ 32) pixels ->
  (length (remove_dups pixels) <= 255)%nat ->
  (w * h) mod indices_per_byte_of (Z.of_nat (length (remove_dups pixels))) = 0 ->
  compress_model pixels w h (S (Z.to_nat (w * h))) = Some st ->
  hd 0 pixels <> 0xffffffff ->
  io_fine env (8 * (w * h) + 8204) -> io_fine env' (8 * (w * h) + 8204) ->
  exists p fs' q,
    pep_compress (Some pixels) w h f pep_8bit = Some p
    /\ pep_save (Some p) (Some path) env fs = (1, fs')
    /\ pep_load (Some path) env' fs' = Some q
    /\ pep_decompress static_palette (Some q) f 0 0 = Some (Some (map Some pixels)).
Proof.
  intros Hw Hh Hlen Hpx Hfew Hmod Hmodel Hfirst Henv Henv'.
  destruct (compressed_image pixels w h f static_palette st
              Hw Hh Hlen Hpx Hfew Hmod Hmodel Hfirst)
    as (p & data & Hc & (Vw & Vh & Vb & Vlen & Vsize & Vps & Vpal & Vrange)
        & Hps1 & Ecb & Hwf & Hd).
  destruct (compress_size_general pixels w h f pep_8bit st
              ltac:(lia) ltac:(lia) Hlen Hmodel) as (p' & data' & Hc' & _ & _ & Hsz).
  rewrite Hc in Hc'. injection Hc' as <-.
  assert (Hio : forall e, io_fine e (8 * (w * h) + 8204) ->
                          io_fine e (bytes_size p + 8204)).
  { intros e [Ho Hl]. split; [exact Ho|]. lia. }
  destruct (save_then_load p data path env env' fs) as [Hsave Hload];
    try assumption; try lia; try (apply Hio; assumption).
  { left. exact Ecb. }
  eexists p, _, _. split; [exact Hc|]. split; [exact Hsave|]. split; [exact Hload|].
  rewrite <- Hd. apply decompress_stored; try assumption; lia.
Qed.

(** X10. [pep_save] of an image that [pep_serialize] accepts, when
    [fopen] succeeds: the file holds the bytes that [fwrite] managed to
    write, a prefix of the serialized image without its closing zero; the
    result is 1 exactly when all [out_size] bytes were written; no other
    file changes. *)
Theorem pep_save_result p data path env fs :
  1 <= width p <= 65535 -> 1 <= height p <= 65535 ->
  bytes p = Some data -> Z.of_nat (length data) = bytes_size p ->
  0 < bytes_size p < 2 ^ 31 -> 0 <= palette_size p < 256 ->
  fopen_ok env = true ->
  exists buf out_size fs',
    pep_serialize (Some p) = (Some buf, out_size)
    /\ pep_save (Some p) (Some path) env fs
       = (bool_val (Z.to_nat out_size <=? io_limit env)%nat, fs')
    /\ fs' !! path = Some (take (Nat.min (Z.to_nat out_size) (io_limit env)) buf)
    /\ forall other, other <> path -> fs' !! other = fs !! other.
Proof.
  intros Hw Hh Hb Hlen Hsize Hps Hopen.
  destruct (pep_save_writes p data path env fs Hw Hh Hb Hlen Hsize Hps Hopen)
    as [Hser Hsave].
  eexists _, _, _. split; [exact Hser|]. rewrite Nat2Z.id.
  split; [exact Hsave|]. unfold files in *. split.
  - rewrite lookup_insert_eq. f_equal.
    destruct (Nat.le_gt_cases (length (serialize_fields p data)) (io_limit env)).
    + rewrite Nat.min_l, take_app_length, take_ge by lia. reflexivity.
    + rewrite Nat.min_r, take_app_le by lia. reflexivity.
  - intros other Hne. apply lookup_insert_ne. congruence.
Qed.

Lemma pep_save_result_witness :
  exists buf out_size fs',
    pep_serialize (Some two_pixel_image) = (Some buf, out_size)
    /\ pep_save (Some two_pixel_image) (Some "a.pep"%string) (mk_io true 6) ∅
       = (bool_val (Z.to_nat out_size <=? 6)%nat, fs')
    /\ fs' !! "a.pep"%string = Some (take (Nat.min (Z.to_nat out_size) 6) buf)
    /\ forall other, other <> "a.pep"%string -> fs' !! other = (∅ : files) !! other.
Proof.
  apply (pep_save_result two_pixel_image [1; 254; 1; 254] "a.pep"%string
           (mk_io true 6) ∅).
  - cbn. lia.
  - cbn. lia.
  - reflexivity.
  - reflexivity.
  - cbn. lia.
  - cbn. lia.
  - reflexivity.
Defined.



(** X12. From pixels to a file and back: [pep_compress], [pep_save],
    [pep_load] and [pep_decompress] in turn give the pixels back, for an
    image of at most 4096 by 4096 pixels and 255 colours, whole groups,
    well-formed probabilities and a first pixel that is not opaque white,
    stored at 8 bits per channel, when the C library does not fail. *)
Theorem file_round_trip pixels w h f static_palette path env env' fs :
  1 <= w <= 4096 -> 1 <= h <= 4096 ->
  length pixels = Z.to_nat (w * h) ->
  Forall (fun c => 0 <= c < 2 ^ 32) pixels ->
  (length (remove_dups pixels) <= 255)%nat ->
  (w * h) mod indices_per_byte_of (Z.of_nat (length (remove_dups pixels))) = 0 ->
  probabilities_ok pixels w h = true ->
  hd 0 pixels <> 0xffffffff ->
  io_fine env (8 * (w * h) + 8204) -> io_fine env' (8 * (w * h) + 8204) ->
  exists p fs' q,
    pep_compress (Some pixels) w h f pep_8bit = Some p
    /\ pep_save (Some p) (Some path) env fs = (1, fs')
    /\ pep_load (Some path) env' fs' = Some q
    /\ pep_decompress static_palette (Some q) f 0 0 = Some (Some (map Some pixels)).
Proof.
  intros Hw Hh Hlen Hpx Hfew Hmod Hok Hfirst Henv Henv'. unfold probabilities_ok in Hok.
  destruct (compress_model pixels w h (S (Z.to_nat (w * h)))) as [st|] eqn:Hmodel;
    [|discriminate Hok].
  exact (compress_save_load pixels w h f static_palette path env env' fs st
           Hw Hh Hlen Hpx Hfew Hmod Hmodel Hfirst Henv Henv').
Qed.

Lemma file_round_trip_witness :
  exists p fs' q,
    pep_compress (Some (speckle 13 64)) 4 16 pep_rgba pep_8bit = Some p
    /\ pep_save (Some p) (Some "a.pep"%string) (mk_io true (Z.to_nat 10000)) ∅ = (1, fs')
    /\ pep_load (Some "a.pep"%string) (mk_io true (Z.to_nat 10000)) fs' = Some q
    /\ pep_decompress (replicate 256 0) (Some q) pep_rgba 0 0
       = Some (Some (map Some (speckle 13 64))).
Proof.
  apply file_round_trip.
  - lia.
  - lia.
  - vm_compute. reflexivity.
  - apply (bool_decide_unpack _). vm_compute. exact I.
  - vm_compute. lia.
  - vm_compute. reflexivity.
  - vm_compute. reflexivity.
  - vm_compute. discriminate.
  - split; [reflexivity|]. cbn. lia.
  - split; [reflexivity|]. cbn. lia.
Defined.

(** X13. After [pep_free] an image is empty for every other function:
    [pep_decompress] returns NULL, [pep_serialize] returns NULL with
    [out_size] 0, [pep_save] returns 0 and leaves the files as they are,
    and a second [pep_free] does not call [free] again. *)
Theorem freed_image_rejected p static_palette out_format tfc pm path env fs :
  exists q,
    fst (pep_free (Some p)) = Some q
    /\ pep_decompress static_palette (Some q) out_format tfc pm = Some None
    /\ pep_serialize (Some q) = (None, 0)
    /\ pep_save (Some q) path env fs = (0, fs)
    /\ pep_free (Some q) = (Some q, None).
Proof.
  destruct (pep_free_bytes p) as (q & Hq & Hb). exists q.
  split; [exact Hq|]. unfold pep_decompress, pep_serialize, pep_save, pep_free.
  unfold pep_serialize. rewrite Hb. destruct path; repeat split; reflexivity.
Qed.

(** ** Images of more than 255 colours *)

(** With more than 255 distinct colours the palette is full. *)
Lemma first_colors_full px :
  (255 < length (remove_dups px))%nat -> length (first_colors 255 [] px) = 255%nat.
Proof.
  intros Hmany.
  assert (Hnd : NoDup (first_colors 255 [] px))
    by (apply first_colors_NoDup; constructor).
  assert (Hle : (length (first_colors 255 [] px) <= 255)%nat).
  { assert (G : forall px seen, (length seen <= 255)%nat ->
                  (length (first_colors 255 seen px) <= 255)%nat).
    { clear. induction px as [|c px IH]; intros seen Hs; cbn [first_colors]; [exact Hs|].
      destruct (bool_decide (c ∈ seen)); [apply IH; exact Hs|].
      destruct (Nat.ltb_spec (length seen) 255); apply IH; [|exact Hs].
      rewrite length_app. cbn [length]. lia. }
    apply G. cbn [length]. lia. }
  destruct (first_colors_complete 255 px []) as [Hall|Hcap]; [|lia].
  exfalso.
  assert (Hsub : forall c, c ∈ remove_dups px -> c ∈ first_colors 255 [] px).
  { intros c Hc. apply Hall. right. apply elem_of_remove_dups. exact Hc. }
  pose proof (NoDup_submseteq _ _ (NoDup_remove_dups px) Hsub) as Hms.
  apply submseteq_length in Hms. lia.
Qed.

Lemma compress_decompress_overflow pixels w h f cb static_palette st :
  1 <= w <= 65535 -> 1 <= h <= 65535 ->
  length pixels = Z.to_nat (w * h) ->
  (255 < length (remove_dups pixels))%nat ->
  compress_model pixels w h (S (Z.to_nat (w * h))) = Some st ->
  exists p,
    pep_compress (Some pixels) w h f cb = Some p
    /\ palette_size p = 255
    /\ take 255 (palette p) = first_colors 255 [] pixels
    /\ pep_decompress static_palette (Some p) f 0 0
       = Some (Some (map (fun q =>
                            Some (if bool_decide (q ∈ take 255 (palette p)) then q
                                  else get static_palette 255))
                       pixels)).
Proof.
  intros Hw Hh Hlen Hmany Hmodel.
  destruct (compress_decompress_general pixels w h f cb static_palette f 0 0 st
              Hw Hh Hlen Hmodel) as (p & Hc & Hd).
  assert (Harea : 1 <= w * h < 2 ^ 32) by nia.
  assert (Hread : pixels_read pixels w h = pixels).
  { unfold pixels_read. rewrite u32_small by lia. apply take_ge. lia. }
  pose proof (compress_palette_holds pixels w h) as Hholds.
  rewrite Hread in Hholds.
  pose proof (first_colors_full pixels Hmany) as Hfull.
  assert (Hp : palette p = fst (compress_palette pixels w h)
               /\ palette_size p = snd (compress_palette pixels w h)
               /\ format p = f).
  { revert Hc. unfold pep_compress. rewrite u32_small by lia.
    destruct (Z.eqb_spec (w * h) 0); [lia|].
    destruct (compress_palette pixels w h) as [pal size].
    destruct (compress_state _ _ _ _) as [s|]; [|discriminate].
    rewrite bind_some. intros [= <-]. repeat split; reflexivity. }
  destruct Hp as (Epal & Esize & Ef). rewrite <- Epal, <- Esize in Hholds.
  assert (Hps : palette_size p = 255).
  { destruct Hholds as (-> & _). rewrite Hfull. reflexivity. }
  assert (Etake : take 255 (palette p) = first_colors 255 [] pixels).
  { destruct Hholds as (_ & _ & Ep).
    rewrite Ep. rewrite take_app_length'; [reflexivity|symmetry; exact Hfull]. }
  exists p. split; [exact Hc|]. split; [exact Hps|]. split; [exact Etake|].
  rewrite Hd. do 2 f_equal. unfold decoded_pixels. rewrite Hps.
  change (indices_per_byte_of 255) with 1.
  rewrite Hlen, Z2Nat.id, Z.mod_1_r, Z.div_1_r, Z.mul_1_l by lia.
  change (Z.to_nat 0) with 0%nat. cbn [replicate]. rewrite app_nil_r.
  rewrite take_ge by lia. rewrite map_map.
  apply map_ext_in. intros q Hq. f_equal.
  destruct (index_search_holds _ _ _ q Hholds) as [Hin Hout].
  rewrite Hps in Hin, Hout.
  unfold paint. rewrite Ef, reformat_same.
  change (0 =? 0) with true. cbv iota.
  unfold decompress_palette. change (0 =? 0) with true. cbv iota. rewrite Hps.
  destruct Hholds as (Es & Hl255 & Ep).
  rewrite Etake.
  destruct (decide (q ∈ first_colors 255 [] pixels)) as [Hyes|Hno].
  - rewrite bool_decide_eq_true_2 by exact Hyes.
    destruct (Hin Hyes) as (i & Hi & Eidx & Hlook).
    rewrite Eidx. unfold get. rewrite Nat2Z.id, lookup_app_l.
    + change (Z.to_nat 255) with 255%nat. rewrite Etake, Hlook. reflexivity.
    + change (Z.to_nat 255) with 255%nat. rewrite Etake. lia.
  - rewrite bool_decide_eq_false_2 by exact Hno.
    rewrite (Hout Hno). unfold get. change (Z.to_nat 255) with 255%nat.
    rewrite lookup_app_r by (rewrite Etake; lia).
    rewrite Etake, Hfull, Nat.sub_diag, lookup_drop, Nat.add_0_r. reflexivity.
Qed.

(** ** Decompressing with another palette *)

Lemma compress_decompress_repainted pixels w h f cb static_palette out_format tfc pm st :
  1 <= w <= 65535 -> 1 <= h <= 65535 ->
  length pixels = Z.to_nat (w * h) ->
  compress_model pixels w h (S (Z.to_nat (w * h))) = Some st ->
  exists p,
    pep_compress (Some pixels) w h f cb = Some p
    /\ forall q,
         bytes q = bytes p -> bytes_size q = bytes_size p ->
         width q = w -> height q = h -> palette_size q = palette_size p ->
         pep_decompress static_palette (Some q) out_format tfc pm
         = Some (Some (repainted_pixels static_palette (palette p) (palette_size p) q
                         out_format tfc pm pixels)).
Proof.
  intros Hw Hh Hlen Hmodel.
  assert (Harea : 1 <= w * h < 2 ^ 32) by nia.
  assert (Hread : pixels_read pixels w h = pixels).
  { unfold pixels_read. rewrite u32_small by lia. apply take_ge. lia. }
  assert (Hne : pixels_read pixels w h <> []).
  { rewrite Hread. intros ->. cbn [length] in Hlen. lia. }
  pose proof (compress_palette_size pixels w h Hne) as Hsize.
  pose proof (fun p => compress_index_fits pixels w h p) as Hslots.
  unfold pep_compress, compress_state. unfold compress_model in Hmodel.
  rewrite u32_small by lia.
  destruct (Z.eqb_spec (w * h) 0); [lia|].
  destruct (compress_palette pixels w h) as [pal size]. cbn [fst snd] in *.
  destruct (packing_params size Hsize) as (Hbits & Hper & Hbyte & Hmask & _).
  rewrite Hread in *.
  set (bpi := bits_per_index_of size) in *. set (ipb := indices_per_byte_of size) in *.
  assert (Hinit : coder_ok (e_ac encoder_init)) by (vm_compute; intuition discriminate).
  destruct (encode_loop_model _ _ _ _ _ _ _ _ _ Hinit Hmodel) as (acf & Henc & _).
  rewrite with_ac_init in Henc. rewrite Henc, bind_some.
  assert (Hcodec : forall palette1 in_format,
    exists E,
      enc_out (encode_flush 4 acf) = rev E
      /\ Forall is_byte E /\ (4 <= length E)%nat
      /\ forall d,
           in_step (with_ac encoder_init (e_ac encoder_init)) d -> reads (d_ac d) E ->
           d_out_pixels d = replicate (length pixels) None ->
           d_canvas_pos d = 0 ->
           exists df,
             decode_loop (Z.to_nat (w * h / ipb))
               (decode_symbol palette1 size in_format out_format pm bpi ipb
                  (Z.ones bpi) (w * h)) d = Some df
             /\ d_out_pixels df
                = map Some
                    (map (fun x => paint palette1 in_format out_format pm
                                     (index_search pal size x 0))
                         (take (Z.to_nat (ipb * (w * h / ipb))) pixels))
                  ++ replicate (Z.to_nat ((w * h) mod ipb)) None).
  { intros palette1 in_format.
    destruct (codec_loop pal size bpi ipb palette1 in_format out_format pm (w * h)
                Hbits Hper Hbyte ltac:(lia)
                (S (Z.to_nat (w * h))) pixels encoder_init (e_ac encoder_init)
                st (with_ac st acf) [])
      as (E & Hout & HbE & HlE & HfE & Hloop).
    { lia. }
    { apply contexts_init_ok. }
    { cbn. lia. }
    { vm_compute. intuition discriminate. }
    { vm_compute. discriminate. }
    { reflexivity. }
    { cbn [length]. lia. }
    { reflexivity. }
    { reflexivity. }
    { constructor. }
    { apply Forall_forall. intros p Hp. apply Hslots. exact Hp. }
    { exact Hmodel. }
    { rewrite with_ac_init. exact Henc. }
    change (e_ac (with_ac st acf)) with acf in Hout.
    change (enc_out (e_ac encoder_init)) with (@nil Z) in Hout.
    rewrite app_nil_r in Hout.
    exists E. split; [exact Hout|]. split; [exact HbE|]. split; [exact HlE|].
    intros d Hstep Hreads Hbuf Hpos.
    destruct (Hloop d []) as (df & Hdf & Houtf).
    { exact Hstep. }
    { exact Hreads. }
    { cbn [length Nat.add map app]. exact Hbuf. }
    { exact Hpos. }
    { cbn [length Nat.add]. lia. }
    cbn [length Nat.add app] in Hdf, Houtf.
    rewrite Hlen, Z2Nat.id in Hdf, Houtf by lia.
    exists df. split; [exact Hdf|exact Houtf]. }
  cbv zeta. change (e_ac (with_ac st acf)) with acf.
  eexists. split; [reflexivity|].
  cbn [bytes bytes_size width height palette palette_size format].
  intros q Hqb Hqs Hqw Hqh Hqp.
  remember (decompress_palette static_palette q tfc) as palette1 eqn:Epal1.
  destruct (Hcodec palette1 (format q)) as (E & Hout & HbE & HlE & Hloop).
  rewrite Hout, rev_involutive in Hqb, Hqs.
  unfold pep_decompress. rewrite Hqb, Hqs, Hqw, Hqh, Hqp.
  destruct (Z.eqb_spec (Z.of_nat (length E)) 0); [lia|].
  destruct (Z.eqb_spec w 0); [lia|]. destruct (Z.eqb_spec h 0); [lia|].
  cbn [orb]. rewrite u32_small, Nat2Z.id, firstn_all by lia.
  fold bpi. fold ipb. rewrite Hmask. fold bpi.
  destruct (decode_prime_reads E (u32 (2 ^ 32 - 1)) HlE HbE) as (Hl0 & Hr0 & Hreads).
  set (d0 := mk_decoder contexts_init (decode_prime 4 (mk_dec E 0 (u32 (2 ^ 32 - 1)) 0))
               0 PEP_FREQ_MAX (replicate (Z.to_nat (w * h)) None) 0).
  destruct (Hloop d0) as (df & Hdf & Houtf).
  { unfold in_step, d0. cbn [d_contexts d_freq_max d_context_id d_ac].
    rewrite Hl0, Hr0. repeat split; try reflexivity; lia. }
  { exact Hreads. }
  { unfold d0. cbn [d_out_pixels]. rewrite Hlen. reflexivity. }
  { reflexivity. }
  unfold decompress_palette in Epal1. rewrite Hqp in Epal1. rewrite <- Epal1.
  rewrite Hdf, bind_some, Houtf.
  unfold repainted_pixels, decompress_palette. rewrite Hqp, <- Epal1.
  fold ipb. rewrite Hlen, Z2Nat.id by lia. reflexivity.
Qed.

(** ** The bitmap flag *)

(** A bitmap comes back as black then white, whatever order its two
    colours had. *)
Lemma deserialize_bitmap p data rest :
  1 <= width p <= 65535 -> 1 <= height p <= 65535 ->
  Z.of_nat (length data) = bytes_size p ->
  0 < bytes_size p < 2 ^ 32 ->
  serialize_is_bitmap p = true ->
  pep_deserialize (Some (serialize_fields p data ++ rest))
  = Some (mk_pep (Some data) (bytes_size p)
            ((width p - 1) mod 4096 + 1) ((height p - 1) mod 4096 + 1) (format p)
            ([black (format p); white] ++ replicate 254 0)
            2 (channel_bits p)).
Proof.
  intros Hw Hh Hlen Hsize Hbm.
  unfold pep_deserialize, serialize_fields.
  set (w := u16 (width p - 1)). set (h := u16 (height p - 1)).
  assert (Ew : w = width p - 1) by (apply u16_small; lia).
  assert (Eh : h = height p - 1) by (apply u16_small; lia).
  set (is_small := (w <=? 255) && (h <=? 255)).
  rewrite Hbm.
  set (only_rgb := serialize_only_rgb p true).
  destruct (flags_decode p is_small only_rgb true) as (F1 & F2 & F3 & F4 & F5).
  cbn zeta in F1, F2, F3, F4, F5.
  cbn [app read_byte mbind option_bind]. rewrite F1, F2, F3, F4, F5.
  rewrite <- !app_assoc.
  subst is_small. rewrite read_dims_serialize_mod by lia.
  cbn [mbind option_bind].
  rewrite (read_write_size 5).
  2-4: rewrite ?u32_small by lia.
  2-4: change (7 * (Z.of_nat 5 + 1)) with 42.
  2-4: change (Z.of_nat 5) with 5.
  2-4: lia.
  cbn [mbind option_bind].
  rewrite Z.lor_0_l, Z.shiftl_0_r, (u32_small (bytes_size p)), u32_small by lia.
  rewrite (firstn_all2 data) by lia.
  unfold read_palette. cbn [bool_val Z.eqb negb mbind option_bind app].
  rewrite length_app.
  destruct (Z.ltb_spec (Z.of_nat (length data + length rest)) (bytes_size p)); [lia|].
  rewrite take_app_length' by lia.
  pose proof (Z.mod_pos_bound w 4096 ltac:(lia)).
  pose proof (Z.mod_pos_bound h 4096 ltac:(lia)).
  rewrite !u16_small by lia. rewrite Ew, Eh. reflexivity.
Qed.

Lemma first_colors_seen cap : forall px seen,
  Forall (fun c => c ∈ seen) px -> first_colors cap seen px = seen.
Proof.
  induction px as [|c px IH]; intros seen Hpx; [reflexivity|].
  apply Forall_cons in Hpx as [Hc Hpx]. cbn [first_colors].
  rewrite bool_decide_eq_true_2 by exact Hc. apply IH. exact Hpx.
Qed.

(** The palette of an image in two colours [a] and [b] that starts with
    [a]. *)
Lemma first_colors_two a b : a <> b -> forall px,
  Forall (fun c => c = a \/ c = b) px -> b ∈ px ->
  first_colors 255 [a] px = [a; b].
Proof.
  intros Hab. induction px as [|c px IH]; intros Hpx Hb.
  - apply elem_of_nil in Hb. contradiction.
  - apply Forall_cons in Hpx as [Hc Hpx]. cbn [first_colors].
    destruct Hc as [-> | ->].
    + rewrite bool_decide_eq_true_2 by (apply list_elem_of_singleton; reflexivity).
      apply IH; [exact Hpx|].
      apply elem_of_cons in Hb as [Hb|Hb]; [congruence|exact Hb].
    + rewrite bool_decide_eq_false_2
        by (intros H; apply list_elem_of_singleton in H; congruence).
      change (length [a] <? 255)%nat with true. cbv iota.
      apply first_colors_seen. apply Forall_forall. intros c Hc.
      rewrite Forall_forall in Hpx. destruct (Hpx c Hc) as [-> | ->].
      * apply elem_of_cons. left. reflexivity.
      * apply elem_of_cons. right. apply elem_of_cons. left. reflexivity.
Qed.

Lemma black_not_white f : black f <> white.
Proof. unfold black, white. destruct (_ <=? _); discriminate. Qed.

Lemma black_range f : 0 <= black f < 2 ^ 32.
Proof. unfold black. destruct (_ <=? _); lia. Qed.

(** A two-colour image that starts with a white pixel comes back from the
    container with black and white exchanged. *)
Lemma white_first_inverted pixels w h f cb static_palette rest st :
  1 <= w <= 4096 -> 1 <= h <= 4096 ->
  length pixels = Z.to_nat (w * h) ->
  hd 0 pixels = white ->
  Forall (fun c => c = white \/ c = black f) pixels -> black f ∈ pixels ->
  (w * h) mod 8 = 0 ->
  compress_model pixels w h (S (Z.to_nat (w * h))) = Some st ->
  exists p buf out_size q,
    pep_compress (Some pixels) w h f cb = Some p
    /\ pep_serialize (Some p) = (Some buf, out_size)
    /\ pep_deserialize (Some (take (Z.to_nat out_size) buf ++ rest)) = Some q
    /\ pep_decompress static_palette (Some q) f 0 0
       = Some (Some (map (fun c => Some (if c =? white then black f else white))
                       pixels)).
Proof.
  intros Hw Hh Hlen Hhd Hbw Hblack Hmod Hmodel.
  destruct (compress_decompress_repainted pixels w h f cb static_palette f 0 0 st
              ltac:(lia) ltac:(lia) Hlen Hmodel) as (p & Hc & Hany).
  assert (Hpx : Forall (fun c => 0 <= c < 2 ^ 32) pixels).
  { eapply Forall_impl; [exact Hbw|]. intros c [-> | ->]; [unfold white; lia|].
    apply black_range. }
  destruct (compress_valid pixels w h f cb p Hw Hh Hpx Hc)
    as (data & (Vw & Vh & Vb & Vlen & Vsize & Vps & Vpal & Vrange) & Ew & Eh & Ef & Ecb).
  assert (Harea : 1 <= w * h < 2 ^ 32) by nia.
  assert (Hread : pixels_read pixels w h = pixels).
  { unfold pixels_read. rewrite u32_small by lia. apply take_ge. lia. }
  assert (Hpal : palette p = fst (compress_palette pixels w h)
                 /\ palette_size p = snd (compress_palette pixels w h)).
  { unfold pep_compress in Hc. rewrite u32_small in Hc by lia.
    destruct (Z.eqb_spec (w * h) 0); [lia|].
    destruct (compress_palette pixels w h) as [pal size].
    destruct (compress_state pixels w h _); [|discriminate Hc].
    cbn [mbind option_bind] in Hc. injection Hc as <-. split; reflexivity. }
  destruct Hpal as [Epal Eps].
  assert (Hcolors : first_colors 255 [] pixels = [white; black f]).
  { destruct pixels as [|c rest0]; [cbn [length] in Hlen; lia|].
    cbn [hd] in Hhd. subst c. cbn [first_colors].
    rewrite bool_decide_eq_false_2 by (apply not_elem_of_nil).
    change (length [] <? 255)%nat with true. cbv iota.
    apply Forall_cons in Hbw as [_ Hbw].
    apply first_colors_two; [intros E; symmetry in E; revert E; apply black_not_white
                            |exact Hbw|].
    apply elem_of_cons in Hblack as [E|Hin]; [|exact Hin].
    contradiction (black_not_white f E). }
  pose proof (compress_palette_holds pixels w h) as (Hsz & _ & Hp).
  rewrite Hread, Hcolors, <- Epal in Hp. rewrite Hread, Hcolors, <- Eps in Hsz.
  cbn [length app] in Hp, Hsz. change (Z.of_nat 2) with 2 in Hsz.
  change (256 - 2)%nat with 254%nat in Hp.
  assert (Hbm : serialize_is_bitmap p = true).
  { unfold serialize_is_bitmap. rewrite Hsz, Hp, Ef.
    change (palette_count_of 2 =? 2) with true. cbv iota.
    change (get (white :: black f :: replicate 254 0) 0) with white.
    change (get (white :: black f :: replicate 254 0) 1) with (black f).
    unfold black. destruct (format_val f <=? format_val pep_bgra); reflexivity. }
  pose proof (serialize_fields_length p data Vps Vlen) as Hfl.
  exists p. eexists _, _, _. split; [exact Hc|].
  unfold pep_serialize. rewrite Vb.
  destruct (Z.eqb_spec (width p) 0); [lia|].
  destruct (Z.eqb_spec (height p) 0); [lia|].
  destruct (Z.eqb_spec (bytes_size p) 0); [lia|]. cbn [orb].
  split; [reflexivity|].
  rewrite u32_small, Nat2Z.id, take_app_length by lia.
  split; [apply deserialize_bitmap; try assumption; lia|].
  rewrite Hany.
  2:{ cbn [bytes]. symmetry. exact Vb. }
  2:{ reflexivity. }
  2:{ cbn [width]. rewrite Z.mod_small; lia. }
  2:{ cbn [height]. rewrite Z.mod_small; lia. }
  2:{ cbn [palette_size]. symmetry. exact Hsz. }
  do 2 f_equal. unfold repainted_pixels. rewrite Hsz.
  change (indices_per_byte_of 2) with 8.
  rewrite Hlen, Z2Nat.id, Hmod by lia.
  change (Z.to_nat 0) with 0%nat. cbn [replicate]. rewrite app_nil_r.
  assert (Hwhole : 8 * (w * h / 8) = w * h).
  { pose proof (Z.div_mod (w * h) 8 ltac:(lia)). lia. }
  rewrite Hwhole, take_ge by lia. rewrite map_map.
  apply map_ext_in. intros c Hin. f_equal.
  apply list_elem_of_In in Hin. rewrite Forall_forall in Hbw.
  unfold paint, decompress_palette. cbn [format palette palette_size].
  rewrite Hp, !Ef.
  rewrite reformat_same. change (0 =? 0) with true. cbv iota.
  change (take (Z.to_nat 2) ([black f; white] ++ replicate 254 0))
    with [black f; white].
  assert (Hne : (black f =? white) = false)
    by (apply Z.eqb_neq, black_not_white).
  destruct (Hbw c Hin) as [-> | ->].
  - rewrite Z.eqb_refl. cbn [index_search]. rewrite Z.eqb_refl. reflexivity.
  - rewrite Hne. cbn [index_search]. rewrite Hne, Z.eqb_refl. reflexivity.
Qed.

(** X14. An image of more than 255 distinct colours, when every
    probability handed to the coder is well formed ([probabilities_ok]):
    [pep_compress] returns an image of palette size 255 whose first 255
    palette entries are the first 255 distinct colours in order of
    appearance, and [pep_decompress] of it returns every pixel of one of
    these colours unchanged and every other pixel as entry 255 of the
    function's static palette, that is whatever an earlier call left
    there. *)
Theorem overflow_colours pixels w h f cb static_palette :
  1 <= w <= 65535 -> 1 <= h <= 65535 ->
  length pixels = Z.to_nat (w * h) ->
  (255 < length (remove_dups pixels))%nat ->
  probabilities_ok pixels w h = true ->
  exists p,
    pep_compress (Some pixels) w h f cb = Some p
    /\ palette_size p = 255
    /\ take 255 (palette p) = first_colors 255 [] pixels
    /\ pep_decompress static_palette (Some p) f 0 0
       = Some (Some (map (fun q =>
                            Some (if bool_decide (q ∈ take 255 (palette p)) then q
                                  else get static_palette 255))
                       pixels)).
Proof.
  intros Hw Hh Hlen Hmany Hok. unfold probabilities_ok in Hok.
  destruct (compress_model pixels w h (S (Z.to_nat (w * h)))) as [st|] eqn:Hmodel;
    [|discriminate Hok].
  exact (compress_decompress_overflow pixels w h f cb static_palette st
           Hw Hh Hlen Hmany Hmodel).
Qed.

Lemma overflow_colours_witness :
  exists p,
    pep_compress (Some (seqZ 0 260)) 26 10 pep_rgba pep_8bit = Some p
    /\ palette_size p = 255
    /\ take 255 (palette p) = first_colors 255 [] (seqZ 0 260)
    /\ pep_decompress (replicate 256 7) (Some p) pep_rgba 0 0
       = Some (Some (map (fun q =>
                            Some (if bool_decide (q ∈ take 255 (palette p)) then q
                                  else get (replicate 256 7) 255))
                       (seqZ 0 260))).
Proof.
  apply overflow_colours.
  - lia.
  - lia.
  - vm_compute. reflexivity.
  - vm_compute. lia.
  - vm_compute. reflexivity.
Defined.

(** X15. The compressed bytes hold palette indices only.  When every
    probability handed to the coder is well formed ([probabilities_ok]),
    [pep_compress] returns an image such that, if its palette or format
    is replaced (its bytes, size, dimensions and palette size kept),
    [pep_decompress] returns, for each pixel of the whole groups, the
    entry of the decoder's palette ([decompress_palette]: the new image's
    entries over the static array) at the index that [pep_compress] gave
    the pixel, reformatted and pre-multiplied as asked; the cells of a
    last, partial group stay unwritten. *)
Theorem decompress_repainted pixels w h f cb static_palette out_format tfc pm :
  1 <= w <= 65535 -> 1 <= h <= 65535 ->
  length pixels = Z.to_nat (w * h) ->
  probabilities_ok pixels w h = true ->
  exists p,
    pep_compress (Some pixels) w h f cb = Some p
    /\ forall q,
         bytes q = bytes p -> bytes_size q = bytes_size p ->
         width q = w -> height q = h -> palette_size q = palette_size p ->
         pep_decompress static_palette (Some q) out_format tfc pm
         = Some (Some (repainted_pixels static_palette (palette p) (palette_size p) q
                         out_format tfc pm pixels)).
Proof.
  intros Hw Hh Hlen Hok. unfold probabilities_ok in Hok.
  destruct (compress_model pixels w h (S (Z.to_nat (w * h)))) as [st|] eqn:Hmodel;
    [|discriminate Hok].
  exact (compress_decompress_repainted pixels w h f cb static_palette out_format tfc pm
           st Hw Hh Hlen Hmodel).
Qed.

Lemma decompress_repainted_witness :
  exists p,
    pep_compress (Some nine_pixels) 3 3 pep_rgba pep_8bit = Some p
    /\ forall q,
         bytes q = bytes p -> bytes_size q = bytes_size p ->
         width q = 3 -> height q = 3 -> palette_size q = palette_size p ->
         pep_decompress (replicate 256 0) (Some q) pep_bgra 0 0
         = Some (Some (repainted_pixels (replicate 256 0) (palette p) (palette_size p) q
                         pep_bgra 0 0 nine_pixels)).
Proof.
  apply decompress_repainted.
  - lia.
  - lia.
  - vm_compute. reflexivity.
  - vm_compute. reflexivity.
Defined.

(** X16. The bitmap flag loses the order of the two colours.  Take an
    image of at most 4096 by 4096 pixels, every pixel opaque white or the
    format's opaque black, the first pixel white, at least one black, the
    number of pixels a multiple of 8 (whole groups) and every probability
    handed to the coder well formed ([probabilities_ok]).  It comes back
    from [pep_compress], [pep_serialize], [pep_deserialize] and
    [pep_decompress] with black and white exchanged in every pixel. *)
Theorem white_first_bitmap_inverted pixels w h f cb static_palette rest :
  1 <= w <= 4096 -> 1 <= h <= 4096 ->
  length pixels = Z.to_nat (w * h) ->
  hd 0 pixels = white ->
  Forall (fun c => c = white \/ c = black f) pixels -> black f ∈ pixels ->
  (w * h) mod 8 = 0 ->
  probabilities_ok pixels w h = true ->
  exists p buf out_size q,
    pep_compress (Some pixels) w h f cb = Some p
    /\ pep_serialize (Some p) = (Some buf, out_size)
    /\ pep_deserialize (Some (take (Z.to_nat out_size) buf ++ rest)) = Some q
    /\ pep_decompress static_palette (Some q) f 0 0
       = Some (Some (map (fun c => Some (if c =? white then black f else white))
                       pixels)).
Proof.
  intros Hw Hh Hlen Hhd Hbw Hblack Hmod Hok. unfold probabilities_ok in Hok.
  destruct (compress_model pixels w h (S (Z.to_nat (w * h)))) as [st|] eqn:Hmodel;
    [|discriminate Hok].
  exact (white_first_inverted pixels w h f cb static_palette rest st
           Hw Hh Hlen Hhd Hbw Hblack Hmod Hmodel).
Qed.

Lemma white_first_bitmap_inverted_witness :
  let pixels := [white; black pep_rgba; white; white; black pep_rgba; white; white;
                 black pep_rgba] in
  exists p buf out_size q,
    pep_compress (Some pixels) 4 2 pep_rgba pep_8bit = Some p
    /\ pep_serialize (Some p) = (Some buf, out_size)
    /\ pep_deserialize (Some (take (Z.to_nat out_size) buf ++ [0])) = Some q
    /\ pep_decompress (replicate 256 0) (Some q) pep_rgba 0 0
       = Some (Some (map (fun c => Some (if c =? white then black pep_rgba else white))
                       pixels)).
Proof.
  intros pixels. apply white_first_bitmap_inverted.
  - lia.
  - lia.
  - reflexivity.
  - reflexivity.
  - apply (bool_decide_unpack _). vm_compute. exact I.
  - apply (bool_decide_unpack _). vm_compute. exact I.
  - reflexivity.
  - vm_compute. reflexivity.
Defined.

(** ** What the decoder leaves unwritten *)

(** X17. Whatever the compressed bytes are, a buffer returned by
    [pep_decompress] has [width * height] cells and those of the last,
    partial group of [indices_per_byte] pixels are left as [PEP_MALLOC]
    returned them; when the area is below [indices_per_byte] no cell is
    written at all. *)
Theorem decompress_partial_group_unwritten static_palette p out_format tfc pm out :
  0 <= palette_size p < 256 ->
  pep_decompress static_palette (Some p) out_format tfc pm = Some (Some out) ->
  let area := u32 (width p * height p) in
  let per_byte := indices_per_byte_of (palette_size p) in
  length out = Z.to_nat area
  /\ forall k, per_byte * (area / per_byte) <= Z.of_nat k < area ->
       out !! k = Some None.
Proof.
  intros Hps H area per_byte.
  destruct (decompress_written _ _ _ _ _ _ Hps H) as [Hlen Hw].
  fold area per_byte in Hlen, Hw.
  split; [exact Hlen|]. intros k Hk.
  destruct (out !! k) as [[v|]|] eqn:Hcell.
  - apply Hw in Hcell. lia.
  - reflexivity.
  - apply lookup_ge_None in Hcell. lia.
Qed.

Lemma decompress_partial_group_unwritten_witness :
  let p := nine_pixel_image in
  let out := map Some (take 8 nine_pixels) ++ [None] in
  let area := u32 (width p * height p) in
  let per_byte := indices_per_byte_of (palette_size p) in
  length out = Z.to_nat area
  /\ forall k, per_byte * (area / per_byte) <= Z.of_nat k < area ->
       out !! k = Some None.
Proof.
  intros p out.
  apply (decompress_partial_group_unwritten (replicate 256 0) p pep_rgba 0 0 out).
  - cbn. lia.
  - vm_compute. reflexivity.
Defined.

(** ** Looking a target up *)

Lemma target_slot : forall fs target,
  Forall (fun f => 0 <= f < 2 ^ 16) fs -> 0 <= target < total fs ->
  exists k f, fs !! k = Some f
    /\ total (take k fs) <= target < total (take k fs) + f.
Proof.
  induction fs as [|g fs IH]; intros target Hfs Ht.
  - cbn in Ht. lia.
  - apply Forall_cons in Hfs as [Hg Hfs]. cbn [total foldr] in Ht. fold (total fs) in Ht.
    destruct (Z.lt_ge_cases target g) as [Hlt|Hge].
    + exists 0%nat, g. split; [reflexivity|]. rewrite take_0. cbn. lia.
    + destruct (IH (target - g) Hfs ltac:(lia)) as (k & f & Hk & Hin).
      exists (S k), f. split; [exact Hk|]. cbn [take total foldr].
      fold (total (take k fs)). lia.
Qed.

(** X18. [_pep_get_sym_from_freq] inverts [_pep_get_prob_from_ctx]: for
    every target below the total of the context's counters it returns a
    symbol whose counter is not zero together with the very interval that
    [_pep_get_prob_from_ctx] gives for that symbol, the interval holds the
    target, and no other symbol's interval does. *)
Theorem sym_from_freq_inverts_prob ctx target :
  freq_ok (freq ctx) -> 0 <= target < total (freq ctx) ->
  let r := _pep_get_sym_from_freq ctx target in
  0 <= sym_symbol r <= 256
  /\ 1 <= get (freq ctx) (sym_symbol r)
  /\ sym_prob r = _pep_get_prob_from_ctx ctx (sym_symbol r)
  /\ prob_low (sym_prob r) <= target < prob_high (sym_prob r)
  /\ forall s, 0 <= s <= 256 ->
       prob_low (_pep_get_prob_from_ctx ctx s) <= target
         < prob_high (_pep_get_prob_from_ctx ctx s) ->
       s = sym_symbol r.
Proof.
  intros Hok Ht r. pose proof Hok as [Hlen Hfs].
  destruct (target_slot _ _ Hfs Ht) as (k & f & Hk & Hin).
  assert (Hkl : (k < 257)%nat).
  { rewrite <- Hlen. apply lookup_lt_is_Some_1. eauto. }
  assert (Hf : 0 <= f < 2 ^ 16) by (apply (Forall_lookup_1 _ _ _ _ Hfs Hk)).
  assert (Hprob : forall s, 0 <= s <= 256 ->
            prob_low (_pep_get_prob_from_ctx ctx s)
            = total (take (Z.to_nat s) (freq ctx))
            /\ prob_high (_pep_get_prob_from_ctx ctx s)
               = total (take (Z.to_nat s) (freq ctx)) + get (freq ctx) s).
  { intros s Hs. unfold _pep_get_prob_from_ctx. cbn [prob_low prob_high].
    rewrite cum_freq_total by (try assumption; lia). rewrite Z.add_0_l.
    destruct (lookup_lt_is_Some_2 (freq ctx) (Z.to_nat s) ltac:(lia)) as [g Hg].
    assert (Hgr : 0 <= g < 2 ^ 16) by (apply (Forall_lookup_1 _ _ _ _ Hfs Hg)).
    assert (Eg : get (freq ctx) s = g) by (unfold get; rewrite Hg; reflexivity).
    pose proof (total_nonneg (take (Z.to_nat s) (freq ctx)) (Forall_take _ _ _ Hfs))
      as [Hnn Hub].
    rewrite length_take in Hub.
    rewrite Eg, u32_small by lia. split; reflexivity. }
  assert (Hget : get (freq ctx) (Z.of_nat k) = f)
    by (unfold get; rewrite Nat2Z.id, Hk; reflexivity).
  destruct (Hprob (Z.of_nat k) ltac:(lia)) as [Elow Ehigh].
  rewrite Nat2Z.id in Elow, Ehigh. rewrite Hget in Ehigh.
  assert (Er : r = mk_sym (_pep_get_prob_from_ctx ctx (Z.of_nat k)) (Z.of_nat k)).
  { subst r. apply get_sym_from_prob; [exact Hok|lia|]. rewrite Elow, Ehigh. exact Hin. }
  rewrite Er. cbn [sym_symbol sym_prob].
  split; [lia|]. split; [rewrite Hget; lia|]. split; [reflexivity|].
  split; [rewrite Elow, Ehigh; exact Hin|].
  intros s Hs Hs_in.
  pose proof (get_sym_from_prob ctx s target Hok Hs Hs_in) as E.
  fold r in E. rewrite Er in E. apply (f_equal sym_symbol) in E.
  cbn [sym_symbol] in E. symmetry. exact E.
Qed.

Lemma sym_from_freq_inverts_prob_witness :
  let ctx := mk_context (replicate 257 1) 257 in
  let r := _pep_get_sym_from_freq ctx 100 in
  0 <= sym_symbol r <= 256
  /\ 1 <= get (freq ctx) (sym_symbol r)
  /\ sym_prob r = _pep_get_prob_from_ctx ctx (sym_symbol r)
  /\ prob_low (sym_prob r) <= 100 < prob_high (sym_prob r)
  /\ forall s, 0 <= s <= 256 ->
       prob_low (_pep_get_prob_from_ctx ctx s) <= 100
         < prob_high (_pep_get_prob_from_ctx ctx s) ->
       s = sym_symbol r.
Proof.
  intros ctx.
  apply (sym_from_freq_inverts_prob ctx 100).
  - split; [reflexivity|]. apply (bool_decide_unpack _). vm_compute. exact I.
  - vm_compute. split; [discriminate|reflexivity].
Defined.

(** ** The coder on its own *)

Lemma code_probs_sync : forall probs ac ac',
  interval_ok (enc_low ac) (enc_range ac) -> 2 ^ 14 <= enc_range ac ->
  forallb prob_ok probs = true ->
  code_probs ac probs = Some ac' ->
  exists E,
    enc_out (encode_flush 4 ac') = rev E ++ enc_out ac
    /\ Forall is_byte E /\ (4 <= length E)%nat
    /\ fits (enc_low ac) (enc_range ac) E
    /\ forall d, dec_low d = enc_low ac -> dec_range d = enc_range ac -> reads d E ->
         exists targets d',
           decode_probs d probs = Some (targets, d')
           /\ Forall2 (fun prob t => prob_low prob <= t < prob_high prob) probs targets.
Proof.
  induction probs as [|prob probs IH]; intros ac ac' Hok Hbig Hp H.
  - rewrite code_probs_nil in H. injection H as <-.
    destruct (encode_flush_fits ac) as (E & Hout & HbE & HlE & HfE).
    { unfold interval_ok in Hok. lia. }
    { unfold interval_ok in Hok. lia. }
    exists E. split; [exact Hout|]. split; [exact HbE|]. split; [lia|].
    split; [exact HfE|]. intros d _ _ _. exists [], d. split; [reflexivity|constructor].
  - cbn [forallb] in Hp. apply andb_true_iff in Hp as [Hp Hps].
    rewrite code_probs_cons in H.
    destruct (_pep_arith_encode_normalize normalize_fuel (_pep_arith_encode ac prob))
      as [ac1|] eqn:E1; [|discriminate H].
    rewrite bind_some in H.
    destruct (code_prob_sync _ _ _ _ Hok Hbig Hp E1)
      as (N & HoutN & HbN & Hok1 & Hbig1 & Hback & Hdec).
    destruct (IH ac1 ac' Hok1 Hbig1 Hps H) as (E & Hout & HbE & HlE & HfE & Hrest).
    exists (N ++ E).
    split; [rewrite Hout, HoutN, rev_app_distr, app_assoc; reflexivity|].
    split; [apply Forall_app; split; assumption|].
    split; [rewrite length_app; lia|].
    split; [apply Hback; assumption|].
    intros d Hl Hr Hreads.
    destruct (Hdec d E Hl Hr HlE HbE Hreads HfE) as (Htarget & d2 & Hd2 & Hl2 & Hr2 & Hreads2).
    destruct (Hrest d2 Hl2 Hr2 Hreads2) as (targets & d' & Hdp & Hall).
    cbn [decode_probs].
    destruct (_pep_arith_decode_curr_freq d (prob_scale prob)) as [d1 target] eqn:Ecf.
    cbn [fst snd] in Htarget, Hd2. rewrite Hd2, bind_some, Hdp, bind_some.
    exists (target :: targets), d'. split; [reflexivity|].
    constructor; assumption.
Qed.

(** X19. The arithmetic coder on its own: any list of well-formed
    probabilities is coded (every renormalization ends), and the decoder,
    primed with the bytes written and taken through the same
    probabilities, reads for each of them a target frequency inside the
    interval that was coded. *)
Theorem arithmetic_coder_round_trip probs :
  forallb prob_ok probs = true ->
  exists ac',
    code_probs enc_start probs = Some ac'
    /\ exists targets d',
         decode_probs (dec_start (rev (enc_out (encode_flush 4 ac')))) probs
         = Some (targets, d')
         /\ Forall2 (fun prob t => prob_low prob <= t < prob_high prob) probs targets.
Proof.
  intros Hp.
  assert (Hinit : coder_ok enc_start) by (vm_compute; intuition discriminate).
  destruct (code_probs_ok probs enc_start Hinit Hp) as (ac' & Hcode & _).
  exists ac'. split; [exact Hcode|].
  destruct (code_probs_sync probs enc_start ac') as (E & Hout & HbE & HlE & _ & Hdec);
    try assumption.
  { vm_compute. intuition discriminate. }
  { vm_compute. discriminate. }
  change (enc_out enc_start) with (@nil Z) in Hout. rewrite app_nil_r in Hout.
  rewrite Hout, rev_involutive.
  destruct (decode_prime_reads E (u32 (2 ^ 32 - 1)) HlE HbE) as (Hl0 & Hr0 & Hreads).
  apply Hdec; assumption.
Qed.

Lemma arithmetic_coder_round_trip_witness :
  let probs := [mk_prob 3 1 7; mk_prob 16384 16383 16384; mk_prob 1 0 257] in
  exists ac',
    code_probs enc_start probs = Some ac'
    /\ exists targets d',
         decode_probs (dec_start (rev (enc_out (encode_flush 4 ac')))) probs
         = Some (targets, d')
         /\ Forall2 (fun prob t => prob_low prob <= t < prob_high prob) probs targets.
Proof.
  intros probs. apply arithmetic_coder_round_trip. reflexivity.
Defined.

(** ** Channel orders compose *)

Lemma reformat_range c a b : 0 <= c < 2 ^ 32 -> 0 <= _pep_reformat c a b < 2 ^ 32.
Proof.
  intros Hc.
  assert (E : _pep_reformat c a b = _pep_reformat c a b mod 2 ^ 32).
  { apply Z.bits_inj'. intros i Hi. destruct (Z.lt_ge_cases i 32).
    - rewrite Z.mod_pow2_bits_low by lia. reflexivity.
    - rewrite Z.mod_pow2_bits_high by lia. apply reformat_high; assumption. }
  rewrite E. apply Z.mod_pos_bound. lia.
Qed.

Lemma reformat_bit_source_compose a b d i :
  0 <= i < 32 ->
  reformat_bit_source a b (reformat_bit_source b d i) = reformat_bit_source a d i.
Proof.
  intros Hi. destruct a, b, d; unfold reformat_bit_source;
    repeat match goal with |- context [?x <? ?y] => destruct (Z.ltb_spec x y) end; lia.
Qed.

(** X20. Conversions between channel orders compose: for every 32-bit
    colour, converting from format [a] to [b] and then from [b] to [d]
    gives the same colour as converting from [a] to [d] at once, and the
    result is again a 32-bit colour. *)
Theorem reformat_compose c a b d :
  0 <= c < 2 ^ 32 ->
  _pep_reformat (_pep_reformat c a b) b d = _pep_reformat c a d
  /\ 0 <= _pep_reformat c a d < 2 ^ 32.
Proof.
  intros Hc. split; [|apply reformat_range; exact Hc].
  pose proof (reformat_range c a b Hc) as Hx.
  apply Z.bits_inj'. intros i Hi.
  destruct (Z.lt_ge_cases i 32) as [Hlt | Hge].
  - rewrite (reformat_bits c a d i), (reformat_bits (_pep_reformat c a b) b d i) by lia.
    rewrite reformat_bits by (apply reformat_bit_source_range; lia).
    rewrite reformat_bit_source_compose by lia. reflexivity.
  - rewrite !reformat_high by (assumption || lia). reflexivity.
Qed.

Lemma reformat_compose_witness :
  _pep_reformat (_pep_reformat 0x11223344 pep_rgba pep_argb) pep_argb pep_bgra
  = _pep_reformat 0x11223344 pep_rgba pep_bgra
  /\ 0 <= _pep_reformat 0x11223344 pep_rgba pep_bgra < 2 ^ 32.
Proof. apply reformat_compose. lia. Defined.

(** ** Pre-multiplied alpha *)

Lemma color_byte_range c i : 0 <= color_byte c i < 256.
Proof.
  unfold color_byte. change 0xff with (Z.ones 8). rewrite Z.land_ones by lia.
  apply Z.mod_pos_bound. lia.
Qed.

Lemma color_byte_of_bytes b0 b1 b2 b3 :
  0 <= b0 < 256 -> 0 <= b1 < 256 -> 0 <= b2 < 256 -> 0 <= b3 < 256 ->
  color_byte (color_of_bytes b0 b1 b2 b3) 0 = b0
  /\ color_byte (color_of_bytes b0 b1 b2 b3) 1 = b1
  /\ color_byte (color_of_bytes b0 b1 b2 b3) 2 = b2
  /\ color_byte (color_of_bytes b0 b1 b2 b3) 3 = b3
  /\ 0 <= color_of_bytes b0 b1 b2 b3 < 2 ^ 32.
Proof.
  intros H0 H1 H2 H3.
  assert (E : color_of_bytes b0 b1 b2 b3 = b0 + b1 * 2 ^ 8 + b2 * 2 ^ 16 + b3 * 2 ^ 24).
  { unfold color_of_bytes. rewrite !Z.shiftl_mul_pow2 by lia.
    rewrite <- (Z.mod_small b0 (2 ^ 8)), <- (Z.mod_small b1 (2 ^ 8)),
      <- (Z.mod_small b2 (2 ^ 8)), <- (Z.mod_small b3 (2 ^ 8)) by lia.
    rewrite <- !Z.land_ones by lia.
    rewrite <- !Z.shiftl_mul_pow2 by lia.
    rewrite <- !Z.lor_assoc.
    rewrite <- !Z.add_assoc.
    repeat (rewrite <- Z.add_nocarry_lor; [|Z.bitblast]).
    reflexivity || (rewrite !Z.add_nocarry_lor by Z.bitblast; Z.bitblast). }
  unfold color_byte. change 0xff with (Z.ones 8).
  rewrite !Z.land_ones, !Z.shiftr_div_pow2 by lia. rewrite E.
  change (2 ^ (8 * 0)) with 1. change (2 ^ (8 * 1)) with 256.
  change (2 ^ (8 * 2)) with 65536. change (2 ^ (8 * 3)) with 16777216.
  change (2 ^ 8) with 256. change (2 ^ 16) with 65536. change (2 ^ 24) with 16777216.
  change (2 ^ 32) with 4294967296.
  repeat split; try (Z.div_mod_to_equations; lia).
Qed.

Lemma multiply_rounds b a :
  0 <= b < 256 -> 0 <= a < 256 ->
  u8 (Z.shiftr (u32 (b * (a * 257) + 32896)) 16) = scaled b a /\ 0 <= scaled b a < 256.
Proof.
  intros Hb Ha. unfold scaled.
  assert (Hx : 0 <= b * a <= 65025) by nia.
  set (x := b * a) in *. replace (b * (a * 257)) with (x * 257) by (subst x; ring).
  clearbody x.
  rewrite u32_small by lia. rewrite Z.shiftr_div_pow2 by lia.
  change (2 ^ 16) with 65536.
  assert (E : (x * 257 + 32896) / 65536 = (x + 127) / 255)
    by (Z.div_mod_to_equations; lia).
  rewrite E. assert (0 <= (x + 127) / 255 < 256) by (Z.div_mod_to_equations; lia).
  rewrite u8_small by lia. split; [reflexivity|lia].
Qed.

Lemma scaled_opaque b : 0 <= b < 256 -> scaled b 255 = b.
Proof. intros Hb. unfold scaled. Z.div_mod_to_equations; lia. Qed.

(** X21. [_pep_pre_multiply] byte by byte.  The alpha is byte 3 for
    [pep_rgba] and [pep_bgra] and byte 0 for [pep_abgr] and [pep_argb].
    The byte at the other end of the pixel is returned as it is; the three
    others, the alpha byte among them, become [(b * alpha + 127) / 255],
    the product scaled to a byte and rounded to nearest.  A pixel whose
    alpha is 255 is returned unchanged. *)
Theorem pre_multiply_bytes pixel f :
  0 <= pixel < 2 ^ 32 ->
  let a := color_byte pixel (alpha_index f) in
  let r := _pep_pre_multiply pixel f in
  0 <= r < 2 ^ 32
  /\ (forall i, 0 <= i <= 3 ->
        color_byte r i
        = if i =? 3 - alpha_index f then color_byte pixel i
          else scaled (color_byte pixel i) a)
  /\ (a = 255 -> r = pixel).
Proof.
  intros Hp a r.
  pose proof (color_byte_range pixel 0) as H0.
  pose proof (color_byte_range pixel 1) as H1.
  pose proof (color_byte_range pixel 2) as H2.
  pose proof (color_byte_range pixel 3) as H3.
  assert (Ha : 0 <= a < 256) by apply color_byte_range.
  destruct (multiply_rounds (color_byte pixel 0) a H0 Ha) as [E0 R0].
  destruct (multiply_rounds (color_byte pixel 1) a H1 Ha) as [E1 R1].
  destruct (multiply_rounds (color_byte pixel 2) a H2 Ha) as [E2 R2].
  destruct (multiply_rounds (color_byte pixel 3) a H3 Ha) as [E3 R3].
  subst r a. unfold _pep_pre_multiply, alpha_index in *.
  destruct (format_val f <=? format_val pep_bgra).
  - rewrite E1, E2, E3.
    destruct (color_byte_of_bytes (color_byte pixel 0)
                (scaled (color_byte pixel 1) (color_byte pixel 3))
                (scaled (color_byte pixel 2) (color_byte pixel 3))
                (scaled (color_byte pixel 3) (color_byte pixel 3)) H0 R1 R2 R3)
      as (B0 & B1 & B2 & B3 & Hr).
    split; [exact Hr|]. split.
    + intros i Hi.
      assert (Hcases : i = 0 \/ i = 1 \/ i = 2 \/ i = 3) by lia.
      destruct Hcases as [-> | [-> | [-> | ->]]]; cbn [Z.eqb Z.sub Z.opp Z.add Z.pos_sub];
        assumption.
    + intros Hop. rewrite Hop, !scaled_opaque by lia. rewrite <- Hop.
      apply color_bytes_join. exact Hp.
  - rewrite E0, E1, E2.
    destruct (color_byte_of_bytes
                (scaled (color_byte pixel 0) (color_byte pixel 0))
                (scaled (color_byte pixel 1) (color_byte pixel 0))
                (scaled (color_byte pixel 2) (color_byte pixel 0))
                (color_byte pixel 3) R0 R1 R2 H3)
      as (B0 & B1 & B2 & B3 & Hr).
    split; [exact Hr|]. split.
    + intros i Hi.
      assert (Hcases : i = 0 \/ i = 1 \/ i = 2 \/ i = 3) by lia.
      destruct Hcases as [-> | [-> | [-> | ->]]]; cbn [Z.eqb Z.sub Z.opp Z.add Z.pos_sub];
        assumption.
    + intros Hop. rewrite Hop, !scaled_opaque by lia. rewrite <- Hop.
      apply color_bytes_join. exact Hp.
Qed.

Lemma pre_multiply_bytes_witness :
  let pixel := 0x80402010 in
  let a := color_byte pixel (alpha_index pep_bgra) in
  let r := _pep_pre_multiply pixel pep_bgra in
  0 <= r < 2 ^ 32
  /\ (forall i, 0 <= i <= 3 ->
        color_byte r i
        = if i =? 3 - alpha_index pep_bgra then color_byte pixel i
          else scaled (color_byte pixel i) a)
  /\ (a = 255 -> r = pixel).
Proof. intros pixel. apply (pre_multiply_bytes pixel pep_bgra). cbn. lia. Defined.

(** ** PEP_UPDATE keeps a context usable *)

Lemma total_halve_half fs :
  Forall (fun f => 0 <= f < 2 ^ 16) fs ->
  2 * total (map halve fs) <= total fs + Z.of_nat (length fs).
Proof.
  induction 1 as [|f fs Hf _ IH]; cbn [map total foldr length]; [lia|].
  fold (total (map halve fs)) (total fs).
  assert (2 * halve f <= f + 1).
  { unfold halve. destruct (Z.eqb_spec f 0); [lia|]. Z.div_mod_to_equations; lia. }
  lia.
Qed.

(** X22. PEP_UPDATE keeps a context usable by the coder, whatever
    FREQ_MAX and the palette size are: if the sum is the total of the 257
    counters and at most 2^14, then after the update the sum is again the
    total of the counters, it is below 2^14 and at most 2 more than
    before, the updated symbol's counter is not zero, and no counter that
    was not zero has become zero. *)
Theorem PEP_UPDATE_keeps_sum ctx s F palette_size :
  freq_ok (freq ctx) -> sum ctx = total (freq ctx) -> sum ctx <= 2 ^ 14 ->
  0 <= s <= 256 ->
  let c' := fst (PEP_UPDATE ctx s F palette_size) in
  freq_ok (freq c')
  /\ sum c' = total (freq c')
  /\ sum c' < 2 ^ 14 /\ sum c' <= sum ctx + 2
  /\ 1 <= get (freq c') s
  /\ (forall i, 0 <= i <= 256 -> 1 <= get (freq ctx) i -> 1 <= get (freq c') i).
Proof.
  intros Hok Hsum Hmax Hs c'.
  destruct (PEP_UPDATE_counts ctx s F palette_size Hok Hsum Hmax Hs)
    as (Hok' & Hsum' & Hle & Hs1 & Hkeep).
  fold c' in Hok', Hsum', Hle, Hs1, Hkeep.
  split; [exact Hok'|]. split; [exact Hsum'|].
  split; [|split; [exact Hle|split; [exact Hs1|exact Hkeep]]].
  subst c'. unfold PEP_UPDATE.
  pose proof (get_freq_range _ s Hok Hs) as [Hf _].
  pose proof Hok as [Hlen Hfs].
  rewrite (u16_small (get (freq ctx) s + 2)) by lia.
  rewrite (u32_small (sum ctx + 2)) by lia.
  set (freq1 := set (freq ctx) s (get (freq ctx) s + 2)).
  assert (Hok1 : freq_ok freq1) by (apply freq_ok_set; [exact Hok|lia]).
  assert (Ht1 : total freq1 = sum ctx + 2)
    by (subst freq1; rewrite total_set by assumption; lia).
  destruct (get freq1 s >=? F) eqn:E1; cbn [orb].
  2: destruct (Z.geb_spec (sum ctx + 2) PEP_PROB_MAX_VALUE) as [E2|E2].
  3: { cbn [fst sum]. change PEP_PROB_MAX_VALUE with (2 ^ 14) in E2. lia. }
  all: destruct Hok1 as [Hlen1 Hfs1];
    destruct (rescale_loop_halve freq1 0 Hfs1 ltac:(lia) ltac:(lia)) as [-> _];
    cbn [fst sum]; pose proof (total_halve_half freq1 Hfs1); lia.
Qed.

Lemma PEP_UPDATE_keeps_sum_witness :
  let ctx := mk_context (replicate 257 1) 257 in
  let c' := fst (PEP_UPDATE ctx 5 128 16) in
  freq_ok (freq c')
  /\ sum c' = total (freq c')
  /\ sum c' < 2 ^ 14 /\ sum c' <= sum ctx + 2
  /\ 1 <= get (freq c') 5
  /\ (forall i, 0 <= i <= 256 -> 1 <= get (freq ctx) i -> 1 <= get (freq c') i).
Proof.
  intros ctx. apply (PEP_UPDATE_keeps_sum ctx 5 128 16).
  - split; [reflexivity|]. apply (bool_decide_unpack _). vm_compute. exact I.
  - reflexivity.
  - cbn. lia.
  - lia.
Defined.

(** ** The compressed bytes do not depend on the colours *)

Section Recolour.

Variable g : Z -> Z.

(** The palette of a recoloured image. *)
Lemma first_colors_map cap : forall px seen,
  (forall x y, x ∈ seen ++ px -> y ∈ seen ++ px -> g x = g y -> x = y) ->
  first_colors cap (map g seen) (map g px) = map g (first_colors cap seen px).
Proof.
  induction px as [|c px IH]; intros seen Hinj; [reflexivity|].
  cbn [map first_colors].
  assert (Hmem : g c ∈ map g seen <-> c ∈ seen).
  { split.
    - intros H. change (map g seen) with (g <$> seen) in H.
      apply list_elem_of_fmap in H as (y & Hy & Hin).
      assert (c = y) as ->; [|exact Hin].
      apply Hinj; [| |exact Hy].
      + apply elem_of_app. right. apply elem_of_cons. left. reflexivity.
      + apply elem_of_app. left. exact Hin.
    - intros H. change (map g seen) with (g <$> seen). apply list_elem_of_fmap.
      eauto. }
  assert (Hnext : forall seen', (forall x, x ∈ seen' -> x ∈ seen ++ [c]) ->
            forall x y, x ∈ seen' ++ px -> y ∈ seen' ++ px -> g x = g y -> x = y).
  { intros seen' Hsub x y Hx Hy. apply Hinj.
    - apply elem_of_app in Hx as [Hx|Hx].
      + apply Hsub, elem_of_app in Hx as [Hx|Hx].
        * apply elem_of_app. left. exact Hx.
        * apply list_elem_of_singleton in Hx as ->.
          apply elem_of_app. right. apply elem_of_cons. left. reflexivity.
      + apply elem_of_app. right. apply elem_of_cons. right. exact Hx.
    - apply elem_of_app in Hy as [Hy|Hy].
      + apply Hsub, elem_of_app in Hy as [Hy|Hy].
        * apply elem_of_app. left. exact Hy.
        * apply list_elem_of_singleton in Hy as ->.
          apply elem_of_app. right. apply elem_of_cons. left. reflexivity.
      + apply elem_of_app. right. apply elem_of_cons. right. exact Hy. }
  destruct (decide (c ∈ seen)) as [Hin|Hout].
  - rewrite (bool_decide_eq_true_2 (g c ∈ map g seen)) by (apply Hmem; exact Hin).
    rewrite (bool_decide_eq_true_2 (c ∈ seen)) by exact Hin.
    apply IH. apply Hnext. intros x Hx. apply elem_of_app. left. exact Hx.
  - rewrite (bool_decide_eq_false_2 (g c ∈ map g seen)) by (rewrite Hmem; exact Hout).
    rewrite (bool_decide_eq_false_2 (c ∈ seen)) by exact Hout.
    rewrite length_map. destruct (length seen <? cap)%nat.
    + rewrite <- IH; [rewrite map_app; reflexivity|].
      apply Hnext. intros x Hx. exact Hx.
    + apply IH. apply Hnext. intros x Hx. apply elem_of_app. left. exact Hx.
Qed.

Lemma index_search_map pal pal' size seen x :
  palette_holds pal size seen -> palette_holds pal' size (map g seen) ->
  (forall y, y ∈ seen -> g x = g y -> x = y) ->
  NoDup (map g seen) ->
  index_search pal' size (g x) 0 = index_search pal size x 0.
Proof.
  intros Hh Hh' Hinj Hnd.
  destruct (index_search_holds pal size seen x Hh) as [Hin Hout].
  destruct (index_search_holds pal' size (map g seen) (g x) Hh') as [Hin' Hout'].
  destruct (decide (x ∈ seen)) as [Hx|Hx].
  - destruct (Hin Hx) as (i & Hi & -> & Hlook).
    assert (Hgx : g x ∈ map g seen).
    { change (map g seen) with (g <$> seen). apply list_elem_of_fmap. eauto. }
    destruct (Hin' Hgx) as (j & Hj & -> & Hlook').
    f_equal. eapply NoDup_lookup; [exact Hnd|exact Hlook'|].
    change (map g seen) with (g <$> seen). rewrite list_lookup_fmap, Hlook. reflexivity.
  - rewrite (Hout Hx). apply Hout'. intros H.
    change (map g seen) with (g <$> seen) in H.
    apply list_elem_of_fmap in H as (y & Hy & Hyin).
    apply Hx. rewrite (Hinj y Hyin Hy). exact Hyin.
Qed.

Lemma encode_loop_map pal pal' size bpi ipb : forall n px st,
  Forall (fun x => index_search pal' size (g x) 0 = index_search pal size x 0) px ->
  encode_loop n pal' size bpi ipb (map g px) st = encode_loop n pal size bpi ipb px st.
Proof.
  induction n as [|n IH]; intros px st Hpx; [reflexivity|].
  rewrite !encode_loop_S.
  assert (Hnil : is_nil (map g px) = is_nil px) by (destruct px; reflexivity).
  rewrite Hnil. destruct (is_nil px && negb (e_indices_in_byte st >? 0)); [reflexivity|].
  destruct px as [|p rest].
  - cbn [map]. unfold encode_iter.
    destruct (_ || _); [|apply (IH [] st); constructor].
    destruct (encode_symbol size st) as [st2|]; [|reflexivity].
    rewrite !bind_some. apply (IH [] st2). constructor.
  - apply Forall_cons in Hpx as [Hp Hrest]. cbn [map]. unfold encode_iter.
    rewrite Hp.
    assert (Hnil' : is_nil (map g rest) = is_nil rest) by (destruct rest; reflexivity).
    rewrite Hnil'.
    destruct (_ || _).
    + destruct (encode_symbol size _) as [st2|]; [|reflexivity].
      rewrite !bind_some. apply IH. exact Hrest.
    + rewrite !bind_some. apply IH. exact Hrest.
Qed.

End Recolour.

(** X23. The compressed bytes hold the pattern of the colours, not the
    colours: if every colour of an image is replaced by another one, two
    different colours never becoming the same, [pep_compress] writes the
    same bytes and the same palette size, and the palette holds the new
    colours in the place of the old ones. *)
Theorem compress_recoloured (g : Z -> Z) pixels w h f cb p :
  1 <= w <= 65535 -> 1 <= h <= 65535 ->
  (forall x y, x ∈ pixels -> y ∈ pixels -> g x = g y -> x = y) ->
  pep_compress (Some pixels) w h f cb = Some p ->
  pep_compress (Some (map g pixels)) w h f cb
  = Some (mk_pep (bytes p) (bytes_size p) w h f
            (map g (take (Z.to_nat (palette_size p)) (palette p))
             ++ replicate (256 - Z.to_nat (palette_size p)) 0)
            (palette_size p) cb).
Proof.
  intros Hw Hh Hinj. unfold pep_compress, compress_state.
  assert (Harea : 1 <= w * h < 2 ^ 32) by nia.
  rewrite u32_small by lia.
  destruct (Z.eqb_spec (w * h) 0); [lia|].
  assert (Hread : pixels_read (map g pixels) w h = map g (pixels_read pixels w h)).
  { unfold pixels_read. change (map g pixels) with (g <$> pixels).
    rewrite fmap_take. reflexivity. }
  set (px := pixels_read pixels w h) in *.
  assert (Hsub : forall x, x ∈ px -> x ∈ pixels).
  { intros x Hx. subst px. unfold pixels_read in Hx.
    apply elem_of_take in Hx as (i & Hi & _). eapply list_elem_of_lookup_2. exact Hi. }
  pose proof (compress_palette_holds pixels w h) as Hh0. fold px in Hh0.
  pose proof (compress_palette_holds (map g pixels) w h) as Hh1. rewrite Hread in Hh1.
  assert (Hseen : forall x, x ∈ first_colors 255 [] px -> x ∈ px).
  { assert (HF : Forall (fun c => c ∈ px) (first_colors 255 [] px)).
    { apply first_colors_Forall; [constructor|]. apply Forall_forall. auto. }
    rewrite Forall_forall in HF. exact HF. }
  assert (Hfc : first_colors 255 [] (map g px) = map g (first_colors 255 [] px)).
  { apply (first_colors_map g 255 px []).
    intros x y Hx Hy; apply Hinj; apply Hsub; assumption. }
  rewrite Hfc in Hh1.
  destruct (compress_palette pixels w h) as [pal size].
  destruct (compress_palette (map g pixels) w h) as [pal' size'].
  cbn [fst snd] in Hh0, Hh1.
  assert (Esize : size' = size).
  { destruct Hh0 as (-> & _). destruct Hh1 as (-> & _). rewrite length_map. reflexivity. }
  subst size'. rewrite Hread.
  rewrite (encode_loop_map g pal pal' size).
  2:{ apply Forall_forall. intros x Hx.
      apply (index_search_map g pal pal' size (first_colors 255 [] px) x Hh0 Hh1).
      - intros y Hy. apply Hinj; apply Hsub; [exact Hx|apply Hseen; exact Hy].
      - rewrite <- Hfc. apply first_colors_NoDup. constructor. }
  destruct (encode_loop _ pal size _ _ px encoder_init) as [st|];
    [|discriminate].
  rewrite !bind_some. intros [= <-].
  cbn [bytes bytes_size palette palette_size]. do 2 f_equal.
  destruct Hh0 as (Es & Hl & ->). destruct Hh1 as (_ & _ & ->).
  rewrite Es, Nat2Z.id, take_app_length, length_map. reflexivity.
Qed.

Lemma compress_recoloured_witness :
  pep_compress (Some (map (fun x => x + 5) nine_pixels)) 3 3 pep_rgba pep_8bit
  = Some (mk_pep (bytes nine_pixel_image) (bytes_size nine_pixel_image) 3 3 pep_rgba
            (map (fun x => x + 5)
               (take (Z.to_nat (palette_size nine_pixel_image)) (palette nine_pixel_image))
             ++ replicate (256 - Z.to_nat (palette_size nine_pixel_image)) 0)
            (palette_size nine_pixel_image) pep_8bit).
Proof.
  apply (compress_recoloured (fun x => x + 5) nine_pixels 3 3 pep_rgba pep_8bit
           nine_pixel_image).
  - lia.
  - lia.
  - intros x y _ _ H. lia.
  - vm_compute. reflexivity.
Defined.
(** ** Palettes below 8 bits per channel *)

Lemma drain_bits_small fuel bb bc : bc < 8 -> drain_bits fuel bb bc = ([], bc).
Proof.
  intros H. destruct fuel; [reflexivity|]. cbn [drain_bits].
  destruct (Z.geb_spec bc 8); [lia|reflexivity].
Qed.

Lemma drain_bits_count fuel : forall bb bc,
  0 <= bc < 8 * Z.of_nat fuel -> bc < 256 ->
  snd (drain_bits fuel bb bc) = bc mod 8.
Proof.
  induction fuel as [|fuel IH]; intros bb bc H Hb; [lia|].
  cbn [drain_bits]. destruct (Z.geb_spec bc 8) as [Hge|Hlt].
  - assert (E : u8 (bc - 8) = bc - 8) by (apply u8_small; lia).
    rewrite E. specialize (IH bb (bc - 8) ltac:(lia) ltac:(lia)).
    destruct (drain_bits fuel bb (bc - 8)) as [out fin]. cbn [snd] in *.
    rewrite IH. replace bc with (bc - 8 + 1 * 8) at 2 by lia.
    rewrite Z.mod_add by lia. reflexivity.
  - cbn [snd]. rewrite Z.mod_small; lia.
Qed.

(** Pushing a channel before draining gives the bytes of draining first
    and handing the channel to [emit]. *)
Lemma drain_push cb d ds (Hcb : cb = 1 \/ cb = 2 \/ cb = 4)
    (Hd : Z.land d (Z.ones cb) = d) fuel : forall acc cnt,
  0 <= cnt -> cnt + cb <= 32 -> cnt + cb < 8 * Z.of_nat fuel ->
  cnt mod cb = 0 ->
  (let '(out, c) := drain_bits fuel (u32 (Z.lor (Z.shiftl acc cb) d)) (cnt + cb) in
   out ++ emit cb (u32 (Z.lor (Z.shiftl acc cb) d)) c ds)
  = (let '(out, c) := drain_bits fuel acc cnt in out ++ emit cb acc c (d :: ds)).
Proof.
  induction fuel as [|fuel IH]; intros acc cnt H0 H32 Hf Hm; [lia|].
  cbn [drain_bits].
  destruct (Z.geb_spec cnt 8) as [Hge|Hlt].
  - destruct (Z.geb_spec (cnt + cb) 8) as [_|]; [|lia].
    assert (E1 : u8 (cnt + cb - 8) = cnt - 8 + cb)
      by (replace (cnt + cb - 8) with (cnt - 8 + cb) by lia; apply u8_small; lia).
    assert (E2 : u8 (cnt - 8) = cnt - 8) by (apply u8_small; lia).
    rewrite E1, E2.
    assert (Hm' : (cnt - 8) mod cb = 0).
    { clear - Hcb Hm. destruct Hcb as [->|[->| ->]];
        Z.div_mod_to_equations; lia. }
    specialize (IH acc (cnt - 8) ltac:(lia) ltac:(lia) ltac:(lia) Hm').
    destruct (drain_bits fuel (u32 (Z.lor (Z.shiftl acc cb) d)) (cnt - 8 + cb)) as [o1 c1].
    destruct (drain_bits fuel acc (cnt - 8)) as [o2 c2].
    cbn [app]. f_equal; [|exact IH].
    unfold u32. rewrite <- Hd. change 0xffffffff with (Z.ones 32).
    change 0xff with (Z.ones 8). Z.bitblast.
  - cbn [app emit].
    destruct (Z.geb_spec (cnt + cb) 8) as [Hge|Hlt'].
    + assert (cnt + cb = 8).
      { clear - Hcb Hm Hlt Hge. destruct Hcb as [->|[->| ->]];
          Z.div_mod_to_equations; lia. }
      replace (u8 (cnt + cb - 8)) with 0 by (unfold u8; replace (cnt + cb - 8) with 0 by lia; reflexivity).
      rewrite drain_bits_small by lia. cbn [app]. rewrite Z.shiftr_0_r. reflexivity.
    + reflexivity.
Qed.

Lemma digit_masked cb x : 0 <= cb ->
  Z.land (Z.land x (Z.ones cb)) (Z.ones cb) = Z.land x (Z.ones cb).
Proof. intros H. Z.bitblast. Qed.

(** [write_palette_bits] writes what the channel-by-channel writer does. *)
Lemma write_palette_bits_emit cb only_rgb (Hcb : cb = 1 \/ cb = 2 \/ cb = 4)
    colors : forall bb bc,
  0 <= bc < 8 -> bc mod cb = 0 ->
  write_palette_bits colors cb (8 - cb) (Z.ones cb) only_rgb bb bc
  = emit cb bb bc (concat (map (color_digits cb only_rgb) colors)).
Proof.
  assert (Hcb0 : 0 <= cb) by lia.
  induction colors as [|c colors IH]; intros bb bc Hbc Hm; [reflexivity|].
  cbn [write_palette_bits map concat].
  set (d i := Z.land (Z.shiftr (color_byte c i) (8 - cb)) (Z.ones cb)).
  set (push b i := u32 (Z.lor (Z.shiftl b cb) (d i))).
  assert (Hd : forall i, Z.land (d i) (Z.ones cb) = d i)
    by (intros i; apply digit_masked; lia).
  assert (Hm1 : (bc + cb) mod cb = 0 /\ (bc + cb + cb) mod cb = 0
                /\ (bc + cb + cb + cb) mod cb = 0).
  { clear - Hcb Hm. destruct Hcb as [->|[->| ->]]; Z.div_mod_to_equations; lia. }
  destruct Hm1 as (Hm1 & Hm2 & Hm3).
  assert (Hstep : forall acc cnt i ds, 0 <= cnt -> cnt + cb <= 32 -> cnt mod cb = 0 ->
    (let '(out, k) := drain_bits 32 (push acc i) (cnt + cb) in
     out ++ emit cb (push acc i) k ds)
    = (let '(out, k) := drain_bits 32 acc cnt in out ++ emit cb acc k (d i :: ds))).
  { intros acc cnt i ds ? ? ?. apply drain_push; auto; lia. }
  assert (E3 : u8 (bc + cb * 3) = bc + cb + cb + cb) by (rewrite u8_small; lia).
  rewrite E3.
  unfold color_digits. fold (d 0) (d 1) (d 2) (d 3).
  fold (push bb 0). fold (push (push bb 0) 1). fold (push (push (push bb 0) 1) 2).
  set (tail := concat (map _ colors)).
  destruct only_rgb.
  - cbn [app].
    transitivity
      (let '(out, k) := drain_bits 32 (push (push (push bb 0) 1) 2) (bc + cb + cb + cb) in
       out ++ emit cb (push (push (push bb 0) 1) 2) k tail).
    + pose proof (drain_bits_count 32 (push (push (push bb 0) 1) 2) (bc + cb + cb + cb)
                    ltac:(lia) ltac:(lia)) as Hc.
      destruct (drain_bits 32 (push (push (push bb 0) 1) 2) (bc + cb + cb + cb)) as [out k].
      cbn [snd] in Hc. f_equal. apply IH.
      * subst k. apply Z.mod_pos_bound. lia.
      * subst k. clear - Hcb Hm3. destruct Hcb as [->|[->| ->]]; Z.div_mod_to_equations; lia.
    + rewrite (Hstep (push (push bb 0) 1) (bc + cb + cb) 2 tail) by (lia || assumption).
      rewrite (Hstep (push bb 0) (bc + cb) 1) by (lia || assumption).
      rewrite (Hstep bb bc 0) by (lia || assumption).
      rewrite drain_bits_small by lia. reflexivity.
  - cbn [app].
    assert (E4 : u8 (bc + cb + cb + cb + cb) = bc + cb + cb + cb + cb) by (rewrite u8_small; lia).
    rewrite E4.
    assert (Hm4 : (bc + cb + cb + cb + cb) mod cb = 0).
    { clear - Hcb Hm. destruct Hcb as [->|[->| ->]]; Z.div_mod_to_equations; lia. }
    fold (push (push (push (push bb 0) 1) 2) 3).
    transitivity
      (let '(out, k) := drain_bits 32 (push (push (push (push bb 0) 1) 2) 3)
                          (bc + cb + cb + cb + cb) in
       out ++ emit cb (push (push (push (push bb 0) 1) 2) 3) k tail).
    + pose proof (drain_bits_count 32 (push (push (push (push bb 0) 1) 2) 3)
                    (bc + cb + cb + cb + cb) ltac:(lia) ltac:(lia)) as Hc.
      destruct (drain_bits 32 (push (push (push (push bb 0) 1) 2) 3)
                  (bc + cb + cb + cb + cb)) as [out k].
      cbn [snd] in Hc. f_equal. apply IH.
      * subst k. apply Z.mod_pos_bound. lia.
      * subst k. clear - Hcb Hm4. destruct Hcb as [->|[->| ->]]; Z.div_mod_to_equations; lia.
    + rewrite (Hstep (push (push (push bb 0) 1) 2) (bc + cb + cb + cb) 3 tail) by (lia || assumption).
      rewrite (Hstep (push (push bb 0) 1) (bc + cb + cb) 2) by (lia || assumption).
      rewrite (Hstep (push bb 0) (bc + cb) 1) by (lia || assumption).
      rewrite (Hstep bb bc 0) by (lia || assumption).
      rewrite drain_bits_small by lia. reflexivity.
Qed.

Lemma next_count_ok cb cnt (Hcb : cb = 1 \/ cb = 2 \/ cb = 4) :
  0 <= cnt < 8 -> cnt mod cb = 0 ->
  0 <= next_count cb cnt < 8 /\ next_count cb cnt mod cb = 0.
Proof.
  intros H Hm. unfold next_count. destruct (Z.geb_spec (cnt + cb) 8).
  - split; [lia|]. apply Z.mod_0_l. lia.
  - split; [lia|]. clear - Hcb Hm. destruct Hcb as [->|[->| ->]]; Z.div_mod_to_equations; lia.
Qed.

(** The first byte of what [emit] writes starts with the pending bits. *)
Lemma emit_first cb (Hcb : cb = 1 \/ cb = 2 \/ cb = 4) ds : forall acc cnt,
  0 <= cnt < 8 -> cnt mod cb = 0 -> 0 < cnt \/ ds <> [] ->
  Forall (fun d => Z.land d (Z.ones cb) = d) ds ->
  exists b0 W, emit cb acc cnt ds = b0 :: W
    /\ Z.land b0 0xff = b0
    /\ Z.shiftr b0 (8 - cnt) = Z.land acc (Z.ones cnt).
Proof.
  induction ds as [|d ds IH]; intros acc cnt Hc Hm Hne Hds.
  - destruct Hne as [Hpos|]; [|congruence]. cbn [emit].
    destruct (Z.gtb_spec cnt 0); [|lia].
    eexists _, _. split; [reflexivity|]. unfold u32.
    change 0xffffffff with (Z.ones 32). change 0xff with (Z.ones 8).
    split; Z.bitblast.
  - apply Forall_cons in Hds as [Hd Hds]. cbn [emit].
    destruct (Z.geb_spec (cnt + cb) 8) as [Hge|Hlt].
    + assert (Hcnt : cnt + cb = 8).
      { clear - Hcb Hm Hc Hge. destruct Hcb as [->|[->| ->]]; Z.div_mod_to_equations; lia. }
      eexists _, _. split; [reflexivity|]. unfold u32.
      change 0xffffffff with (Z.ones 32). change 0xff with (Z.ones 8).
      replace (8 - cnt) with cb by lia. rewrite <- Hd.
      split; Z.bitblast.
    + destruct (next_count_ok cb cnt Hcb Hc Hm) as [Hn Hnm]. unfold next_count in Hn, Hnm.
      destruct (Z.geb_spec (cnt + cb) 8); [lia|].
      destruct (IH (u32 (Z.lor (Z.shiftl acc cb) d)) (cnt + cb) Hn Hnm ltac:(lia) Hds)
        as (b0 & W & E & Hb & Hs).
      exists b0, W. split; [exact E|]. split; [exact Hb|].
      replace (Z.shiftr b0 (8 - cnt)) with (Z.shiftr (Z.shiftr b0 (8 - (cnt + cb))) cb)
        by (rewrite Z.shiftr_shiftr by lia; f_equal; lia).
      rewrite Hs. unfold u32. change 0xffffffff with (Z.ones 32). rewrite <- Hd.
      Z.bitblast.
Qed.

Ltac bits :=
  Z.bitblast;
  repeat match goal with
         | |- context [Z.testbit ?a ?l] => rewrite (Z.testbit_neg_r a l) by lia
         end;
  repeat match goal with
         | |- context [Z.testbit ?a ?i] => destruct (Z.testbit a i)
         end;
  try reflexivity.

(** One [read_channel] returns the channel [emit] was given next and
    stays in step with it. *)
Lemma read_channel_sync cb (Hcb : cb = 1 \/ cb = 2 \/ cb = 4)
    acc cnt d ds rb rc stream rest :
  0 <= cnt < 8 -> cnt mod cb = 0 ->
  Z.land d (Z.ones cb) = d ->
  Forall (fun d => Z.land d (Z.ones cb) = d) ds ->
  in_sync cb acc cnt (d :: ds) rb rc stream rest ->
  exists rb' rc' stream',
    read_channel cb (Z.ones cb) (rb, rc, stream)
    = Some (widen cb d, (rb', rc', stream'))
    /\ in_sync cb (u32 (Z.lor (Z.shiftl acc cb) d)) (next_count cb cnt) ds
         rb' rc' stream' rest.
Proof.
  intros Hc Hm Hd Hds Hsync. unfold in_sync in Hsync.
  set (acc' := u32 (Z.lor (Z.shiftl acc cb) d)).
  assert (Hcb8 : (cb <? 8) = true) by (apply Z.ltb_lt; lia).
  destruct (Z.eqb_spec cnt 0) as [->|Hnz].
  - destruct Hsync as [-> ->]. cbn [emit]. fold acc'.
    destruct (Z.geb_spec (0 + cb) 8) as [|_]; [lia|].
    destruct (emit_first cb Hcb ds acc' (0 + cb) ltac:(lia)
                ltac:(rewrite Z.add_0_l; apply Z.mod_same; lia) ltac:(lia) Hds)
      as (b0 & W & E & Hb & Hs).
    rewrite E. unfold read_channel. destruct (Z.ltb_spec 0 cb); [|lia].
    cbn [app read_byte mbind option_bind].
    change (u8 (0 + 8)) with 8. rewrite (u8_small (8 - cb)) by lia.
    assert (Ev : u8 (Z.land (Z.shiftr (u32 (Z.lor (Z.shiftl rb 8) b0)) (8 - cb)) (Z.ones cb)) = d).
    { replace (u8 (Z.land (Z.shiftr (u32 (Z.lor (Z.shiftl rb 8) b0)) (8 - cb)) (Z.ones cb)))
        with (Z.land (Z.shiftr (Z.land b0 0xff) (8 - (0 + cb))) (Z.ones cb)).
      - rewrite Hb, Hs. subst acc'. unfold u32. change 0xffffffff with (Z.ones 32).
        rewrite <- Hd. rewrite !Z.add_0_l. bits.
      - unfold u8, u32. change 0xffffffff with (Z.ones 32). change 0xff with (Z.ones 8).
        bits. }
    rewrite Ev. eexists _, _, _. split; [reflexivity|].
    unfold in_sync, next_count. destruct (Z.geb_spec (0 + cb) 8); [lia|].
    destruct (Z.eqb_spec (0 + cb) 0); [lia|].
    exists b0, W. split; [exact E|]. split; [|split; [lia|reflexivity]].
    rewrite <- Hb at 2. unfold u32. change 0xffffffff with (Z.ones 32).
    change 0xff with (Z.ones 8). bits.
  - destruct Hsync as (b0 & W & E & Hrb & -> & ->).
    assert (Hle : cnt + cb <= 8).
    { clear - Hcb Hm Hc. destruct Hcb as [->|[->| ->]]; Z.div_mod_to_equations; lia. }
    unfold read_channel. destruct (Z.ltb_spec (8 - cnt) cb); [lia|].
    cbn [mbind option_bind]. rewrite (u8_small (8 - cnt - cb)) by lia.
    cbn [emit] in E. fold acc' in E. unfold next_count.
    assert (Ev : forall k, 0 <= k -> k + cb <= 8 ->
      u8 (Z.land (Z.shiftr rb k) (Z.ones cb))
      = Z.land (Z.shiftr (Z.land rb 0xff) k) (Z.ones cb)).
    { intros k ? ?. unfold u8. change 0xff with (Z.ones 8). bits. }
    rewrite Ev by lia.
    destruct (Z.geb_spec (cnt + cb) 8) as [Hge|Hlt].
    + injection E as <- <-.
      assert (Ed : Z.land (Z.shiftr (Z.land rb 0xff) (8 - cnt - cb)) (Z.ones cb) = d).
      { replace (8 - cnt - cb) with 0 by lia. rewrite Hrb. subst acc'. unfold u32.
        change 0xffffffff with (Z.ones 32). change 0xff with (Z.ones 8).
        rewrite <- Hd. bits. }
      rewrite Ed. eexists _, _, _. split; [reflexivity|].
      unfold in_sync. cbn [Z.eqb]. split; [lia|reflexivity].
    + destruct (next_count_ok cb cnt Hcb Hc Hm) as [Hn Hnm]. unfold next_count in Hn, Hnm.
      destruct (Z.geb_spec (cnt + cb) 8); [lia|].
      destruct (emit_first cb Hcb ds acc' (cnt + cb) Hn Hnm ltac:(lia) Hds)
        as (b0' & W' & E' & Hb & Hs).
      rewrite E in E'. injection E' as <- <-.
      assert (Ed : Z.land (Z.shiftr (Z.land rb 0xff) (8 - cnt - cb)) (Z.ones cb) = d).
      { rewrite Hrb. replace (8 - cnt - cb) with (8 - (cnt + cb)) by lia.
        rewrite Hs. subst acc'. unfold u32. change 0xffffffff with (Z.ones 32).
        rewrite <- Hd. bits. }
      rewrite Ed. eexists _, _, _. split; [reflexivity|].
      unfold in_sync. destruct (Z.eqb_spec (cnt + cb) 0); [lia|].
      exists b0, W. split; [exact E|]. split; [exact Hrb|]. split; [lia|reflexivity].
Qed.

Lemma widen_kept cb b (Hcb : cb = 1 \/ cb = 2 \/ cb = 4) :
  0 <= b < 256 ->
  widen cb (Z.land (Z.shiftr b (8 - cb)) (Z.ones cb)) = kept cb b.
Proof.
  intros Hb.
  assert (Hall : forallb (fun cb => forallb (fun b =>
            widen cb (Z.land (Z.shiftr b (8 - cb)) (Z.ones cb)) =? kept cb b)
            (seqZ 0 256)) [1; 2; 4] = true) by (vm_compute; reflexivity).
  rewrite forallb_forall in Hall.
  assert (Hin : In cb [1; 2; 4]) by (cbn [In]; lia).
  specialize (Hall cb Hin). rewrite forallb_forall in Hall.
  apply Z.eqb_eq, Hall, list_elem_of_In, elem_of_seqZ. lia.
Qed.

Lemma color_digits_masked cb only_rgb colors : 0 <= cb ->
  Forall (fun d => Z.land d (Z.ones cb) = d)
    (concat (map (color_digits cb only_rgb) colors)).
Proof.
  intros Hcb. induction colors as [|c colors IH]; [constructor|].
  cbn [map concat]. apply Forall_app. split; [|exact IH].
  unfold color_digits. destruct only_rgb; cbn [app];
    repeat (apply Forall_cons; split; [apply digit_masked; lia|]); constructor.
Qed.

(** [read_palette_bits] in step with [emit] returns every colour with
    its channels cut to [cb] bits and widened again. *)
Lemma read_palette_bits_sync cb only_rgb (Hcb : cb = 1 \/ cb = 2 \/ cb = 4)
    rest colors : forall acc cnt rb rc stream,
  0 <= cnt < 8 -> cnt mod cb = 0 ->
  in_sync cb acc cnt (concat (map (color_digits cb only_rgb) colors)) rb rc stream rest ->
  read_palette_bits (length colors) cb (Z.ones cb) only_rgb (rb, rc, stream)
  = Some (map (kept_color cb only_rgb) colors, rest).
Proof.
  induction colors as [|c colors IH]; intros acc cnt rb rc stream Hc Hm Hsync.
  - cbn [length read_palette_bits map snd]. unfold in_sync in Hsync. cbn [map concat emit] in Hsync.
    destruct (Z.eqb_spec cnt 0) as [->|Hnz].
    + destruct Hsync as [_ ->]. reflexivity.
    + destruct Hsync as (b0 & W & E & _ & _ & ->).
      destruct (Z.gtb_spec cnt 0); [|lia]. injection E as _ <-. reflexivity.
  - cbn [length read_palette_bits map concat] in *.
    pose proof (color_digits_masked cb only_rgb colors ltac:(lia)) as Hmask.
    set (tail := concat (map (color_digits cb only_rgb) colors)) in *.
    assert (Hd : forall i, Z.land (Z.land (Z.shiftr (color_byte c i) (8 - cb)) (Z.ones cb))
                            (Z.ones cb)
                          = Z.land (Z.shiftr (color_byte c i) (8 - cb)) (Z.ones cb))
      by (intros i; apply digit_masked; lia).
    assert (Hbyte : forall i, 0 <= color_byte c i < 256).
    { intros i. unfold color_byte. change 0xff with (Z.ones 8).
      rewrite Z.land_ones by lia. apply Z.mod_pos_bound. lia. }
    unfold color_digits in Hsync.
    set (d i := Z.land (Z.shiftr (color_byte c i) (8 - cb)) (Z.ones cb)) in *.
    destruct (next_count_ok cb cnt Hcb Hc Hm) as [Hc1 Hm1].
    destruct (next_count_ok cb _ Hcb Hc1 Hm1) as [Hc2 Hm2].
    destruct (next_count_ok cb _ Hcb Hc2 Hm2) as [Hc3 Hm3].
    destruct (next_count_ok cb _ Hcb Hc3 Hm3) as [Hc4 Hm4].
    destruct only_rgb; cbn [app] in Hsync.
    + destruct (read_channel_sync cb Hcb _ _ (d 0) (d 1 :: d 2 :: tail) _ _ _ _ Hc Hm (Hd 0)
                  ltac:(repeat (apply Forall_cons; split; [apply Hd|]); exact Hmask) Hsync)
        as (rb1 & rc1 & s1 & R1 & S1).
      destruct (read_channel_sync cb Hcb _ _ (d 1) (d 2 :: tail) _ _ _ _ Hc1 Hm1 (Hd 1)
                  ltac:(repeat (apply Forall_cons; split; [apply Hd|]); exact Hmask) S1)
        as (rb2 & rc2 & s2 & R2 & S2).
      destruct (read_channel_sync cb Hcb _ _ (d 2) tail _ _ _ _ Hc2 Hm2 (Hd 2) Hmask S2)
        as (rb3 & rc3 & s3 & R3 & S3).
      rewrite R1. cbn [mbind option_bind]. rewrite R2. cbn [mbind option_bind].
      rewrite R3. cbn [mbind option_bind].
      rewrite (IH _ _ _ _ _ Hc3 Hm3 S3). cbn [mbind option_bind].
      unfold kept_color, d. rewrite !widen_kept by auto. reflexivity.
    + destruct (read_channel_sync cb Hcb _ _ (d 0) (d 1 :: d 2 :: d 3 :: tail) _ _ _ _ Hc Hm (Hd 0)
                  ltac:(repeat (apply Forall_cons; split; [apply Hd|]); exact Hmask) Hsync)
        as (rb1 & rc1 & s1 & R1 & S1).
      destruct (read_channel_sync cb Hcb _ _ (d 1) (d 2 :: d 3 :: tail) _ _ _ _ Hc1 Hm1 (Hd 1)
                  ltac:(repeat (apply Forall_cons; split; [apply Hd|]); exact Hmask) S1)
        as (rb2 & rc2 & s2 & R2 & S2).
      destruct (read_channel_sync cb Hcb _ _ (d 2) (d 3 :: tail) _ _ _ _ Hc2 Hm2 (Hd 2)
                  ltac:(repeat (apply Forall_cons; split; [apply Hd|]); exact Hmask) S2)
        as (rb3 & rc3 & s3 & R3 & S3).
      destruct (read_channel_sync cb Hcb _ _ (d 3) tail _ _ _ _ Hc3 Hm3 (Hd 3) Hmask S3)
        as (rb4 & rc4 & s4 & R4 & S4).
      rewrite R1. cbn [mbind option_bind]. rewrite R2. cbn [mbind option_bind].
      rewrite R3. cbn [mbind option_bind]. rewrite R4. cbn [mbind option_bind].
      rewrite (IH _ _ _ _ _ Hc4 Hm4 S4). cbn [mbind option_bind].
      unfold kept_color, d. rewrite !widen_kept by auto. reflexivity.
Qed.

Lemma deserialize_fields_low_bits p data rest :
  1 <= width p <= 65535 -> 1 <= height p <= 65535 ->
  Z.of_nat (length data) = bytes_size p ->
  0 < bytes_size p < 2 ^ 32 ->
  0 <= palette_size p < 256 ->
  length (palette p) = 256%nat ->
  channel_bits p <> pep_8bit -> serialize_is_bitmap p = false ->
  pep_deserialize (Some (serialize_fields p data ++ rest))
  = Some (mk_pep (Some data) (bytes_size p)
            ((width p - 1) mod 4096 + 1) ((height p - 1) mod 4096 + 1) (format p)
            (map (kept_color (2 ^ channel_bits_val (channel_bits p))
                    (serialize_only_rgb p false))
               (take (Z.to_nat (palette_count_of (palette_size p))) (palette p))
             ++ replicate (256 - Z.to_nat (palette_count_of (palette_size p))) 0)
            (palette_size p) (channel_bits p)).
Proof.
  intros Hw Hh Hlen Hsize Hps Hpal Hcb Hbm.
  unfold pep_deserialize, serialize_fields.
  set (w := u16 (width p - 1)). set (h := u16 (height p - 1)).
  assert (Ew : w = width p - 1) by (apply u16_small; lia).
  assert (Eh : h = height p - 1) by (apply u16_small; lia).
  set (is_small := (w <=? 255) && (h <=? 255)).
  rewrite Hbm.
  set (only_rgb := serialize_only_rgb p false).
  destruct (flags_decode p is_small only_rgb false) as (F1 & F2 & F3 & F4 & F5).
  cbn zeta in F1, F2, F3, F4, F5.
  cbn [app read_byte mbind option_bind]. rewrite F1, F2, F3, F4, F5.
  rewrite <- !app_assoc.
  subst is_small. rewrite read_dims_serialize_mod by lia.
  cbn [mbind option_bind].
  rewrite (read_write_size 5).
  2-4: rewrite ?u32_small by lia.
  2-4: change (7 * (Z.of_nat 5 + 1)) with 42.
  2-4: change (Z.of_nat 5) with 5.
  2-4: lia.
  cbn [mbind option_bind].
  rewrite Z.lor_0_l, Z.shiftl_0_r, (u32_small (bytes_size p)), u32_small by lia.
  rewrite (firstn_all2 data) by lia.
  assert (Hcount : 0 < palette_count_of (palette_size p) <= 256)
    by (unfold palette_count_of; destruct (Z.eqb_spec (palette_size p) 0); lia).
  assert (Hdata : forall colors ps,
    (if Z.of_nat (length (data ++ rest)) <? bytes_size p then None
     else Some (mk_pep (Some (take (Z.to_nat (bytes_size p)) (data ++ rest)))
                  (bytes_size p) (u16 (w mod 4096 + 1)) (u16 (h mod 4096 + 1)) (format p)
                  (colors ++ replicate (256 - length colors) 0) ps (channel_bits p)))
    = Some (mk_pep (Some data) (bytes_size p)
              ((width p - 1) mod 4096 + 1) ((height p - 1) mod 4096 + 1) (format p)
              (colors ++ replicate (256 - length colors) 0) ps (channel_bits p))).
  { intros colors ps. rewrite length_app.
    destruct (Z.ltb_spec (Z.of_nat (length data + length rest)) (bytes_size p)); [lia|].
    rewrite take_app_length' by lia.
    pose proof (Z.mod_pos_bound w 4096 ltac:(lia)).
    pose proof (Z.mod_pos_bound h 4096 ltac:(lia)).
    rewrite !u16_small by lia. rewrite Ew, Eh. reflexivity. }
  unfold read_palette. clear F1 F2 F3 F4 F5.
  cbn [bool_val Z.eqb negb app read_byte mbind option_bind].
  rewrite u8_small by lia.
  unfold serialize_palette.
  set (colors := take (Z.to_nat (palette_count_of (palette_size p))) (palette p)).
  assert (Hcl : length colors = Z.to_nat (palette_count_of (palette_size p))).
  { subst colors. rewrite length_take. lia. }
  set (cb := 2 ^ channel_bits_val (channel_bits p)).
  assert (Hcbs : cb = 1 \/ cb = 2 \/ cb = 4).
  { subst cb. destruct (channel_bits p); cbn; auto. congruence. }
  assert (E8 : u8 (Z.shiftl 1 (channel_bits_val (channel_bits p))) = cb).
  { subst cb. destruct (channel_bits p); reflexivity. }
  assert (E16 : u16 (Z.shiftl 1 (channel_bits_val (channel_bits p))) = cb).
  { subst cb. destruct (channel_bits p); reflexivity. }
  rewrite E8, E16.
  assert (Em : u8 (Z.shiftl 1 cb - 1) = Z.ones cb)
    by (destruct Hcbs as [->|[->| ->]]; reflexivity).
  assert (Es : u8 (8 - cb) = 8 - cb) by (apply u8_small; lia).
  rewrite Em, Es.
  destruct (Z.eqb_spec cb 8); [lia|].
  rewrite write_palette_bits_emit by (auto; try lia; apply Z.mod_0_l; lia).
  rewrite <- Hcl, <- ?app_assoc.
  rewrite (read_palette_bits_sync cb only_rgb Hcbs
             (data ++ rest) colors 0 0 0 0 _ ltac:(lia) ltac:(apply Z.mod_0_l; lia)).
  - cbn [mbind option_bind]. rewrite <- (length_map (kept_color cb only_rgb) colors).
    rewrite Hdata. reflexivity.
  - unfold in_sync. cbn [Z.eqb]. split; reflexivity.
Qed.

Lemma serialize_deserialize_low_bits p data rest :
  1 <= width p <= 65535 -> 1 <= height p <= 65535 ->
  bytes p = Some data -> Z.of_nat (length data) = bytes_size p ->
  0 < bytes_size p < 2 ^ 31 ->
  0 <= palette_size p < 256 -> length (palette p) = 256%nat ->
  channel_bits p <> pep_8bit -> serialize_is_bitmap p = false ->
  exists buf out_size,
    pep_serialize (Some p) = (Some buf, out_size)
    /\ pep_deserialize (Some (take (Z.to_nat out_size) buf ++ rest))
       = Some (mk_pep (Some data) (bytes_size p)
                 ((width p - 1) mod 4096 + 1) ((height p - 1) mod 4096 + 1) (format p)
                 (map (kept_color (2 ^ channel_bits_val (channel_bits p))
                         (serialize_only_rgb p false))
                    (take (Z.to_nat (palette_count_of (palette_size p))) (palette p))
                  ++ replicate (256 - Z.to_nat (palette_count_of (palette_size p))) 0)
                 (palette_size p) (channel_bits p)).
Proof.
  intros Hw Hh Hb Hlen Hsize Hps Hpal Hcb Hbm.
  unfold pep_serialize. rewrite Hb.
  destruct (Z.eqb_spec (width p) 0); [lia|].
  destruct (Z.eqb_spec (height p) 0); [lia|].
  destruct (Z.eqb_spec (bytes_size p) 0); [lia|]. cbn [orb].
  eexists _, _. split; [reflexivity|].
  pose proof (serialize_fields_length p data Hps Hlen) as Hfl.
  rewrite u32_small, Nat2Z.id by lia.
  rewrite take_app_length.
  apply deserialize_fields_low_bits; try assumption; lia.
Qed.

(** X24. Below 8 bits per channel the palette does not survive storing,
    unless the image takes the bitmap path.  For an image with data,
    dimensions from 1 to 65535, a size below 2^31, [channel_bits] below
    [pep_8bit] and a palette that is not the two-entry black and white
    one ([serialize_is_bitmap] false): [pep_deserialize] of what
    [pep_serialize] writes, followed by any bytes, returns every palette
    entry with each channel cut to its top 1, 2 or 4 bits and widened
    again ([kept]), the fourth channel being 255 when every entry had 255
    there.  The compressed bytes, the format, the channel bits and the
    sizes come back as they were, the width and height modulo 4096. *)
Theorem low_bit_palette_stored p data rest :
  1 <= width p <= 65535 -> 1 <= height p <= 65535 ->
  bytes p = Some data -> Z.of_nat (length data) = bytes_size p ->
  0 < bytes_size p < 2 ^ 31 ->
  0 <= palette_size p < 256 -> length (palette p) = 256%nat ->
  channel_bits p <> pep_8bit -> serialize_is_bitmap p = false ->
  exists buf out_size,
    pep_serialize (Some p) = (Some buf, out_size)
    /\ pep_deserialize (Some (take (Z.to_nat out_size) buf ++ rest))
       = Some (mk_pep (Some data) (bytes_size p)
                 ((width p - 1) mod 4096 + 1) ((height p - 1) mod 4096 + 1) (format p)
                 (map (kept_color (2 ^ channel_bits_val (channel_bits p))
                         (serialize_only_rgb p false))
                    (take (Z.to_nat (palette_count_of (palette_size p))) (palette p))
                  ++ replicate (256 - Z.to_nat (palette_count_of (palette_size p))) 0)
                 (palette_size p) (channel_bits p)).
Proof.
  intros Hw Hh Hb Hlen Hsize Hps Hpal Hcb Hbm.
  exact (serialize_deserialize_low_bits p data rest Hw Hh Hb Hlen Hsize Hps Hpal Hcb Hbm).
Qed.

Lemma low_bit_palette_stored_witness :
  let p := mk_pep (Some [1; 254; 1; 254]) 4 2 1 pep_rgba
             (0x12345678 :: 0xfe3f5a7b :: replicate 254 0) 2 pep_2bit in
  exists buf out_size,
    pep_serialize (Some p) = (Some buf, out_size)
    /\ pep_deserialize (Some (take (Z.to_nat out_size) buf ++ [9; 9]))
       = Some (mk_pep (Some [1; 254; 1; 254]) (bytes_size p)
                 ((width p - 1) mod 4096 + 1) ((height p - 1) mod 4096 + 1) (format p)
                 (map (kept_color (2 ^ channel_bits_val (channel_bits p))
                         (serialize_only_rgb p false))
                    (take (Z.to_nat (palette_count_of (palette_size p))) (palette p))
                  ++ replicate (256 - Z.to_nat (palette_count_of (palette_size p))) 0)
                 (palette_size p) (channel_bits p)).
Proof.
  intros p.
  apply (low_bit_palette_stored p [1; 254; 1; 254] [9; 9]).
  - cbn. lia.
  - cbn. lia.
  - reflexivity.
  - reflexivity.
  - cbn. lia.
  - cbn. lia.
  - reflexivity.
  - discriminate.
  - reflexivity.
Defined.

(** ** The allocation of pep_serialize *)

Lemma count_size_bytes_length fuel : forall n k,
  0 <= k -> k + Z.of_nat fuel + 1 < 256 ->
  count_size_bytes fuel n k = k + Z.of_nat (length (write_size fuel n)).
Proof.
  induction fuel as [|fuel IH]; intros n k Hk Hb; cbn [count_size_bytes write_size].
  - cbn [length]. rewrite u8_small; lia.
  - destruct (n >=? 128).
    + rewrite (u8_small (k + 1)) by lia. rewrite IH by lia. cbn [length]. lia.
    + cbn [length]. rewrite u8_small; lia.
Qed.

Lemma write_palette8_exact colors only_rgb :
  Z.of_nat (length (write_palette8 colors only_rgb))
  = Z.of_nat (length colors) * (if only_rgb then 3 else 4).
Proof.
  induction colors as [|c colors IH]; cbn [write_palette8 length]; [lia|].
  destruct only_rgb; cbn [app length] in *; lia.
Qed.

Lemma emit_length cb (Hcb : cb = 1 \/ cb = 2 \/ cb = 4) ds : forall acc cnt,
  0 <= cnt < 8 -> cnt mod cb = 0 ->
  Z.of_nat (length (emit cb acc cnt ds))
  = (cnt + cb * Z.of_nat (length ds) + 7) / 8.
Proof.
  induction ds as [|d ds IH]; intros acc cnt Hc Hm; cbn [emit length].
  - destruct (Z.gtb_spec cnt 0); cbn [length]; Z.div_mod_to_equations; lia.
  - destruct (next_count_ok cb cnt Hcb Hc Hm) as [Hn Hnm]. unfold next_count in Hn, Hnm.
    destruct (Z.geb_spec (cnt + cb) 8) as [Hge|Hlt].
    + assert (Hcnt : cnt + cb = 8).
      { clear - Hcb Hm Hc Hge. destruct Hcb as [->|[->| ->]]; Z.div_mod_to_equations; lia. }
      cbn [length]. rewrite !Nat2Z.inj_succ, IH by assumption.
      replace (cnt + cb * Z.succ (Z.of_nat (length ds)) + 7)
        with (0 + cb * Z.of_nat (length ds) + 7 + 1 * 8) by lia.
      rewrite Z.div_add by lia. lia.
    + rewrite IH by assumption. rewrite Nat2Z.inj_succ. f_equal. lia.
Qed.

Lemma color_digits_length cb only_rgb colors :
  Z.of_nat (length (concat (map (color_digits cb only_rgb) colors)))
  = (if only_rgb then 3 else 4) * Z.of_nat (length colors).
Proof.
  induction colors as [|c colors IH]; cbn [map concat length]; [lia|].
  rewrite length_app. unfold color_digits at 1. destruct only_rgb; cbn [app length] in *; lia.
Qed.

(** X25. [pep_serialize] stays inside the buffer it allocates: the size
    computed before anything is written is three more than the size it
    reports, so the closing zero is the last byte but two of the
    allocation, at every channel width. *)
Theorem serialize_fills_allocation p data :
  1 <= width p <= 65535 -> 1 <= height p <= 65535 ->
  bytes p = Some data -> Z.of_nat (length data) = bytes_size p ->
  0 < bytes_size p < 2 ^ 31 ->
  0 <= palette_size p < 256 -> length (palette p) = 256%nat ->
  exists buf out_size,
    pep_serialize (Some p) = (Some buf, out_size)
    /\ out_size = serialize_total_size p - 3
    /\ Z.of_nat (length buf) = serialize_total_size p - 2.
Proof.
  intros Hw Hh Hb Hlen Hsize Hps Hpal.
  unfold pep_serialize. rewrite Hb.
  destruct (Z.eqb_spec (width p) 0); [lia|].
  destruct (Z.eqb_spec (height p) 0); [lia|].
  destruct (Z.eqb_spec (bytes_size p) 0); [lia|]. cbn [orb].
  eexists _, _. split; [reflexivity|].
  pose proof (serialize_fields_length p data Hps Hlen) as Hfl.
  rewrite u32_small by lia. rewrite length_app. cbn [length].
  assert (Hfields : Z.of_nat (length (serialize_fields p data)) = serialize_total_size p - 3);
    [|lia].
  clear Hfl. unfold serialize_fields, serialize_total_size.
  set (is_small := (u16 (width p - 1) <=? 255) && (u16 (height p - 1) <=? 255)).
  set (is_bitmap := serialize_is_bitmap p).
  set (only_rgb := serialize_only_rgb p is_bitmap).
  rewrite !length_app. cbn [length]. rewrite firstn_all2 by lia.
  assert (Hdims : Z.of_nat (length (serialize_dims (u16 (width p - 1)) (u16 (height p - 1)) is_small))
                  = if is_small then 2 else 3)
    by (unfold serialize_dims; destruct is_small; reflexivity).
  pose proof (count_size_bytes_length 5 (u32 (bytes_size p)) 0 ltac:(lia) ltac:(cbn; lia)) as Hsz.
  pose proof (write_size_length 5 (u32 (bytes_size p))) as Hszb.
  assert (Hcount : 0 < palette_count_of (palette_size p) <= 256)
    by (unfold palette_count_of; destruct (Z.eqb_spec (palette_size p) 0); lia).
  rewrite (u16_small (palette_count_of _)) by lia.
  set (count := palette_count_of (palette_size p)) in *.
  assert (Hpalette :
    Z.of_nat (length (if is_bitmap then [] else u8 (palette_size p) :: serialize_palette p only_rgb))
    = (if is_bitmap then 0 else 1)
      + (if is_bitmap then 0
         else if u16 (Z.shiftl 1 (channel_bits_val (channel_bits p))) =? 8
              then u16 (count * (if only_rgb then 3 else 4))
              else u16 (Z.shiftr (u16 (Z.shiftl 1 (channel_bits_val (channel_bits p)))
                                  * (if only_rgb then 3 else 4) * count + 7) 3))).
  { destruct is_bitmap; [reflexivity|]. cbn [length]. unfold serialize_palette. fold count.
    set (colors := take (Z.to_nat count) (palette p)).
    assert (Hcl : Z.of_nat (length colors) = count)
      by (subst colors; rewrite length_take; lia).
    set (cb := u16 (Z.shiftl 1 (channel_bits_val (channel_bits p)))).
    rewrite Nat2Z.inj_succ.
    destruct (Z.eqb_spec cb 8) as [E8|N8].
    - rewrite write_palette8_exact, Hcl, u16_small by (destruct only_rgb; lia). lia.
    - assert (Hcbs : cb = 1 \/ cb = 2 \/ cb = 4).
      { subst cb.
        destruct (channel_bits p);
          [left|right; left|right; right|exfalso; apply N8]; reflexivity. }
      assert (Em : u8 (Z.shiftl 1 cb - 1) = Z.ones cb)
        by (destruct Hcbs as [->|[->| ->]]; reflexivity).
      rewrite Em, (u8_small (8 - cb)) by lia.
      rewrite write_palette_bits_emit by (auto; try lia; apply Z.mod_0_l; lia).
      rewrite emit_length by (auto; try lia; apply Z.mod_0_l; lia).
      rewrite color_digits_length, Hcl, Z.shiftr_div_pow2 by lia.
      change (2 ^ 3) with 8.
      replace (0 + cb * ((if only_rgb then 3 else 4) * count) + 7)
        with (cb * (if only_rgb then 3 else 4) * count + 7) by lia.
      rewrite u16_small; [lia|].
      assert (0 <= cb * (if only_rgb then 3 else 4) * count <= 4096) by (destruct only_rgb; nia).
      Z.div_mod_to_equations; lia. }
  rewrite Z.add_0_l in Hsz.
  assert (Hrange : 0 <= Z.of_nat (length (if is_bitmap then []
                     else u8 (palette_size p) :: serialize_palette p only_rgb)) <= 8194).
  { split; [lia|]. destruct is_bitmap; cbn [length]; [lia|].
    pose proof (serialize_palette_length p only_rgb Hps). lia. }
  rewrite Hsz. unfold u64. change 0xffffffffffffffff with (Z.ones 64).
  rewrite Hpalette in Hrange.
  rewrite !Nat2Z.inj_add, Hdims, Hlen, Hpalette.
  change (Z.of_nat 1) with 1.
  set (P := if is_bitmap then 0 else if _ =? 8 then _ else _) in *.
  set (B := if is_bitmap then 0 else 1) in *.
  set (D := if is_small then 2 else 3).
  assert (HD : 2 <= D <= 3) by (subst D; destruct is_small; lia).
  rewrite Z.land_ones, Z.mod_small by lia. lia.
Qed.

Lemma serialize_fills_allocation_witness :
  let p := mk_pep (Some [1; 254; 1; 254]) 4 300 1 pep_rgba
             (0x12345678 :: 0xfe3f5a7b :: 0xff000000 :: replicate 253 0) 3 pep_2bit in
  exists buf out_size,
    pep_serialize (Some p) = (Some buf, out_size)
    /\ out_size = serialize_total_size p - 3
    /\ Z.of_nat (length buf) = serialize_total_size p - 2.
Proof.
  intros p.
  apply (serialize_fills_allocation p [1; 254; 1; 254]).
  - cbn. lia.
  - cbn. lia.
  - reflexivity.
  - reflexivity.
  - cbn. lia.
  - cbn. lia.
  - reflexivity.
Defined.

(** ** Pixels through a palette below 8 bits per channel *)

Lemma forallb_same_elements (P : Z -> bool) (l k : list Z) :
  (forall x, x ∈ l -> x ∈ k) -> (forall x, x ∈ k -> x ∈ l) ->
  forallb P l = forallb P k.
Proof.
  intros Hlk Hkl. apply eq_true_iff_eq. rewrite !forallb_forall.
  split; intros H x Hx; apply H; apply list_elem_of_In; apply list_elem_of_In in Hx; auto.
Qed.

Lemma compress_store_load_low_bits pixels w h f cb static_palette rest st :
  1 <= w <= 4096 -> 1 <= h <= 4096 ->
  length pixels = Z.to_nat (w * h) ->
  Forall (fun c => 0 <= c < 2 ^ 32) pixels ->
  (length (remove_dups pixels) <= 255)%nat ->
  length (remove_dups pixels) <> 2%nat ->
  (w * h) mod indices_per_byte_of (Z.of_nat (length (remove_dups pixels))) = 0 ->
  compress_model pixels w h (S (Z.to_nat (w * h))) = Some st ->
  cb <> pep_8bit ->
  exists p buf out_size q,
    pep_compress (Some pixels) w h f cb = Some p
    /\ pep_serialize (Some p) = (Some buf, out_size)
    /\ pep_deserialize (Some (take (Z.to_nat out_size) buf ++ rest)) = Some q
    /\ pep_decompress static_palette (Some q) f 0 0
       = Some (Some (map Some
           (map (kept_color (2 ^ channel_bits_val cb)
                   (forallb (fun c => color_byte c 3 =? 0xff) pixels)) pixels))).
Proof.
  intros Hw Hh Hlen Hpx Hfew Hnot2 Hmod Hmodel Hcb.
  destruct (compress_decompress_repainted pixels w h f cb static_palette f 0 0 st
              ltac:(lia) ltac:(lia) Hlen Hmodel) as (p & Hc & Hrep).
  destruct (compress_valid pixels w h f cb p Hw Hh Hpx Hc)
    as (data & (Vw & Vh & Vb & Vlen & Vsize & Vps & Vpal & Vrange) & Ew & Eh & Ef & Ecb).
  assert (Harea : 1 <= w * h < 2 ^ 32) by nia.
  assert (Hread : pixels_read pixels w h = pixels).
  { unfold pixels_read. rewrite u32_small by lia. apply take_ge. lia. }
  pose proof (compress_palette_holds pixels w h) as Hholds. rewrite Hread in Hholds.
  destruct (first_colors_all pixels Hfew) as [Hall Hcount].
  assert (Hp : palette p = fst (compress_palette pixels w h)
               /\ palette_size p = snd (compress_palette pixels w h)).
  { revert Hc. unfold pep_compress. rewrite u32_small by lia.
    destruct (Z.eqb_spec (w * h) 0); [lia|].
    destruct (compress_palette pixels w h) as [pal size].
    destruct (compress_state _ _ _ _) as [s|]; [|discriminate].
    rewrite bind_some. intros [= <-]. split; reflexivity. }
  destruct Hp as (Epal & Esize). rewrite <- Epal, <- Esize in Hholds.
  set (seen := first_colors 255 [] pixels) in *.
  destruct Hholds as (Es & Hl255 & Ep).
  assert (Hne : pixels <> []) by (intros ->; cbn [length] in Hlen; lia).
  assert (Hseen1 : (1 <= length seen)%nat).
  { rewrite Hcount. destruct pixels as [|c px]; [contradiction|].
    assert (Hin : c ∈ remove_dups (c :: px)) by (apply elem_of_remove_dups; left).
    destruct (remove_dups (c :: px)); [inversion Hin|cbn [length]; lia]. }
  assert (Ecnt : palette_count_of (palette_size p) = Z.of_nat (length seen)).
  { unfold palette_count_of. destruct (Z.eqb_spec (palette_size p) 0); lia. }
  assert (Hbm : serialize_is_bitmap p = false).
  { unfold serialize_is_bitmap. rewrite Ecnt.
    destruct (Z.eqb_spec (Z.of_nat (length seen)) 2); [lia|reflexivity]. }
  assert (Hcbp : channel_bits p <> pep_8bit) by (rewrite Ecb; exact Hcb).
  destruct (serialize_deserialize_low_bits p data rest
              ltac:(lia) ltac:(lia) Vb Vlen Vsize Vps Vpal Hcbp Hbm)
    as (buf & n & Hs & Hq).
  eexists p, buf, n, _. split; [exact Hc|]. split; [exact Hs|]. split; [exact Hq|].
  rewrite Hrep; cbn [bytes bytes_size width height palette_size]; try reflexivity.
  2: { symmetry; exact Vb. }
  2: { rewrite Ew, Z.mod_small; lia. }
  2: { rewrite Eh, Z.mod_small; lia. }
  do 2 f_equal. unfold repainted_pixels.
  rewrite Es, <- Hcount in *.
  set (ipb := indices_per_byte_of (Z.of_nat (length seen))) in *.
  rewrite Hlen, Z2Nat.id, Hmod by lia.
  change (Z.to_nat 0) with 0%nat. cbn [replicate]. rewrite app_nil_r.
  assert (Hipb : 1 <= ipb).
  { subst ipb. destruct (packing_params (Z.of_nat (length seen))) as (_ & H1 & _); lia. }
  assert (Hwhole : ipb * (w * h / ipb) = w * h).
  { pose proof (Z.div_mod (w * h) ipb ltac:(lia)). lia. }
  rewrite Hwhole, (take_ge pixels) by lia.
  f_equal. apply map_ext_in. intros x Hx. apply list_elem_of_In in Hx.
  destruct (index_search_holds (palette p) (Z.of_nat (length seen)) seen x
              ltac:(repeat split; [lia|exact Ep])) as [Hin _].
  destruct (Hin (Hall x Hx)) as (i & Hi & Eidx & Hlook).
  rewrite Eidx. unfold paint. cbn [format]. rewrite Ef, reformat_same.
  change (0 =? 0) with true. cbv iota.
  unfold decompress_palette. change (0 =? 0) with true. cbv iota.
  cbn [palette palette_size]. rewrite Ecnt, !Nat2Z.id.
  unfold get. rewrite Nat2Z.id.
  assert (Etake : take (length seen) (palette p) = seen).
  { rewrite Ep. rewrite take_app_length. reflexivity. }
  rewrite Etake.
  rewrite lookup_app_l by (rewrite length_take, length_app, length_map; lia).
  rewrite lookup_take_lt by lia.
  rewrite lookup_app_l by (rewrite length_map; lia).
  rewrite list_lookup_fmap, Hlook. cbn [fmap option_map option_fmap].
  rewrite Ecb. unfold serialize_only_rgb. rewrite ?Es, Ecnt, Nat2Z.id, Etake.
  cbn [default from_option]. unfold id.
  rewrite (forallb_same_elements _ seen pixels); [reflexivity| |exact Hall].
  intros c Hcin.
  assert (HF : Forall (fun c => c ∈ pixels) seen).
  { apply first_colors_Forall; [constructor|]. apply Forall_forall. auto. }
  rewrite Forall_forall in HF. apply HF. exact Hcin.
Qed.

(** X26. Stored below 8 bits per channel, an image comes back with every
    pixel's channels cut to their top 1, 2 or 4 bits and widened again:
    [pep_compress], [pep_serialize], [pep_deserialize] and
    [pep_decompress] return [kept_color] of each pixel, for an image of
    at most 4096 by 4096 pixels and 255 colours (not exactly two), whole
    groups and well-formed probabilities. *)
Theorem low_bit_round_trip pixels w h f cb static_palette rest :
  1 <= w <= 4096 -> 1 <= h <= 4096 ->
  length pixels = Z.to_nat (w * h) ->
  Forall (fun c => 0 <= c < 2 ^ 32) pixels ->
  (length (remove_dups pixels) <= 255)%nat ->
  length (remove_dups pixels) <> 2%nat ->
  (w * h) mod indices_per_byte_of (Z.of_nat (length (remove_dups pixels))) = 0 ->
  probabilities_ok pixels w h = true ->
  cb <> pep_8bit ->
  exists p buf out_size q,
    pep_compress (Some pixels) w h f cb = Some p
    /\ pep_serialize (Some p) = (Some buf, out_size)
    /\ pep_deserialize (Some (take (Z.to_nat out_size) buf ++ rest)) = Some q
    /\ pep_decompress static_palette (Some q) f 0 0
       = Some (Some (map Some
           (map (kept_color (2 ^ channel_bits_val cb)
                   (forallb (fun c => color_byte c 3 =? 0xff) pixels)) pixels))).
Proof.
  intros Hw Hh Hlen Hpx Hfew Hnot2 Hmod Hok Hcb. unfold probabilities_ok in Hok.
  destruct (compress_model pixels w h (S (Z.to_nat (w * h)))) as [st|] eqn:Hmodel;
    [|discriminate Hok].
  exact (compress_store_load_low_bits pixels w h f cb static_palette rest st
           Hw Hh Hlen Hpx Hfew Hnot2 Hmod Hmodel Hcb).
Qed.

Lemma low_bit_round_trip_witness :
  exists p buf out_size q,
    pep_compress (Some (speckle 13 64)) 4 16 pep_bgra pep_4bit = Some p
    /\ pep_serialize (Some p) = (Some buf, out_size)
    /\ pep_deserialize (Some (take (Z.to_nat out_size) buf ++ [0])) = Some q
    /\ pep_decompress (replicate 256 0) (Some q) pep_bgra 0 0
       = Some (Some (map Some
           (map (kept_color (2 ^ channel_bits_val pep_4bit)
                   (forallb (fun c => color_byte c 3 =? 0xff) (speckle 13 64)))
              (speckle 13 64)))).
Proof.
  apply low_bit_round_trip.
  - lia.
  - lia.
  - vm_compute. reflexivity.
  - apply (bool_decide_unpack _). vm_compute. exact I.
  - vm_compute. lia.
  - vm_compute. lia.
  - vm_compute. reflexivity.
  - vm_compute. reflexivity.
  - discriminate.
Defined.

